(* ===== verification/_CoqProject ===== *)
-Q . S2P
Prelude.v
GoStd.v
GoTime.v
Sha256.v
Memory.v
Store.v
MemStore.v
Contract.v
LostUpdate.v
Search.v
Neutralise.v
Json.v
JsonRead.v
Codec.v
Frontmatter.v
Records.v
Fsys.v
FileJournal.v
FileState.v
FileStore.v
FileLaws.v
FileFaults.v
Reconcile.v
Recovery.v
Lock.v
Sql.v
Sqlite.v
SqliteOpen.v
SqliteLaws.v
SqliteSchema.v
SqliteSearch.v
Storetest.v
StoretestLaws.v
Concurrent.v
Manifest.v
Render.v
Calls.v
Tools.v
ToolLaws.v
ToolSet.v
ToolNames.v
