(* ===== verification/Prelude.v ===== *)
(** * agentmemory: a verified model of the memory library

    agentmemory gives an LLM agent a memory that lasts between sessions: named
    entries in scopes, kept in a store with a journal of every change,
    rendered into a block of the model's context and edited through tools.
    This development translates the library into Rocq definitions and proves
    what its callers rely on.

    ** The parts, and the files that model them

    - The data and the rules every store shares, [src/memory.go]: [Memory]
      has [Entry], [Change], [CheckEntry], [MetaHash] and the put options.
      [Store] states the [Store] interface as a class.  A journal is a list
      of full states, so what a store holds is what replaying its journal
      gives ([replay]); [spec_put] and [spec_forget] append one record or
      refuse, and the class's laws make an implementation one of these.
      [Contract] proves the interface's promises from the laws alone.
    - The in-memory store, [src/memstore.go]: [MemStore], its nested maps and
      its journal, one step per call since each runs under one mutex.
    - The file store, [src/filestore/]: [Fsys] is the directory and the
      system calls that change it (fsys.go), any of which may fail;
      [Frontmatter] the entry files (frontmatter.go); [FileJournal] the
      journal's lines, their damage and reading from the tail (journal.go);
      [FileState] the cursor kept beside the journal (state.go); [FileStore]
      the operations, [Reconcile] of outside edits included (filestore.go).
      [FileLaws] proves it an implementation of the contract when the system
      calls succeed, [FileFaults] says what is left when they do not,
      [Reconcile] what becomes of a directory a person edited, and
      [Recovery] what a run of it makes of a directory after a crash.
      [Lock] is the lock between processes (lock.go) as a step relation.
      [Records] has what the two stores on disk need of a record: that its
      texts survive being written.
    - The SQLite store, [src/sqlite/sqlite.go]: [Sql] is a database as its
      tables, with statements and transactions any of which may fail;
      [Sqlite] the operations and the search, [SqliteOpen] the schema, the
      migration from an earlier release's tables and the retries of opening.
      [SqliteLaws] proves the contract and what failures leave,
      [SqliteSchema] what opening does, [SqliteSearch] what searching finds.
    - What is written in JSON: [Json] writes it and [JsonRead] scans it as
      encoding/json does, byte for byte; [Codec] has the field tags of the
      records.
    - [LostUpdates], the audit of a journal window, [src/lostupdate.go]:
      [LostUpdate].
    - The reference search, [src/search.go]: [Search].
    - The block, [src/render.go]: [Neutralise] rewrites stored text so that
      it cannot pose as the block's own headings, [Manifest] records what a
      block held, whole or as a delta, in the bytes it writes and the bytes
      it reads, and [Render] packs the block.
    - The conformance suite, [src/storetest/storetest.go]: [Storetest] has
      its tests but one as programs of calls and checks, [StoretestLaws] that
      a store of the interface passes them, [Concurrent] the goroutines of
      the other, its concurrent test, under every schedule.
    - The tools, [src/tools.go]: [Calls] is a call as a program of store
      operations with other sessions' operations between them; [Tools] has
      the options, the schemas and the handlers; [ToolLaws], [ToolSet] and
      [ToolNames] the properties.

    [Prelude], [GoStd], [GoTime] and [Sha256] model nothing under src/: byte
    strings, the parts of Go's standard library the code uses, the calendar
    and the layouts of package time, and SHA-256, all executable.

    ** How the state and the operations correspond

    A Go string or []byte is a [list ascii]; an int is a [Z]; a time is the
    number of nanoseconds since Go's zero time; a Go map is a [gmap], [None]
    where nil is told from empty.  An operation that returns an error is a
    function to [res], and one that changes a store returns the store after.
    In the file store the state is a [world]: the directory, the clock and
    the random numbers it draws on, and the plan of how the changes still to
    be made go.  A crash is a
    plan in which every call fails from some point on.  A database is a
    record of its tables; a statement is a function of them in the monad [T],
    which carries a plan of failures too.  In [Lock] the state
    is the whole system: the lock file and its claim, every process and every
    writer's point in the code; a step is one system call of one writer.

    ** What the theorems show

    - Refinement: [MemStore_refines], [FileStore_refines] and
      [Sqlite_refines], over every sequence of operations, give the answers of
      the journal-only specification.
    - The contract: the chain of records ([journal_chain]), compare-and-swap
      ([IfHash_compare_and_swap]), what a Put and a Forget change and that a
      refused one changes nothing, what every answer may hold
      ([answers_typed]), and resuming a journal.
    - Durability: [file_put_faults] and [file_forget_faults] for any plan of
      failures, on a directory in sync with its journal, in which no one
      edited a file by hand; the cursor is only ever a cache ([loadState_rebuilds]);
      entry files read back ([decode_encode]); reading from the tail ends and
      finds the last record ([tailLines_reads_backward]).  In SQLite an
      operation is all or nothing whichever statements fail
      ([Sqlite_atomic]); opening keeps what a database holds, an earlier
      release's included ([Open_keeps]), and its retries end
      ([applySchema_ends]).
    - Edits by hand: that a run of Reconcile records exactly the names whose
      file was changed, in its content or its metadata, and what the journal
      holds after it ([Reconcile_records]), and that the next run finds
      nothing and changes nothing ([Reconcile_settles]).
    - Recovery: on a directory in sync, an operation cut off anywhere but at
      a record's newline alone and then a run of Reconcile leave it done or
      not done, and the journal agreeing with the files in content and
      metadata ([crash_recovered]); a run that is cut off itself touches no entry file
      and loses no record ([Reconcile_faults]).
    - Searching: the reference search ([Filter_reference]) and what the
      SQLite store's finds, in the order of the rank its index gives
      ([Sqlite_search]).
    - Conformance: a store of the interface with a bound of at least 256
      bytes, given times that do not go back, passes the suite but its
      concurrent test ([Run_passes]); the writers of that one end, and lose
      nothing, under every schedule ([testConcurrent_passes]).
    - Mutual exclusion: [mutual_exclusion], [holder_undisturbed], and
      [takeover_acquires] for progress after a holder dies.
    - The block: its bound, its headings whatever is stored, what it lists
      and omits, its manifests and their round trips through the bytes of a
      record, whole or a delta ([RecordSince_roundtrip]).
    - The tools: the one write each makes and on what it is built, whatever
      is interleaved, the case in which a save loses metadata included
      ([save_effect]); confinement to scopes and names; what is refused.

    ** Bounds and fuel

    Loops that Go bounds by a text are given the text's length as fuel: the
    scanner of JSON, the splitting and neutralising of lines, the rounds of
    reading a journal's tail ([tail_loop], a chunk at least doubling until it
    is the file).  Every step drops a byte at least, so a loop never
    runs out: the theorems about them state the result they give, not one
    they give if they return.  A patch's attempts and an insert's hundred
    names are the code's own bounds; the attempts to apply a schema are
    bounded by the time their pauses take.  A writer of the concurrent test
    needs at most [enough] turns, since it meets no more conflicts over a
    fact than facts land.  SHA-256's words are kept to 32 bits.

    ** Parameters

    The Unicode case table beyond ASCII ([lower_rune]), strconv's [IsPrint],
    SQLite's full-text matching and its rank,
    and agenttool's schema reflection, validation, argument decoding and
    trust labels, which are not in the repository.

    ** What is assumed of the surroundings

    A file-store operation is a step, since a writer holds the store's lock;
    the lock's outcome is an argument of it.  Changes to a directory fail as
    the plan says; reading fails only for what is found there.  A transaction of
    SQLite is alone on the database until it commits or rolls back, which is
    what its immediate transactions are for.  In [Lock] a
    hostname identifies a machine, two starts under one PID differ in their
    stamps, and nobody removes a lock by hand.

    ** Findings

    Where the code and its comments part, an [Example] evaluates the case:
    [lost_newline_repeats_number] (a record whose newline was not written
    leaves the next write under the same number),
    [BreakLock_races_with_takeover] and [Journal_cursor_wraps] (a cursor past
    2^63 reads the whole journal), among others.

    ** Not modelled

    The platform's open flags and signals ([src/filestore/*_unix.go] and
    their like), one system call each; the in-process mutexes; the lengths of
    waits; the wording of error texts but for [SizeError]'s and
    [ConflictError]'s; SQLite's pragmas as anything but the source they are
    written in, its connection pools and Close; in the suite, the edits it
    makes to values a store returned to see that they are
    copies. *)

From Stdlib Require Export ZArith Lia.
From Stdlib Require Export Ascii.
From Stdlib Require Import String.
From stdpp Require Export base gmap sets list strings sorting.
#[global] Open Scope Z_scope.
#[global] Set Default Goal Selector "!".

(** ** Bytes

    A Go string is a sequence of bytes; the model is a list of 8-bit
    [ascii] values.  [bs "..."] writes a literal, [blen] is Go's [len]. *)

Abbreviation bytes := (list ascii).

Definition bs (s : string) : bytes := String.list_ascii_of_string s.
Arguments bs _%_string_scope.

Definition blen {A} (l : list A) : Z := Z.of_nat (length l).

(** The numeric value of a byte, 0 to 255. *)
Definition bv (c : ascii) : N := N_of_ascii c.

Definition bin (lo hi : N) (c : ascii) : bool := (lo <=? bv c)%N && (bv c <=? hi)%N.

(** ** Results

    A Go function that returns a value and an error returns a [res]. *)

Inductive res (E A : Type) : Type :=
| Ok (a : A)
| Err (e : E).
Arguments Ok {E A} a.
Arguments Err {E A} e.

Definition res_bind {E A B} (m : res E A) (k : A -> res E B) : res E B :=
  match m with Ok a => k a | Err e => Err e end.

Declare Scope go_scope.
Delimit Scope go_scope with go.
Notation "'let?' x := m 'in' k" := (res_bind m (fun x => k))
  (at level 10, x pattern, m at level 100, k at level 200) : go_scope.
Notation "'check?' m 'in' k" := (match m with Some e => Err e | None => k end)
  (at level 10, m at level 100, k at level 200) : go_scope.
#[global] Open Scope go_scope.

(** ** Tactics *)

(** Split the boolean connectives in the hypotheses. *)
Ltac bool_hyps :=
  repeat match goal with
  | H : _ && _ = true |- _ => apply andb_true_iff in H as [? ?]
  | H : _ || _ = false |- _ => apply orb_false_iff in H as [? ?]
  | H : negb _ = true |- _ => apply negb_true_iff in H
  | H : negb _ = false |- _ => apply negb_false_iff in H
  | H : (_ =? _) = true |- _ => apply Z.eqb_eq in H
  | H : (_ =? _) = false |- _ => apply Z.eqb_neq in H
  | H : (_ <=? _) = true |- _ => apply Z.leb_le in H
  | H : (_ <=? _) = false |- _ => apply Z.leb_gt in H
  | H : (_ <? _) = true |- _ => apply Z.ltb_lt in H
  | H : (_ <? _) = false |- _ => apply Z.ltb_ge in H
  | H : bool_decide _ = true |- _ => apply bool_decide_eq_true in H
  | H : bool_decide _ = false |- _ => apply bool_decide_eq_false in H
  end.

(** Case on the innermost match of the goal or of a hypothesis and tidy. *)
Ltac split_cases := repeat (case_match; simplify_eq/=; bool_hyps).

Create HintDb mem.
Create Rewrite HintDb mem.

(** ** Lists *)

Lemma blen_nil {A} : blen (@nil A) = 0.
Proof. done. Qed.

Lemma blen_cons {A} (x : A) l : blen (x :: l) = 1 + blen l.
Proof. unfold blen. cbn [length]. lia. Qed.

Lemma blen_app {A} (l k : list A) : blen (l ++ k) = blen l + blen k.
Proof. unfold blen. rewrite length_app. lia. Qed.

Lemma blen_nonneg {A} (l : list A) : 0 <= blen l.
Proof. unfold blen. lia. Qed.

#[export] Hint Rewrite @blen_nil @blen_cons @blen_app : mem.
#[export] Hint Resolve blen_nonneg : mem.

Lemma filter_ext_in {A} (P Q : A -> Prop) `{!forall x, Decision (P x)} `{!forall x, Decision (Q x)} (l : list A) :
  (forall x, x ∈ l -> P x <-> Q x) -> filter P l = filter Q l.
Proof.
  induction l as [|x l IH]; intros He; [done|].
  assert (Hl : filter P l = filter Q l) by (apply IH; set_solver).
  destruct (decide (P x)) as [Hp|Hp].
  - rewrite !filter_cons_True, Hl by (done || (apply He; [left|done])). done.
  - rewrite !filter_cons_False, Hl by (done || (rewrite <- He; [done|left])). done.
Qed.

Lemma filter_all {A} (P : A -> Prop) `{!forall x, Decision (P x)} (l : list A) : Forall P l -> filter P l = l.
Proof. induction 1 as [|x l Hx _ IH]; [done|]. by rewrite filter_cons_True, IH. Qed.

Lemma blen_filter_all {A} (P : A -> Prop) `{!forall x, Decision (P x)} (l : list A) :
  blen (filter P l) = blen l <-> Forall P l.
Proof.
  unfold blen. rewrite Nat2Z.inj_iff. induction l as [|x l IH]; [by split|].
  rewrite Forall_cons. destruct (decide (P x)) as [Hx|Hx].
  - rewrite filter_cons_True by done. cbn [length]. rewrite Nat.succ_inj_wd. tauto.
  - rewrite filter_cons_False by done. cbn [length].
    pose proof (length_filter P l). split; [lia|tauto].
Qed.

Lemma blen_filter_none {A} (P : A -> Prop) `{!forall x, Decision (P x)} (l : list A) :
  blen (filter P l) = 0 <-> Forall (fun x => ~ P x) l.
Proof.
  unfold blen. induction l as [|x l IH]; [by split|].
  rewrite Forall_cons. destruct (decide (P x)) as [Hx|Hx].
  - rewrite filter_cons_True by done. cbn [length]. split; [lia|tauto].
  - rewrite filter_cons_False by done. tauto.
Qed.

(** The longest prefix whose bytes satisfy [p], and what is after it. *)
Section Span.
Context {A : Type} (p : A -> bool).

Fixpoint take_while (l : list A) : list A :=
  match l with
  | [] => []
  | x :: l' => if p x then x :: take_while l' else []
  end.

Fixpoint drop_while (l : list A) : list A :=
  match l with
  | [] => []
  | x :: l' => if p x then drop_while l' else l
  end.

Lemma take_drop_while l : take_while l ++ drop_while l = l.
Proof. induction l as [|x l IH]; cbn; [done|]. case_match; cbn; by rewrite ?IH. Qed.

Lemma take_while_Forall l : Forall (fun x => p x = true) (take_while l).
Proof. induction l as [|x l]; cbn; [done|]. case_match; by auto. Qed.

Lemma drop_while_head l x l' : drop_while l = x :: l' -> p x = false.
Proof. induction l as [|y l IH]; cbn; [done|]. case_match; naive_solver. Qed.

Lemma drop_while_none l : Forall (fun x => p x = true) l -> drop_while l = [].
Proof. induction 1 as [|x l H _ IH]; cbn; [done|]. by rewrite H. Qed.

Lemma drop_while_app l k :
  Forall (fun x => p x = true) l -> drop_while (l ++ k) = drop_while k.
Proof. induction 1 as [|x l H _ IH]; cbn; [done|]. by rewrite H. Qed.

Lemma take_while_app l k :
  Forall (fun x => p x = true) l -> take_while (l ++ k) = l ++ take_while k.
Proof. induction 1 as [|x l H _ IH]; cbn; [done|]. by rewrite H, IH. Qed.

Lemma drop_while_nil l : drop_while l = [] <-> Forall (fun x => p x = true) l.
Proof.
  split; [|apply drop_while_none].
  induction l as [|x l IH]; cbn; [done|]. case_match; naive_solver.
Qed.

Lemma take_while_length_le l : (length (take_while l) <= length l)%nat.
Proof. rewrite <- (take_drop_while l) at 2. rewrite length_app. lia. Qed.
End Span.

(** ** The byte order Go's string comparison and [sort.Strings] use. *)

Fixpoint bytes_compare (x y : bytes) : comparison :=
  match x, y with
  | [], [] => Eq
  | [], _ :: _ => Lt
  | _ :: _, [] => Gt
  | a :: x', c :: y' =>
      match (bv a ?= bv c)%N with
      | Eq => bytes_compare x' y'
      | r => r
      end
  end.

Definition bytes_le (x y : bytes) : Prop := bytes_compare x y <> Gt.

#[global] Instance bytes_le_dec : RelDecision bytes_le.
Proof. intros x y. unfold bytes_le, Decision. destruct (bytes_compare x y); (by left) || (right; by intros []). Defined.

Lemma bv_inj a c : bv a = bv c -> a = c.
Proof.
  unfold bv. intros H. rewrite <- (ascii_N_embedding a), <- (ascii_N_embedding c). by f_equal.
Qed.

Lemma bytes_compare_Eq x y : bytes_compare x y = Eq <-> x = y.
Proof.
  revert y. induction x as [|a x IH]; intros [|c y]; cbn; try done.
  destruct (N.compare_spec (bv a) (bv c)) as [H|H|H].
  - apply bv_inj in H as ->. rewrite IH. split; [by intros ->|by intros [= ->]].
  - split; [done|]. intros [= -> _]. lia.
  - split; [done|]. intros [= -> _]. lia.
Qed.

Lemma bytes_compare_antisym x y : bytes_compare y x = CompOpp (bytes_compare x y).
Proof.
  revert y. induction x as [|a x IH]; intros [|c y]; cbn; try done.
  rewrite (N.compare_antisym (bv a) (bv c)).
  destruct (bv a ?= bv c)%N; cbn; auto.
Qed.

Lemma bytes_compare_trans x y z :
  bytes_compare x y <> Gt -> bytes_compare y z <> Gt -> bytes_compare x z <> Gt.
Proof.
  revert y z. induction x as [|a x IH]; intros [|c y] [|d z]; cbn; try done.
  destruct (N.compare_spec (bv a) (bv c)), (N.compare_spec (bv c) (bv d)),
    (N.compare_spec (bv a) (bv d)); try done; try lia; intros; eauto.
Qed.

#[global] Instance bytes_le_total : Total bytes_le.
Proof.
  intros x y. unfold bytes_le. rewrite (bytes_compare_antisym x y).
  destruct (bytes_compare x y); cbn; auto.
Qed.

#[global] Instance bytes_le_trans : Transitive bytes_le.
Proof. intros x y z. apply bytes_compare_trans. Qed.

#[global] Instance bytes_le_antisym : AntiSymm eq bytes_le.
Proof.
  intros x y. unfold bytes_le. rewrite (bytes_compare_antisym x y), <- bytes_compare_Eq.
  destruct (bytes_compare x y); cbn; naive_solver.
Qed.

(** [sort.Strings] and [slices.Sort] on strings. *)
Definition sort_bytes (l : list bytes) : list bytes := merge_sort bytes_le l.

Lemma sort_bytes_perm l : sort_bytes l ≡ₚ l.
Proof. apply merge_sort_Permutation. Qed.

Lemma sort_bytes_sorted l : StronglySorted bytes_le (sort_bytes l).
Proof. apply StronglySorted_merge_sort; apply _. Qed.

(** Sorting does not depend on the order its input was gathered in. *)
Lemma sort_bytes_proper l k : l ≡ₚ k -> sort_bytes l = sort_bytes k.
Proof.
  intros H. apply (StronglySorted_unique bytes_le).
  - apply sort_bytes_sorted.
  - apply sort_bytes_sorted.
  - by rewrite !sort_bytes_perm.
Qed.

(** ** Sorting by a key: [sort.Slice] with [out[i].K < out[j].K]. *)
Section SortOn.
Context {A : Type} (key : A -> bytes).

Definition key_le (x y : A) : Prop := bytes_le (key x) (key y).
#[global] Instance key_le_dec : RelDecision key_le.
Proof. intros x y. unfold key_le. apply _. Defined.
#[global] Instance key_le_total : Total key_le.
Proof. intros x y. apply (total bytes_le). Qed.
#[global] Instance key_le_trans : Transitive key_le.
Proof. intros x y z. unfold key_le. apply bytes_le_trans. Qed.

Definition sort_on (l : list A) : list A := merge_sort key_le l.

Lemma sort_on_perm l : sort_on l ≡ₚ l.
Proof. apply merge_sort_Permutation. Qed.

Lemma sort_on_sorted l : StronglySorted key_le (sort_on l).
Proof. apply StronglySorted_merge_sort; apply _. Qed.

Lemma NoDup_key_inj (l : list A) x y :
  NoDup (key <$> l) -> x ∈ l -> y ∈ l -> key x = key y -> x = y.
Proof.
  intros Hnd Hx Hy Hk.
  apply list_elem_of_lookup in Hx as [i Hi], Hy as [j Hj].
  assert (i = j) as ->; [|congruence].
  eapply (NoDup_lookup (key <$> l)); [done| |]; rewrite list_lookup_fmap.
  - by rewrite Hi.
  - rewrite Hj. cbn. by rewrite Hk.
Qed.

(** With distinct keys every list of the same elements sorted by key is
    this one, so neither the sort's stability nor the order a Go map is
    iterated in can be observed. *)
Lemma sort_on_unique l k :
  NoDup (key <$> l) -> StronglySorted key_le k -> k ≡ₚ l -> k = sort_on l.
Proof.
  intros Hnd Hk Hp. apply (StronglySorted_unique_strong key_le); [|done|apply sort_on_sorted|].
  - intros x y Hx Hy H1 H2. rewrite Hp in Hx. rewrite sort_on_perm in Hy.
    apply (NoDup_key_inj l); [done..|]. by apply (anti_symm bytes_le).
  - by rewrite sort_on_perm.
Qed.

(** Sorted with distinct keys is strictly sorted. *)
Lemma sorted_strict l :
  StronglySorted key_le l -> NoDup (key <$> l) ->
  StronglySorted (fun x y => bytes_compare (key x) (key y) = Lt) l.
Proof.
  induction 1 as [|x l Hs IH Hx]; intros Hnd; [constructor|]. cbn in Hnd.
  apply NoDup_cons in Hnd as [Hn Hnd]. constructor; [auto|].
  rewrite Forall_forall in Hx |- *. intros y Hy. specialize (Hx y Hy).
  unfold key_le, bytes_le in Hx. destruct (bytes_compare (key x) (key y)) eqn:E; try done.
  apply bytes_compare_Eq in E. destruct Hn. rewrite E. by apply list_elem_of_fmap_2.
Qed.
End SortOn.

(** ** Separated texts: the part before the first separator determines it. *)
Lemma app_sep_inj {A} (c : A) (x y u v : list A) :
  c ∉ x -> c ∉ y -> x ++ c :: u = y ++ c :: v -> x = y /\ u = v.
Proof.
  revert y. induction x as [|a x IH]; intros [|d y] Hx Hy; cbn; intros E; simplify_eq.
  - done.
  - exfalso. apply Hy. left.
  - exfalso. apply Hx. left.
  - rewrite not_elem_of_cons in Hx, Hy. destruct (IH y) as [-> ->]; naive_solver.
Qed.
