(* ===== verification/GoStd.v ===== *)
(** * The parts of Go's standard library the sources use

    [strings], [unicode/utf8], [slices] and [strconv] on byte strings, each
    under its Go name, with the lemmas the components share.  Nothing here
    models code under src/. *)

From S2P Require Import Prelude.

(** ** strings: prefixes and suffixes *)

Fixpoint HasPrefix (s p : bytes) : bool :=
  match p, s with
  | [], _ => true
  | _ :: _, [] => false
  | c :: p', d :: s' => Ascii.eqb c d && HasPrefix s' p'
  end.

Lemma HasPrefix_spec s p : HasPrefix s p = true <-> exists t, s = p ++ t.
Proof.
  revert s. induction p as [|c p IH]; intros s.
  - split; [by exists s|by destruct s].
  - destruct s as [|d s]; [split; [done|by intros [t [=]]]|]. cbn [HasPrefix].
    rewrite andb_true_iff, IH, Ascii.eqb_eq. split.
    + intros [-> [t ->]]. by exists t.
    + intros [t [= -> ->]]. eauto.
Qed.

Lemma HasPrefix_app p t : HasPrefix (p ++ t) p = true.
Proof. apply HasPrefix_spec. by exists t. Qed.

Definition HasSuffix (s p : bytes) : bool := HasPrefix (reverse s) (reverse p).

Definition TrimSuffix (s p : bytes) : bytes :=
  if HasSuffix s p then take (length s - length p) s else s.

(** [strings.Trim] with a cutset given as a predicate. *)
Definition Trim (p : ascii -> bool) (s : bytes) : bytes :=
  reverse (drop_while p (reverse (drop_while p s))).

Lemma Trim_nil p s : Trim p s = [] <-> Forall (fun x => p x = true) s.
Proof.
  unfold Trim. rewrite <- (drop_while_nil p s).
  split; [|by intros ->].
  destruct (drop_while p s) as [|x l] eqn:E; [done|]. intros H.
  apply (f_equal reverse) in H. rewrite reverse_involutive in H.
  change (reverse []) with (@nil ascii) in H.
  apply drop_while_nil in H. rewrite reverse_cons, Forall_app, Forall_singleton in H.
  destruct H as [_ H]. apply drop_while_head in E. congruence.
Qed.

(** ** slices *)

Definition Contains {A} `{EqDecision A} (l : list A) (x : A) : bool := bool_decide (x ∈ l).

(** ** strings.Index, strings.Contains *)

Fixpoint Index (s sub : bytes) : option nat :=
  if HasPrefix s sub then Some O
  else match s with
       | [] => None
       | _ :: s' => S <$> Index s' sub
       end.

Definition ContainsStr (s sub : bytes) : bool := bool_decide (is_Some (Index s sub)).

(** [sub] occurs in [s]. *)
Definition occurs (sub s : bytes) : Prop := exists a b, s = a ++ sub ++ b.

Lemma Index_Some s sub n : Index s sub = Some n -> exists b, s = take n s ++ sub ++ b.
Proof.
  revert n. induction s as [|c s IH]; intros n; cbn [Index]; destruct (HasPrefix _ sub) eqn:E;
    try done; intros H; simplify_eq.
  - apply HasPrefix_spec in E as [t ->]. by exists t.
  - apply HasPrefix_spec in E as [t ->]. by exists t.
  - apply fmap_Some in H as (m & H & ->). destruct (IH m H) as [b Hb]. exists b.
    change (take (S m) (c :: s)) with (c :: take m s). cbn [app]. by f_equal.
Qed.

Lemma Index_app a sub b : is_Some (Index (a ++ sub ++ b) sub).
Proof.
  induction a as [|c a IH]; cbn [app].
  - destruct (sub ++ b) eqn:E; cbn [Index]; rewrite <- E, HasPrefix_app; eauto.
  - cbn [Index]. destruct (HasPrefix _ _); [eauto|]. destruct IH as [n ->]. eauto.
Qed.

Lemma ContainsStr_spec s sub : ContainsStr s sub = true <-> occurs sub s.
Proof.
  unfold ContainsStr. rewrite bool_decide_eq_true. split.
  - intros [n [b H]%Index_Some]. by exists (take n s), b.
  - intros (a & b & ->). apply Index_app.
Qed.

(** ** strings.Count and strings.Replace, for a [sub] that is not empty *)

Fixpoint count_loop (fuel : nat) (s sub : bytes) : Z :=
  match fuel with
  | O => 0
  | S f => match Index s sub with
           | None => 0
           | Some i => 1 + count_loop f (drop (i + length sub) s) sub
           end
  end.

(** Every occurrence drops a byte at least, so the length is fuel enough. *)
Definition Count (s sub : bytes) : Z := count_loop (S (length s)) s sub.

(** [strings.Replace] with [n] = 1. *)
Definition ReplaceOne (s old new : bytes) : bytes :=
  match Index s old with
  | None => s
  | Some i => take i s ++ new ++ drop (i + length old) s
  end.

Lemma Index_None s sub : Index s sub = None <-> ~ occurs sub s.
Proof.
  pose proof (ContainsStr_spec s sub) as H. unfold ContainsStr in H.
  rewrite bool_decide_eq_true in H. rewrite eq_None_not_Some. tauto.
Qed.

(** An index found splits the text. *)
Lemma Index_split s sub i : Index s sub = Some i -> s = take i s ++ sub ++ drop (i + length sub) s.
Proof.
  intros H. pose proof (Index_Some _ _ _ H) as [b E].
  assert (Hi : (i <= length s)%nat).
  { destruct (decide (i <= length s)%nat); [done|]. rewrite take_ge in E by lia.
    apply (f_equal length) in E. rewrite !length_app in E.
    assert (Hb : length sub = 0%nat) by lia. destruct sub; [|done]. cbn in H.
    destruct s; cbn in H; simplify_eq; cbn in *; lia. }
  rewrite E at 3. rewrite <- drop_drop, drop_app_length' by (rewrite length_take; lia).
  by rewrite drop_app_length.
Qed.

Lemma count_loop_nonneg f s sub : 0 <= count_loop f s sub.
Proof.
  revert s. induction f as [|f IH]; intros s; cbn [count_loop]; [lia|].
  destruct (Index s sub) as [i|]; [|lia]. pose proof (IH (drop (i + length sub) s)). lia.
Qed.

Lemma Count_zero s sub : Count s sub = 0 <-> ~ occurs sub s.
Proof.
  unfold Count. cbn [count_loop]. rewrite <- Index_None.
  destruct (Index s sub) as [i|]; [|done].
  pose proof (count_loop_nonneg (length s) (drop (i + length sub) s) sub).
  split; [lia|done].
Qed.

(** A text that counts one occurrence holds it once from left to right, and
    the replacement is made there. *)
Lemma Count_one s sub : sub <> [] -> Count s sub = 1 ->
  exists a b, s = a ++ sub ++ b /\ ~ occurs sub b /\ forall new, ReplaceOne s sub new = a ++ new ++ b.
Proof.
  intros Hsub. unfold Count, ReplaceOne. cbn [count_loop].
  destruct (Index s sub) as [i|] eqn:Hi; [|done]. intros H.
  pose proof (Index_split _ _ _ Hi) as E. exists (take i s), (drop (i + length sub) s).
  split_and!; [done| |done]. apply Index_None.
  assert (Hl : (1 <= length s)%nat).
  { rewrite E, !length_app. destruct sub; [done|]. cbn [length]. lia. }
  destruct (length s) as [|n]; [lia|]. cbn [count_loop] in H.
  destruct (Index (drop (i + length sub) s) sub) as [k|]; [|done].
  pose proof (count_loop_nonneg n (drop (k + length sub) (drop (i + length sub) s)) sub). lia.
Qed.

Example count_ex : Count (bs "a-b-c") (bs "-") = 2 /\ ReplaceOne (bs "a-b-c") (bs "-") (bs "+") = bs "a+b-c".
Proof. by vm_compute. Qed.

(** A text that does not hold the separator occurs on one side of it. *)
Lemma occurs_sep {c : ascii} w x y :
  w <> [] -> c ∉ w -> occurs w (x ++ c :: y) <-> occurs w x \/ occurs w y.
Proof.
  intros Hw Hc. split.
  - intros (a & b & E). apply app_eq_inv in E as [(k & E1 & E2)|(k & E1 & E2)].
    + left. apply app_eq_inv in E2 as [(m & E2 & E3)|(m & E2 & _)]; [|exists a, m; by rewrite E1, E2].
      destruct m as [|d m]; cbn in E3.
      * rewrite app_nil_r in E2. exists a, []. by rewrite E1, E2, app_nil_r.
      * injection E3 as <- E3. destruct Hc. rewrite E2. set_solver.
    + destruct k as [|d k]; cbn in E2.
      { destruct w as [|d w]; [done|]. cbn in E2. injection E2 as <- E2. destruct Hc. left. }
      injection E2 as <- E2. right. by exists k, b.
  - intros [(a & b & ->)|(a & b & ->)].
    + exists a, (b ++ c :: y). by rewrite <- !app_assoc.
    + exists (x ++ c :: a), b. by rewrite <- app_assoc.
Qed.

Definition ContainsAny (s : bytes) (cs : bytes) : bool := existsb (fun c => bool_decide (c ∈ cs)) s.

Definition lower_ascii (c : ascii) : ascii := if bin 65 90 c then ascii_of_N (bv c + 32) else c.

(** ** strings.Join *)

Fixpoint Join (sep : bytes) (l : list bytes) : bytes :=
  match l with
  | [] => []
  | [x] => x
  | x :: l' => x ++ sep ++ Join sep l'
  end.

Lemma Join_cons sep x l : l <> [] -> Join sep (x :: l) = x ++ sep ++ Join sep l.
Proof. by destruct l. Qed.

Lemma Join_snoc sep l x : l <> [] -> Join sep (l ++ [x]) = Join sep l ++ sep ++ x.
Proof.
  induction l as [|y l IH]; [done|]. intros _. destruct l as [|z l].
  - done.
  - cbn [app] in *. rewrite Join_cons by done. rewrite IH by done.
    rewrite (Join_cons _ y (z :: l)) by done. by rewrite <- !app_assoc.
Qed.

(** ** unicode/utf8: [utf8.ValidString], the table of the Unicode standard *)

Definition cont (c : ascii) : bool := bin 128 191 c.

Definition lead3 (c0 c1 : ascii) : bool :=
  (bin 224 224 c0 && bin 160 191 c1) || ((bin 225 236 c0 || bin 238 239 c0) && cont c1)
  || (bin 237 237 c0 && bin 128 159 c1).

Definition lead4 (c0 c1 : ascii) : bool :=
  (bin 240 240 c0 && bin 144 191 c1) || (bin 241 243 c0 && cont c1) || (bin 244 244 c0 && bin 128 143 c1).

Fixpoint ValidString (s : bytes) : bool :=
  match s with
  | [] => true
  | c0 :: t0 =>
      if bin 0 127 c0 then ValidString t0 else
      match t0 with
      | [] => false
      | c1 :: t1 =>
          if bin 194 223 c0 then cont c1 && ValidString t1 else
          match t1 with
          | [] => false
          | c2 :: t2 =>
              if lead3 c0 c1 then cont c2 && ValidString t2 else
              match t2 with
              | [] => false
              | c3 :: t3 => lead4 c0 c1 && cont c2 && cont c3 && ValidString t3
              end
          end
      end
  end.

Lemma ValidString_ascii s : Forall (fun c => bin 0 127 c = true) s -> ValidString s = true.
Proof. induction 1 as [|c s Hc _ IH]; [done|]. cbn [ValidString]. by rewrite Hc. Qed.

Example valid_string_yes : ValidString (bs "süß ✓ 日本 😀") = true.
Proof. reflexivity. Qed.

(** A surrogate half is not a rune. *)
Example valid_string_no : ValidString (ascii_of_N <$> [237; 160; 128]%N) = false.
Proof. reflexivity. Qed.

(** The bytes of the rune a string starts with; a byte that starts no valid
    encoding is a rune of its own. *)
Definition rune_len (s : bytes) : nat :=
  match s with
  | c0 :: c1 :: t1 =>
      if bin 0 127 c0 then 1
      else if bin 194 223 c0 && cont c1 then 2
      else match t1 with
           | c2 :: t2 =>
               if lead3 c0 c1 && cont c2 then 3
               else match t2 with
                    | c3 :: _ => if lead4 c0 c1 && cont c2 && cont c3 then 4 else 1
                    | [] => 1
                    end
           | [] => 1
           end
  | _ => 1
  end%nat.

(** ** unicode.IsSpace and strings.TrimSpace

    The UTF-8 encodings of the runes [unicode.IsSpace] holds of.  A lead
    byte is never a continuation byte, so a space rune starts (ends) a
    string exactly when one of these is its prefix (suffix). *)
Definition space_runes : list bytes :=
  map (map ascii_of_N)
    [[9]; [10]; [11]; [12]; [13]; [32]; [194; 133]; [194; 160]; [225; 154; 128];
     [226; 128; 128]; [226; 128; 129]; [226; 128; 130]; [226; 128; 131]; [226; 128; 132];
     [226; 128; 133]; [226; 128; 134]; [226; 128; 135]; [226; 128; 136]; [226; 128; 137];
     [226; 128; 138]; [226; 128; 168]; [226; 128; 169]; [226; 128; 175]; [226; 129; 159];
     [227; 128; 128]]%N.

(** The length of the first of [encs] that is a prefix of [s], 0 for none. *)
Fixpoint lead_len (encs : list bytes) (s : bytes) : nat :=
  match encs with
  | [] => O
  | r :: encs' => if HasPrefix s r then length r else lead_len encs' s
  end.

Fixpoint trim_lead (fuel : nat) (encs : list bytes) (s : bytes) : bytes :=
  match fuel with
  | O => s
  | S f => match lead_len encs s with
           | O => s
           | n => trim_lead f encs (drop n s)
           end
  end.

Definition TrimLeftSpace (s : bytes) : bytes := trim_lead (length s) space_runes s.
Definition TrimRightSpace (s : bytes) : bytes :=
  reverse (trim_lead (length s) (reverse <$> space_runes) (reverse s)).
Definition TrimSpace (s : bytes) : bytes := TrimRightSpace (TrimLeftSpace s).

(** [strings.Fields]: the maximal runs of bytes that start no space rune.
    [cur] is the field being read, reversed. *)
Fixpoint fields_loop (fuel : nat) (s cur : bytes) : list bytes :=
  let flush := match cur with [] => [] | _ => [reverse cur] end in
  match fuel with
  | O => flush
  | S f => match s with
           | [] => flush
           | c :: s' => match lead_len space_runes s with
                        | O => fields_loop f s' (c :: cur)
                        | n => flush ++ fields_loop f (drop n s) []
                        end
           end
  end.

Definition Fields (s : bytes) : list bytes := fields_loop (S (length s)) s [].

Lemma lead_len_newline (c : ascii) s : lead_len space_runes (c :: s) = O -> c <> ascii_of_N 10.
Proof. intros H ->. by destruct s. Qed.

(** No field is empty, and none holds a newline. *)
Lemma Fields_word s w : w ∈ Fields s -> w <> [] /\ ascii_of_N 10 ∉ w.
Proof.
  unfold Fields.
  assert (L : forall f s cur, ascii_of_N 10 ∉ cur ->
    Forall (fun w => w <> [] /\ ascii_of_N 10 ∉ w) (fields_loop f s cur)).
  { assert (Fl : forall cur, ascii_of_N 10 ∉ cur ->
      Forall (fun w => w <> [] /\ ascii_of_N 10 ∉ w) match cur with [] => [] | _ => [reverse cur] end).
    { intros [|c cur] Hc; constructor; [|constructor]. rewrite elem_of_reverse. split; [|done].
      intros E. apply (f_equal length) in E. rewrite length_reverse in E. done. }
    induction f as [|f IH]; intros t cur Hc; cbn [fields_loop]; [by apply Fl|].
    destruct t as [|c t]; [by apply Fl|].
    destruct (lead_len space_runes (c :: t)) eqn:E.
    - apply IH. apply lead_len_newline in E. set_solver.
    - apply Forall_app. split; [by apply Fl|]. apply IH. set_solver. }
  specialize (L (S (length s)) s [] ltac:(set_solver)). rewrite Forall_forall in L. apply L.
Qed.

Example fields_ex : Fields (bs "  two  words ") = [bs "two"; bs "words"].
Proof. reflexivity. Qed.

Example trim_space_ex : TrimSpace (bs "  a b	") = bs "a b".
Proof. reflexivity. Qed.

(** ** strconv.Itoa *)

Definition digit (d : Z) : ascii := ascii_of_N (Z.to_N (48 + d)).

Fixpoint digits (fuel : nat) (n : Z) : bytes :=
  match fuel with
  | O => []
  | S f => if n <? 10 then [digit n] else digits f (n / 10) ++ [digit (n mod 10)]
  end.

(** [log2 n + 1] digits are enough: each division by ten at least halves. *)
Definition Itoa (n : Z) : bytes :=
  let k := Z.abs n in
  (if n <? 0 then bs "-" else []) ++ digits (S (Z.to_nat (Z.log2 k))) k.

Example itoa_ex : Itoa 32768 = bs "32768" /\ Itoa 0 = bs "0" /\ Itoa (-40) = bs "-40".
Proof. vm_compute. auto. Qed.

(** The value a run of digits denotes. *)
Definition value (s : bytes) : Z := foldl (fun n c => n * 10 + (Z.of_N (bv c) - 48)) 0 s.

Lemma value_snoc s c : value (s ++ [c]) = value s * 10 + (Z.of_N (bv c) - 48).
Proof. unfold value. by rewrite foldl_app. Qed.

Lemma bv_digit d : 0 <= d < 10 -> bv (digit d) = Z.to_N (48 + d).
Proof. intros H. unfold bv, digit. apply N_ascii_embedding. lia. Qed.

Lemma bin_digit d : 0 <= d < 10 -> bin 48 57 (digit d) = true.
Proof. intros H. unfold bin. rewrite bv_digit by done. apply andb_true_iff. rewrite !N.leb_le. lia. Qed.

Lemma log2_div10 n : 10 <= n -> 0 <= Z.log2 (n / 10) < Z.log2 n.
Proof.
  intros H. split; [apply Z.log2_nonneg|].
  assert (H8 : n / 10 <= n / 2) by (apply Z.div_le_compat_l; lia).
  apply Z.log2_le_mono in H8. assert (E : Z.log2 (n / 2) = Z.log2 n - 1).
  { replace (n / 2) with (Z.shiftr n 1) by (by rewrite Z.shiftr_div_pow2 by lia). rewrite Z.log2_shiftr by lia. assert (0 < Z.log2 n) by (apply Z.log2_pos; lia). lia. }
  lia.
Qed.

(** With fuel enough: decimal digits of the value, no more of them than for
    a larger number. *)
Lemma digits_spec f : forall n, 0 <= n -> Z.log2 n < Z.of_nat f ->
  Forall (fun c => bin 48 57 c = true) (digits f n) /\ digits f n <> [] /\ value (digits f n) = n.
Proof.
  induction f as [|f IH]; intros n Hn Hf; [pose proof (Z.log2_nonneg n); lia|]. cbn [digits].
  destruct (Z.ltb_spec n 10).
  - split_and!; [constructor; [by apply bin_digit|done]|done|].
    unfold value. cbn [foldl]. rewrite bv_digit by done. lia.
  - pose proof (log2_div10 n ltac:(lia)). destruct (IH (n / 10)) as (Hd & _ & Hv); [apply Z.div_pos; lia|lia|].
    pose proof (Z.mod_pos_bound n 10 ltac:(lia)). split_and!.
    + apply Forall_app. split; [done|]. constructor; [by apply bin_digit|done].
    + by destruct (digits f (n / 10)).
    + rewrite value_snoc, Hv, bv_digit by done. pose proof (Z.div_mod n 10 ltac:(lia)). lia.
Qed.

Lemma Itoa_nonneg n : 0 <= n ->
  Forall (fun c => bin 48 57 c = true) (Itoa n) /\ Itoa n <> [] /\ value (Itoa n) = n.
Proof.
  intros H. unfold Itoa. destruct (Z.ltb_spec n 0); [lia|]. cbn [app].
  rewrite Z.abs_eq by done. apply digits_spec; [lia|]. pose proof (Z.log2_nonneg n). lia.
Qed.

Lemma value_Itoa n : 0 <= n -> value (Itoa n) = n.
Proof. intros H. by apply Itoa_nonneg. Qed.

Lemma Itoa_inj m n : Itoa m = Itoa n -> m = n.
Proof.
  assert (Hneg : forall k, k < 0 -> Itoa k = "-"%char :: Itoa (- k)).
  { intros k Hk. unfold Itoa. rewrite Z.abs_opp. destruct (Z.ltb_spec k 0), (Z.ltb_spec (- k) 0); try lia. done. }
  assert (Hpos : forall k t, 0 <= k -> Itoa k <> "-"%char :: t).
  { intros k t Hk E. destruct (Itoa_nonneg k Hk) as (Hd & _). rewrite E in Hd. inversion Hd. done. }
  intros E. destruct (Z.ltb_spec m 0) as [Hm|Hm], (Z.ltb_spec n 0) as [Hn|Hn].
  - rewrite (Hneg m), (Hneg n) in E by done. apply (f_equal tail) in E. cbn [tail] in E. apply (f_equal value) in E.
    rewrite !value_Itoa in E by lia. lia.
  - rewrite (Hneg m) in E by done. symmetry in E. by apply Hpos in E.
  - rewrite (Hneg n) in E by done. by apply Hpos in E.
  - apply (f_equal value) in E. by rewrite !value_Itoa in E by lia.
Qed.

(** Its bytes are digits and a sign. *)
Lemma Itoa_bytes n : Forall (fun c => bin 48 57 c = true \/ c = "-"%char) (Itoa n).
Proof.
  unfold Itoa. apply Forall_app. split; [case_match; repeat constructor; by right|].
  destruct (digits_spec (S (Z.to_nat (Z.log2 (Z.abs n)))) (Z.abs n)) as (H & _).
  - lia.
  - pose proof (Z.log2_nonneg (Z.abs n)). lia.
  - eapply Forall_impl; [exact H|]. auto.
Qed.

(** ** strconv.Quote, the [%q] of fmt *)

Section Quote.
(** Which runes past ASCII [strconv.IsPrint] holds of: the standard
    library's table, a parameter. *)
Context (is_print : bytes -> bool).

Definition low_hex (w : nat) (n : N) : bytes :=
  (fun k => let d := N.modulo (N.shiftr n (4 * N.of_nat k)) 16 in
            ascii_of_N (if (d <? 10)%N then 48 + d else 87 + d)%N) <$> reverse (seq 0 w).

(** The number of a rune's encoding. *)
Definition rune_value (r : bytes) : N :=
  match r with
  | [] => 0
  | c :: r' =>
      foldl (fun n d => n * 64 + N.land (bv d) 63) (N.land (bv c)
        (match r' with [] => 127 | [_] => 31 | [_; _] => 15 | _ => 7 end)) r'
  end%N.

Definition quote_ascii (c : ascii) : bytes :=
  if Ascii.eqb c (ascii_of_N 34) || Ascii.eqb c "\" then ["\"%char; c]
  else if bin 32 126 c then [c]
  else match bv c with
       | 7 => bs "\a" | 8 => bs "\b" | 12 => bs "\f" | 10 => bs "\n" | 13 => bs "\r" | 9 => bs "\t" | 11 => bs "\v"
       | n => bs "\x" ++ low_hex 2 n
       end%N.

Definition quote_rune (r : bytes) : bytes :=
  if (length r =? 1)%nat then bs "\x" ++ concat ((fun c => low_hex 2 (bv c)) <$> r)
  else if is_print r then r
  else if (rune_value r <? 65536)%N then bs "\u" ++ low_hex 4 (rune_value r)
  else bs "\U" ++ low_hex 8 (rune_value r).

Fixpoint quote_loop (fuel : nat) (s : bytes) : bytes :=
  match fuel, s with
  | O, _ | _, [] => []
  | S f, c :: s' =>
      if bin 0 127 c then quote_ascii c ++ quote_loop f s'
      else quote_rune (take (rune_len s) s) ++ quote_loop f (drop (rune_len s) s)
  end.

Definition Quote (s : bytes) : bytes := [ascii_of_N 34] ++ quote_loop (length s) s ++ [ascii_of_N 34].
End Quote.

Example quote_ex :
  Quote (fun _ => true) (bs "a\ é" ++ [ascii_of_N 10; ascii_of_N 255])
  = [ascii_of_N 34] ++ bs "a\\ é\n\xff" ++ [ascii_of_N 34]
  /\ Quote (fun _ => false) (bs "é") = [ascii_of_N 34] ++ bs "\u00e9" ++ [ascii_of_N 34].
Proof. by vm_compute. Qed.
