(* ===== verification/GoTime.v ===== *)
(** * Go's time package, as far as the stores and the tools use it

    A time is a number of nanoseconds since Go's zero time, the first of
    January of year 1 in UTC.  [Date] and its inverse are the proleptic
    Gregorian calendar; [Format] is modelled for the two layouts in use,
    [compact] ("20060102-150405") and [RFC3339Nano], and [Parse] for the
    latter with the latitude time.Parse takes: an hour of one digit, a comma
    for the point, any number of fractional digits and any offset. *)

From S2P Require Import Prelude GoStd.

(** ** The calendar *)

Definition leap (y : Z) : bool := (y mod 4 =? 0) && (negb (y mod 100 =? 0) || (y mod 400 =? 0)).

Definition month_lengths (y : Z) : list Z :=
  [31; if leap y then 29 else 28; 31; 30; 31; 30; 31; 31; 30; 31; 30; 31].

Definition daysIn (m y : Z) : Z := default 0 (month_lengths y !! Z.to_nat (m - 1)).

(** The days of the years before [y], counted from year 1. *)
Definition days_before_year (y : Z) : Z :=
  let n := y - 1 in 365 * n + n / 4 - n / 100 + n / 400.

(** The days of a year before its month [m]. *)
Definition days_before_month (m y : Z) : Z := foldr Z.add 0 (take (Z.to_nat (m - 1)) (month_lengths y)).

Record civil := MkCivil { cvYear : Z; cvMonth : Z; cvDay : Z; cvHour : Z; cvMin : Z; cvSec : Z; cvNsec : Z }.

Definition second : Z := 1000000000.

(** time.Date in UTC, for fields in their ranges. *)
Definition Date (c : civil) : Z :=
  let days := days_before_year (cvYear c) + days_before_month (cvMonth c) (cvYear c) + (cvDay c - 1) in
  (((days * 24 + cvHour c) * 60 + cvMin c) * 60 + cvSec c) * second + cvNsec c.

(** The year a day is in, and the days of it gone: cycles of 400 years, of
    100, of 4 and of one, the last of a cycle cut off at three. *)
Definition year_of_days (d : Z) : Z * Z :=
  let n400 := d / 146097 in
  let d := d - 146097 * n400 in
  let n100 := d / 36524 in
  let n100 := n100 - n100 / 4 in
  let d := d - 36524 * n100 in
  let n4 := d / 1461 in
  let d := d - 1461 * n4 in
  let n1 := d / 365 in
  let n1 := n1 - n1 / 4 in
  (400 * n400 + 100 * n100 + 4 * n4 + n1 + 1, d - 365 * n1).

Fixpoint month_of_days (m d : Z) (lens : list Z) : Z * Z :=
  match lens with
  | [] => (m, d + 1)
  | len :: lens' => if d <? len then (m, d + 1) else month_of_days (m + 1) (d - len) lens'
  end.

Definition civil_of (t : Z) : civil :=
  let nsec := t mod second in
  let s := t / second in
  let (y, yday) := year_of_days (s / 86400) in
  let (m, d) := month_of_days 1 yday (month_lengths y) in
  let s := s mod 86400 in
  MkCivil y m d (s / 3600) (s mod 3600 / 60) (s mod 60) nsec.

(** ** Format *)

(** [w] digits of [n], the high ones dropped. *)
Fixpoint fixed_digits (w : nat) (n : Z) : bytes :=
  match w with
  | O => []
  | S w' => fixed_digits w' (n / 10) ++ [digit (n mod 10)]
  end.

(** appendInt: zeros up to the width, and a sign. *)
Definition pad (w : nat) (n : Z) : bytes :=
  let k := Z.abs n in
  (if n <? 0 then bs "-" else []) ++ (if k <? 10 ^ Z.of_nat w then fixed_digits w k else Itoa k).

Definition Format_compact (t : Z) : bytes :=
  let c := civil_of t in
  pad 4 (cvYear c) ++ pad 2 (cvMonth c) ++ pad 2 (cvDay c) ++ bs "-"
  ++ pad 2 (cvHour c) ++ pad 2 (cvMin c) ++ pad 2 (cvSec c).

Definition is_zero_digit (c : ascii) : bool := Ascii.eqb c "0".

(** The digits of a fraction less its trailing zeros. *)
Definition trim_zeros (s : bytes) : bytes := reverse (drop_while is_zero_digit (reverse s)).

(** A ".999999999" in a layout. *)
Definition frac (nsec : Z) : bytes :=
  let ds := trim_zeros (fixed_digits 9 nsec) in if bool_decide (ds = []) then [] else bs "." ++ ds.

Definition Format_RFC3339Nano (t : Z) : bytes :=
  let c := civil_of t in
  pad 4 (cvYear c) ++ bs "-" ++ pad 2 (cvMonth c) ++ bs "-" ++ pad 2 (cvDay c) ++ bs "T"
  ++ pad 2 (cvHour c) ++ bs ":" ++ pad 2 (cvMin c) ++ bs ":" ++ pad 2 (cvSec c)
  ++ frac (cvNsec c) ++ bs "Z".

Example format_ex :
  Format_compact (Date (MkCivil 2026 11 2 19 44 0 120000000)) = bs "20261102-194400"
  /\ Format_RFC3339Nano (Date (MkCivil 2024 2 29 19 44 0 120000000)) = bs "2024-02-29T19:44:00.12Z"
  /\ Format_RFC3339Nano 0 = bs "0001-01-01T00:00:00Z".
Proof. by vm_compute. Qed.

(** ** Parse *)

Definition isDigit (c : ascii) : bool := bin 48 57 c.
Definition digit_value (c : ascii) : Z := Z.of_N (bv c) - 48.

Definition getnum (fixed : bool) (s : bytes) : option (Z * bytes) :=
  match s with
  | [] => None
  | a :: s1 =>
      if negb (isDigit a) then None
      else match s1 with
           | b :: s2 => if isDigit b then Some (digit_value a * 10 + digit_value b, s2)
                        else if fixed then None else Some (digit_value a, s1)
           | [] => if fixed then None else Some (digit_value a, s1)
           end
  end.

Definition expect (c : ascii) (s : bytes) : option bytes :=
  match s with d :: s' => if Ascii.eqb d c then Some s' else None | [] => None end.

(** A number in a range, and what is after it. *)
Definition ranged (lo hi : Z) (r : option (Z * bytes)) : option (Z * bytes) :=
  match r with
  | Some (n, s) => if (lo <=? n) && (n <=? hi) then Some (n, s) else None
  | None => None
  end.

Definition parse_year (s : bytes) : option (Z * bytes) :=
  if (length s <? 4)%nat || negb (forallb isDigit (take 4 s)) then None
  else Some (value (take 4 s), drop 4 s).

Definition commaOrPeriod (c : ascii) : bool := Ascii.eqb c "." || Ascii.eqb c ",".

(** A fraction's digits past the ninth are dropped. *)
Definition parse_frac (s : bytes) : Z * bytes :=
  match s with
  | p :: c :: s' =>
      if commaOrPeriod p && isDigit c then
        let ds := take 9 (take_while isDigit (c :: s')) in
        (value ds * 10 ^ (9 - blen ds), drop_while isDigit (c :: s'))
      else (0, s)
  | _ => (0, s)
  end.

(** The offset in seconds, of "Z" or of a sign, hours, a colon and minutes. *)
Definition parse_zone (s : bytes) : option (Z * bytes) :=
  match s with
  | [] => None
  | z :: s' =>
      if Ascii.eqb z "Z" then Some (0, s')
      else if (blen s <? 6) then None
      else '(hr, s1) ← ranged 0 24 (getnum true s');
           s2 ← expect ":" s1;
           '(mm, s3) ← ranged 0 60 (getnum true s2);
           let off := (hr * 60 + mm) * 60 in
           if Ascii.eqb z "+" then Some (off, s3)
           else if Ascii.eqb z "-" then Some (- off, s3)
           else None
  end.

Definition Parse_RFC3339Nano (s : bytes) : option Z :=
  '(year, s) ← parse_year s; s ← expect "-" s;
  '(month, s) ← ranged 1 12 (getnum true s); s ← expect "-" s;
  '(day, s) ← getnum true s; s ← expect "T" s;
  '(hour, s) ← ranged 0 23 (getnum false s); s ← expect ":" s;
  '(minute, s) ← ranged 0 59 (getnum true s); s ← expect ":" s;
  '(sec, s) ← ranged 0 59 (getnum true s);
  let '(nsec, s) := parse_frac s in
  '(off, s) ← parse_zone s;
  if negb (bool_decide (s = [])) then None
  else if (day <? 1) || (daysIn month year <? day) then None
  else Some (Date (MkCivil year month day hour minute sec nsec) - off * second).

Example parse_ex :
  Parse_RFC3339Nano (bs "2026-11-02T19:44:00Z") = Some (Date (MkCivil 2026 11 2 19 44 0 0))
  /\ Parse_RFC3339Nano (bs "2026-11-02T9:44:00,5+01:00") = Some (Date (MkCivil 2026 11 2 8 44 0 500000000))
  /\ Parse_RFC3339Nano (bs "2023-02-29T19:44:00Z") = None
  /\ Parse_RFC3339Nano (bs "yesterday") = None.
Proof. by vm_compute. Qed.

(** ** The calendar's inverse *)

(** Linear arithmetic with divisions by constants. *)
Ltac div_lia := Z.to_euclidean_division_equations; lia.

(** What the cycles of [year_of_days] hold. *)
Lemma year_of_days_spec d y yday :
  year_of_days d = (y, yday) ->
  days_before_year y + yday = d /\ 0 <= yday < (if leap y then 366 else 365).
Proof.
  unfold year_of_days, days_before_year, leap. intros E. simplify_eq.
  set (a := d / 146097). assert (Ha : 0 <= d - 146097 * a < 146097) by (unfold a; div_lia).
  set (d1 := d - 146097 * a) in *. set (b := d1 / 36524 - d1 / 36524 / 4).
  assert (Hb : 0 <= b <= 3 /\ 0 <= d1 - 36524 * b /\ (d1 - 36524 * b < 36524 \/ b = 3 /\ d1 - 36524 * b = 36524)).
  { assert (0 <= d1 / 36524 <= 4) by div_lia. unfold b. assert (d1 / 36524 / 4 = 0 \/ d1 / 36524 = 4 /\ d1 / 36524 / 4 = 1) by div_lia; div_lia. }
  set (d2 := d1 - 36524 * b) in *. set (c := d2 / 1461).
  assert (Hc : 0 <= c <= 24 /\ 0 <= d2 - 1461 * c < 1461) by (unfold c; div_lia).
  set (d3 := d2 - 1461 * c) in *. set (e := d3 / 365 - d3 / 365 / 4).
  assert (He : 0 <= e <= 3 /\ 0 <= d3 - 365 * e /\ (d3 - 365 * e < 365 \/ e = 3 /\ d3 - 365 * e = 365)).
  { assert (0 <= d3 / 365 <= 4) by div_lia. unfold e. assert (d3 / 365 / 4 = 0 \/ d3 / 365 = 4 /\ d3 / 365 / 4 = 1) by div_lia; div_lia. }
  set (y := 400 * a + 100 * b + 4 * c + e).
  assert (E4 : y / 4 = 100 * a + 25 * b + c) by (unfold y; div_lia).
  assert (E100 : y / 100 = 4 * a + b) by (unfold y; div_lia).
  assert (E400 : y / 400 = a) by (unfold y; div_lia).
  replace (y + 1 - 1) with y by div_lia. rewrite E4, E100, E400. split; [unfold y; div_lia|].
  assert (H4 : (y + 1) mod 4 = 0 <-> e = 3) by (unfold y; div_lia).
  assert (H100 : (y + 1) mod 100 = 0 <-> c = 24 /\ e = 3) by (unfold y; div_lia).
  assert (H400 : (y + 1) mod 400 = 0 <-> b = 3 /\ c = 24 /\ e = 3) by (unfold y; div_lia).
  assert (Hd1 : d2 - 1461 * c = d3) by done. assert (Hd2 : d1 - 36524 * b = d2) by done.
  clearbody a b c d1 d2 d3 e y.
  destruct (Z.eqb_spec ((y + 1) mod 4) 0), (Z.eqb_spec ((y + 1) mod 100) 0), (Z.eqb_spec ((y + 1) mod 400) 0);
    cbn; lia.
Qed.

Lemma month_of_days_spec lens : forall m d m' d',
  0 <= d < foldr Z.add 0 lens -> Forall (fun l => 0 <= l) lens ->
  month_of_days m d lens = (m', d') ->
  m <= m' < m + blen lens
  /\ 1 <= d' <= default 0 (lens !! Z.to_nat (m' - m))
  /\ foldr Z.add 0 (take (Z.to_nat (m' - m)) lens) + (d' - 1) = d.
Proof.
  induction lens as [|len lens IH]; intros m d m' d' Hd Hl; cbn [month_of_days foldr] in *; [lia|].
  rewrite blen_cons. pose proof (blen_nonneg lens). destruct (Z.ltb_spec d len); intros E.
  - simplify_eq. rewrite Z.sub_diag. change (Z.to_nat 0) with 0%nat. rewrite take_0. cbn. lia.
  - inversion Hl; subst. apply IH in E; [|lia|done].
    replace (Z.to_nat (m' - m)) with (S (Z.to_nat (m' - (m + 1)))) by lia.
    destruct E as (? & Hd' & ?). rewrite firstn_cons. cbn [foldr]. cbn [lookup list_lookup].
    split; [lia|]. split; [exact Hd'|lia].
Qed.

Lemma month_lengths_sum y : foldr Z.add 0 (month_lengths y) = if leap y then 366 else 365.
Proof. unfold month_lengths. by destruct (leap y). Qed.

Record civil_ok (c : civil) : Prop := {
  ok_month : 1 <= cvMonth c <= 12;
  ok_day : 1 <= cvDay c <= daysIn (cvMonth c) (cvYear c);
  ok_hour : 0 <= cvHour c < 24;
  ok_min : 0 <= cvMin c < 60;
  ok_sec : 0 <= cvSec c < 60;
  ok_nsec : 0 <= cvNsec c < second
}.

(** Every time has a date in the calendar, which is that time. *)
Lemma civil_of_spec t : civil_ok (civil_of t) /\ Date (civil_of t) = t.
Proof.
  unfold civil_of. destruct (year_of_days (t / second / 86400)) as [y yday] eqn:Ey.
  apply year_of_days_spec in Ey as [Ed Hy]. rewrite <- month_lengths_sum in Hy.
  destruct (month_of_days 1 yday (month_lengths y)) as [m d] eqn:Em.
  apply month_of_days_spec in Em as (Hm & Hd & Es); [|done|].
  2: { unfold month_lengths. destruct (leap y); repeat (apply Forall_cons; split; [lia|]); apply Forall_nil; done. }
  assert (Hs : second = 1000000000) by done. change (blen (month_lengths y)) with 12 in Hm. split.
  - split; cbn; [lia|exact Hd|unfold second; div_lia..].
  - unfold Date, days_before_month. cbn. rewrite Hs in *.
    assert (Hmod : t / 1000000000 mod 86400 mod 60 = (t / 1000000000) mod 86400 - 60 * ((t / 1000000000) mod 86400 / 60)) by div_lia.
    div_lia.
Qed.

(** ** The round trip of a written time *)

Lemma fixed_digits_length w n : length (fixed_digits w n) = w.
Proof. revert n. induction w as [|w IH]; intros n; cbn; [done|]. rewrite length_app, IH. cbn. lia. Qed.

Lemma fixed_digits_digits w n : Forall (fun c => isDigit c = true) (fixed_digits w n).
Proof.
  revert n. induction w as [|w IH]; intros n; cbn; [constructor|]. apply Forall_app. split; [done|].
  constructor; [|constructor]. apply bin_digit. apply Z.mod_pos_bound. lia.
Qed.

Lemma fixed_digits_value w n : 0 <= n < 10 ^ Z.of_nat w -> value (fixed_digits w n) = n.
Proof.
  revert n. induction w as [|w IH]; intros n Hn; cbn [fixed_digits].
  - cbn in Hn. assert (n = 0) as -> by lia. done.
  - rewrite Nat2Z.inj_succ, Z.pow_succ_r in Hn by lia.
    pose proof (Z.mod_pos_bound n 10 ltac:(lia)).
    rewrite value_snoc, IH, bv_digit by div_lia. pose proof (Z.div_mod n 10 ltac:(lia)). lia.
Qed.

Lemma pad_fixed w n : 0 <= n < 10 ^ Z.of_nat w -> pad w n = fixed_digits w n.
Proof.
  intros H. unfold pad. destruct (Z.ltb_spec n 0); [lia|]. rewrite Z.abs_eq by lia.
  destruct (Z.ltb_spec n (10 ^ Z.of_nat w)); [done|lia].
Qed.

Lemma getnum_pad b n s : 0 <= n < 100 -> getnum b (pad 2 n ++ s) = Some (n, s).
Proof.
  intros H. rewrite pad_fixed by done. cbn [fixed_digits app getnum].
  pose proof (Z.mod_pos_bound n 10 ltac:(lia)) as Hm. pose proof (Z.mod_pos_bound (n / 10) 10 ltac:(lia)) as Hm'.
  unfold isDigit. rewrite !bin_digit by done. cbn [negb]. unfold digit_value.
  rewrite !bv_digit by done. do 2 f_equal. div_lia.
Qed.

Lemma parse_year_pad n s : 0 <= n < 10000 -> parse_year (pad 4 n ++ s) = Some (n, s).
Proof.
  intros H. rewrite pad_fixed by done. pose proof (fixed_digits_length 4 n) as Hl.
  unfold parse_year. rewrite length_app, Hl.
  rewrite take_app_le, take_ge, drop_app_le, drop_ge by (rewrite Hl; lia).
  replace (forallb isDigit (fixed_digits 4 n)) with true.
  2: { symmetry. apply forallb_forall. pose proof (fixed_digits_digits 4 n) as Hd.
       rewrite Forall_forall in Hd. intros x Hx. apply Hd. by apply list_elem_of_In. }
  cbn [negb]. rewrite orb_false_r.
  replace ((4 + length s <? 4)%nat) with false by (symmetry; apply Nat.ltb_ge; lia).
  by rewrite fixed_digits_value.
Qed.

Lemma value_zeros l : Forall (fun c => is_zero_digit c = true) l -> forall s, value (s ++ l) = value s * 10 ^ blen l.
Proof.
  induction 1 as [|c l Hc _ IH]; intros s.
  - rewrite app_nil_r, blen_nil. lia.
  - rewrite cons_middle, app_assoc, IH, value_snoc, blen_cons.
    apply Ascii.eqb_eq in Hc as ->. change (Z.of_N (bv "0") - 48) with 0.
    rewrite Z.pow_add_r by (pose proof (blen_nonneg l); lia). lia.
Qed.

Lemma trim_zeros_spec s : exists l, s = trim_zeros s ++ l /\ Forall (fun c => is_zero_digit c = true) l.
Proof.
  unfold trim_zeros. exists (reverse (take_while is_zero_digit (reverse s))). split.
  - rewrite <- reverse_app, take_drop_while. by rewrite reverse_involutive.
  - apply Forall_reverse, take_while_Forall.
Qed.

Lemma parse_frac_frac n s :
  0 <= n < second -> (forall c s', s = c :: s' -> commaOrPeriod c = false /\ isDigit c = false) ->
  parse_frac (frac n ++ s) = (n, s).
Proof.
  intros Hn Hs. pose proof (fixed_digits_value 9 n ltac:(exact Hn)) as Hv.
  pose proof (fixed_digits_digits 9 n) as Hd. pose proof (fixed_digits_length 9 n) as Hl.
  unfold frac. destruct (trim_zeros_spec (fixed_digits 9 n)) as (l & E & Hz).
  set (ds := trim_zeros _) in *. clearbody ds. rewrite E in Hv, Hd, Hl. rewrite length_app in Hl.
  apply Forall_app in Hd as [Hd _]. case_bool_decide as Hnil.
  - rewrite Hnil in Hv. rewrite value_zeros in Hv by done. cbn in Hv. subst n. cbn [app].
    unfold parse_frac. destruct s as [|c [|c' s']]; try done. by destruct (Hs c _ eq_refl) as [-> _].
  - destruct ds as [|c ds]; [done|]. cbn [bs app String.list_ascii_of_string parse_frac].
    pose proof (Forall_inv Hd) as Hc. cbn beta in Hc. rewrite Hc. change (commaOrPeriod "." && true) with true. cbv iota.
    change (c :: ds ++ s) with ((c :: ds) ++ s).
    assert (Hw : take_while isDigit s = [] /\ drop_while isDigit s = s).
    { destruct s as [|x s']; [done|]. cbn. by destruct (Hs x s' eq_refl) as [_ ->]. }
    destruct Hw as [Hw1 Hw2].
    rewrite take_while_app, drop_while_app, Hw1, Hw2, app_nil_r by done.
    rewrite take_ge by (cbn in *; lia). rewrite <- Hv, value_zeros by done. cbn [Ascii.eqb]. 
    replace (9 - blen (c :: ds)) with (blen l) by (unfold blen; cbn in *; lia). done.
Qed.

(** A time of the years 0 to 9999 is read back from what it is written as. *)
Lemma Parse_Format t : 0 <= cvYear (civil_of t) < 10000 -> Parse_RFC3339Nano (Format_RFC3339Nano t) = Some t.
Proof.
  destruct (civil_of_spec t) as [Hok Ht]. unfold Format_RFC3339Nano.
  destruct (civil_of t) as [y m d h mi s ns]. destruct Hok. cbn in *. intros Hy.
  assert (Hd : d < 100).
  { revert ok_day0. unfold daysIn, month_lengths.
    destruct (Z.to_nat (m - 1)) as [|[|[|[|[|[|[|[|[|[|[|[|k]]]]]]]]]]]]; cbn; try lia.
    - destruct (leap y); lia.
    - destruct k; cbn; lia. }
  unfold Parse_RFC3339Nano. rewrite parse_year_pad by lia. cbn.
  rewrite getnum_pad by lia. cbn. destruct (Z.leb_spec 1 m), (Z.leb_spec m 12); try lia. cbn.
  rewrite getnum_pad by lia. cbn. rewrite getnum_pad by lia. cbn.
  destruct (Z.leb_spec 0 h), (Z.leb_spec h 23); try lia. cbn. rewrite getnum_pad by lia. cbn.
  destruct (Z.leb_spec 0 mi), (Z.leb_spec mi 59); try lia. cbn. rewrite getnum_pad by lia. cbn.
  destruct (Z.leb_spec 0 s), (Z.leb_spec s 59); try lia. cbn.
  rewrite parse_frac_frac; [|lia|intros c s' [= <- <-]; done]. cbn.
  destruct (Z.ltb_spec d 1), (Z.ltb_spec (daysIn m y) d); try lia. cbn. f_equal. lia.
Qed.

(** ** Order: later days have later dates *)

Lemma days_before_year_succ y : days_before_year (y + 1) = days_before_year y + (if leap y then 366 else 365).
Proof.
  unfold days_before_year, leap. replace (y + 1 - 1) with y by lia.
  assert (H4 : y / 4 = (y - 1) / 4 + (if y mod 4 =? 0 then 1 else 0)) by (destruct (Z.eqb_spec (y mod 4) 0); div_lia).
  assert (H100 : y / 100 = (y - 1) / 100 + (if y mod 100 =? 0 then 1 else 0)) by (destruct (Z.eqb_spec (y mod 100) 0); div_lia).
  assert (H400 : y / 400 = (y - 1) / 400 + (if y mod 400 =? 0 then 1 else 0)) by (destruct (Z.eqb_spec (y mod 400) 0); div_lia).
  rewrite H4, H100, H400.
  destruct (Z.eqb_spec (y mod 4) 0), (Z.eqb_spec (y mod 100) 0), (Z.eqb_spec (y mod 400) 0); cbn; div_lia.
Qed.

Lemma days_before_year_mono y y' : y <= y' -> days_before_year y <= days_before_year y'.
Proof.
  intros Hy. replace y' with (y + Z.of_nat (Z.to_nat (y' - y))) by lia.
  induction (Z.to_nat (y' - y)) as [|n IH]; [by rewrite Z.add_0_r|].
  rewrite Nat2Z.inj_succ, <- Z.add_1_r, Z.add_assoc, days_before_year_succ. destruct (leap _); lia.
Qed.

Lemma year_of_days_mono d d' y yday y' yday' :
  d < d' -> year_of_days d = (y, yday) -> year_of_days d' = (y', yday') -> y < y' \/ y = y' /\ yday < yday'.
Proof.
  intros Hd [E Hy]%year_of_days_spec [E' Hy']%year_of_days_spec.
  destruct (Z.lt_trichotomy y y') as [|[->|Hgt]]; [by left|right; split; [done|lia]|].
  pose proof (days_before_year_mono (y' + 1) y ltac:(lia)) as Hm. rewrite days_before_year_succ in Hm.
  destruct (leap y'); lia.
Qed.

Lemma month_of_days_mono lens : forall m a b m1 d1 m2 d2,
  0 <= a < b -> b < foldr Z.add 0 lens -> Forall (fun l => 0 <= l) lens ->
  month_of_days m a lens = (m1, d1) -> month_of_days m b lens = (m2, d2) -> m1 < m2 \/ m1 = m2 /\ d1 < d2.
Proof.
  induction lens as [|len lens IH]; intros m a b m1 d1 m2 d2 Hab Hb Hl; cbn [month_of_days foldr] in *; [lia|].
  inversion Hl as [|? ? Hlen Hl']. destruct (Z.ltb_spec a len), (Z.ltb_spec b len); intros E1 E2; simplify_eq; try lia.
  - apply month_of_days_spec in E2; [|lia|done]. left. lia.
  - eapply (IH (m + 1) (a - len) (b - len)); [lia|lia|done..].
Qed.

Lemma month_lengths_nonneg y : Forall (fun l => 0 <= l) (month_lengths y).
Proof. unfold month_lengths. destruct (leap y); repeat (apply Forall_cons; split; [lia|]); apply Forall_nil; done. Qed.

(** A number of digits is its digits' order. *)
Lemma value_cons c s : value (c :: s) = digit_value c * 10 ^ blen s + value s.
Proof.
  unfold value at 1, digit_value. cbn [foldl]. rewrite Z.mul_0_l, Z.add_0_l. generalize (Z.of_N (bv c) - 48). intros a.
  revert a. induction s as [|d s IH] using rev_ind; intros a; [rewrite blen_nil; cbn; lia|].
  rewrite foldl_app. cbn [foldl]. rewrite IH, value_snoc, blen_app, blen_cons, blen_nil.
  rewrite Z.pow_add_r by (pose proof (blen_nonneg s); lia). lia.
Qed.

Lemma digit_value_bounds c : isDigit c = true -> 0 <= digit_value c < 10.
Proof. unfold isDigit, bin, digit_value. rewrite andb_true_iff, !N.leb_le. lia. Qed.

Lemma value_bounds s : Forall (fun c => isDigit c = true) s -> 0 <= value s < 10 ^ blen s.
Proof.
  induction 1 as [|c s Hc _ IH]; [done|]. rewrite value_cons, blen_cons, Z.pow_add_r by (pose proof (blen_nonneg s); lia).
  pose proof (digit_value_bounds c Hc). nia.
Qed.

Lemma compare_digits x : forall y,
  length x = length y -> Forall (fun c => isDigit c = true) x -> Forall (fun c => isDigit c = true) y ->
  bytes_compare x y = (value x ?= value y).
Proof.
  induction x as [|a x IH]; intros [|b y] Hl Hx Hy; cbn [length] in Hl; try done.
  inversion Hx as [|? ? Ha Hx']; inversion Hy as [|? ? Hb Hy']; subst.
  pose proof (value_bounds x Hx') as Bx. pose proof (value_bounds y Hy') as By.
  assert (El : blen x = blen y) by (unfold blen; lia). rewrite El in Bx.
  rewrite !value_cons, El. cbn [bytes_compare]. rewrite IH by (done || lia).
  assert (Ea : Z.of_N (bv a) = digit_value a + 48) by (unfold digit_value; lia).
  assert (Eb : Z.of_N (bv b) = digit_value b + 48) by (unfold digit_value; lia).
  destruct (N.compare_spec (bv a) (bv b)) as [E|E|E].
  - replace (digit_value a) with (digit_value b) by lia. by rewrite Zcompare_plus_compat.
  - symmetry. apply Z.compare_lt_iff. nia.
  - symmetry. apply Z.compare_gt_iff. nia.
Qed.

Lemma bytes_compare_app_Lt x y u v :
  length x = length y -> bytes_compare x y = Lt -> bytes_compare (x ++ u) (y ++ v) = Lt.
Proof.
  revert y. induction x as [|a x IH]; intros [|b y] Hl; cbn in *; try done.
  destruct (bv a ?= bv b)%N; [|done..]. apply IH. lia.
Qed.

Lemma bytes_compare_app_same x u v : bytes_compare (x ++ u) (x ++ v) = bytes_compare u v.
Proof. induction x as [|a x IH]; cbn; [done|]. by rewrite N.compare_refl. Qed.

(** The date and the time of a compact format, each a number. *)
Lemma Format_compact_split t :
  0 <= cvYear (civil_of t) < 10000 ->
  exists date time, Format_compact t = date ++ bs "-" ++ time
    /\ length date = 8%nat /\ length time = 6%nat
    /\ Forall (fun c => isDigit c = true) date /\ Forall (fun c => isDigit c = true) time
    /\ value date = cvYear (civil_of t) * 10000 + cvMonth (civil_of t) * 100 + cvDay (civil_of t)
    /\ value time = cvHour (civil_of t) * 10000 + cvMin (civil_of t) * 100 + cvSec (civil_of t).
Proof.
  intros Hy. destruct (civil_of_spec t) as [[Hm Hd Hh Hmi Hs _] _]. unfold Format_compact.
  assert (Hd' : cvDay (civil_of t) < 100).
  { revert Hd. unfold daysIn, month_lengths. generalize (cvDay (civil_of t)), (leap (cvYear (civil_of t))). intros d b.
    destruct (Z.to_nat (cvMonth (civil_of t) - 1)) as [|[|[|[|[|[|[|[|[|[|[|[|k]]]]]]]]]]]]; cbn; try lia.
    - destruct b; lia.
    - destruct k; cbn; lia. }
  set (c := civil_of t) in *.
  assert (H100 : 10 ^ Z.of_nat 2 = 100) by done. assert (H10000 : 10 ^ Z.of_nat 4 = 10000) by done.
  exists (pad 4 (cvYear c) ++ pad 2 (cvMonth c) ++ pad 2 (cvDay c)), (pad 2 (cvHour c) ++ pad 2 (cvMin c) ++ pad 2 (cvSec c)).
  rewrite !pad_fixed by lia. assert (Hv : forall w n s, 0 <= n < 10 ^ Z.of_nat w ->
    value (fixed_digits w n ++ s) = n * 10 ^ blen s + value s).
  { intros w n s Hn. rewrite <- (fixed_digits_value w n Hn) at 2. generalize (fixed_digits w n). intros l.
    induction l as [|a l IH]; [change (value []) with 0; cbn [app]; lia|]. cbn [app]. rewrite !value_cons, IH, blen_app.
    rewrite Z.pow_add_r by apply blen_nonneg. lia. }
  split_and!.
  - by rewrite <- !app_assoc.
  - by rewrite !length_app, !fixed_digits_length.
  - by rewrite !length_app, !fixed_digits_length.
  - rewrite !Forall_app. auto using fixed_digits_digits.
  - rewrite !Forall_app. auto using fixed_digits_digits.
  - rewrite !Hv, fixed_digits_value by lia. unfold blen. rewrite length_app, !fixed_digits_length. cbn. lia.
  - rewrite !Hv, fixed_digits_value by lia. unfold blen. rewrite length_app, !fixed_digits_length. cbn. lia.
Qed.

(** A later second formats to a larger text. *)
Lemma Format_compact_mono t t' :
  0 <= cvYear (civil_of t) < 10000 -> 0 <= cvYear (civil_of t') < 10000 -> t / second < t' / second ->
  length (Format_compact t) = length (Format_compact t')
  /\ bytes_compare (Format_compact t) (Format_compact t') = Lt.
Proof.
  intros Hy Hy' Ht. destruct (Format_compact_split t Hy) as (a & b & -> & La & Lb & Da & Db & Va & Vb).
  destruct (Format_compact_split t' Hy') as (a' & b' & -> & La' & Lb' & Da' & Db' & Va' & Vb').
  split; [rewrite !length_app; lia|].
  destruct (civil_of_spec t) as [[Hm Hd Hh Hmi Hs _] _], (civil_of_spec t') as [[Hm' Hd' Hh' Hmi' Hs' _] _].
  assert (Hda : value a < value a' \/ value a = value a' /\ value b < value b').
  { rewrite Va, Va', Vb, Vb'. revert Hm Hd Hm' Hd'. unfold civil_of.
    destruct (year_of_days (t / second / 86400)) as [y yd] eqn:E, (year_of_days (t' / second / 86400)) as [y' yd'] eqn:E'.
    destruct (month_of_days 1 yd (month_lengths y)) as [m d] eqn:M, (month_of_days 1 yd' (month_lengths y')) as [m' d'] eqn:M'.
    cbn [cvYear cvMonth cvDay cvHour cvMin cvSec]. intros Hm Hd Hm' Hd'.
    assert (Hd31 : forall m y, 1 <= m <= 12 -> daysIn m y <= 31).
    { intros m0 y0 _. unfold daysIn, month_lengths. generalize (leap y0). intros lp.
      destruct (Z.to_nat (m0 - 1)) as [|[|[|[|[|[|[|[|[|[|[|[|k]]]]]]]]]]]]; cbn; try lia;
        [destruct lp; lia|destruct k; cbn; lia]. }
    pose proof (Hd31 m y Hm). pose proof (Hd31 m' y' Hm').
    assert (Hdays : t / second / 86400 < t' / second / 86400
       \/ t / second / 86400 = t' / second / 86400 /\ (t / second) mod 86400 < (t' / second) mod 86400) by div_lia.
    destruct Hdays as [Hlt|[Heq Hlt]].
    - left. destruct (year_of_days_mono _ _ _ _ _ _ Hlt E E') as [|[-> Hyd]]; [lia|].
      apply year_of_days_spec in E as [_ E], E' as [_ E']. rewrite <- month_lengths_sum in E, E'.
      destruct (month_of_days_mono _ _ _ _ _ _ _ _ (conj (proj1 E) Hyd) (proj2 E') (month_lengths_nonneg y') M M'); lia.
    - right. rewrite Heq, E' in E. simplify_eq. rewrite M' in M. simplify_eq. split; [done|].
      generalize dependent (t / second mod 86400). generalize dependent (t' / second mod 86400). intros; div_lia. }
  destruct Hda as [Hlt|[Heq Hlt]].
  - apply bytes_compare_app_Lt; [lia|]. rewrite compare_digits by (done || lia). by apply Z.compare_lt_iff.
  - assert (a = a') as ->.
    { apply bytes_compare_Eq. rewrite compare_digits by (done || lia). by apply Z.compare_eq_iff. }
    rewrite bytes_compare_app_same, bytes_compare_app_same. rewrite compare_digits by (done || lia).
    by apply Z.compare_lt_iff.
Qed.
