(* ===== verification/Sha256.v ===== *)
(** * SHA-256 and the content hash

    [agentmemory.Hash] (memory.go) is "sha256:" and the hexadecimal digest
    of a content.  Go's crypto/sha256 and encoding/hex are modelled here as
    FIPS 180-4 defines them, on 32-bit words kept in [Z] with their
    wrap-around written out, so every hash the model states can be
    evaluated; the examples at the end are the repository's own vectors
    (testdata/hashes.json). *)

From S2P Require Import Prelude.

Module Sha256.

Definition w32 (x : Z) : Z := Z.land x 4294967295.
Definition add32 (x y : Z) : Z := w32 (x + y).
Definition not32 (x : Z) : Z := 4294967295 - x.
Definition rotr (n x : Z) : Z := Z.lor (Z.shiftr x n) (w32 (Z.shiftl x (32 - n))).
Definition shr (n x : Z) : Z := Z.shiftr x n.

Definition Ch x y z : Z := Z.lxor (Z.land x y) (Z.land (not32 x) z).
Definition Maj x y z : Z := Z.lxor (Z.lxor (Z.land x y) (Z.land x z)) (Z.land y z).
Definition Sigma0 x : Z := Z.lxor (Z.lxor (rotr 2 x) (rotr 13 x)) (rotr 22 x).
Definition Sigma1 x : Z := Z.lxor (Z.lxor (rotr 6 x) (rotr 11 x)) (rotr 25 x).
Definition sigma0 x : Z := Z.lxor (Z.lxor (rotr 7 x) (rotr 18 x)) (shr 3 x).
Definition sigma1 x : Z := Z.lxor (Z.lxor (rotr 17 x) (rotr 19 x)) (shr 10 x).

(** The constants are defined as the standard defines them: the first 32
    bits of the fractional parts of the cube roots of the first 64 primes,
    and of the square roots of the first 8. *)
Fixpoint sieve (n : nat) (l : list Z) : list Z :=
  match n, l with
  | S n', p :: l' => p :: sieve n' (filter (fun q => q mod p <> 0) l')
  | _, _ => []
  end.

Definition primes : list Z := Eval vm_compute in sieve 64 (Z.of_nat <$> seq 2 310).

(** The largest [r] below [2 ^ n] plus [acc] whose cube is at most [x]. *)
Fixpoint icbrt (n : nat) (acc x : Z) : Z :=
  match n with
  | O => acc
  | S n' => let r := acc + 2 ^ Z.of_nat n' in icbrt n' (if r * r * r <=? x then r else acc) x
  end.

Definition K : list Z := Eval vm_compute in
  (fun p => w32 (icbrt 36 0 (p * 2 ^ 96))) <$> primes.

(** The eight working variables. *)
Record state := St { sa : Z; sb : Z; sc : Z; sd : Z; se : Z; sf : Z; sg : Z; sh : Z }.

Definition init : state := Eval vm_compute in
  match (fun p => w32 (Z.sqrt (p * 2 ^ 64))) <$> primes with
  | a :: b :: c :: d :: e :: f :: g :: h :: _ => St a b c d e f g h
  | _ => St 0 0 0 0 0 0 0 0
  end.

Definition round (s : state) (k w : Z) : state :=
  let t1 := add32 (add32 (add32 (add32 (sh s) (Sigma1 (se s))) (Ch (se s) (sf s) (sg s))) k) w in
  let t2 := add32 (Sigma0 (sa s)) (Maj (sa s) (sb s) (sc s)) in
  St (add32 t1 t2) (sa s) (sb s) (sc s) (add32 (sd s) t1) (se s) (sf s) (sg s).

(** The 64 rounds over a window of the last sixteen schedule words: the
    window's head is this round's word, and the word sixteen on is
    computed from the window as it moves. *)
Fixpoint rounds (ks : list Z) (win : list Z) (s : state) : state :=
  match ks with
  | [] => s
  | k :: ks' =>
      match win with
      | w0 :: rest =>
          let w16 := add32 (add32 (add32 (sigma1 (nth 13 rest 0)) (nth 8 rest 0))
                                  (sigma0 (nth 0 rest 0))) w0 in
          rounds ks' (rest ++ [w16]) (round s k w0)
      | [] => s
      end
  end.

Definition compress (s : state) (block : list Z) : state :=
  let r := rounds K block s in
  St (add32 (sa s) (sa r)) (add32 (sb s) (sb r)) (add32 (sc s) (sc r)) (add32 (sd s) (sd r))
     (add32 (se s) (se r)) (add32 (sf s) (sf r)) (add32 (sg s) (sg r)) (add32 (sh s) (sh r)).

(** The padded message: a one bit, zeros to 56 modulo 64, and the length
    in bits as 64 big-endian bits. *)
Definition be_bytes (n : nat) (x : Z) : list Z :=
  (fun i => Z.land (Z.shiftr x (8 * Z.of_nat i)) 255) <$> reverse (seq 0 n).

Definition pad (m : bytes) : list Z :=
  let l := blen m in
  ((fun c => Z.of_N (bv c)) <$> m) ++ [128] ++ replicate (Z.to_nat ((55 - l) mod 64)) 0
    ++ be_bytes 8 ((8 * l) mod 18446744073709551616).

Fixpoint words (l : list Z) : list Z :=
  match l with
  | a :: b :: c :: d :: l' =>
      Z.lor (Z.lor (Z.shiftl a 24) (Z.shiftl b 16)) (Z.lor (Z.shiftl c 8) d) :: words l'
  | _ => []
  end.

(** One compression per sixteen words; [n] bounds the blocks. *)
Fixpoint blocks (n : nat) (ws : list Z) (s : state) : state :=
  match n with
  | O => s
  | S n' => match ws with
            | [] => s
            | _ => blocks n' (drop 16 ws) (compress s (take 16 ws))
            end
  end.

Definition digest (m : bytes) : list Z :=
  let ws := words (pad m) in
  let s := blocks (length ws) ws init in
  concat (be_bytes 4 <$> [sa s; sb s; sc s; sd s; se s; sf s; sg s; sh s]).

Definition hex_digit (x : Z) : ascii :=
  ascii_of_N (Z.to_N (if x <? 10 then 48 + x else 87 + x)).

(** [hex.EncodeToString]. *)
Definition hex (l : list Z) : bytes :=
  concat ((fun x => [hex_digit (Z.shiftr x 4); hex_digit (Z.land x 15)]) <$> l).

Lemma length_be_bytes n x : length (be_bytes n x) = n.
Proof. unfold be_bytes. by rewrite length_fmap, length_reverse, length_seq. Qed.

Lemma length_hex l : length (hex l) = (2 * length l)%nat.
Proof. unfold hex. induction l as [|x l IH]; cbn in *; lia. Qed.

Lemma length_digest m : length (digest m) = 32%nat.
Proof. unfold digest. cbn [fmap list_fmap concat]. rewrite !length_app, !length_be_bytes. done. Qed.

End Sha256.

(** [Hash] (memory.go): the form [Entry.Hash] and [Change.Prev] carry. *)
Definition Hash (content : bytes) : bytes := bs "sha256:" ++ Sha256.hex (Sha256.digest content).

#[global] Arguments Hash : simpl never.

Lemma length_Hash c : length (Hash c) = 71%nat.
Proof. unfold Hash. rewrite length_app, Sha256.length_hex, Sha256.length_digest. done. Qed.

(** A hash is never the empty string, which stands for "no entry". *)
Lemma Hash_nonempty c : Hash c <> [].
Proof. intros H. pose proof (length_Hash c) as L. by rewrite H in L. Qed.

#[export] Hint Resolve Hash_nonempty : mem.

(** The vectors of testdata/hashes.json. *)
Example hash_empty :
  Hash [] = bs "sha256:e3b0c44298fc1c149afbf4c8996fb92427ae41e4649b934ca495991b7852b855".
Proof. vm_compute. reflexivity. Qed.

Example hash_unicode :
  Hash (bs "süß ✓ 日本") = bs "sha256:42d6f58d2bb3cfd4dfd1e0fcdf999f26e2ab30edbfead5598947b2fb7c0bb9ef".
Proof. vm_compute. reflexivity. Qed.

Example hash_two_blocks :
  Hash (bs "abcdbcdecdefdefgefghfghighijhijkijkljklmklmnlmnomnopnopq")
  = bs "sha256:248d6a61d20638b8e5c026930c3e6039a33ce45964ff2167f6ecedd419db06c1".
Proof. vm_compute. reflexivity. Qed.
