(* ===== verification/Memory.v ===== *)
(** * The contract every store shares: memory.go

    Entries and journal records, the names and limits [CheckEntry] enforces,
    the metadata hash, and the options of a conditional write. *)

From S2P Require Import Prelude GoStd Sha256.

(** ** Data *)

(** [Meta] is a Go map: [None] is nil, which is told from an empty map only
    where the code asks. Times are nanoseconds since Go's zero time. *)
Record Entry := MkEntry {
  eScope : bytes;
  eName : bytes;
  eContent : bytes;
  eMeta : option (gmap bytes bytes);
  eHash : bytes;
  eMetaHash : bytes;
  eUpdated : Z;
  eDeleted : bool
}.

Record Change := MkChange {
  cSeq : Z;
  cEntry : Entry;
  cPrev : bytes;
  cReplaced : bytes;
  cSession : bytes;
  cSource : bytes;
  cAt : Z
}.

#[global] Instance Entry_eq_dec : EqDecision Entry.
Proof. solve_decision. Defined.
#[global] Instance Change_eq_dec : EqDecision Change.
Proof. solve_decision. Defined.

Definition SourceReconciled : bytes := bs "reconciled".
Definition MetaDescription : bytes := bs "description".
Definition DefaultMaxEntryBytes : Z := Z.shiftl 4 10.

(** Ranging over a nil map is ranging over an empty one. *)
Definition meta_map (m : option (gmap bytes bytes)) : gmap bytes bytes := default ∅ m.

(** A missing key reads as the zero value. *)
Definition meta_get (m : option (gmap bytes bytes)) (k : bytes) : bytes := default [] (meta_map m !! k).

Definition Description (e : Entry) : bytes := meta_get (eMeta e) MetaDescription.
Definition Size (e : Entry) : Z := blen (eContent e).

(** ** The session of a context: the IDs attached to it, the latest first. *)

Definition Context := list bytes.
Definition WithSession (ctx : Context) (id : bytes) : Context := id :: ctx.
Definition SessionFrom (ctx : Context) : bytes := default [] (head ctx).

(** ** Errors *)

Record SizeError := MkSizeError {
  seScope : bytes; seName : bytes; seSize : Z; seLimit : Z; seStored : Z }.

Record ConflictError := MkConflictError {
  ceScope : bytes; ceName : bytes; ceWant : bytes; ceHave : bytes; ceMeta : bool }.

(** Their texts, which carry the numbers and the hashes a caller acts on. *)
Definition SizeError_Error (e : SizeError) : bytes :=
  let msg := bs "agentmemory: entry " ++ seScope e ++ bs "/" ++ seName e ++ bs " is " ++ Itoa (seSize e)
               ++ bs " bytes, over the " ++ Itoa (seLimit e) ++ bs " byte limit" in
  let msg := if 0 <=? seStored e then msg ++ bs "; it holds " ++ Itoa (seStored e) ++ bs " bytes now" else msg in
  msg ++ bs "; split it or trim it".

Definition orNone (h : bytes) : bytes := if bool_decide (h = []) then bs "none" else h.

Definition ConflictError_Error (e : ConflictError) : bytes :=
  let entry := bs "agentmemory: entry " ++ ceScope e ++ bs "/" ++ ceName e in
  if ceMeta e then
    entry ++ bs " metadata has hash " ++ orNone (ceHave e) ++ bs ", not " ++ orNone (ceWant e) ++ bs "; read it again"
  else if bool_decide (ceWant e = []) then entry ++ bs " already exists with hash " ++ ceHave e
  else if bool_decide (ceHave e = []) then entry ++ bs " no longer exists; expected hash " ++ ceWant e
  else entry ++ bs " has hash " ++ ceHave e ++ bs ", not " ++ ceWant e ++ bs "; read it again".

(** What an [ErrInvalid] says is wrong. *)
Inductive why :=
| ScopeNotKebab (s : bytes)
| NameNotKebab (n : bytes)
| NoContent
| ContentNotUTF8
| MetaKeyNotKebab (k : bytes)
| MetaKeyReserved (k : bytes)
| MetaSpansLines (k : bytes)
| MetaSpace (k : bytes)
| MetaNotUTF8 (k : bytes)
| MetaOverLimit (n : Z)
| ScopeGivenTwice (s : bytes).

Inductive error :=
| ErrNotFound (scope name : bytes)
| ErrInvalid (w : why)
| ErrTooLarge (e : SizeError)
| ErrConflict (e : ConflictError)
| ErrUnsupported (opt : bytes)
| ErrBudget (bound : Z).

(** The sentinel an error wraps, what [errors.Is] compares. *)
Inductive sentinel := SNotFound | SInvalid | STooLarge | SConflict | SUnsupported | SBudget.

Definition wraps (e : error) : sentinel :=
  match e with
  | ErrNotFound _ _ => SNotFound
  | ErrInvalid _ => SInvalid
  | ErrTooLarge _ => STooLarge
  | ErrConflict _ => SConflict
  | ErrUnsupported _ => SUnsupported
  | ErrBudget _ => SBudget
  end.

(** ** Hashes of metadata *)

(** The keys of a map, in the byte order [slices.Sort] puts them in. *)
Definition sorted_keys (m : gmap bytes bytes) : list bytes := sort_bytes (map_to_list m).*1.

Definition meta_line (m : gmap bytes bytes) (k : bytes) : bytes :=
  k ++ bs "=" ++ default [] (m !! k) ++ [ascii_of_N 10].

Definition meta_text (m : gmap bytes bytes) : bytes := concat (meta_line m <$> sorted_keys m).

Definition MetaHash (meta : option (gmap bytes bytes)) : bytes :=
  if decide (size (meta_map meta) = O) then [] else Hash (meta_text (meta_map meta)).

(** ** Put options *)

Record PutOptions := MkPutOptions {
  oIfHash : bytes; oConditional : bool;
  oBase : bytes; oHasBase : bool;
  oIfMetaHash : bytes; oMetaConditional : bool }.

Definition PutOption := PutOptions -> PutOptions.

Definition IfHash (h : bytes) : PutOption := fun o =>
  MkPutOptions h true (oBase o) (oHasBase o) (oIfMetaHash o) (oMetaConditional o).

Definition BasedOn (h : bytes) : PutOption := fun o =>
  MkPutOptions (oIfHash o) (oConditional o) h true (oIfMetaHash o) (oMetaConditional o).

Definition IfMetaHash (h : bytes) : PutOption := fun o =>
  MkPutOptions (oIfHash o) (oConditional o) (oBase o) (oHasBase o) h true.

Definition ResolvePutOptions (opts : list PutOption) : PutOptions :=
  fold_left (fun o opt => opt o) opts (MkPutOptions [] false [] false [] false).

Definition BaseFor (o : PutOptions) (stored : option Entry) : bytes :=
  if oConditional o then oIfHash o
  else if oHasBase o then oBase o
  else match stored with Some e => eHash e | None => [] end.

(** The hash [stored] presents to [IfHash], "" for no entry. *)
Definition have_hash (stored : option Entry) : bytes :=
  match stored with Some e => eHash e | None => [] end.

Definition have_meta_hash (stored : option Entry) : bytes :=
  match stored with Some e => MetaHash (eMeta e) | None => [] end.

Definition PutOptions_Check (o : PutOptions) (scope name : bytes) (stored : option Entry) : option error :=
  if oConditional o && negb (bool_decide (have_hash stored = oIfHash o))
  then Some (ErrConflict (MkConflictError scope name (oIfHash o) (have_hash stored) false))
  else if oMetaConditional o && negb (bool_decide (have_meta_hash stored = oIfMetaHash o))
  then Some (ErrConflict (MkConflictError scope name (oIfMetaHash o) (have_meta_hash stored) true))
  else None.

(** ** Names *)

Definition MaxNameBytes : Z := 64.
Definition MaxMetaBytes : Z := Z.shiftl 1 10.

Definition lower_or_digit (c : ascii) : bool := bin 97 122 c || bin 48 57 c.
Definition is_hyphen (c : ascii) : bool := Ascii.eqb c "-".

(** The loop of [ValidName]; [prev] starts as a hyphen. *)
Fixpoint kebab_loop (prev : ascii) (s : bytes) : bool :=
  match s with
  | [] => negb (is_hyphen prev)
  | c :: s' =>
      if lower_or_digit c || (is_hyphen c && negb (is_hyphen prev)) then kebab_loop c s' else false
  end.

Definition ValidName (s : bytes) : bool :=
  if bool_decide (s = []) || (MaxNameBytes <? blen s) then false else kebab_loop "-" s.

Definition ValidScope (s : bytes) : bool := ValidName s.

Definition CheckScope (scope : bytes) : option error :=
  if ValidScope scope then None else Some (ErrInvalid (ScopeNotKebab scope)).

Definition CheckRef (scope name : bytes) : option error :=
  match CheckScope scope with
  | Some e => Some e
  | None => if ValidName name then None else Some (ErrInvalid (NameNotKebab name))
  end.

(** ** CheckEntry *)

Definition reservedMetaKeys (k : bytes) : bool := bool_decide (k = bs "name" \/ k = bs "updated").

Definition line_ends : bytes := [ascii_of_N 13; ascii_of_N 10].

(** What is wrong with one key and value, in the order of the loop's checks. *)
Definition check_meta_pair (k v : bytes) : option why :=
  if negb (ValidName k) then Some (MetaKeyNotKebab k)
  else if reservedMetaKeys k then Some (MetaKeyReserved k)
  else if ContainsAny v line_ends then Some (MetaSpansLines k)
  else if negb (bool_decide (TrimSpace v = v)) then Some (MetaSpace k)
  else if negb (ValidString v) then Some (MetaNotUTF8 k)
  else None.

(** The loop over the metadata, in the order [kvs] a Go map happened to be
    iterated in, with the bytes counted so far. *)
Fixpoint check_meta (kvs : list (bytes * bytes)) (metaBytes : Z) : res why Z :=
  match kvs with
  | [] => Ok metaBytes
  | (k, v) :: kvs' =>
      match check_meta_pair k v with
      | Some w => Err w
      | None => check_meta kvs' (metaBytes + (blen k + blen v))
      end
  end.

(** [CheckEntry] when the map's iteration order is [kvs]. *)
Definition CheckEntry_in (kvs : list (bytes * bytes)) (e : Entry) (limit : Z) (stored : option Entry)
    : option error :=
  if negb (ValidScope (eScope e)) then Some (ErrInvalid (ScopeNotKebab (eScope e)))
  else if negb (ValidName (eName e)) then Some (ErrInvalid (NameNotKebab (eName e)))
  else if bool_decide (eContent e = []) then Some (ErrInvalid NoContent)
  else if negb (ValidString (eContent e)) then Some (ErrInvalid ContentNotUTF8)
  else match check_meta kvs 0 with
       | Err w => Some (ErrInvalid w)
       | Ok metaBytes =>
           if MaxMetaBytes <? metaBytes then Some (ErrInvalid (MetaOverLimit metaBytes))
           else if (0 <? limit) && (limit <? blen (eContent e))
           then Some (ErrTooLarge (MkSizeError (eScope e) (eName e) (blen (eContent e)) limit
                        (match stored with Some s => Size s | None => -1 end)))
           else None
       end.

(** [CheckEntry] in one of those orders; [CheckEntry_any_order] shows the
    order can change which metadata fault is named and nothing else. *)
Definition CheckEntry (e : Entry) (limit : Z) (stored : option Entry) : option error :=
  CheckEntry_in (map_to_list (meta_map (eMeta e))) e limit stored.

(** The metadata vectors of testdata/hashes.json. *)
Example meta_hash_none : MetaHash None = [] /\ MetaHash (Some ∅) = [].
Proof. by vm_compute. Qed.

Example meta_hash_three :
  MetaHash (Some {[ bs "a" := []; bs "b" := bs "süß"; bs "b-2" := bs "x=y" ]})
  = bs "sha256:e2226247d693886ee382b36d60c41771bbe56b1939a68ef338f77775419fc33a".
Proof. by vm_compute. Qed.

(** ** The grammar of names *)

(** One group of a kebab-case name. *)
Definition group (g : bytes) : Prop := g <> [] /\ Forall (fun c => lower_or_digit c = true) g.

(** Groups of lowercase letters and digits joined by single hyphens. *)
Definition kebab (s : bytes) : Prop :=
  exists gs, gs <> [] /\ Forall group gs /\ s = Join (bs "-") gs.

Lemma hyphen_not_alnum c : is_hyphen c = true -> lower_or_digit c = false.
Proof. unfold is_hyphen. intros ->%Ascii.eqb_eq. done. Qed.

Lemma is_hyphen_eq c : is_hyphen c = true -> c = "-"%char.
Proof. by intros ->%Ascii.eqb_eq. Qed.

Lemma join_cons_byte c g gs : Join (bs "-") ((c :: g) :: gs) = c :: Join (bs "-") (g :: gs).
Proof. by destruct gs. Qed.

Lemma join_empty_group gs c s :
  Join (bs "-") ([] :: gs) = c :: s <-> c = "-"%char /\ exists g gs', gs = g :: gs' /\ s = Join (bs "-") (g :: gs').
Proof.
  destruct gs as [|g gs].
  - split; [done|]. by intros (_ & ? & ? & [=] & _).
  - change (Join (bs "-") ([] :: g :: gs)) with ("-"%char :: Join (bs "-") (g :: gs)).
    split; [intros E; injection E as <- <-; eauto|by intros (-> & ? & ? & [= -> ->] & ->)].
Qed.

(** The loop accepts what is left of a name: the rest [g] of the group it
    is in, empty only if the group has a byte already, and more groups. *)
Lemma kebab_loop_spec s : forall prev,
  kebab_loop prev s = true <->
  exists g gs, (is_hyphen prev = true -> g <> []) /\ Forall (fun c => lower_or_digit c = true) g
    /\ Forall group gs /\ s = Join (bs "-") (g :: gs).
Proof.
  induction s as [|c s IH]; intros prev; cbn [kebab_loop].
  { rewrite negb_true_iff. split.
    - intros H. exists [], []. split_and!; [congruence|done..].
    - intros ([|c g] & gs & Hp & _ & _ & E).
      + destruct (is_hyphen prev); [by destruct Hp|done].
      + destruct gs; discriminate. }
  split.
  - destruct (lower_or_digit c) eqn:Hc; cbn [orb].
    { intros (g & gs & _ & Hg & Hgs & ->)%IH. exists (c :: g), gs.
      rewrite join_cons_byte. split_and!; [done|by constructor|done..]. }
    destruct (is_hyphen c) eqn:Hh, (is_hyphen prev) eqn:Hp; cbn; try done.
    intros (g & gs & Hne & Hg & Hgs & ->)%IH. exists [], (g :: gs).
    split_and!; [done|done| |].
    + constructor; [split; auto|done].
    + by apply is_hyphen_eq in Hh as ->.
  - intros ([|d g] & gs & Hp & Hg & Hgs & E).
    + symmetry in E. apply join_empty_group in E as (-> & g & gs' & -> & ->).
      inversion Hgs as [|? ? [? ?]]; subst.
      destruct (is_hyphen prev); [by destruct Hp|]. apply IH. eauto 10.
    + rewrite join_cons_byte in E. injection E as -> ->. inversion Hg as [|? ? Hd ?]; subst.
      rewrite Hd. apply IH. exists g, gs. split_and!; [|done..].
      intros Hh%hyphen_not_alnum. congruence.
Qed.

(** A valid name in the words of the documentation. *)
Definition name_spec (s : bytes) : Prop := kebab s /\ blen s <= MaxNameBytes.

Lemma ValidName_iff s : ValidName s = true <-> name_spec s.
Proof.
  unfold ValidName, name_spec. destruct (MaxNameBytes <? blen s) eqn:Hl; bool_hyps.
  { rewrite orb_true_r. split; [done|]. intros [_ ?]. lia. }
  rewrite orb_false_r. transitivity (kebab s); [|naive_solver lia].
  case_bool_decide as Hs.
  - subst. split; [done|]. intros ([|[|c g] gs] & ? & Hg & E); [done| |].
    + by inversion Hg as [|? ? []].
    + by rewrite join_cons_byte in E.
  - rewrite kebab_loop_spec. split.
    + intros (g & gs & Hne & Hg & Hgs & ->). exists (g :: gs).
      split_and!; [done| |done]. constructor; [split; auto|done].
    + intros ([|g gs] & ? & Hg & ->); [done|]. inversion Hg as [|? ? []]; subst. eauto 10.
Qed.

Lemma kebab_loop_bytes s : forall prev,
  kebab_loop prev s = true -> Forall (fun c => lower_or_digit c = true \/ c = "-"%char) s.
Proof.
  induction s as [|c s IH]; intros prev; cbn [kebab_loop]; [by constructor|].
  destruct (lower_or_digit c) eqn:Hc; cbn [orb]; intros H.
  - constructor; [by left|by apply (IH c)].
  - destruct (is_hyphen c) eqn:Hh; [|done]. apply is_hyphen_eq in Hh as ->.
    destruct (is_hyphen prev); [done|]. constructor; [by right|by apply (IH "-"%char)].
Qed.

(** A name holds no byte outside the grammar's alphabet, so none of the
    separators a path, a journal key, a part ID or a frontmatter line uses. *)
Lemma ValidName_bytes s :
  ValidName s = true -> Forall (fun c => lower_or_digit c = true \/ c = "-"%char) s.
Proof.
  unfold ValidName. destruct (_ || _); [done|]. apply kebab_loop_bytes.
Qed.

Lemma ValidName_no_byte s c :
  ValidName s = true -> lower_or_digit c = false -> c <> "-"%char -> c ∉ s.
Proof.
  intros Hv%ValidName_bytes Hc Hh Hin. rewrite Forall_forall in Hv.
  destruct (Hv c Hin); congruence.
Qed.

Lemma ValidName_nonempty s : ValidName s = true -> s <> [].
Proof. unfold ValidName. by case_bool_decide. Qed.

(** The key of one entry in maps of both scopes and names:
    [string(scope) + "/" + name] (filestore.go, lostupdate.go). *)
Definition key (scope name : bytes) : bytes := scope ++ bs "/" ++ name.

Lemma key_inj s n s' n' :
  ValidScope s = true -> ValidScope s' = true -> key s n = key s' n' -> s = s' /\ n = n'.
Proof.
  intros Hs Hs'. apply app_sep_inj; by apply ValidName_no_byte.
Qed.

(** ** The metadata hash is unambiguous *)

(** One pair's line, and the pairs in the order they are hashed. *)
Definition pair_line (kv : bytes * bytes) : bytes := kv.1 ++ bs "=" ++ kv.2 ++ [ascii_of_N 10].
Definition meta_pairs (m : gmap bytes bytes) : list (bytes * bytes) :=
  (fun k => (k, default [] (m !! k))) <$> sorted_keys m.

Lemma meta_text_pairs m : meta_text m = concat (pair_line <$> meta_pairs m).
Proof. unfold meta_text, meta_pairs. by rewrite <- list_fmap_compose. Qed.

Lemma sorted_keys_elem m k : k ∈ sorted_keys m <-> is_Some (m !! k).
Proof.
  unfold sorted_keys. rewrite sort_bytes_perm, list_elem_of_fmap. split.
  - intros ([k' v] & -> & H%elem_of_map_to_list). eauto.
  - intros [v H]. exists (k, v). by rewrite elem_of_map_to_list.
Qed.

Lemma meta_pairs_elem m k v : (k, v) ∈ meta_pairs m <-> m !! k = Some v.
Proof.
  unfold meta_pairs. rewrite list_elem_of_fmap. split.
  - intros (k' & [= -> ->] & [w H]%sorted_keys_elem). by rewrite H.
  - intros H. exists k. rewrite H. split; [done|]. apply sorted_keys_elem. eauto.
Qed.

(** What [CheckEntry] lets into a map, as far as the hash needs it: a key
    is a name and a value is one line. *)
Definition one_line (kv : bytes * bytes) : Prop :=
  ValidName kv.1 = true /\ ContainsAny kv.2 line_ends = false.

Lemma ContainsAny_spec s cs : ContainsAny s cs = false <-> forall c, c ∈ s -> c ∉ cs.
Proof.
  unfold ContainsAny. induction s as [|a s IH]; cbn [existsb].
  - split; [by intros _ c ?%not_elem_of_nil|done].
  - rewrite orb_false_iff, IH, bool_decide_eq_false. setoid_rewrite elem_of_cons.
    split; [by intros [? ?] c [->|]; auto|naive_solver].
Qed.

Lemma pair_line_app k v r : pair_line (k, v) ++ r = k ++ "="%char :: v ++ ascii_of_N 10 :: r.
Proof. unfold pair_line. by rewrite <- !app_assoc. Qed.

Lemma pair_lines_inj l1 l2 :
  Forall one_line l1 -> Forall one_line l2 ->
  concat (pair_line <$> l1) = concat (pair_line <$> l2) -> l1 = l2.
Proof.
  intros H1. revert l2. induction H1 as [|[k v] l1 [Hk Hv] _ IH]; intros l2 H2 E;
    destruct H2 as [|[k' v'] l2 [Hk' Hv'] H2];
    rewrite ?fmap_cons in E; cbn [concat] in E; rewrite ?pair_line_app in E; [done| | |].
  - by destruct k'.
  - by destruct k.
  - cbn in Hk, Hv, Hk', Hv'.
    assert (Hnl : forall w, ContainsAny w line_ends = false -> ascii_of_N 10 ∉ w).
    { intros w Hw Hin. rewrite ContainsAny_spec in Hw. apply (Hw _ Hin). unfold line_ends. set_solver. }
    apply app_sep_inj in E as [-> E]; [|by apply ValidName_no_byte..].
    apply app_sep_inj in E as [-> E]; [|auto..].
    f_equal. by apply IH.
Qed.

Definition meta_one_line (m : gmap bytes bytes) : Prop :=
  map_Forall (fun k v => one_line (k, v)) m.

Lemma meta_pairs_one_line m : meta_one_line m -> Forall one_line (meta_pairs m).
Proof. intros H. apply Forall_forall. intros [k v] Hin%meta_pairs_elem. by apply H. Qed.

Lemma meta_text_inj m1 m2 :
  meta_one_line m1 -> meta_one_line m2 -> meta_text m1 = meta_text m2 -> m1 = m2.
Proof.
  rewrite !meta_text_pairs. intros H1 H2 E.
  apply pair_lines_inj in E; [|by apply meta_pairs_one_line..].
  apply map_eq. intros k. apply option_eq. intros v. by rewrite <- !meta_pairs_elem, E.
Qed.

(** Two texts one digest stands for. *)
Definition Collision (x y : bytes) : Prop := x <> y /\ Hash x = Hash y.

(** [MetaHash] tells two metadata apart: for maps whose keys are names
    and whose values are one line each, which [CheckEntry] enforces, equal
    hashes mean equal maps, unless the two hashed texts are a collision of
    SHA-256. The hashed form is unambiguous, as the comment on [MetaHash]
    says, and "" is the hash of no metadata alone. *)
Theorem MetaHash_unambiguous m1 m2 :
  meta_one_line (meta_map m1) -> meta_one_line (meta_map m2) -> MetaHash m1 = MetaHash m2 ->
  meta_map m1 = meta_map m2 \/ Collision (meta_text (meta_map m1)) (meta_text (meta_map m2)).
Proof.
  intros H1 H2. unfold MetaHash.
  destruct (decide (size (meta_map m1) = 0%nat)) as [Z1|Z1],
    (decide (size (meta_map m2) = 0%nat)) as [Z2|Z2]; intros E.
  - left. apply map_size_empty_inv in Z1, Z2. congruence.
  - by destruct (Hash_nonempty (meta_text (meta_map m2))).
  - by destruct (Hash_nonempty (meta_text (meta_map m1))).
  - destruct (decide (meta_text (meta_map m1) = meta_text (meta_map m2))) as [Ht|Ht].
    + left. by apply meta_text_inj.
    + right. done.
Qed.

Definition meta_xy : gmap bytes bytes := {[ bs "kind" := bs "how-to"; bs "z" := bs "x=y" ]}.

(** The same metadata, written key by key in the other order. *)
Definition meta_yx : gmap bytes bytes := <[bs "kind" := bs "how-to"]> {[ bs "z" := bs "x=y" ]}.

Lemma MetaHash_unambiguous_witness :
  MetaHash (Some meta_xy) = MetaHash (Some meta_yx)
  /\ (meta_map (Some meta_xy) = meta_map (Some meta_yx)
      \/ Collision (meta_text (meta_map (Some meta_xy))) (meta_text (meta_map (Some meta_yx)))).
Proof.
  assert (E : MetaHash (Some meta_xy) = MetaHash (Some meta_yx)) by by vm_compute.
  split; [exact E|]. apply (MetaHash_unambiguous (Some meta_xy) (Some meta_yx)); [| |exact E].
  - apply map_Forall_to_list. vm_compute. repeat constructor.
  - apply map_Forall_to_list. vm_compute. repeat constructor.
Defined.

(** ** What [CheckEntry] accepts *)

Record meta_pair_spec (k v : bytes) : Prop := {
  mp_key : name_spec k;
  mp_reserved : k <> bs "name" /\ k <> bs "updated";
  mp_line : forall c, c ∈ v -> c <> ascii_of_N 13 /\ c <> ascii_of_N 10;
  mp_trim : TrimSpace v = v;
  mp_utf8 : ValidString v = true
}.

Definition meta_bytes (kvs : list (bytes * bytes)) : Z :=
  foldr (fun kv n => blen kv.1 + blen kv.2 + n) 0 kvs.

(** An entry a store of the given bound takes; no bound when it is not
    positive. *)
Record Storable (e : Entry) (limit : Z) : Prop := {
  st_scope : name_spec (eScope e);
  st_name : name_spec (eName e);
  st_content : eContent e <> [];
  st_utf8 : ValidString (eContent e) = true;
  st_meta : map_Forall meta_pair_spec (meta_map (eMeta e));
  st_meta_size : meta_bytes (map_to_list (meta_map (eMeta e))) <= MaxMetaBytes;
  st_size : limit <= 0 \/ Size e <= limit
}.

Lemma check_meta_pair_None k v : check_meta_pair k v = None <-> meta_pair_spec k v.
Proof.
  unfold check_meta_pair, reservedMetaKeys. split.
  - intros H. repeat (case_match; try done); bool_hyps. split.
    + by apply ValidName_iff.
    + naive_solver.
    + intros c Hc. match goal with H : ContainsAny _ _ = false |- _ => rewrite ContainsAny_spec in H; specialize (H c Hc) end.
      unfold line_ends in *. set_solver.
    + done.
    + done.
  - intros [Hk [Hn Hu] Hl Ht Hv]. apply ValidName_iff in Hk. rewrite Hk; cbn [negb].
    rewrite bool_decide_eq_false_2 by naive_solver.
    replace (ContainsAny v line_ends) with false.
    2: { symmetry. apply ContainsAny_spec. intros c [? ?]%Hl. unfold line_ends. set_solver. }
    by rewrite bool_decide_eq_true_2, Hv by done.
Qed.

Lemma check_meta_spec kvs n :
  match check_meta kvs n with
  | Ok m => Forall (fun kv => meta_pair_spec kv.1 kv.2) kvs /\ m = n + meta_bytes kvs
  | Err _ => ~ Forall (fun kv => meta_pair_spec kv.1 kv.2) kvs
  end.
Proof.
  revert n. induction kvs as [|[k v] kvs IH]; intros n; cbn [check_meta].
  - split; [constructor|cbn; lia].
  - destruct (check_meta_pair k v) as [w|] eqn:E.
    + intros H. inversion H; subst. cbn in *.
      assert (check_meta_pair k v = None) by by apply check_meta_pair_None. congruence.
    + apply check_meta_pair_None in E. specialize (IH (n + (blen k + blen v))).
      destruct (check_meta kvs _) as [m|w].
      * destruct IH as [IH ->]. split; [by constructor|]. unfold meta_bytes. cbn [foldr fst snd]. lia.
      * intros H. inversion H; subst. done.
Qed.

Lemma meta_bytes_perm kvs kvs' : kvs ≡ₚ kvs' -> meta_bytes kvs = meta_bytes kvs'.
Proof. unfold meta_bytes. induction 1; cbn [foldr]; lia. Qed.

Lemma meta_list_Forall m kvs :
  kvs ≡ₚ map_to_list m ->
  Forall (fun kv => meta_pair_spec kv.1 kv.2) kvs <-> map_Forall meta_pair_spec m.
Proof. intros ->. rewrite map_Forall_to_list. apply Forall_iff. by intros []. Qed.

Lemma CheckEntry_cases kvs e limit stored :
  kvs ≡ₚ map_to_list (meta_map (eMeta e)) ->
  match CheckEntry_in kvs e limit stored with
  | None => Storable e limit
  | Some (ErrTooLarge se) =>
      Storable e 0 /\ 0 < limit < Size e
      /\ se = MkSizeError (eScope e) (eName e) (Size e) limit (from_option Size (-1) stored)
  | Some (ErrInvalid _) => ~ Storable e 0
  | Some _ => False
  end.
Proof.
  intros Hp. unfold CheckEntry_in, ValidScope.
  destruct (ValidName (eScope e)) eqn:Hs; cbn [negb].
  2: { intros [?%ValidName_iff _ _ _ _ _ _]. congruence. }
  destruct (ValidName (eName e)) eqn:Hn; cbn [negb].
  2: { intros [_ ?%ValidName_iff _ _ _ _ _]. congruence. }
  case_bool_decide as Hc. { by intros [_ _ ? _ _ _ _]. }
  destruct (ValidString (eContent e)) eqn:Hu; cbn [negb].
  2: { intros [_ _ _ ? _ _ _]. congruence. }
  apply ValidName_iff in Hs, Hn.
  pose proof (check_meta_spec kvs 0) as Hm. destruct (check_meta kvs 0) as [mb|w].
  2: { rewrite (meta_list_Forall _ _ Hp) in Hm. by intros [_ _ _ _ ? _ _]. }
  rewrite (meta_list_Forall _ _ Hp), (meta_bytes_perm _ _ Hp) in Hm. destruct Hm as [Hm ->].
  destruct (MaxMetaBytes <? _) eqn:Hsz; bool_hyps.
  { intros [_ _ _ _ _ ? _]. lia. }
  destruct ((0 <? limit) && (limit <? blen (eContent e))) eqn:Hl; bool_hyps.
  - split_and!; [split; auto; lia|done|done|by destruct stored].
  - apply andb_false_iff in Hl. split; auto. unfold Size.
    destruct Hl; bool_hyps; auto.
Qed.

(** An entry [CheckEntry] lets in, for the components that store it. *)
Lemma CheckEntry_None e limit stored : CheckEntry e limit stored = None <-> Storable e limit.
Proof.
  pose proof (CheckEntry_cases _ e limit stored (Permutation_refl _)) as H.
  fold (CheckEntry e limit stored) in H. split.
  - intros E. by rewrite E in H.
  - intros [? ? ? ? ? ? Hsz]. destruct (CheckEntry e limit stored) as [[]|]; try done.
    + destruct H. by split; auto; left.
    + destruct H as (_ & ? & _). lia.
Qed.

(** C40: The verdict of [CheckEntry], whatever order Go iterates the
    metadata in. It accepts exactly the entries the documentation calls
    storable; it reports content over the bound, with the attempted size,
    the limit and the size the entry holds now (-1 for none), exactly for an
    entry with no other fault; every other entry is [ErrInvalid]; and the
    sentinel a caller tests for is the same in every iteration order. *)
Theorem CheckEntry_verdict kvs e limit stored :
  kvs ≡ₚ map_to_list (meta_map (eMeta e)) ->
  match CheckEntry_in kvs e limit stored with
  | None => Storable e limit
  | Some (ErrTooLarge se) =>
      Storable e 0 /\ 0 < limit < Size e
      /\ se = MkSizeError (eScope e) (eName e) (Size e) limit (from_option Size (-1) stored)
  | Some (ErrInvalid _) => ~ Storable e 0
  | Some _ => False
  end
  /\ wraps <$> CheckEntry_in kvs e limit stored = wraps <$> CheckEntry e limit stored.
Proof.
  intros Hp. pose proof (CheckEntry_cases _ e limit stored Hp) as H. split; [exact H|].
  pose proof (CheckEntry_cases _ e limit stored (Permutation_refl _)) as H'.
  fold (CheckEntry e limit stored) in H'.
  assert (Hmono : Storable e limit -> Storable e 0) by (intros []; split; auto; left; lia).
  destruct (CheckEntry_in kvs e limit stored) as [[]|], (CheckEntry e limit stored) as [[]|];
    try done; exfalso; try (destruct H as (? & ? & _)); try (destruct H' as (? & ? & _)); auto;
    match goal with H : Storable e limit |- _ => destruct (st_size _ _ H); lia end.
Qed.

Lemma CheckEntry_verdict_witness :
  let e := MkEntry (bs "user") (bs "style") (bs "Short answers.") (Some meta_xy) [] [] 0 false in
  reverse (map_to_list meta_xy) ≡ₚ map_to_list (meta_map (eMeta e))
  /\ match CheckEntry_in (reverse (map_to_list meta_xy)) e 10 None with
     | Some (ErrTooLarge se) => se = MkSizeError (bs "user") (bs "style") 14 10 (-1)
     | _ => False
     end.
Proof.
  intros e. assert (Hp : reverse (map_to_list meta_xy) ≡ₚ map_to_list (meta_map (eMeta e))).
  { exact (reverse_Permutation (map_to_list meta_xy)). }
  split; [exact Hp|].
  pose proof (CheckEntry_verdict _ e 10 None Hp) as [H _]. vm_compute in H |- *. apply H.
Defined.

(** [ValidName] accepts exactly the kebab-case grammar its comment
    states, non-empty groups of lowercase ASCII letters and digits joined by
    single hyphens, at most [MaxNameBytes] bytes in all; so a name holds none
    of the bytes a path, a journal key, a frontmatter line or a part ID is
    split at. *)
Theorem ValidName_grammar s :
  (ValidName s = true <->
   (exists gs, gs <> [] /\ Forall group gs /\ s = Join (bs "-") gs) /\ blen s <= MaxNameBytes)
  /\ (ValidName s = true -> Forall (fun c => c ∉ s) (bs "/:= .") /\ ContainsAny s line_ends = false).
Proof.
  split; [apply ValidName_iff|]. intros Hs. split.
  - repeat constructor; by apply ValidName_no_byte.
  - apply ContainsAny_spec. intros c Hc. unfold line_ends. rewrite !elem_of_cons.
    intros [->|[->|?%not_elem_of_nil]]; [| |done]; revert Hc; by apply ValidName_no_byte.
Qed.
