(* ===== verification/Store.v ===== *)
(** * The store contract: the [Store] interface of memory.go

    A store is specified by its journal alone: the journal is a list of full
    states, so what a store holds is what replaying it gives.  [spec_put] and
    [spec_forget] append one record or refuse; [Store] is the interface with
    the laws that make an implementation one of this specification, proved
    against by the clients and discharged by each implementation. *)

From S2P Require Import Prelude GoStd Sha256 Memory.

(** ** The state a journal records *)

(** An entry is named by its scope and its name in it. *)
Abbreviation ref := (bytes * bytes)%type.

Definition entry_ref (e : Entry) : ref := (eScope e, eName e).
Definition change_ref (c : Change) : ref := entry_ref (cEntry c).

(** A tombstone removes the entry; any other record is its new state. *)
Definition apply_change (live : gmap ref Entry) (c : Change) : gmap ref Entry :=
  if eDeleted (cEntry c) then delete (change_ref c) live
  else <[change_ref c := cEntry c]> live.

Definition replay (j : list Change) : gmap ref Entry := foldl apply_change ∅ j.

(** The last record of a journal for one entry. *)
Definition last_for (j : list Change) (r : ref) : option Change :=
  last (filter (fun c => change_ref c = r) j).

(** What a record leaves live. *)
Definition live_of (o : option Change) : option Entry :=
  match o with
  | Some c => if eDeleted (cEntry c) then None else Some (cEntry c)
  | None => None
  end.

(** ** The operations *)

(** [e] as a store writes it: an empty meta is nil, and the hashes, the
    time and the flag are the store's. *)
Definition stamped (now : Z) (e : Entry) : Entry :=
  MkEntry (eScope e) (eName e) (eContent e)
    (if decide (size (meta_map (eMeta e)) = O) then None else eMeta e)
    (Hash (eContent e)) (MetaHash (eMeta e)) now false.

(** The record a tombstone carries: the last state, deleted at [now]. *)
Definition tombstone (now : Z) (e : Entry) : Entry :=
  MkEntry (eScope e) (eName e) (eContent e) (eMeta e) (eHash e) (eMetaHash e) now true.

Definition next_seq (j : list Change) : Z := blen j + 1.

Definition spec_get (j : list Change) (scope name : bytes) : res error Entry :=
  check? CheckRef scope name in
  match replay j !! (scope, name) with
  | Some e => Ok e
  | None => Err (ErrNotFound scope name)
  end.

(** The live entries of a scope, by name. *)
Definition live_in (live : gmap ref Entry) (scope : bytes) : list Entry :=
  sort_on eName (map_to_list (filter (fun re : ref * Entry => re.1.1 = scope) live)).*2.

Definition spec_list (j : list Change) (scope : bytes) : res error (list Entry) :=
  check? CheckScope scope in Ok (live_in (replay j) scope).

Definition spec_put (max : Z) (j : list Change) (now : Z) (session : bytes) (e : Entry)
    (opts : list PutOption) : res error Change :=
  let o := ResolvePutOptions opts in
  let stored := replay j !! entry_ref e in
  check? CheckEntry e max stored in
  check? PutOptions_Check o (eScope e) (eName e) stored in
  Ok (MkChange (next_seq j) (stamped now e) (BaseFor o stored) (have_hash stored) session [] now).

Definition spec_forget (j : list Change) (now : Z) (session scope name : bytes) : res error Change :=
  check? CheckRef scope name in
  match replay j !! (scope, name) with
  | Some e => Ok (MkChange (next_seq j) (tombstone now e) (eHash e) (eHash e) session [] now)
  | None => Err (ErrNotFound scope name)
  end.

(** The journal after an operation that returned [r]. *)
Definition appended (j : list Change) (r : res error Change) : list Change :=
  match r with Ok c => j ++ [c] | Err _ => j end.

(** ** The interface *)

(** What a journal read yields in the place of a record it cannot read. *)
Inductive jerror := Damaged (line : Z).

Class Store (S : Type) := {
  MaxEntryBytes : S -> Z;
  Get : S -> bytes -> bytes -> res error Entry;
  List_ : S -> bytes -> res error (list Entry);
  Put : S -> Z -> bytes -> Entry -> list PutOption -> S * res error Change;
  Forget : S -> Z -> bytes -> bytes -> bytes -> S * res error Change;
  Journal : S -> Z -> list (res jerror Change);
  LastSeq : S -> Z
}.

(** The laws: a representation invariant the operations keep, and the
    journal each state stands for, on which every operation acts as the
    specification does. *)
Class StoreLaws (S : Type) `{Store S} := {
  store_ok : S -> Prop;
  store_journal : S -> list Change;
  law_get s scope name : store_ok s -> Get s scope name = spec_get (store_journal s) scope name;
  law_list s scope : store_ok s -> List_ s scope = spec_list (store_journal s) scope;
  law_put s now session e opts :
    store_ok s ->
    let (s', r) := Put s now session e opts in
    r = spec_put (MaxEntryBytes s) (store_journal s) now session e opts
    /\ store_journal s' = appended (store_journal s) r
    /\ MaxEntryBytes s' = MaxEntryBytes s /\ store_ok s';
  law_forget s now session scope name :
    store_ok s ->
    let (s', r) := Forget s now session scope name in
    r = spec_forget (store_journal s) now session scope name
    /\ store_journal s' = appended (store_journal s) r
    /\ MaxEntryBytes s' = MaxEntryBytes s /\ store_ok s';
  law_journal s after :
    store_ok s -> 0 <= after ->
    Journal s after = Ok <$> filter (fun c => after < cSeq c) (store_journal s);
  law_last_seq s : store_ok s -> LastSeq s = blen (store_journal s)
}.

(** ** Reachable journals *)

(** The journals a store of bound [max] can come to hold, by any
    interleaving of writes from any number of sessions: a store runs one
    operation at a time under its lock. *)
Inductive reachable (max : Z) : list Change -> Prop :=
| reach_nil : reachable max []
| reach_put j now session e opts c :
    reachable max j -> spec_put max j now session e opts = Ok c -> reachable max (j ++ [c])
| reach_forget j now session scope name c :
    reachable max j -> spec_forget j now session scope name = Ok c -> reachable max (j ++ [c]).

#[export] Hint Constructors reachable : mem.

(** ** Replay *)

Lemma replay_snoc j c : replay (j ++ [c]) = apply_change (replay j) c.
Proof. unfold replay. by rewrite foldl_app. Qed.

Lemma last_for_snoc j c r :
  last_for (j ++ [c]) r = if decide (change_ref c = r) then Some c else last_for j r.
Proof.
  unfold last_for. rewrite filter_app. case_decide.
  - rewrite filter_cons_True, filter_nil by done. by rewrite last_snoc.
  - rewrite filter_cons_False, filter_nil by done. by rewrite app_nil_r.
Qed.

(** A journal's state for an entry is its last record for it. *)
Lemma replay_last j r : replay j !! r = live_of (last_for j r).
Proof.
  induction j as [|c j IH] using rev_ind; [done|].
  rewrite replay_snoc, last_for_snoc. unfold apply_change. case_decide as Hr.
  - subst. cbn. destruct (eDeleted (cEntry c)); by rewrite ?lookup_delete_eq, ?lookup_insert_eq.
  - destruct (eDeleted (cEntry c)); by rewrite ?lookup_delete_ne, ?lookup_insert_ne.
Qed.

Lemma replay_ref j r e : replay j !! r = Some e -> entry_ref e = r /\ eDeleted e = false.
Proof.
  rewrite replay_last. unfold last_for. intros H.
  destruct (last _) as [c|] eqn:El; [|done]. cbn in H.
  destruct (eDeleted (cEntry c)) eqn:Ed; simplify_eq. split; [|done].
  apply last_Some_elem_of, list_elem_of_filter in El. naive_solver.
Qed.

(** ** Lists *)

Definition keyed (live : gmap ref Entry) : Prop := forall r e, live !! r = Some e -> entry_ref e = r.

Lemma replay_keyed j : keyed (replay j).
Proof. intros r e H. by apply replay_ref in H as [? _]. Qed.

#[export] Hint Resolve replay_keyed : mem.

(** The values of a map that names them have distinct names. *)
Lemma live_names_NoDup live scope :
  keyed live ->
  NoDup (eName <$> (map_to_list (filter (fun re : ref * Entry => re.1.1 = scope) live)).*2).
Proof.
  intros Hk. rewrite <- list_fmap_compose. apply NoDup_fmap_2_strong; [|apply NoDup_map_to_list].
  intros [[s n] e] [[s' n'] e'] [H ?]%elem_of_map_to_list%map_lookup_filter_Some
    [H' ?]%elem_of_map_to_list%map_lookup_filter_Some En.
  cbn in *. subst. pose proof (Hk _ _ H) as E. pose proof (Hk _ _ H') as E'.
  unfold entry_ref in *. simplify_eq. rewrite En in H. by simplify_eq.
Qed.

Lemma live_in_elem live scope e :
  keyed live -> e ∈ live_in live scope <-> live !! (scope, eName e) = Some e.
Proof.
  intros Hk. unfold live_in. rewrite sort_on_perm, list_elem_of_fmap. split.
  - intros ([r e'] & -> & [H <-]%elem_of_map_to_list%map_lookup_filter_Some).
    pose proof (Hk _ _ H) as E. destruct r as [s n]. unfold entry_ref in E. cbn in *. by simplify_eq.
  - intros H. exists ((scope, eName e), e). split; [done|].
    apply elem_of_map_to_list, map_lookup_filter_Some. done.
Qed.

(** A list of the scope's entries with distinct names is the listing, once
    sorted. *)
Lemma live_in_unique live scope l :
  keyed live -> NoDup (eName <$> l) ->
  (forall e, e ∈ l <-> live !! (scope, eName e) = Some e) -> sort_on eName l = live_in live scope.
Proof.
  intros Hk Hnd Hl. apply (sort_on_unique eName); [|apply sort_on_sorted|].
  - by apply live_names_NoDup.
  - rewrite sort_on_perm. apply NoDup_Permutation.
    + by eapply NoDup_fmap_1.
    + eapply NoDup_fmap_1, live_names_NoDup, Hk.
    + intros e. rewrite Hl, <- (live_in_elem live scope e Hk). unfold live_in. by rewrite sort_on_perm.
Qed.

(** ** The invariant of reachable journals *)

(** What is true of a record [c] appended to the journal [j]: it takes the
    next number, it chains to the last record for its entry, its hashes are
    those of what it holds, which the store would take, and a tombstone
    holds the state it removed. *)
Record change_wf (max : Z) (j : list Change) (c : Change) : Prop := {
  wf_seq : cSeq c = next_seq j;
  wf_replaced : cReplaced c = have_hash (live_of (last_for j (change_ref c)));
  wf_hash : eHash (cEntry c) = Hash (eContent (cEntry c));
  wf_meta_hash : eMetaHash (cEntry c) = MetaHash (eMeta (cEntry c));
  wf_storable : Storable (cEntry c) max;
  wf_tombstone : eDeleted (cEntry c) = true ->
    exists e, live_of (last_for j (change_ref c)) = Some e /\ cEntry c = tombstone (cAt c) e;
  wf_at : eUpdated (cEntry c) = cAt c
}.

Definition journal_wf (max : Z) (j : list Change) : Prop :=
  forall i c, j !! i = Some c -> change_wf max (take i j) c.

Lemma Storable_same e e' max :
  eScope e = eScope e' -> eName e = eName e' -> eContent e = eContent e' ->
  meta_map (eMeta e) = meta_map (eMeta e') -> Storable e max -> Storable e' max.
Proof.
  intros Hs Hn Hc Hm []. split; rewrite <- ?Hs, <- ?Hn, <- ?Hc, <- ?Hm; try done.
  unfold Size in *. by rewrite <- Hc.
Qed.

Lemma meta_map_stamped now e : meta_map (eMeta (stamped now e)) = meta_map (eMeta e).
Proof. unfold stamped. cbn. case_decide as Hz; [|done]. by apply map_size_empty_inv in Hz as ->. Qed.

Lemma MetaHash_map m m' : meta_map m = meta_map m' -> MetaHash m = MetaHash m'.
Proof. unfold MetaHash. by intros ->. Qed.

Lemma live_wf max j r e :
  journal_wf max j -> replay j !! r = Some e ->
  eHash e = Hash (eContent e) /\ eMetaHash e = MetaHash (eMeta e) /\ Storable e max
  /\ entry_ref e = r /\ eDeleted e = false.
Proof.
  intros Hj Hr. destruct (replay_ref _ _ _ Hr) as [<- Hd]. rewrite replay_last in Hr.
  destruct (last_for j (entry_ref e)) as [c|] eqn:E; [|done]. cbn in Hr.
  destruct (eDeleted (cEntry c)); [done|]. injection Hr as <-.
  unfold last_for in E. apply last_Some_elem_of, list_elem_of_filter in E as [_ Hin].
  apply list_elem_of_lookup in Hin as [i Hi]. destruct (Hj i c Hi). done.
Qed.

Lemma spec_put_wf max j now session e opts c :
  spec_put max j now session e opts = Ok c -> change_wf max j c.
Proof.
  unfold spec_put. destruct (CheckEntry e max _) eqn:Ec; [done|].
  destruct (PutOptions_Check _ _ _ _); [done|]. intros [= <-].
  apply CheckEntry_None in Ec. split; cbn; try done.
  - by rewrite <- replay_last.
  - apply MetaHash_map. symmetry. apply (meta_map_stamped now e).
  - eapply Storable_same, Ec; try done. symmetry. apply meta_map_stamped.
Qed.

Lemma spec_forget_wf max j now session scope name c :
  journal_wf max j -> spec_forget j now session scope name = Ok c -> change_wf max j c.
Proof.
  intros Hj. unfold spec_forget. destruct (CheckRef scope name); [done|].
  destruct (replay j !! (scope, name)) as [e|] eqn:Er; [|done]. intros [= <-].
  destruct (live_wf _ _ _ _ Hj Er) as (Hh & Hm & Hs & Href & _).
  assert (live_of (last_for j (entry_ref e)) = Some e) by by rewrite Href, <- replay_last.
  split; cbn; try done.
  - unfold change_ref. cbn. change (entry_ref (tombstone now e)) with (entry_ref e).
    rewrite H. done.
  - by eapply Storable_same, Hs.
  - intros _. unfold change_ref. cbn. change (entry_ref (tombstone now e)) with (entry_ref e). eauto.
Qed.

Lemma journal_wf_snoc max j c : journal_wf max j -> change_wf max j c -> journal_wf max (j ++ [c]).
Proof.
  intros Hj Hc i d [Hi|[Hi Hd]]%lookup_app_Some.
  - rewrite take_app_le by (apply lookup_lt_Some in Hi; lia). auto.
  - apply list_lookup_singleton_Some in Hd as [Hz <-].
    replace i with (length j) by lia. by rewrite take_app_length.
Qed.

Lemma reachable_wf max j : reachable max j -> journal_wf max j.
Proof.
  induction 1; [by intros i c ?| |].
  - apply journal_wf_snoc; [done|]. by eapply spec_put_wf.
  - apply journal_wf_snoc; [done|]. by eapply spec_forget_wf.
Qed.

#[export] Hint Resolve reachable_wf : mem.

Lemma journal_wf_seq max j i c : journal_wf max j -> j !! i = Some c -> cSeq c = Z.of_nat i + 1.
Proof.
  intros Hj Hi. rewrite (wf_seq _ _ _ (Hj i c Hi)). unfold next_seq, blen.
  rewrite length_take_le; [done|]. apply lookup_lt_Some in Hi. lia.
Qed.

(** The journal is numbered from 1 with no gap, so the suffix past an index
    is the records past the number. *)
Lemma filter_seq_drop (j : list Change) (n after : Z) :
  (forall i c, j !! i = Some c -> cSeq c = n + Z.of_nat i) ->
  filter (fun c => after < cSeq c) j = drop (Z.to_nat (after + 1 - n)) j.
Proof.
  revert n. induction j as [|c j IH]; intros n Hn; [by rewrite drop_nil|].
  assert (Hc : cSeq c = n) by (rewrite (Hn 0%nat c eq_refl); lia).
  assert (Hj : forall i d, j !! i = Some d -> cSeq d = n + 1 + Z.of_nat i).
  { intros i d Hi. rewrite (Hn (S i) d Hi). lia. }
  destruct (decide (after < n)).
  - replace (Z.to_nat (after + 1 - n)) with 0%nat by lia. rewrite filter_cons_True by lia.
    rewrite (IH (n + 1)) by done. replace (Z.to_nat (after + 1 - (n + 1))) with 0%nat by lia. done.
  - replace (Z.to_nat (after + 1 - n)) with (S (Z.to_nat (after + 1 - (n + 1)))) by lia.
    rewrite filter_cons_False by lia. by rewrite (IH (n + 1)).
Qed.

Lemma filter_seq_drop' max j after :
  journal_wf max j -> 0 <= after -> filter (fun c => after < cSeq c) j = drop (Z.to_nat after) j.
Proof.
  intros Hj Ha. rewrite (filter_seq_drop _ 1); [f_equal; lia|].
  intros i c Hi. rewrite (journal_wf_seq _ _ _ _ Hj Hi). lia.
Qed.

(** ** Traces: what a caller can observe of a store *)

Inductive op :=
| OGet (scope name : bytes)
| OList (scope : bytes)
| OPut (now : Z) (session : bytes) (e : Entry) (opts : list PutOption)
| OForget (now : Z) (session scope name : bytes)
| OJournal (after : Z)
| OLastSeq
| OMaxEntryBytes.

Inductive obs :=
| RGet (r : res error Entry)
| RList (r : res error (list Entry))
| RWrite (r : res error Change)
| RJournal (l : list (res jerror Change))
| RNumber (n : Z).

(** A cursor is a [uint64]. *)
Definition op_ok (o : op) : Prop := match o with OJournal after => 0 <= after | _ => True end.

Section Run.
Context {S : Type} `{Store S}.

Definition do (s : S) (o : op) : S * obs :=
  match o with
  | OGet scope name => (s, RGet (Get s scope name))
  | OList scope => (s, RList (List_ s scope))
  | OPut now session e opts => let (s', r) := Put s now session e opts in (s', RWrite r)
  | OForget now session scope name => let (s', r) := Forget s now session scope name in (s', RWrite r)
  | OJournal after => (s, RJournal (Journal s after))
  | OLastSeq => (s, RNumber (LastSeq s))
  | OMaxEntryBytes => (s, RNumber (MaxEntryBytes s))
  end.

Fixpoint run (s : S) (ops : list op) : S * list obs :=
  match ops with
  | [] => (s, [])
  | o :: ops' =>
      let (s1, r) := do s o in
      let (s2, rs) := run s1 ops' in (s2, r :: rs)
  end.
End Run.

(** The specification as a store: its bound and its journal. *)
Record Spec := MkSpec { spMax : Z; spJournal : list Change }.

#[export] Instance Spec_store : Store Spec := {
  MaxEntryBytes := spMax;
  Get s := spec_get (spJournal s);
  List_ s := spec_list (spJournal s);
  Put s now session e opts :=
    let r := spec_put (spMax s) (spJournal s) now session e opts in
    (MkSpec (spMax s) (appended (spJournal s) r), r);
  Forget s now session scope name :=
    let r := spec_forget (spJournal s) now session scope name in
    (MkSpec (spMax s) (appended (spJournal s) r), r);
  Journal s after := Ok <$> filter (fun c => after < cSeq c) (spJournal s);
  LastSeq s := blen (spJournal s)
}.

Section Refines.
Context {S : Type} `{StoreLaws S}.

(** The specification state an implementation state stands for. *)
Definition abs (s : S) : Spec := MkSpec (MaxEntryBytes s) (store_journal s).

(** One operation: the same answer, and the states still correspond. *)
Lemma do_refines s o :
  store_ok s -> op_ok o ->
  store_ok (do s o).1 /\ do (abs s) o = (abs (do s o).1, (do s o).2).
Proof.
  intros Hs Ho. destruct o; cbn.
  - by rewrite (law_get _ _ _ Hs).
  - by rewrite (law_list _ _ Hs).
  - pose proof (law_put s now session e opts Hs) as L. destruct (Put s now session e opts) as [s' r].
    destruct L as (-> & Hj & Hm & Hok). cbn. unfold abs. by rewrite Hj, Hm.
  - pose proof (law_forget s now session scope name Hs) as L.
    destruct (Forget s now session scope name) as [s' r].
    destruct L as (-> & Hj & Hm & Hok). cbn. unfold abs. by rewrite Hj, Hm.
  - by rewrite (law_journal _ _ Hs Ho).
  - by rewrite (law_last_seq _ Hs).
  - done.
Qed.

Lemma run_refines s ops :
  store_ok s -> Forall op_ok ops ->
  store_ok (run s ops).1 /\ run (abs s) ops = (abs (run s ops).1, (run s ops).2).
Proof.
  intros Hs Hops. revert s Hs. induction Hops as [|o ops Ho _ IH]; intros s Hs; [done|].
  destruct (do_refines s o Hs Ho) as [Hok Hd]. cbn [run]. rewrite Hd.
  destruct (do s o) as [s1 r]. cbn in Hok |- *. destruct (IH s1 Hok) as [Hok' Hr]. rewrite Hr.
  by destruct (run s1 ops) as [s2 rs].
Qed.

(** A store started with nothing in its journal only reaches reachable
    journals. *)
Lemma do_reachable s o :
  store_ok s -> op_ok o -> reachable (MaxEntryBytes s) (store_journal s) ->
  reachable (MaxEntryBytes (do s o).1) (store_journal (do s o).1).
Proof.
  intros Hs Ho Hr. destruct o; cbn; try done.
  - pose proof (law_put s now session e opts Hs) as L. destruct (Put s now session e opts) as [s' r].
    destruct L as (Hr' & Hj & Hm & _). cbn. rewrite Hj, Hm. destruct r; cbn; [|done].
    by eapply reach_put.
  - pose proof (law_forget s now session scope name Hs) as L.
    destruct (Forget s now session scope name) as [s' r].
    destruct L as (Hr' & Hj & Hm & _). cbn. rewrite Hj, Hm. destruct r; cbn; [|done].
    by eapply reach_forget.
Qed.

Lemma run_reachable s ops :
  store_ok s -> Forall op_ok ops -> reachable (MaxEntryBytes s) (store_journal s) ->
  reachable (MaxEntryBytes (run s ops).1) (store_journal (run s ops).1).
Proof.
  intros Hs Hops. revert s Hs. induction Hops as [|o ops Ho _ IH]; intros s Hs Hr; [done|].
  destruct (do_refines s o Hs Ho) as [Hok _]. pose proof (do_reachable s o Hs Ho Hr) as Hr'.
  cbn [run]. destruct (do s o) as [s1 r]. specialize (IH s1 Hok Hr').
  by destruct (run s1 ops) as [s2 rs].
Qed.
End Refines.
