(* ===== verification/MemStore.v ===== *)
(** * The in-memory store: memstore.go

    [MemStore] keeps the live entries in nested maps beside the journal.
    Its operations run under one mutex, so an interleaving of calls is a
    sequence of these steps.  It is proved an implementation of the store
    contract: after any operation the maps hold what the journal replays to. *)

From S2P Require Import Prelude GoStd Sha256 Memory Store.

Record MemStore := MkMemStore {
  msMax : Z;
  msLive : gmap bytes (gmap bytes Entry);
  msJournal : list Change
}.

(** [NewMemStore] with the bound [WithMaxEntryBytes] set. *)
Definition NewMemStore (max : Z) : MemStore := MkMemStore max ∅ [].

(** [m.live[scope]]: a scope never written reads as a nil, empty map. *)
Definition scope_map (m : MemStore) (scope : bytes) : gmap bytes Entry := default ∅ (msLive m !! scope).

Definition cloneEntry (e : Entry) : Entry :=
  MkEntry (eScope e) (eName e) (eContent e)
    (if decide (size (meta_map (eMeta e)) = O) then None else eMeta e)
    (eHash e) (eMetaHash e) (eUpdated e) (eDeleted e).

Definition mem_get (m : MemStore) (scope name : bytes) : res error Entry :=
  check? CheckRef scope name in
  match scope_map m scope !! name with
  | None => Err (ErrNotFound scope name)
  | Some e => Ok (cloneEntry e)
  end.

(** The map is iterated in some order and the copies sorted by name. *)
Definition listLocked (m : MemStore) (scope : bytes) : list Entry :=
  sort_on eName (cloneEntry <$> (map_to_list (scope_map m scope)).*2).

Definition mem_list (m : MemStore) (scope : bytes) : res error (list Entry) :=
  check? CheckScope scope in Ok (listLocked m scope).

(** [appendLocked], with the live maps its caller has written: the record
    stored and the caller's own copy. *)
Definition appendLocked (m : MemStore) (live : gmap bytes (gmap bytes Entry)) (session : bytes)
    (e : Entry) (prev replaced : bytes) (at_ : Z) : MemStore * Change :=
  let c := MkChange (blen (msJournal m) + 1) (cloneEntry e) prev replaced session [] at_ in
  (MkMemStore (msMax m) live (msJournal m ++ [c]),
   MkChange (cSeq c) (cloneEntry (cEntry c)) (cPrev c) (cReplaced c) (cSession c) (cSource c) (cAt c)).

(** The fields [Put] sets on the copy it stores. *)
Definition written (now : Z) (e : Entry) : Entry :=
  MkEntry (eScope e) (eName e) (eContent e) (eMeta e) (Hash (eContent e)) (MetaHash (eMeta e)) now false.

Definition mem_put (m : MemStore) (now : Z) (session : bytes) (e : Entry) (opts : list PutOption)
    : MemStore * res error Change :=
  let o := ResolvePutOptions opts in
  let stored := scope_map m (eScope e) !! eName e in
  match CheckEntry e (msMax m) stored with
  | Some err => (m, Err err)
  | None =>
      match PutOptions_Check o (eScope e) (eName e) stored with
      | Some err => (m, Err err)
      | None =>
          let e' := written now (cloneEntry e) in
          let live := <[eScope e := <[eName e := e']> (scope_map m (eScope e))]> (msLive m) in
          let replaced := match stored with Some s => eHash s | None => [] end in
          let (m', c) := appendLocked m live session e' (BaseFor o stored) replaced now in
          (m', Ok c)
      end
  end.

Definition mem_forget (m : MemStore) (now : Z) (session scope name : bytes)
    : MemStore * res error Change :=
  match CheckRef scope name with
  | Some err => (m, Err err)
  | None =>
      match scope_map m scope !! name with
      | None => (m, Err (ErrNotFound scope name))
      | Some e =>
          let live := <[scope := delete name (scope_map m scope)]> (msLive m) in
          let e' := MkEntry (eScope e) (eName e) (eContent e) (eMeta e) (eHash e) (eMetaHash e) now true in
          let (m', c) := appendLocked m live session e' (eHash e) (eHash e) now in
          (m', Ok c)
      end
  end.

(** The clone of the journal past the cursor, read as a [uint64] index. *)
Definition mem_journal (m : MemStore) (after : Z) : list (res jerror Change) :=
  let changes := if after <? blen (msJournal m) then drop (Z.to_nat after) (msJournal m) else [] in
  (fun c => Ok (MkChange (cSeq c) (cloneEntry (cEntry c)) (cPrev c) (cReplaced c)
                  (cSession c) (cSource c) (cAt c))) <$> changes.

Definition mem_last_seq (m : MemStore) : Z := blen (msJournal m).

#[export] Instance MemStore_store : Store MemStore := {
  MaxEntryBytes := msMax;
  Get := mem_get;
  List_ := mem_list;
  Put := mem_put;
  Forget := mem_forget;
  Journal := mem_journal;
  LastSeq := mem_last_seq
}.

(** ** The representation invariant *)

(** The maps are what the journal replays to, every record holds its own
    copy, and the journal is one writes through the store made. *)
Record mem_ok (m : MemStore) : Prop := {
  mem_live : forall scope name, scope_map m scope !! name = replay (msJournal m) !! (scope, name);
  mem_clones : Forall (fun c => cloneEntry (cEntry c) = cEntry c) (msJournal m);
  mem_reach : reachable (msMax m) (msJournal m)
}.

Lemma cloneEntry_idem e : cloneEntry (cloneEntry e) = cloneEntry e.
Proof.
  unfold cloneEntry. cbn. destruct (decide (size (meta_map (eMeta e)) = 0%nat)); [done|].
  by rewrite decide_False.
Qed.

Lemma cloneEntry_stamped now e : cloneEntry (stamped now e) = stamped now e.
Proof.
  unfold cloneEntry, stamped. cbn. destruct (decide (size (meta_map (eMeta e)) = 0%nat)); [done|].
  by rewrite decide_False.
Qed.

Lemma written_stamped now e : written now (cloneEntry e) = stamped now e.
Proof. unfold written, stamped. cbn. f_equal. apply MetaHash_map. apply (meta_map_stamped 0 e). Qed.

Lemma appendLocked_clone m live session e prev replaced at_ :
  cloneEntry e = e ->
  appendLocked m live session e prev replaced at_
  = let c := MkChange (next_seq (msJournal m)) e prev replaced session [] at_ in
    (MkMemStore (msMax m) live (msJournal m ++ [c]), c).
Proof. unfold appendLocked. cbn. intros He. by rewrite !He. Qed.

Lemma clone_live m r e : mem_ok m -> replay (msJournal m) !! r = Some e -> cloneEntry e = e.
Proof.
  intros [_ Hc _]. rewrite replay_last. unfold last_for.
  destruct (last _) as [c|] eqn:E; [|done]. cbn. destruct (eDeleted _); [done|]. intros [= <-].
  apply last_Some_elem_of, list_elem_of_filter in E as [_ Hin]. rewrite Forall_forall in Hc. auto.
Qed.

Lemma NewMemStore_ok max : mem_ok (NewMemStore max).
Proof.
  split; [|constructor|constructor]. intros scope name. unfold scope_map, NewMemStore. cbn. by rewrite !lookup_empty.
Qed.

Lemma scope_map_insert m max j scope x s :
  scope_map (MkMemStore max (<[scope := x]> (msLive m)) j) s = if decide (scope = s) then x else scope_map m s.
Proof. unfold scope_map. cbn. rewrite lookup_insert. by case_decide. Qed.

(** Writing [e] into its scope's map keeps the maps the replayed journal. *)
Lemma mem_ok_write m c x :
  mem_ok m -> reachable (msMax m) (msJournal m ++ [c]) -> cloneEntry (cEntry c) = cEntry c ->
  x = (if eDeleted (cEntry c) then delete (eName (cEntry c)) else <[eName (cEntry c) := cEntry c]>)
        (scope_map m (eScope (cEntry c))) ->
  mem_ok (MkMemStore (msMax m) (<[eScope (cEntry c) := x]> (msLive m)) (msJournal m ++ [c])).
Proof.
  intros Hm Hr Hc ->. split; [|cbn; apply Forall_app; split; [apply Hm|by constructor]|done].
  intros scope name. rewrite scope_map_insert. cbn [msJournal]. rewrite replay_snoc.
  unfold apply_change, change_ref, entry_ref.
  destruct (decide (eScope (cEntry c) = scope)) as [<-|Hne], (eDeleted (cEntry c)).
  - destruct (decide (eName (cEntry c) = name)) as [<-|Hn].
    + by rewrite !lookup_delete_eq.
    + rewrite !lookup_delete_ne by congruence. apply Hm.
  - destruct (decide (eName (cEntry c) = name)) as [<-|Hn].
    + by rewrite !lookup_insert_eq.
    + rewrite !lookup_insert_ne by congruence. apply Hm.
  - rewrite lookup_delete_ne by congruence. apply Hm.
  - rewrite lookup_insert_ne by congruence. apply Hm.
Qed.

(** ** Each operation is the contract's *)

Lemma mem_get_spec m scope name : mem_ok m -> mem_get m scope name = spec_get (msJournal m) scope name.
Proof.
  intros Hm. unfold mem_get, spec_get. destruct (CheckRef scope name); [done|].
  rewrite (mem_live _ Hm). destruct (replay _ !! _) eqn:E; [|done]. by rewrite (clone_live _ _ _ Hm E).
Qed.

Lemma mem_list_spec m scope : mem_ok m -> mem_list m scope = spec_list (msJournal m) scope.
Proof.
  intros Hm. unfold mem_list, spec_list. destruct (CheckScope scope); [done|]. f_equal.
  assert (Hin : forall x, x ∈ map_to_list (scope_map m scope) ->
      replay (msJournal m) !! (scope, x.1) = Some x.2 /\ cloneEntry x.2 = x.2 /\ eName x.2 = x.1).
  { intros [n e] H%elem_of_map_to_list. rewrite (mem_live _ Hm) in H. cbn.
    split_and!; [done|by eapply clone_live|]. apply replay_ref in H as [[=] _]. done. }
  assert (Hn : (eName ∘ cloneEntry) <$> (map_to_list (scope_map m scope)).*2
               = (map_to_list (scope_map m scope)).*1).
  { rewrite <- list_fmap_compose. apply list_fmap_ext. intros i x Hx%list_elem_of_lookup_2.
    by destruct (Hin _ Hx) as (_ & _ & E). }
  apply live_in_unique; [apply replay_keyed| |].
  - rewrite <- list_fmap_compose, Hn. apply NoDup_fst_map_to_list.
  - intros e. rewrite list_elem_of_fmap. setoid_rewrite list_elem_of_fmap. split.
    + intros (e' & -> & x & -> & Hx). destruct (Hin _ Hx) as (H & Hc & E). by rewrite Hc, E.
    + intros He. exists e. split; [by rewrite (clone_live _ _ _ Hm He)|].
      exists (eName e, e). by rewrite elem_of_map_to_list, (mem_live _ Hm).
Qed.

(** What a write returns and leaves, when it appends [c]. *)
Lemma mem_write_ok m c x :
  mem_ok m -> reachable (msMax m) (msJournal m ++ [c]) -> cloneEntry (cEntry c) = cEntry c ->
  x = (if eDeleted (cEntry c) then delete (eName (cEntry c)) else <[eName (cEntry c) := cEntry c]>)
        (scope_map m (eScope (cEntry c))) ->
  let m' := MkMemStore (msMax m) (<[eScope (cEntry c) := x]> (msLive m)) (msJournal m ++ [c]) in
  msJournal m' = appended (msJournal m) (Ok c) /\ msMax m' = msMax m /\ mem_ok m'.
Proof. intros. split_and!; [done..|]. by apply mem_ok_write. Qed.

Lemma mem_put_spec m now session e opts :
  mem_ok m ->
  let (m', r) := mem_put m now session e opts in
  r = spec_put (msMax m) (msJournal m) now session e opts
  /\ msJournal m' = appended (msJournal m) r /\ msMax m' = msMax m /\ mem_ok m'.
Proof.
  intros Hm. unfold mem_put. rewrite (mem_live _ Hm), written_stamped, appendLocked_clone
    by apply cloneEntry_stamped.
  destruct (spec_put (msMax m) (msJournal m) now session e opts) as [c|err] eqn:Es;
    pose proof Es as Es'; unfold spec_put, entry_ref in Es';
    destruct (CheckEntry _ _ _); try (by simplify_eq);
    destruct (PutOptions_Check _ _ _ _); simplify_eq; [|done].
  split; [done|]. apply (mem_write_ok m (MkChange _ (stamped now e) _ _ _ _ _)); try done.
  - eapply reach_put; [apply Hm|exact Es].
  - apply cloneEntry_stamped.
Qed.

Lemma mem_forget_spec m now session scope name :
  mem_ok m ->
  let (m', r) := mem_forget m now session scope name in
  r = spec_forget (msJournal m) now session scope name
  /\ msJournal m' = appended (msJournal m) r /\ msMax m' = msMax m /\ mem_ok m'.
Proof.
  intros Hm. unfold mem_forget. rewrite (mem_live _ Hm).
  destruct (spec_forget (msJournal m) now session scope name) as [c|err] eqn:Es;
    pose proof Es as Es'; unfold spec_forget in Es';
    destruct (CheckRef _ _); try (by simplify_eq);
    destruct (replay (msJournal m) !! (scope, name)) as [e|] eqn:Er; simplify_eq; [|done].
  change (MkEntry _ _ _ _ _ _ now true) with (tombstone now e).
  assert (Hc : cloneEntry (tombstone now e) = tombstone now e).
  { pose proof (f_equal eMeta (clone_live _ _ _ Hm Er)) as Hc.
    unfold cloneEntry, tombstone. f_equal. exact Hc. }
  rewrite appendLocked_clone by done. split; [done|].
  destruct (replay_ref _ _ _ Er) as [[= <- <-] _].
  apply (mem_write_ok m (MkChange _ (tombstone now e) _ _ _ _ _)); try done.
  eapply reach_forget; [apply Hm|exact Es].
Qed.

Lemma mem_journal_spec m after :
  mem_ok m -> 0 <= after ->
  mem_journal m after = Ok <$> filter (fun c => after < cSeq c) (msJournal m).
Proof.
  intros Hm Ha. rewrite (filter_seq_drop _ 1).
  2: { intros i c Hi. rewrite (journal_wf_seq _ _ _ _ (reachable_wf _ _ (mem_reach _ Hm)) Hi). lia. }
  replace (after + 1 - 1) with after by lia. unfold mem_journal, blen.
  replace (if after <? _ then _ else []) with (drop (Z.to_nat after) (msJournal m)).
  2: { destruct (after <? _) eqn:E; bool_hyps; [done|]. apply drop_ge. lia. }
  apply list_fmap_ext. intros i c Hi%list_elem_of_lookup_2. f_equal.
  assert (Hc : cloneEntry (cEntry c) = cEntry c).
  { pose proof (mem_clones _ Hm) as H. rewrite Forall_forall in H. apply H.
    rewrite <- (take_drop (Z.to_nat after) (msJournal m)). apply elem_of_app. by right. }
  rewrite Hc. by destruct c.
Qed.

#[export] Instance MemStore_laws : StoreLaws MemStore := {
  store_ok := mem_ok;
  store_journal := msJournal;
  law_get := fun s scope name => mem_get_spec s scope name;
  law_list := fun s scope => mem_list_spec s scope;
  law_put := mem_put_spec;
  law_forget := mem_forget_spec;
  law_journal := mem_journal_spec;
  law_last_seq := fun s _ => eq_refl
}.

Lemma NewMemStore_store_ok max : store_ok (NewMemStore max).
Proof. apply NewMemStore_ok. Qed.

#[export] Hint Resolve NewMemStore_store_ok : mem.
