(* ===== verification/Contract.v ===== *)
(** * What the store contract promises its callers

    The promises memory.go's [Store] interface makes, proved once for every
    store with the laws, and a witness of each on [MemStore]. *)

From S2P Require Import Prelude GoStd Sha256 Memory Store MemStore.

(** ** A store for the witnesses *)

Definition entry (scope name content : string) : Entry :=
  MkEntry (bs scope) (bs name) (bs content) None [] [] 0 false.

Definition demo_ops : list op :=
  [OPut 1 (bs "s1") (entry "user" "style" "Short answers.") [];
   OPut 2 (bs "s2") (entry "user" "tone" "Dry.") [IfHash []];
   OPut 3 (bs "s1") (entry "user" "style" "Long answers.") [BasedOn []];
   OForget 4 [] (bs "user") (bs "tone")].

Definition demo : MemStore := (run (NewMemStore 4096) demo_ops).1.

Lemma demo_ops_ok : Forall op_ok demo_ops.
Proof. repeat constructor. Qed.

Lemma demo_ok : store_ok demo.
Proof.
  exact (proj1 (run_refines (NewMemStore 4096) demo_ops (NewMemStore_store_ok _) demo_ops_ok)).
Qed.

(** C1: [MemStore] implements the contract: for every sequence of operations
    from any number of sessions, each run under the store's lock, the nested
    maps and the journal give every caller exactly the answers the
    specification over the journal alone gives, errors included. *)
Theorem MemStore_refines max ops :
  Forall op_ok ops ->
  (run (NewMemStore max) ops).2 = (run (MkSpec max []) ops).2
  /\ msJournal (run (NewMemStore max) ops).1 = spJournal (run (MkSpec max []) ops).1.
Proof.
  intros Hops. destruct (run_refines (NewMemStore max) ops (NewMemStore_store_ok max) Hops) as [_ E].
  change (abs (NewMemStore max)) with (MkSpec max []) in E. rewrite E. done.
Qed.

Lemma MemStore_refines_witness :
  Forall op_ok demo_ops /\
  (run (NewMemStore 4096) demo_ops).2 = (run (MkSpec 4096 []) demo_ops).2.
Proof.
  split; [repeat constructor|]. apply (MemStore_refines 4096 demo_ops). repeat constructor.
Defined.

Section Promises.
Context {S : Type} `{StoreLaws S}.
Implicit Types (s : S) (e : Entry).

(** C26: The journal of a store that started empty, after any operations of
    any sessions: records are numbered from 1 with no gap, each names as
    [Replaced] the hash of the last record for its entry, "" when there is
    none or it is a tombstone, carries the hashes of what it holds, holds an
    entry the store's bound admits, and a tombstone holds the last content. *)
Theorem journal_chain s ops i c :
  store_ok s -> store_journal s = [] -> Forall op_ok ops ->
  store_journal (run s ops).1 !! i = Some c ->
  cSeq c = Z.of_nat i + 1 /\ change_wf (MaxEntryBytes (run s ops).1) (take i (store_journal (run s ops).1)) c.
Proof.
  intros Hs Hj Hops Hi. pose proof (run_reachable s ops Hs Hops) as Hr.
  rewrite Hj in Hr. specialize (Hr (reach_nil _)). apply reachable_wf in Hr. split.
  - by eapply journal_wf_seq.
  - by apply Hr.
Qed.

Lemma Get_live s scope name :
  store_ok s -> CheckRef scope name = None ->
  Get s scope name = match replay (store_journal s) !! (scope, name) with
                     | Some e => Ok e | None => Err (ErrNotFound scope name) end.
Proof. intros Hs Hr. rewrite (law_get _ _ _ Hs). unfold spec_get. by rewrite Hr. Qed.

Lemma Storable_ref e max : Storable e max -> CheckRef (eScope e) (eName e) = None.
Proof.
  intros [?%ValidName_iff ?%ValidName_iff _ _ _ _ _]. unfold CheckRef, CheckScope, ValidScope.
  by destruct (ValidName (eScope e)), (ValidName (eName e)).
Qed.

(** Two stores over one journal answer every read alike. *)
Lemma reads_same s s' o :
  store_ok s -> store_ok s' -> op_ok o -> store_journal s' = store_journal s ->
  MaxEntryBytes s' = MaxEntryBytes s -> (do s' o).2 = (do s o).2.
Proof.
  intros Hs Hs' Ho Hj Hm.
  destruct (do_refines s o Hs Ho) as [_ E], (do_refines s' o Hs' Ho) as [_ E'].
  unfold abs in *. rewrite Hj, Hm, E in E'. congruence.
Qed.

Lemma apply_change_other live c r : change_ref c <> r -> apply_change live c !! r = live !! r.
Proof.
  intros Hr. unfold apply_change. destruct (eDeleted _); [by rewrite lookup_delete_ne|by rewrite lookup_insert_ne].
Qed.

(** Appending a record changes what [Get] answers for its entry alone. *)
Lemma Get_other s s' c scope name :
  store_ok s -> store_ok s' -> store_journal s' = store_journal s ++ [c] ->
  (scope, name) <> change_ref c -> Get s' scope name = Get s scope name.
Proof.
  intros Hs Hs' Hj Hr. rewrite !law_get by done. unfold spec_get.
  by rewrite Hj, replay_snoc, apply_change_other by congruence.
Qed.

(** ** What an answer may hold *)

(** An entry the rules admit within the bound, with the hashes of what it
    holds. *)
Record entry_typed (max : Z) (e : Entry) : Prop := {
  et_storable : Storable e max;
  et_hash : eHash e = Hash (eContent e);
  et_meta_hash : eMetaHash e = MetaHash (eMeta e)
}.

(** The answer to an operation: of its own kind, every entry in it typed and
    one the operation asked for, live unless it is a tombstone asked for. *)
Definition answer_typed (max : Z) (o : op) (a : obs) : Prop :=
  match o, a with
  | OGet scope name, RGet r =>
      match r with Ok e => entry_typed max e /\ entry_ref e = (scope, name) /\ eDeleted e = false | Err _ => True end
  | OList scope, RList r =>
      match r with Ok es => Forall (fun e => entry_typed max e /\ eScope e = scope /\ eDeleted e = false) es | Err _ => True end
  | OPut _ _ e _, RWrite r =>
      match r with Ok c => entry_typed max (cEntry c) /\ change_ref c = entry_ref e /\ eDeleted (cEntry c) = false | Err _ => True end
  | OForget _ _ scope name, RWrite r =>
      match r with Ok c => entry_typed max (cEntry c) /\ change_ref c = (scope, name) /\ eDeleted (cEntry c) = true | Err _ => True end
  | OJournal after, RJournal l => Forall (fun r => exists c, r = Ok c /\ after < cSeq c /\ entry_typed max (cEntry c)) l
  | OLastSeq, RNumber n => 0 <= n
  | OMaxEntryBytes, RNumber n => n = max
  | _, _ => False
  end.

Lemma do_bound s o : store_ok s -> op_ok o -> MaxEntryBytes (do s o).1 = MaxEntryBytes s.
Proof.
  intros Hs Ho. destruct (do_refines s o Hs Ho) as [_ E]. apply (f_equal (fun x => spMax x.1)) in E. cbn in E.
  rewrite <- E. by destruct o.
Qed.

Lemma wf_typed max j c : change_wf max j c -> entry_typed max (cEntry c).
Proof. by intros []. Qed.

Lemma spec_typed max j o : journal_wf max j -> answer_typed max o (do (MkSpec max j) o).2.
Proof.
  intros Hj. destruct o as [scope name|scope|now session e opts|now session scope name|after| |]; cbn.
  - unfold spec_get. destruct (CheckRef scope name); [done|]. destruct (replay j !! (scope, name)) as [e|] eqn:E; [|done].
    destruct (live_wf _ _ _ _ Hj E) as (? & ? & ? & ? & ?). by split_and!.
  - unfold spec_list. destruct (CheckScope scope); [done|]. apply Forall_forall. intros e He.
    apply live_in_elem in He; [|apply replay_keyed]. destruct (live_wf _ _ _ _ Hj He) as (? & ? & ? & Href & ?).
    injection Href as Hs. by split_and!.
  - destruct (spec_put max j now session e opts) as [c|] eqn:E; [|done]. pose proof (spec_put_wf _ _ _ _ _ _ _ E) as Hw.
    unfold spec_put in E. destruct (CheckEntry _ _ _); [done|]. destruct (PutOptions_Check _ _ _ _); [done|].
    split_and!; [by eapply wf_typed|..]; by injection E as <-.
  - destruct (spec_forget j now session scope name) as [c|] eqn:E; [|done]. pose proof (spec_forget_wf _ _ _ _ _ _ _ Hj E) as Hw.
    unfold spec_forget in E. destruct (CheckRef _ _); [done|]. destruct (replay j !! (scope, name)) as [e|] eqn:Er; [|done].
    destruct (replay_ref _ _ _ Er) as [Href _]. split_and!; [by eapply wf_typed|..]; by injection E as <-.
  - apply Forall_fmap, Forall_forall. intros c [Ha Hc]%list_elem_of_filter. exists c. split_and!; [done..|].
    apply list_elem_of_lookup in Hc as [i Hi]. eapply wf_typed, Hj, Hi.
  - apply blen_nonneg.
  - done.
Qed.

(** C16: Typing.  Whatever operations sessions run on a store that started
    empty, every answer is of its operation's kind, and every entry any of
    them carries, read, listed, written, forgotten or from the journal, obeys
    the rules for names, text and metadata within the store's bound, carries
    the hashes of its own content and metadata, is the one asked for and is
    marked deleted exactly where it is a tombstone; a journal has no damage. *)
Theorem answers_typed s ops :
  store_ok s -> store_journal s = [] -> Forall op_ok ops -> Forall2 (answer_typed (MaxEntryBytes s)) ops (run s ops).2.
Proof.
  intros Hs Hj Hops. assert (Hr : reachable (MaxEntryBytes s) (store_journal s)) by (rewrite Hj; constructor). clear Hj.
  revert s Hs Hr. induction Hops as [|o ops Ho _ IH]; intros s Hs Hr; [constructor|].
  destruct (do_refines s o Hs Ho) as [Hok Hd]. pose proof (do_reachable s o Hs Ho Hr) as Hr'. pose proof (do_bound s o Hs Ho) as Hm.
  pose proof (spec_typed (MaxEntryBytes s) (store_journal s) o (reachable_wf _ _ Hr)) as Ht.
  change (MkSpec (MaxEntryBytes s) (store_journal s)) with (abs s) in Ht. rewrite Hd in Ht.
  cbn [run]. destruct (do s o) as [s1 r]. cbn [fst snd] in *. specialize (IH s1 Hok Hr'). rewrite Hm in IH.
  destruct (run s1 ops) as [s2 rs]. by constructor.
Qed.

(** C34: The effect of a [Put]. One that succeeds returns the record it
    appended, holding the entry as given with the store's hashes and time;
    [Get] then returns that entry, and every other entry is as it was. One
    that fails writes nothing: no operation can tell that it ran. *)
Theorem Put_effect s now session e opts :
  store_ok s ->
  let (s', r) := Put s now session e opts in
  match r with
  | Ok c => cEntry c = stamped now e /\ cSession c = session /\ cAt c = now
      /\ store_journal s' = store_journal s ++ [c]
      /\ Get s' (eScope e) (eName e) = Ok (stamped now e)
      /\ forall scope name, (scope, name) <> entry_ref e -> Get s' scope name = Get s scope name
  | Err _ => forall o, op_ok o -> (do s' o).2 = (do s o).2
  end.
Proof.
  intros Hs. pose proof (law_put s now session e opts Hs) as L.
  destruct (Put s now session e opts) as [s' r]. destruct L as (Hr & Hj & Hm & Hs').
  destruct r as [c|err]; cbn in Hj.
  2: { intros o Ho. by apply reads_same. }
  assert (Hc : CheckRef (eScope e) (eName e) = None /\ cEntry c = stamped now e
               /\ cSession c = session /\ cAt c = now).
  { unfold spec_put in Hr. destruct (CheckEntry e _ _) eqn:Ec; [done|].
    destruct (PutOptions_Check _ _ _ _); [done|]. injection Hr as ->.
    by apply CheckEntry_None, Storable_ref in Ec. }
  destruct Hc as (Hc & He & Hse & Ha). split_and!; try done.
  - rewrite Get_live by done. rewrite Hj, replay_snoc. unfold apply_change, change_ref. rewrite He. cbn.
    by rewrite lookup_insert_eq.
  - intros scope name Hne. apply (Get_other s s' c); try done. unfold change_ref. by rewrite He.
Qed.

(** C35: The effect of a [Forget]. On a live entry it appends a tombstone
    holding the content [Get] returned before it, chained to it by both
    hashes; [Get] then answers [ErrNotFound], and every other entry is as it
    was. On any other it fails with the error [Get] gives, and writes
    nothing. *)
Theorem Forget_effect s now session scope name :
  store_ok s ->
  let (s', r) := Forget s now session scope name in
  match Get s scope name with
  | Ok e => exists c, r = Ok c /\ cEntry c = tombstone now e
      /\ cPrev c = eHash e /\ cReplaced c = eHash e /\ store_journal s' = store_journal s ++ [c]
      /\ Get s' scope name = Err (ErrNotFound scope name)
      /\ forall sc n, (sc, n) <> (scope, name) -> Get s' sc n = Get s sc n
  | Err err => r = Err err /\ forall o, op_ok o -> (do s' o).2 = (do s o).2
  end.
Proof.
  intros Hs. pose proof (law_forget s now session scope name Hs) as L.
  destruct (Forget s now session scope name) as [s' r]. destruct L as (Hr & Hj & Hm & Hs').
  rewrite (law_get _ _ _ Hs). unfold spec_get, spec_forget in *.
  destruct (CheckRef scope name) eqn:Hc; [split; [done|]; subst; intros; by apply reads_same|].
  destruct (replay (store_journal s) !! (scope, name)) as [e|] eqn:Er.
  2: { split; [done|]. subst. intros. by apply reads_same. }
  destruct (replay_ref _ _ _ Er) as [He _]. eexists. subst r. cbn in Hj. split_and!; try done.
  - rewrite Get_live by done. rewrite Hj, replay_snoc. unfold apply_change, change_ref.
    cbn. change (entry_ref (tombstone now e)) with (entry_ref e). by rewrite He, lookup_delete_eq.
  - intros sc n Hne. apply (Get_other s s' _ sc n Hs Hs' Hj). unfold change_ref. cbn.
    change (entry_ref (tombstone now e)) with (entry_ref e). by rewrite He.
Qed.

(** The content [Get] shows, as the hash a caller who read it holds. *)
Definition read_hash (r : res error Entry) : bytes :=
  match r with Ok e => Hash (eContent e) | Err _ => [] end.

Lemma have_hash_read s e :
  store_ok s -> reachable (MaxEntryBytes s) (store_journal s) -> CheckRef (eScope e) (eName e) = None ->
  have_hash (replay (store_journal s) !! entry_ref e) = read_hash (Get s (eScope e) (eName e)).
Proof.
  intros Hs Hw%reachable_wf Hc. rewrite Get_live by done. unfold entry_ref.
  destruct (replay _ !! _) as [e0|] eqn:Er; [|done]. cbn. by destruct (live_wf _ _ _ _ Hw Er).
Qed.

(** C32: [IfHash] is a compare-and-swap. A storable entry put under
    [IfHash h] lands exactly when [h] is the hash of the content [Get] shows,
    "" when there is no entry, and is otherwise refused with [ErrConflict]
    naming both hashes; and [IfHash ""] never replaces an entry. *)
Theorem IfHash_compare_and_swap s now session e h :
  store_ok s -> reachable (MaxEntryBytes s) (store_journal s) -> Storable e (MaxEntryBytes s) ->
  let have := read_hash (Get s (eScope e) (eName e)) in
  let (s', r) := Put s now session e [IfHash h] in
  (h = have -> exists c, r = Ok c /\ cPrev c = h /\ cReplaced c = h)
  /\ (h <> have -> r = Err (ErrConflict (MkConflictError (eScope e) (eName e) h have false))
                   /\ store_journal s' = store_journal s)
  /\ (have = [] <-> Get s (eScope e) (eName e) = Err (ErrNotFound (eScope e) (eName e))).
Proof.
  intros Hs Hw He have. pose proof (law_put s now session e [IfHash h] Hs) as L.
  destruct (Put s now session e [IfHash h]) as [s' r]. destruct L as (Hr & Hj & _ & _).
  pose proof (Storable_ref _ _ He) as Hc. pose proof (have_hash_read s e Hs Hw Hc) as Hh.
  fold have in Hh. unfold spec_put in Hr.
  assert (CheckEntry e (MaxEntryBytes s) (replay (store_journal s) !! entry_ref e) = None) as Hn
    by by apply CheckEntry_None.
  rewrite Hn in Hr. unfold PutOptions_Check in Hr. cbn in Hr. rewrite Hh in Hr.
  split_and!.
  - intros ->. rewrite bool_decide_eq_true_2 in Hr by done. subst. eexists. split_and!; done.
  - intros Hne. rewrite bool_decide_eq_false_2 in Hr by congruence. cbn in Hr. by subst.
  - unfold have. rewrite Get_live by done. destruct (replay _ !! (_, _)); [|done].
    split; [intros E; by apply Hash_nonempty in E|done].
Qed.

(** A write built on a stale read cannot clobber: once a write under
    [IfHash h] has landed with content of another hash, a second write
    composed from the same read and put under the same [IfHash h] is refused
    with [ErrConflict], and the journal keeps the first. *)
Theorem stale_write_refused s now1 now2 session1 session2 e1 e2 h c1 :
  store_ok s -> entry_ref e2 = entry_ref e1 ->
  Storable e2 (MaxEntryBytes s) -> Hash (eContent e1) <> h ->
  (Put s now1 session1 e1 [IfHash h]).2 = Ok c1 ->
  let s1 := (Put s now1 session1 e1 [IfHash h]).1 in
  (Put s1 now2 session2 e2 [IfHash h]).2
  = Err (ErrConflict (MkConflictError (eScope e2) (eName e2) h (Hash (eContent e1)) false)).
Proof.
  intros Hs Hr He2 Hne H1. cbn. pose proof (law_put s now1 session1 e1 [IfHash h] Hs) as L1.
  destruct (Put s now1 session1 e1 [IfHash h]) as [s1 r1]. cbn in *. subst r1.
  destruct L1 as (L1 & Hj & Hm & Hs1). pose proof (law_put s1 now2 session2 e2 [IfHash h] Hs1) as L2.
  destruct (Put s1 now2 session2 e2 [IfHash h]) as [s2 r2]. cbn in *. destruct L2 as (-> & _ & _ & _).
  assert (Hc1 : change_ref c1 = entry_ref e1 /\ cEntry c1 = stamped now1 e1).
  { symmetry in L1. unfold spec_put in L1. destruct (CheckEntry e1 _ _); [done|].
    destruct (PutOptions_Check _ _ _ _); [done|]. by injection L1 as <-. }
  destruct Hc1 as [Hc1 Hc2]. unfold spec_put. rewrite Hm.
  rewrite (proj2 (CheckEntry_None e2 _ _) He2). rewrite Hj, replay_snoc. unfold apply_change.
  rewrite Hc2. cbn [eDeleted stamped]. rewrite Hr, Hc1, lookup_insert_eq.
  unfold PutOptions_Check. cbn. by rewrite bool_decide_eq_false_2.
Qed.

Lemma do_appends s o :
  store_ok s -> op_ok o -> exists new, store_journal (do s o).1 = store_journal s ++ new.
Proof.
  intros Hs Ho.
  assert (Ha : forall r, exists new, appended (store_journal s) r = store_journal s ++ new).
  { intros [c|err]; [by exists [c]|exists []; by rewrite app_nil_r]. }
  destruct o; cbn; try (exists []; by rewrite app_nil_r).
  - pose proof (law_put s now session e opts Hs) as L. destruct (Put s now session e opts) as [s' r].
    destruct L as (_ & Hj & _). cbn. rewrite Hj. apply Ha.
  - pose proof (law_forget s now session scope name Hs) as L.
    destruct (Forget s now session scope name) as [s' r]. destruct L as (_ & Hj & _). cbn. rewrite Hj. apply Ha.
Qed.

(** The journal is append-only. *)
Lemma run_appends s ops :
  store_ok s -> Forall op_ok ops -> exists new, store_journal (run s ops).1 = store_journal s ++ new.
Proof.
  intros Hs Hops. revert s Hs. induction Hops as [|o ops Ho _ IH]; intros s Hs.
  { exists []. by rewrite app_nil_r. }
  destruct (do_appends s o Hs Ho) as [n1 E1]. destruct (do_refines s o Hs Ho) as [Hok _].
  cbn [run]. destruct (do s o) as [s1 r]. destruct (IH s1 Hok) as [n2 E2].
  destruct (run s1 ops) as [s2 rs]. cbn in *. exists (n1 ++ n2). by rewrite E2, E1, app_assoc.
Qed.

Lemma Journal_drop s after :
  store_ok s -> reachable (MaxEntryBytes s) (store_journal s) -> 0 <= after ->
  Journal s after = Ok <$> drop (Z.to_nat after) (store_journal s).
Proof.
  intros Hs Hr Ha. rewrite (law_journal _ _ Hs Ha). f_equal.
  rewrite (filter_seq_drop _ 1); [f_equal; lia|].
  intros i c Hi. rewrite (journal_wf_seq _ _ _ _ (reachable_wf _ _ Hr) Hi). lia.
Qed.

(** A journal cursor resumes. A reader that stopped after the record
    [c] and reads again from [c]'s number, after any further operations of
    any sessions, gets exactly the records it had not seen and then those
    appended since, in order. *)
Theorem Journal_resumes s after l1 c l2 ops :
  store_ok s -> reachable (MaxEntryBytes s) (store_journal s) -> 0 <= after -> Forall op_ok ops ->
  Journal s after = l1 ++ Ok c :: l2 ->
  exists new, store_journal (run s ops).1 = store_journal s ++ new
    /\ Journal (run s ops).1 (cSeq c) = l2 ++ (Ok <$> new).
Proof.
  intros Hs Hr Ha Hops E. destruct (run_appends s ops Hs Hops) as [new Hn]. exists new. split; [done|].
  rewrite Journal_drop in E by done.
  apply fmap_app_inv in E as (k1 & k2 & -> & E2 & Ed).
  destruct k2 as [|c' k2]; [done|]. cbn in E2. injection E2 as <- ->.
  set (k0 := take (Z.to_nat after) (store_journal s) ++ k1).
  assert (Hj : store_journal s = k0 ++ c :: k2).
  { unfold k0. rewrite <- app_assoc, <- Ed. by rewrite take_drop. }
  clearbody k0. assert (Hc : cSeq c = blen (k0 ++ [c])).
  { rewrite (journal_wf_seq _ _ (length k0) _ (reachable_wf _ _ Hr)).
    - rewrite blen_app. unfold blen. cbn. lia.
    - rewrite Hj. by apply list_lookup_middle. }
  rewrite Journal_drop; [|by apply run_refines|by apply run_reachable|rewrite Hc; apply blen_nonneg].
  rewrite Hn, Hc, Hj, <- app_assoc. cbn [app]. unfold blen. rewrite Nat2Z.id.
  rewrite (cons_middle c k0 (k2 ++ new)), app_assoc, drop_app_length. by rewrite fmap_app.
Qed.

(** [List] and [Get] agree. The listing of a scope is strictly sorted by
    name, so names an entry once, and holds exactly the entries [Get] answers
    with for that scope. *)
Theorem List_exact s scope :
  store_ok s -> ValidScope scope = true ->
  exists es, List_ s scope = Ok es
    /\ StronglySorted (fun a b => bytes_compare (eName a) (eName b) = Lt) es
    /\ forall e, ValidName (eName e) = true ->
         (e ∈ es <-> eScope e = scope /\ Get s (eScope e) (eName e) = Ok e).
Proof.
  intros Hs Hv. rewrite (law_list _ _ Hs). unfold spec_list, CheckScope. rewrite Hv.
  exists (live_in (replay (store_journal s)) scope). split; [done|].
  assert (Hk : keyed (replay (store_journal s))) by apply replay_keyed. split.
  - pose proof (live_names_NoDup _ scope Hk) as Hnd.
    assert (Hnd' : NoDup (eName <$> live_in (replay (store_journal s)) scope))
      by (unfold live_in; by rewrite (sort_on_perm eName)).
    apply sorted_strict; [|done]. apply sort_on_sorted.
  - intros e Hn. rewrite live_in_elem by done. split.
    + intros He. pose proof (Hk _ _ He) as [= E]. split; [done|]. rewrite Get_live, E, He; [done|done|].
      unfold CheckRef, CheckScope. by rewrite E, Hv, Hn.
    + intros [<- He]. rewrite Get_live in He; [|done|unfold CheckRef, CheckScope; by rewrite Hv, Hn].
      destruct (replay _ !! _); by simplify_eq.
Qed.
End Promises.

(** ** Witnesses on [MemStore] *)

Lemma demo_reachable : reachable 4096 (store_journal demo).
Proof. exact (run_reachable (NewMemStore 4096) demo_ops (NewMemStore_store_ok _) demo_ops_ok (reach_nil _)). Qed.

Definition asking_ops : list op := demo_ops ++ [OGet (bs "user") (bs "style"); OList (bs "user"); OJournal 0].

Lemma answers_typed_witness :
  Forall op_ok asking_ops /\ Forall2 (answer_typed 4096) asking_ops (run (NewMemStore 4096) asking_ops).2.
Proof.
  assert (H : Forall op_ok asking_ops) by (repeat constructor; cbn; lia). split; [exact H|].
  exact (answers_typed (NewMemStore 4096) asking_ops (NewMemStore_store_ok _) eq_refl H).
Defined.

Lemma journal_chain_witness : exists c, store_journal demo !! 2%nat = Some c /\ cSeq c = 3 /\
  change_wf 4096 (take 2 (store_journal demo)) c.
Proof.
  destruct (store_journal demo !! 2%nat) as [c|] eqn:E; [|vm_compute in E; discriminate].
  exists c. split; [done|].
  exact (journal_chain (NewMemStore 4096) demo_ops 2 c (NewMemStore_store_ok _) eq_refl demo_ops_ok E).
Defined.

Lemma Put_effect_witness : exists c,
  (Put demo 9 [] (entry "user" "style" "New.") []).2 = Ok c /\
  Get (Put demo 9 [] (entry "user" "style" "New.") []).1 (bs "user") (bs "style")
  = Ok (stamped 9 (entry "user" "style" "New.")).
Proof.
  pose proof (Put_effect demo 9 [] (entry "user" "style" "New.") [] demo_ok) as P.
  destruct (Put demo 9 [] (entry "user" "style" "New.") []) as [s' [c|err]] eqn:E.
  - exists c. split; [done|]. apply P.
  - exfalso. vm_compute in E. discriminate.
Defined.

Lemma Forget_effect_witness :
  Get (Forget demo 9 [] (bs "user") (bs "style")).1 (bs "user") (bs "style")
  = Err (ErrNotFound (bs "user") (bs "style")).
Proof.
  pose proof (Forget_effect demo 9 [] (bs "user") (bs "style") demo_ok) as P.
  destruct (Forget demo 9 [] (bs "user") (bs "style")) as [s' r].
  destruct (Get demo (bs "user") (bs "style")) as [e|err] eqn:E.
  - destruct P as (c & _ & _ & _ & _ & _ & G & _). exact G.
  - exfalso. vm_compute in E. discriminate.
Defined.

Lemma new_style_storable : Storable (entry "user" "style" "New.") 4096.
Proof. apply (CheckEntry_None _ _ None). by vm_compute. Qed.

Lemma IfHash_compare_and_swap_witness : exists c,
  (Put demo 9 [] (entry "user" "style" "New.") [IfHash (Hash (bs "Long answers."))]).2 = Ok c.
Proof.
  pose proof (IfHash_compare_and_swap demo 9 [] (entry "user" "style" "New.") (Hash (bs "Long answers."))
    demo_ok demo_reachable new_style_storable) as P.
  destruct (Put demo 9 [] _ _) as [s' r]. destruct P as (P & _ & _).
  destruct P as (c & Hr & _); [by vm_compute|]. by exists c.
Defined.

Lemma stale_write_refused_witness :
  let h := Hash (bs "Long answers.") in
  (Put (Put demo 9 (bs "s1") (entry "user" "style" "One.") [IfHash h]).1
     10 (bs "s2") (entry "user" "style" "New.") [IfHash h]).2
  = Err (ErrConflict (MkConflictError (bs "user") (bs "style") h (Hash (bs "One.")) false)).
Proof.
  cbv zeta. set (h := Hash (bs "Long answers.")).
  destruct (Put demo 9 (bs "s1") (entry "user" "style" "One.") [IfHash h]) as [s1 r1] eqn:E.
  assert (Hne : Hash (bs "One.") <> h) by (vm_compute; congruence).
  assert (Hr : exists c, r1 = Ok c).
  { destruct r1 as [c|err]; [eauto|]. vm_compute in E. discriminate. }
  destruct Hr as [c ->].
  pose proof (stale_write_refused demo 9 10 (bs "s1") (bs "s2") (entry "user" "style" "One.")
    (entry "user" "style" "New.") h c demo_ok eq_refl new_style_storable Hne) as P.
  rewrite E in P. exact (P eq_refl).
Defined.

Lemma Journal_resumes_witness : exists c new,
  cSeq c = 2 /\ Journal (run demo [OForget 5 [] (bs "user") (bs "style")]).1 2
  = (Ok <$> drop 2 (store_journal demo)) ++ (Ok <$> new).
Proof.
  destruct (Journal demo 1) as [|[c|err] l2] eqn:E; try (vm_compute in E; discriminate).
  assert (Hl : l2 = Ok <$> drop 2 (store_journal demo) /\ cSeq c = 2).
  { vm_compute in E. injection E as <- <-. split; vm_compute; reflexivity. }
  destruct Hl as [-> Hc].
  destruct (Journal_resumes demo 1 [] c _ [OForget 5 [] (bs "user") (bs "style")] demo_ok demo_reachable
    ltac:(lia) ltac:(repeat constructor) E) as (new & _ & P).
  exists c, new. rewrite <- Hc. split; [done|]. rewrite Hc in *. exact P.
Defined.

Lemma List_exact_witness : exists es, List_ demo (bs "user") = Ok es /\
  StronglySorted (fun a b => bytes_compare (eName a) (eName b) = Lt) es.
Proof.
  destruct (List_exact demo (bs "user") demo_ok eq_refl) as (es & H & Hs & _). exists es. exact (conj H Hs).
Defined.
