(* ===== verification/LostUpdate.v ===== *)
(** * Lost updates: lostupdate.go

    [LostUpdates] reads a journal window, damaged lines included, and
    reports the records not built on the state they replaced (forks) and
    those whose [Replaced] is not the last state the window holds (breaks). *)

From S2P Require Import Prelude GoStd Sha256 Memory Store MemStore Contract.

Record LostUpdate := MkLostUpdate {
  luChange : Change;
  luOver : bytes;
  luBreak : bool;
  luAfterDamage : bool
}.

(** The state the window holds for an entry, and the damage seen by then. *)
Record held := MkHeld { hHash : bytes; hDamage : Z }.

(** The variables of the loop. *)
Record lu_state := MkLu {
  luLast : gmap bytes held;
  luDamage : Z;
  luStart : bool;
  luFirst : bool;
  luErrs : list jerror;
  luOut : list LostUpdate
}.

(** [start] after the record numbered [seq]: the journal's first record is
    1, or follows the damaged lines before it. *)
Definition start_after (st : lu_state) (seq : Z) : bool :=
  if luFirst st && (luDamage st + 1 <? seq) then false else luStart st.

(** What the reader holds for a key: the whole journal holds the start of
    every entry, which is no live entry. *)
Definition held_for (last : gmap bytes held) (start : bool) (k : bytes) : option held :=
  match last !! k with
  | Some h => Some h
  | None => if start then Some (MkHeld [] 0) else None
  end.

Definition lost_update (c : Change) (h : option held) (damage : Z) : LostUpdate :=
  match h with
  | Some h =>
      let brk := negb (bool_decide (cReplaced c = hHash h)) in
      MkLostUpdate c (hHash h) brk (brk && (hDamage h <? damage))
  | None => MkLostUpdate c (cReplaced c) false false
  end.

Definition fork (c : Change) : bool := negb (bool_decide (cPrev c = cReplaced c)).

(** The body of the loop over [s.Journal(ctx, after)]. *)
Definition lu_step (st : lu_state) (ev : res jerror Change) : lu_state :=
  match ev with
  | Err err =>
      MkLu (luLast st) (luDamage st + 1) (luStart st) (luFirst st) (luErrs st ++ [err]) (luOut st)
  | Ok c =>
      let start := start_after st (cSeq c) in
      let k := key (eScope (cEntry c)) (eName (cEntry c)) in
      let lu := lost_update c (held_for (luLast st) start k) (luDamage st) in
      let out := if luBreak lu || fork c then luOut st ++ [lu] else luOut st in
      let next := MkHeld (if eDeleted (cEntry c) then [] else eHash (cEntry c)) (luDamage st) in
      MkLu (<[k := next]> (luLast st)) (luDamage st) start false (luErrs st) out
  end.

Definition lu_init (after : Z) : lu_state := MkLu ∅ 0 (after =? 0) true [] [].

(** [LostUpdates] over what the journal yields after the cursor: the records
    reported, and the errors joined. *)
Definition LostUpdates_events (events : list (res jerror Change)) (after : Z)
    : list LostUpdate * list jerror :=
  let st := foldl lu_step (lu_init after) events in (luOut st, luErrs st).

Definition LostUpdates {S} `{Store S} (s : S) (after : Z) : list LostUpdate * list jerror :=
  LostUpdates_events (Journal s after) after.

(** [LastSeq] for a store that is not a [LastSeqer]: the largest number of
    a record that can be read. *)
Definition LastSeq_fallback (events : list (res jerror Change)) : Z * list jerror :=
  foldl (fun '(seq, errs) ev =>
    match ev with
    | Err err => (seq, errs ++ [err])
    | Ok c => (Z.max seq (cSeq c), errs)
    end) (0, []) events.

(** ** The reader's state agrees with the chain *)

(** The hash a journal holds for an entry, "" when it is not live. *)
Definition hash_at (j : list Change) (r : ref) : bytes := have_hash (live_of (last_for j r)).

(** For the entries [P] selects, what the reader holds is the journal's. *)
Definition agrees (st : lu_state) (start : bool) (j : list Change) (P : ref -> Prop) : Prop :=
  forall s n h, P (s, n) -> ValidScope s = true ->
    held_for (luLast st) start (key s n) = Some h -> hHash h = hash_at j (s, n).

Lemma agrees_start st start start' j P :
  (start' = true -> start = true) -> agrees st start j P -> agrees st start' j P.
Proof.
  intros Hst Ha s n h Hp Hv. specialize (Ha s n h Hp Hv). unfold held_for in *.
  destruct (luLast st !! _); [done|]. destruct start'; [|done]. by rewrite Hst in Ha.
Qed.

Lemma start_after_le st seq : start_after st seq = true -> luStart st = true.
Proof. unfold start_after. by destruct (_ && _). Qed.

Lemma hash_at_snoc j c r :
  hash_at (j ++ [c]) r =
  if decide (change_ref c = r) then (if eDeleted (cEntry c) then [] else eHash (cEntry c)) else hash_at j r.
Proof.
  unfold hash_at. rewrite last_for_snoc. case_decide; [|done]. cbn. by destruct (eDeleted (cEntry c)).
Qed.

(** What a reader that holds nothing wrong reports of [c]. *)
Definition fork_report (c : Change) : list LostUpdate :=
  if fork c then [MkLostUpdate c (cReplaced c) false false] else [].

Definition fork_reports (l : list Change) : list LostUpdate := concat (fork_report <$> l).

Lemma storable_scope e max : Storable e max -> ValidScope (eScope e) = true.
Proof. intros []. by apply ValidName_iff. Qed.

(** The record just read is what the reader holds for its entry. *)
Lemma agrees_step st c j max P :
  change_wf max j c -> agrees st (luStart st) j (fun r => P r /\ r <> change_ref c) ->
  agrees (lu_step st (Ok c)) (luStart (lu_step st (Ok c))) (j ++ [c]) P.
Proof.
  intros Hw Ha s n h Hp Hv. cbn. unfold held_for. rewrite hash_at_snoc.
  pose proof (storable_scope _ _ (wf_storable _ _ _ Hw)) as Hs.
  destruct (decide (change_ref c = (s, n))) as [E|E].
  - unfold change_ref, entry_ref in E. injection E as <- <-. rewrite lookup_insert_eq. by intros [= <-].
  - rewrite lookup_insert_ne.
    2: { intros Hk%key_inj; [|done..]. destruct Hk as [<- <-]. done. }
    apply (agrees_start _ _ (start_after st (cSeq c))) in Ha; [|apply start_after_le].
    intros Hh. apply (Ha s n h); [split; [done|congruence]|done|done].
Qed.

(** A record whose entry the reader holds rightly is reported exactly when
    it is a fork. *)
Lemma out_step st c j max P :
  change_wf max j c -> P (change_ref c) -> agrees st (luStart st) j P ->
  luOut (lu_step st (Ok c)) = luOut st ++ fork_report c.
Proof.
  intros Hw Hp Ha. cbn. apply (agrees_start _ _ (start_after st (cSeq c))) in Ha; [|apply start_after_le].
  specialize (Ha (eScope (cEntry c)) (eName (cEntry c))).
  destruct (held_for _ _ _) as [h|] eqn:Eh; cbn; unfold fork_report.
  - assert (E : cReplaced c = hHash h).
    { rewrite (Ha h); [|done|by eapply storable_scope, wf_storable|done]. apply (wf_replaced _ _ _ Hw). }
    rewrite bool_decide_eq_true_2 by done. cbn. rewrite <- E.
    destruct (fork c); [done|]. by rewrite app_nil_r.
  - destruct (fork c); [done|]. by rewrite app_nil_r.
Qed.

(** A window of chained records, read by a reader that holds nothing wrong. *)
Lemma window_steps max P l : forall st j,
  journal_wf max (j ++ l) -> (forall c, c ∈ l -> P (change_ref c)) -> agrees st (luStart st) j P ->
  let st' := foldl lu_step st (Ok <$> l) in
  luOut st' = luOut st ++ fork_reports l /\ luErrs st' = luErrs st /\ luDamage st' = luDamage st
  /\ agrees st' (luStart st') (j ++ l) P.
Proof.
  induction l as [|c l IH]; intros st j Hw Hp Ha; cbn [fmap list_fmap foldl].
  - rewrite !app_nil_r. done.
  - assert (Hc : change_wf max j c).
    { specialize (Hw (length j) c). rewrite take_app_length in Hw. apply Hw. by apply list_lookup_middle. }
    rewrite cons_middle, app_assoc in Hw.
    destruct (IH (lu_step st (Ok c)) (j ++ [c]) Hw) as (Ho & He & Hd & Hag).
    + intros d Hd. apply Hp. by right.
    + apply (agrees_step st c j max P Hc). intros s n h [Hps _]. by apply Ha.
    + rewrite Ho, He, Hd, (out_step st c j max P); [|done|apply Hp; by left|done].
      split_and!; [|done|done|].
      * unfold fork_reports. cbn [fmap list_fmap concat]. by rewrite app_assoc.
      * by rewrite cons_middle, app_assoc.
Qed.

(** The start of the window is kept while the first record follows the
    damaged lines before it. *)
Lemma window_start l : forall st,
  luStart st = true ->
  (luFirst st = true -> forall c, head l = Some c -> cSeq c <= luDamage st + 1) ->
  luStart (foldl lu_step st (Ok <$> l)) = true
  /\ (luFirst (foldl lu_step st (Ok <$> l)) = true -> l = [] /\ luFirst st = true).
Proof.
  induction l as [|c l IH]; intros st Hs Hf; cbn [fmap list_fmap foldl]; [done|].
  destruct (IH (lu_step st (Ok c))) as [H1 H2].
  - cbn. unfold start_after. destruct (luFirst st); [|done]. cbn [andb].
    specialize (Hf eq_refl c eq_refl). by destruct (Z.ltb_spec (luDamage st + 1) (cSeq c)); [lia|].
  - done.
  - split; [done|]. intros H. by apply H2 in H as [_ ?].
Qed.

(** A state is held with the damage seen when it was taken. *)
Lemma window_damage l : forall st n,
  luDamage st <= n -> map_Forall (fun _ h => hDamage h <= n) (luLast st) ->
  map_Forall (fun _ h => hDamage h <= n) (luLast (foldl lu_step st (Ok <$> l))).
Proof.
  induction l as [|c l IH]; intros st n Hd Hl; cbn [fmap list_fmap foldl]; [done|].
  apply IH; [done|]. cbn. by apply map_Forall_insert_2.
Qed.

(** Records of other entries leave what is held for one alone. *)
Lemma window_other max l s n : forall st j,
  journal_wf max (j ++ l) -> (forall c, c ∈ l -> change_ref c <> (s, n)) -> ValidScope s = true ->
  luLast (foldl lu_step st (Ok <$> l)) !! key s n = luLast st !! key s n.
Proof.
  induction l as [|c l IH]; intros st j Hw Ho Hv; cbn [fmap list_fmap foldl]; [done|].
  assert (Hc : change_wf max j c).
  { specialize (Hw (length j) c). rewrite take_app_length in Hw. apply Hw. by apply list_lookup_middle. }
  rewrite cons_middle, app_assoc in Hw. rewrite (IH _ (j ++ [c])); [|done| |done].
  - cbn. apply lookup_insert_ne. intros Hk. apply key_inj in Hk as [<- <-];
      [|by eapply storable_scope, wf_storable|done].
    apply (Ho c); [by left|done].
  - intros d Hd. apply Ho. by right.
Qed.

Lemma agrees_init after j P :
  after = 0 -> j = [] -> agrees (lu_init after) (luStart (lu_init after)) j P.
Proof.
  intros -> -> s n h _ _. unfold held_for. cbn. rewrite lookup_empty. by intros [= <-].
Qed.

Lemma agrees_cursor after j P :
  after <> 0 -> agrees (lu_init after) (luStart (lu_init after)) j P.
Proof.
  intros Ha s n h _ _. unfold held_for. cbn. rewrite lookup_empty.
  destruct (Z.eqb_spec after 0); [done|]. done.
Qed.

Lemma fork_reports_filter l (P : Change -> Prop) `{!forall c, Decision (P c)} :
  fork_reports (filter P l)
  = (fun c => MkLostUpdate c (cReplaced c) false false) <$> filter (fun c => cPrev c <> cReplaced c /\ P c) l.
Proof.
  unfold fork_reports. induction l as [|c l IH]; [done|]. rewrite !filter_cons.
  destruct (decide (P c)) as [Hp|Hp].
  - cbn [fmap list_fmap concat]. rewrite IH. unfold fork_report, fork.
    destruct (decide (cPrev c = cReplaced c)) as [E|E].
    + rewrite bool_decide_eq_true_2 by done. rewrite decide_False by naive_solver. done.
    + rewrite bool_decide_eq_false_2 by done. by rewrite decide_True.
  - rewrite decide_False by naive_solver. done.
Qed.

Section Audit.
Context {S : Type} `{StoreLaws S}.

(** C33: An audit of an undamaged store, from any cursor, reports exactly the
    forks past the cursor: the records whose [Prev] is not their [Replaced],
    in order, each over its [Replaced], and no break and no error. *)
Theorem LostUpdates_reports_forks (s : S) after :
  store_ok s -> reachable (MaxEntryBytes s) (store_journal s) -> 0 <= after ->
  LostUpdates s after
  = ((fun c => MkLostUpdate c (cReplaced c) false false) <$>
       filter (fun c => cPrev c <> cReplaced c /\ after < cSeq c) (store_journal s), []).
Proof.
  intros Hs Hr%reachable_wf Ha. unfold LostUpdates, LostUpdates_events.
  rewrite (law_journal _ _ Hs Ha), (filter_seq_drop' _ _ _ Hr Ha).
  set (n := Z.to_nat after).
  destruct (window_steps (MaxEntryBytes s) (fun _ => True) (drop n (store_journal s)) (lu_init after)
    (take n (store_journal s))) as (Ho & He & _ & _).
  - by rewrite take_drop.
  - done.
  - destruct (Z.eq_dec after 0) as [->|Hne]; [by apply agrees_init|by apply agrees_cursor].
  - rewrite Ho, He. cbn. f_equal. unfold n. rewrite <- (filter_seq_drop' _ _ _ Hr Ha).
    apply fork_reports_filter.
Qed.
End Audit.

(** ** A damaged record is noticed *)

Lemma hash_at_app_other j l r :
  (forall c, c ∈ l -> change_ref c <> r) -> hash_at (j ++ l) r = hash_at j r.
Proof.
  induction l as [|c l IH] using rev_ind; intros Ho; [by rewrite app_nil_r|].
  rewrite app_assoc, hash_at_snoc, decide_False.
  - apply IH. intros d Hd. apply Ho. apply elem_of_app. by left.
  - apply Ho. apply elem_of_app. right. by apply list_elem_of_singleton.
Qed.

Lemma journal_wf_prefix max j l : journal_wf max (j ++ l) -> journal_wf max j.
Proof.
  intros Hw i c Hi. specialize (Hw i c). rewrite take_app_le in Hw by (apply lookup_lt_Some in Hi; lia).
  apply Hw. by apply lookup_app_l_Some.
Qed.

Lemma journal_wf_mid max j c l : journal_wf max (j ++ c :: l) -> change_wf max j c.
Proof.
  intros Hw. specialize (Hw (length j) c). rewrite take_app_length in Hw. apply Hw. by apply list_lookup_middle.
Qed.

(** The reader's state at the damaged line that stands for [r]: it holds
    every entry's state before [r], taken with no damage seen. *)
Lemma before_damage max j1 r :
  journal_wf max (j1 ++ [r]) ->
  let st := foldl lu_step (lu_init 0) (Ok <$> j1) in
  luOut st = fork_reports j1 /\ luErrs st = [] /\ luDamage st = 0 /\ luStart st = true
  /\ (luFirst st = true -> j1 = [])
  /\ agrees st true j1 (fun _ => True)
  /\ (forall k h, held_for (luLast st) true k = Some h -> hDamage h <= 0).
Proof.
  intros Hw st. pose proof (journal_wf_prefix _ _ _ Hw) as Hw1.
  destruct (window_steps max (fun _ => True) j1 (lu_init 0) [] Hw1 ltac:(done)
    (agrees_init 0 [] _ eq_refl eq_refl)) as (Ho & He & Hd & Ha).
  destruct (window_start j1 (lu_init 0) eq_refl) as [Hs Hf].
  { intros _ c Hc. cbn. destruct j1 as [|c' j1]; [done|]. injection Hc as ->.
    by rewrite (wf_seq _ _ _ (journal_wf_mid _ [] _ _ Hw1)). }
  fold st in Ho, He, Hd, Ha, Hs, Hf. rewrite Hs in Ha.
  split_and!; try done. { intros H. by apply Hf in H as [-> _]. }
  assert (Hdm : map_Forall (fun _ h => hDamage h <= 0) (luLast st)) by (by apply window_damage).
  intros k h. unfold held_for. destruct (luLast st !! k) as [h'|] eqn:E; intros [= <-]; [|done].
  by apply (Hdm k h').
Qed.

Lemma break_step st c h :
  start_after st (cSeq c) = true ->
  held_for (luLast st) true (key (eScope (cEntry c)) (eName (cEntry c))) = Some h ->
  cReplaced c <> hHash h -> hDamage h < luDamage st ->
  luOut (lu_step st (Ok c)) = luOut st ++ [MkLostUpdate c (hHash h) true true].
Proof.
  intros Hs Hh Hr Hd. cbn. rewrite Hs, Hh. cbn. rewrite bool_decide_eq_false_2 by done. cbn.
  by rewrite (proj2 (Z.ltb_lt _ _) Hd).
Qed.

(** The reader's state after the damaged line and the records of other
    entries: it still holds the entry's state before [r]. *)
Lemma after_damage max j1 r j2 err :
  journal_wf max ((j1 ++ [r]) ++ j2) ->
  (forall d, d ∈ j2 -> change_ref d <> change_ref r) ->
  let st := foldl lu_step (lu_step (foldl lu_step (lu_init 0) (Ok <$> j1)) (Err err)) (Ok <$> j2) in
  luOut st = fork_reports j1 ++ fork_reports j2 /\ luErrs st = [err] /\ luDamage st = 1
  /\ luStart st = true /\ (luFirst st = true -> j1 = [] /\ j2 = [])
  /\ agrees st true ((j1 ++ [r]) ++ j2) (fun q => q <> change_ref r)
  /\ exists h, held_for (luLast st) true (key (eScope (cEntry r)) (eName (cEntry r))) = Some h
       /\ hHash h = hash_at j1 (change_ref r) /\ hDamage h <= 0.
Proof.
  intros Hw Hj2. pose proof (journal_wf_prefix _ _ _ Hw) as Hw1.
  destruct (before_damage max j1 r Hw1) as (Ho1 & He1 & Hd1 & Hs1 & Hf1 & Ha1 & Hh1).
  set (st1 := foldl lu_step (lu_init 0) (Ok <$> j1)) in *. set (st2 := lu_step st1 (Err err)).
  destruct (window_steps max (fun q => q <> change_ref r) j2 st2 (j1 ++ [r]) Hw Hj2) as (Ho & He & Hd & Ha).
  { intros s n h Hq Hv. cbn. rewrite Hs1, hash_at_snoc, decide_False by done. by apply Ha1. }
  destruct (window_start j2 st2) as [Hs Hf]; [exact Hs1| |].
  { cbn. intros Hfst d Hd'. rewrite Hd1. apply Hf1 in Hfst as ->. destruct j2 as [|d' j2]; [done|].
    injection Hd' as ->. by rewrite (wf_seq _ _ _ (journal_wf_mid _ [r] _ _ Hw)). }
  pose proof (storable_scope _ _ (wf_storable _ _ _ (journal_wf_mid _ _ _ [] Hw1))) as Hv.
  pose proof (window_other max j2 _ (eName (cEntry r)) st2 _ Hw Hj2 Hv) as Hk.
  cbn zeta. fold st1. fold st2. rewrite Hs in Ha.
  split; [rewrite Ho; unfold st2; cbn; by rewrite Ho1|].
  split; [rewrite He; unfold st2; cbn; by rewrite He1|].
  split; [rewrite Hd; unfold st2; cbn; by rewrite Hd1|]. split; [done|].
  split; [intros Hfst; apply Hf in Hfst as [-> Hfst]; by apply Hf1 in Hfst as ->|]. split; [done|].
  unfold held_for at 1. rewrite Hk. unfold st2. cbn [lu_step luLast].
  destruct (luLast st1 !! key _ _) as [h|] eqn:E.
  - exists h. assert (Hst : held_for (luLast st1) true (key (eScope (cEntry r)) (eName (cEntry r))) = Some h)
      by (unfold held_for; by rewrite E).
    split_and!; [done|by apply (Ha1 _ _ h)|by eapply Hh1].
  - exists (MkHeld [] 0). assert (Hst : held_for (luLast st1) true (key (eScope (cEntry r)) (eName (cEntry r)))
      = Some (MkHeld [] 0)) by (unfold held_for; by rewrite E).
    split_and!; [done|by apply (Ha1 _ _ _ I Hv Hst)|cbn; lia].
Qed.

(** A damaged record is noticed. Read from the start a journal in which
    one line, the record [r], cannot be read: if [r] changed what its entry
    held, the next record for the entry is reported as a break after damage,
    over the state before [r]; the damage is returned beside the list; and
    nothing else is reported that was not a fork. *)
Theorem damage_is_noticed max j1 r j2 c j3 err :
  journal_wf max (j1 ++ r :: j2 ++ c :: j3) -> change_ref c = change_ref r ->
  (forall d, d ∈ j2 -> change_ref d <> change_ref r) ->
  hash_at (j1 ++ [r]) (change_ref r) <> hash_at j1 (change_ref r) ->
  LostUpdates_events ((Ok <$> j1) ++ Err err :: (Ok <$> j2 ++ c :: j3)) 0
  = (fork_reports j1 ++ fork_reports j2 ++ [MkLostUpdate c (hash_at j1 (change_ref r)) true true]
       ++ fork_reports j3, [err]).
Proof.
  intros Hw Hc Hj2 Hne. rewrite cons_middle, app_assoc in Hw. pose proof Hw as Hw'.
  rewrite app_assoc in Hw. pose proof (journal_wf_prefix _ _ _ Hw) as Hw2.
  destruct (after_damage max j1 r j2 err Hw2 Hj2) as (Ho & He & Hd & Hs & Hf & Ha & h & Hh & Hhh & Hhd).
  unfold LostUpdates_events. rewrite foldl_app. cbn [foldl]. rewrite fmap_app, fmap_cons, foldl_app.
  cbn [foldl]. set (st := foldl lu_step (lu_step _ (Err err)) (Ok <$> j2)) in *.
  pose proof (journal_wf_mid _ _ _ _ Hw) as Hcw.
  assert (Hkey : key (eScope (cEntry c)) (eName (cEntry c)) = key (eScope (cEntry r)) (eName (cEntry r))).
  { unfold change_ref, entry_ref in Hc. by injection Hc as -> ->. }
  assert (Hst : start_after st (cSeq c) = true).
  { unfold start_after. destruct (luFirst st) eqn:Ef; [|done]. destruct (Hf eq_refl) as [-> ->].
    by rewrite Hd, (wf_seq _ _ _ Hcw). }
  assert (Hrep : cReplaced c <> hHash h).
  { rewrite (wf_replaced _ _ _ Hcw), Hc, Hhh. fold (hash_at ((j1 ++ [r]) ++ j2) (change_ref r)).
    by rewrite hash_at_app_other. }
  pose proof (break_step st c h Hst) as Hb. rewrite Hkey in Hb.
  specialize (Hb Hh Hrep ltac:(lia)).
  destruct (window_steps max (fun _ => True) j3 (lu_step st (Ok c)) (((j1 ++ [r]) ++ j2) ++ [c]))
    as (Ho' & He' & _ & _).
  - by rewrite <- app_assoc.
  - done.
  - apply (agrees_step st c _ max (fun _ => True) Hcw). rewrite Hs. intros s n g [_ Hq] Hv. apply Ha; [|done].
    by rewrite <- Hc.
  - rewrite Ho', He', Hb, Ho, Hhh. cbn [lu_step luErrs]. rewrite He. by rewrite <- !app_assoc.
Qed.

(** ** Witnesses *)

Lemma LostUpdates_reports_forks_witness :
  LostUpdates demo 1
  = ((fun c => MkLostUpdate c (cReplaced c) false false) <$>
       filter (fun c => cPrev c <> cReplaced c /\ 1 < cSeq c) (store_journal demo), [])
  /\ (cSeq ∘ luChange) <$> (LostUpdates demo 1).1 = [3].
Proof.
  split; [apply (LostUpdates_reports_forks demo 1 demo_ok demo_reachable); lia|by vm_compute].
Defined.

Definition demo_record (i : nat) : Change :=
  nth i (store_journal demo) (MkChange 0 (entry "" "" "") [] [] [] [] 0).

Lemma damage_is_noticed_witness :
  LostUpdates_events [Ok (demo_record 0); Err (Damaged 2); Ok (demo_record 2); Ok (demo_record 3)] 0
  = ([MkLostUpdate (demo_record 2) (Hash (bs "Short answers.")) false false;
      MkLostUpdate (demo_record 3) [] true true], [Damaged 2]).
Proof.
  assert (Hj : [demo_record 0] ++ demo_record 1 :: [demo_record 2] ++ demo_record 3 :: []
               = store_journal demo) by by vm_compute.
  assert (Hw : journal_wf 4096 ([demo_record 0] ++ demo_record 1 :: [demo_record 2] ++ demo_record 3 :: [])).
  { rewrite Hj. apply reachable_wf, demo_reachable. }
  assert (Ho : forall d, d ∈ [demo_record 2] -> change_ref d <> change_ref (demo_record 1)).
  { intros d ->%list_elem_of_singleton. vm_compute. congruence. }
  assert (Hne : hash_at ([demo_record 0] ++ [demo_record 1]) (change_ref (demo_record 1))
                <> hash_at [demo_record 0] (change_ref (demo_record 1))) by (vm_compute; congruence).
  pose proof (damage_is_noticed 4096 [demo_record 0] (demo_record 1) [demo_record 2] (demo_record 3) []
    (Damaged 2) Hw ltac:(by vm_compute) Ho Hne) as P.
  etransitivity; [exact P|]. by vm_compute.
Defined.

(** Anchoring a write does not keep it out of the list: every write here is
    anchored, the second with [BasedOn] a state that was already replaced. *)
Lemma anchored_writers_are_reported :
  let ops := [OPut 1 [] (entry "user" "a" "one") [IfHash []]; OPut 2 [] (entry "user" "a" "two") [BasedOn []]] in
  (cSeq ∘ luChange) <$> (LostUpdates (run (NewMemStore 4096) ops).1 0).1 = [2].
Proof. by vm_compute. Qed.
