(* ===== verification/Search.v ===== *)
(** * The reference search: search.go and [Match]

    Search options, the filter the in-memory store and filestore search
    with, and [MemStore.SearchWith].  Lowercasing is modelled rune by rune,
    as strings.ToLower maps; the Unicode case table for the runes beyond
    ASCII is the parameter [lower_rune]. *)

From S2P Require Import Prelude GoStd Sha256 Memory Store MemStore Contract.

Definition newline : ascii := ascii_of_N 10.

(** ** strings.ToLower *)

Section Search.
(** The encoding of the lowercase of a rune that is not ASCII, given its
    bytes: unicode.ToLower's table, U+FFFD for a byte that is no rune. *)
Context (lower_rune : bytes -> bytes).

Definition lower_one (r : bytes) : bytes :=
  match r with
  | [c] => if bin 0 127 c then [lower_ascii c] else lower_rune [c]
  | _ => lower_rune r
  end.

Fixpoint lower_loop (fuel : nat) (s : bytes) : bytes :=
  match fuel with
  | O => []
  | S f => match s with
           | [] => []
           | _ => lower_one (take (rune_len s) s) ++ lower_loop f (drop (rune_len s) s)
           end
  end.

(** A rune takes at least one byte, so the length is fuel enough. *)
Definition ToLower (s : bytes) : bytes := lower_loop (length s) s.

(** ** Matching *)

(** Each word once, in the order they first appear. *)
Fixpoint dedup (ws out : list bytes) : list bytes :=
  match ws with
  | [] => out
  | w :: ws' => dedup ws' (if Contains out w then out else out ++ [w])
  end.

Definition queryWords (query : bytes) : list bytes := dedup (Fields (ToLower query)) [].

(** The text of an entry, its metadata values in the order [vs] the map was
    iterated in. *)
Definition match_text (vs : list bytes) (e : Entry) : bytes :=
  eName e ++ concat ((fun v => newline :: v) <$> vs) ++ newline :: eContent e.

Definition matchCount_in (vs : list bytes) (e : Entry) (words : list bytes) : Z :=
  match words with
  | [] => 0
  | _ => blen (filter (fun w => ContainsStr (ToLower (match_text vs e)) w = true) words)
  end.

Definition meta_values (e : Entry) : list bytes := (map_to_list (meta_map (eMeta e))).*2.

Definition matchCount (e : Entry) (words : list bytes) : Z := matchCount_in (meta_values e) e words.

Definition Match (e : Entry) (query : bytes) : bool :=
  let words := queryWords query in matchCount e words =? blen words.

(** ** Options *)

(** The zero time is no bound, a nil map no filter. *)
Record SearchOptions := MkSearchOptions {
  soAny : bool;
  soMeta : option (gmap bytes bytes);
  soUpdatedAfter : Z;
  soUpdatedBefore : Z
}.

Definition SearchAny : bytes := bs "any".
Definition SearchMeta : bytes := bs "meta".
Definition SearchUpdatedAfter : bytes := bs "updated_after".
Definition SearchUpdatedBefore : bytes := bs "updated_before".

Definition AllSearchOptions : list bytes := [SearchAny; SearchMeta; SearchUpdatedAfter; SearchUpdatedBefore].

Definition IsZero (t : Z) : bool := t =? 0.

Definition Names (o : SearchOptions) : list bytes :=
  (if soAny o then [SearchAny] else [])
  ++ (match soMeta o with Some _ => [SearchMeta] | None => [] end)
  ++ (if negb (IsZero (soUpdatedAfter o)) then [SearchUpdatedAfter] else [])
  ++ (if negb (IsZero (soUpdatedBefore o)) then [SearchUpdatedBefore] else []).

Definition SearchOptions_Check (o : SearchOptions) (supported : list bytes) : option error :=
  match List.find (fun n => negb (Contains supported n)) (Names o) with
  | Some n => Some (ErrUnsupported n)
  | None =>
      match List.find (fun kv : bytes * bytes => negb (ValidName kv.1)) (map_to_list (meta_map (soMeta o))) with
      | Some kv => Some (ErrInvalid (MetaKeyNotKebab kv.1))
      | None => None
      end
  end.

Definition Keep (o : SearchOptions) (e : Entry) : bool :=
  forallb (fun kv : bytes * bytes => bool_decide (meta_map (eMeta e) !! kv.1 = Some kv.2))
    (map_to_list (meta_map (soMeta o)))
  && negb (negb (IsZero (soUpdatedAfter o)) && negb (soUpdatedAfter o <? eUpdated e))
  && negb (negb (IsZero (soUpdatedBefore o)) && negb (eUpdated e <? soUpdatedBefore o)).

(** ** Filter *)

(** Whether the loop skips an entry whose count is [n]. *)
Definition skips (o : SearchOptions) (words : list bytes) (n : Z) : bool :=
  if blen words =? 0 then false
  else (soAny o && (n =? 0)) || (negb (soAny o) && (n <? blen words)).

(** The loop over the entries, with the number of hits so far. *)
Fixpoint filter_loop (o : SearchOptions) (words : list bytes) (limit : Z) (entries : list Entry) (hits : Z)
    : list (Entry * Z) :=
  match entries with
  | [] => []
  | e :: entries' =>
      if negb (Keep o e) then filter_loop o words limit entries' hits
      else let n := matchCount e words in
           if skips o words n then filter_loop o words limit entries' hits
           else (e, n) ::
                (if negb (soAny o) && (0 <? limit) && (hits + 1 =? limit) then []
                 else filter_loop o words limit entries' (hits + 1))
  end.

(** [slices.SortStableFunc] with [b.n - a.n]: most first, ties in order. *)
Fixpoint insert_hit (h : Entry * Z) (l : list (Entry * Z)) : list (Entry * Z) :=
  match l with
  | [] => [h]
  | g :: l' => if h.2 <? g.2 then g :: insert_hit h l' else h :: l
  end.

Definition sort_hits (l : list (Entry * Z)) : list (Entry * Z) := foldr insert_hit [] l.

Definition Filter (o : SearchOptions) (entries : list Entry) (query : bytes) (limit : Z) : list Entry :=
  let hits := filter_loop o (queryWords query) limit entries 0 in
  let hits := if soAny o then sort_hits hits else hits in
  let hits := if (0 <? limit) && (limit <? blen hits) then take (Z.to_nat limit) hits else hits in
  hits.*1.

(** ** The in-memory store's search *)

Fixpoint check_scopes (scopes : list bytes) : option error :=
  match scopes with
  | [] => None
  | s :: scopes' => match CheckScope s with Some err => Some err | None => check_scopes scopes' end
  end.

Definition mem_search_with (m : MemStore) (scopes : list bytes) (query : bytes) (limit : Z)
    (opts : SearchOptions) : res error (list Entry) :=
  check? check_scopes scopes in
  check? SearchOptions_Check opts AllSearchOptions in
  Ok (Filter opts (concat (listLocked m <$> scopes)) query limit).

Definition mem_search (m : MemStore) (scopes : list bytes) (query : bytes) (limit : Z)
    : res error (list Entry) :=
  mem_search_with m scopes query limit (MkSearchOptions false None 0 0).

(** [SearchWith]: a store's [Store.Search], and its [Searcher] when it is
    one. *)
Record Searchable := MkSearchable {
  plain : list bytes -> bytes -> Z -> res error (list Entry);
  searcher : option (list bytes -> bytes -> Z -> SearchOptions -> res error (list Entry))
}.

Definition SearchWith (s : Searchable) (scopes : list bytes) (query : bytes) (limit : Z)
    (opts : SearchOptions) : res error (list Entry) :=
  match searcher s with
  | Some f => f scopes query limit opts
  | None => check? SearchOptions_Check opts [] in plain s scopes query limit
  end.

(** ** Lowercasing line by line *)

Lemma rune_len_cases (s : bytes) : s <> [] -> (1 <= rune_len s)%nat.
Proof. intros _. unfold rune_len. repeat case_match; lia. Qed.

(** A newline is no continuation byte, so no rune reaches past one, and a
    rune before one is as long as it is with nothing after it. *)
Lemma rune_len_newline (a b : bytes) :
  a <> [] -> rune_len (a ++ newline :: b) = rune_len a /\ (rune_len a <= length a)%nat.
Proof.
  assert (Hc : cont newline = false) by done.
  assert (H3 : forall c, lead3 c newline = false).
  { intros c. unfold lead3. rewrite Hc. change (bin 160 191 newline) with false.
    change (bin 128 159 newline) with false. by rewrite !andb_false_r. }
  assert (H4 : forall c, lead4 c newline = false).
  { intros c. unfold lead4. rewrite Hc. change (bin 144 191 newline) with false.
    change (bin 128 143 newline) with false. by rewrite !andb_false_r. }
  destruct a as [|c0 [|c1 [|c2 [|c3 a]]]]; [done|intros _..]; unfold rune_len; cbn [app length];
    rewrite ?H3, ?H4, ?Hc, ?andb_false_r; cbn [andb];
    repeat case_match; try (split; [done|lia]); try done.
Qed.

Lemma lower_loop_newline n : forall a b f g,
  (length a <= n)%nat -> (length a + S (length b) <= f)%nat -> (length a <= g)%nat ->
  lower_loop f (a ++ newline :: b) = lower_loop g a ++ newline :: lower_loop (length b) b.
Proof.
  assert (Hfuel : forall m b f, (length b <= m)%nat -> (length b <= f)%nat ->
    lower_loop f b = lower_loop (length b) b).
  { induction m as [|m IH]; intros [|c b] [|f]; cbn [length]; try done; try lia.
    intros Hm Hf. cbn [lower_loop]. f_equal.
    pose proof (rune_len_cases (c :: b) ltac:(done)) as Hr.
    assert (Hd : (length (drop (rune_len (c :: b)) (c :: b)) <= length b)%nat).
    { rewrite length_drop. cbn [length]. lia. }
    rewrite (IH (drop (rune_len (c :: b)) (c :: b)) f), (IH (drop (rune_len (c :: b)) (c :: b)) (length b)) by lia.
    done. }
  assert (Hnil : forall b f g, (S (length b) <= f)%nat ->
    lower_loop f (newline :: b) = lower_loop g [] ++ newline :: lower_loop (length b) b).
  { intros b [|f] g Hf; [lia|]. cbn [lower_loop].
    assert (E : rune_len (newline :: b) = 1%nat) by (unfold rune_len; by destruct b).
    rewrite E. cbn. rewrite take_0, drop_0, (Hfuel (length b) b f) by lia. by destruct g. }
  induction n as [|n IH]; intros a b f g Hn Hf Hg.
  all: destruct (decide (a = [])) as [->|Ha]; [apply Hnil; cbn in Hf; lia|].
  - destruct a; [done|cbn in Hn; lia].
  - destruct (rune_len_newline a b Ha) as [E Hl]. pose proof (rune_len_cases a Ha) as Hr.
    destruct f as [|f]; [lia|]. destruct g as [|g]; [destruct a; [done|cbn in Hg; lia]|].
    assert (Hd : length (drop (rune_len a) a) = (length a - rune_len a)%nat) by apply length_drop.
    destruct a as [|c a]; [done|]. cbn [app lower_loop].
    change (c :: a ++ newline :: b) with ((c :: a) ++ newline :: b). rewrite E.
    rewrite take_app_le, drop_app_le by done. rewrite <- app_assoc. f_equal.
    apply IH; cbn [length] in *; lia.
Qed.

Lemma ToLower_newline a b : ToLower (a ++ newline :: b) = ToLower a ++ newline :: ToLower b.
Proof.
  unfold ToLower. apply (lower_loop_newline (length a)); rewrite ?length_app; cbn [length]; lia.
Qed.

(** ** What a word of the query is found in *)

(** The name, one of the metadata values, or the content holds the word,
    ignoring case. *)
Definition holds_word (e : Entry) (w : bytes) : Prop :=
  occurs w (ToLower (eName e))
  \/ (exists k v, meta_map (eMeta e) !! k = Some v /\ occurs w (ToLower v))
  \/ occurs w (ToLower (eContent e)).

Lemma text_word vs : forall n c w,
  w <> [] -> newline ∉ w ->
  occurs w (ToLower (n ++ concat ((fun v => newline :: v) <$> vs) ++ newline :: c))
  <-> occurs w (ToLower n) \/ Exists (fun v => occurs w (ToLower v)) vs \/ occurs w (ToLower c).
Proof.
  induction vs as [|v vs IH]; intros n c w Hw Hn; cbn [fmap list_fmap concat app].
  - rewrite ToLower_newline, occurs_sep, Exists_nil by done. tauto.
  - rewrite <- app_assoc, ToLower_newline, occurs_sep, IH, Exists_cons by done. tauto.
Qed.

Lemma match_text_word vs e w :
  vs ≡ₚ meta_values e -> w <> [] -> newline ∉ w ->
  ContainsStr (ToLower (match_text vs e)) w = true <-> holds_word e w.
Proof.
  intros Hvs Hw Hn. unfold match_text, holds_word. rewrite ContainsStr_spec, text_word by done.
  enough (Exists (fun v => occurs w (ToLower v)) vs
          <-> exists k v, meta_map (eMeta e) !! k = Some v /\ occurs w (ToLower v)) by tauto.
  rewrite Exists_exists. setoid_rewrite Hvs. unfold meta_values. split.
  - intros (v & ([k v'] & -> & H%elem_of_map_to_list)%list_elem_of_fmap & Ho). eauto.
  - intros (k & v & H & Ho). exists v. split; [|done]. apply list_elem_of_fmap.
    exists (k, v). by rewrite elem_of_map_to_list.
Qed.

(** ** The words of a query *)

Lemma dedup_elem ws : forall out w, w ∈ dedup ws out <-> w ∈ ws \/ w ∈ out.
Proof.
  induction ws as [|v ws IH]; intros out w; cbn [dedup]; [set_solver|].
  rewrite IH. unfold Contains. case_bool_decide; set_solver.
Qed.

Lemma dedup_NoDup ws : forall out, NoDup out -> NoDup (dedup ws out).
Proof.
  induction ws as [|v ws IH]; intros out Ho; cbn [dedup]; [done|].
  apply IH. unfold Contains. case_bool_decide; [done|].
  apply NoDup_app. split_and!; [done|set_solver|apply NoDup_singleton].
Qed.

Lemma queryWords_elem q w : w ∈ queryWords q <-> w ∈ Fields (ToLower q).
Proof. unfold queryWords. rewrite dedup_elem. set_solver. Qed.

Lemma queryWords_word q w : w ∈ queryWords q -> w <> [] /\ newline ∉ w.
Proof. rewrite queryWords_elem. apply Fields_word. Qed.

(** The distinct words of [words] the entry holds. *)
Lemma matchCount_in_perm vs e q :
  vs ≡ₚ meta_values e -> matchCount_in vs e (queryWords q) = matchCount e (queryWords q).
Proof.
  intros Hvs. unfold matchCount, matchCount_in.
  destruct (queryWords q) as [|w ws] eqn:E; [done|]. rewrite <- E. do 2 f_equal.
  apply filter_ext_in. intros w' Hw'. apply queryWords_word in Hw' as [Hw Hn].
  by rewrite !match_text_word by done.
Qed.

Lemma matchCount_filter e words :
  matchCount e words = blen (filter (fun w => ContainsStr (ToLower (match_text (meta_values e) e)) w = true) words).
Proof. by destruct words. Qed.

Lemma matchCount_bounds e words : 0 <= matchCount e words <= blen words.
Proof.
  rewrite matchCount_filter. unfold blen.
  pose proof (length_filter (fun w => ContainsStr (ToLower (match_text (meta_values e) e)) w = true) words). lia.
Qed.

Lemma Match_holds e q : Match e q = true <-> Forall (holds_word e) (queryWords q).
Proof.
  unfold Match. rewrite Z.eqb_eq, matchCount_filter, blen_filter_all, !Forall_forall.
  split; intros H w Hw; specialize (H w Hw); apply queryWords_word in Hw as [? ?].
  - by rewrite <- (match_text_word (meta_values e)).
  - by rewrite match_text_word.
Qed.

Lemma matchCount_some e q : matchCount e (queryWords q) <> 0 <-> Exists (holds_word e) (queryWords q).
Proof.
  rewrite matchCount_filter, Exists_exists. split.
  - destruct (filter _ _) as [|w ws] eqn:E; [done|]. intros _. exists w.
    assert (Hw : w ∈ w :: ws) by left. rewrite <- E, list_elem_of_filter in Hw. destruct Hw as [Hc Hw].
    split; [done|]. apply queryWords_word in Hw as [? ?]. by apply (match_text_word (meta_values e)).
  - rewrite blen_filter_none, Forall_forall.
    intros (w & Hw & Hh) Hn. apply (Hn w Hw). apply queryWords_word in Hw as [? ?]. by apply match_text_word.
Qed.

(** What a plain search matches: an entry matches a query exactly when
    every word of it, split at white space and lowercased, occurs in the
    entry's lowercased name, in one of its metadata values or in its content,
    within one of them and never across two; and how many words it holds does
    not depend on the order Go iterates the metadata in. *)
Theorem Match_every_word e q vs :
  (Match e q = true <-> Forall (holds_word e) (Fields (ToLower q)))
  /\ (vs ≡ₚ meta_values e -> matchCount_in vs e (queryWords q) = matchCount e (queryWords q)).
Proof.
  split; [|by apply matchCount_in_perm]. rewrite Match_holds, !Forall_forall.
  by setoid_rewrite queryWords_elem.
Qed.

(** ** What [Filter] returns *)

(** At most [limit] when it is positive. *)
Definition capped {A} (limit : Z) (l : list A) : list A :=
  if 0 <? limit then take (Z.to_nat limit) l else l.

(** Whether the loop takes an entry. *)
Definition wanted (o : SearchOptions) (words : list bytes) (e : Entry) : bool :=
  Keep o e && negb (skips o words (matchCount e words)).

Definition with_count (words : list bytes) (e : Entry) : Entry * Z := (e, matchCount e words).

Lemma filter_loop_all o words limit es hits :
  soAny o = true \/ limit <= 0 ->
  filter_loop o words limit es hits = with_count words <$> filter (fun e => wanted o words e = true) es.
Proof.
  intros Ho. revert hits. induction es as [|e es IH]; intros hits; [done|].
  cbn [filter_loop]. unfold wanted. rewrite filter_cons.
  destruct (Keep o e); cbn [negb andb]; [|rewrite decide_False by done; apply IH].
  destruct (skips _ _ _); cbn [negb]; [rewrite decide_False by done; apply IH|].
  rewrite decide_True by done. cbn [fmap list_fmap]. unfold with_count at 1. f_equal.
  replace (negb (soAny o) && (0 <? limit) && _) with false; [apply IH|].
  destruct Ho as [->|Hl]; [done|]. apply Z.ltb_ge in Hl. by rewrite Hl, andb_false_r.
Qed.

Lemma filter_loop_limit o words limit es hits :
  soAny o = false -> hits < limit -> 0 <= hits ->
  filter_loop o words limit es hits
  = with_count words <$> take (Z.to_nat (limit - hits)) (filter (fun e => wanted o words e = true) es).
Proof.
  intros Ho. revert hits. induction es as [|e es IH]; intros hits Hl Hh; [by destruct (Z.to_nat (limit - hits))|].
  cbn [filter_loop]. unfold wanted. rewrite filter_cons.
  destruct (Keep o e); cbn [negb andb]; [|rewrite decide_False by done; by apply IH].
  destruct (skips _ _ _); cbn [negb]; [rewrite decide_False by done; by apply IH|].
  rewrite decide_True by done. rewrite Ho. cbn [negb andb].
  replace (0 <? limit) with true by (symmetry; apply Z.ltb_lt; lia). cbn [andb].
  replace (Z.to_nat (limit - hits)) with (S (Z.to_nat (limit - (hits + 1)))) by lia.
  cbn [firstn fmap list_fmap]. unfold with_count at 1. f_equal.
  destruct (Z.eqb_spec (hits + 1) limit) as [E|E].
  - rewrite E, Z.sub_diag. by rewrite take_0.
  - apply IH; lia.
Qed.

Lemma fst_with_count words l : (with_count words <$> l).*1 = l.
Proof. induction l as [|e l IH]; [done|]. cbn. by f_equal. Qed.

Lemma cap_hits limit (hits : list (Entry * Z)) :
  (if (0 <? limit) && (limit <? blen hits) then take (Z.to_nat limit) hits else hits) = capped limit hits.
Proof.
  unfold capped, blen. destruct (0 <? limit); [|done]. cbn [andb]. case_match; [done|]. bool_hyps.
  rewrite take_ge; [done|lia].
Qed.

Lemma capped_fmap {A B} (f : A -> B) limit l : capped limit (f <$> l) = f <$> capped limit l.
Proof. unfold capped. case_match; [by rewrite fmap_take|done]. Qed.

(** The stable sort by count. *)
Definition more (x y : Entry * Z) : Prop := y.2 <= x.2.

Lemma insert_hit_perm h l : insert_hit h l ≡ₚ h :: l.
Proof.
  induction l as [|g l IH]; cbn; [done|]. case_match; [|done]. rewrite IH. constructor.
Qed.

Lemma sort_hits_perm l : sort_hits l ≡ₚ l.
Proof. induction l as [|h l IH]; cbn; [done|]. by rewrite insert_hit_perm, IH. Qed.

Lemma insert_hit_sorted h l : StronglySorted more l -> StronglySorted more (insert_hit h l).
Proof.
  induction 1 as [|g l Hs IH Hg]; cbn; [by repeat constructor|]. case_match; bool_hyps.
  - constructor; [done|]. rewrite insert_hit_perm. constructor; [unfold more; lia|done].
  - constructor; [by constructor|]. constructor; [done|].
    eapply Forall_impl; [exact Hg|]. unfold more in *. intros; lia.
Qed.

Lemma sort_hits_sorted l : StronglySorted more (sort_hits l).
Proof. induction l; cbn; [constructor|]. by apply insert_hit_sorted. Qed.

Lemma insert_hit_stable n h l :
  StronglySorted more l -> filter (fun x => x.2 = n) (insert_hit h l) = filter (fun x => x.2 = n) (h :: l).
Proof.
  induction 1 as [|g l Hs IH Hg]; [done|]. cbn [insert_hit]. case_match; bool_hyps; [|done].
  rewrite filter_cons, IH, !filter_cons. repeat case_decide; try done. lia.
Qed.

Lemma sort_hits_stable n l : filter (fun x => x.2 = n) (sort_hits l) = filter (fun x => x.2 = n) l.
Proof.
  induction l as [|h l IH]; [done|]. change (sort_hits (h :: l)) with (insert_hit h (sort_hits l)).
  rewrite insert_hit_stable by apply sort_hits_sorted. rewrite !filter_cons. by rewrite IH.
Qed.

(** The entry holds a word of the query, or the query has none. *)
Definition any_word (e : Entry) (q : bytes) : bool :=
  (blen (queryWords q) =? 0) || negb (matchCount e (queryWords q) =? 0).

Lemma wanted_plain o q e :
  soAny o = false -> wanted o (queryWords q) e = true <-> Keep o e = true /\ Match e q = true.
Proof.
  intros Ho. unfold wanted, skips, Match. rewrite Ho, andb_true_iff, negb_true_iff. cbn [andb negb orb].
  pose proof (matchCount_bounds e (queryWords q)).
  apply and_iff_compat_l. destruct (Z.eqb_spec (blen (queryWords q)) 0), (Z.ltb_spec (matchCount e (queryWords q)) (blen (queryWords q))),
    (Z.eqb_spec (matchCount e (queryWords q)) (blen (queryWords q))); try done; lia.
Qed.

Lemma wanted_any o q e :
  soAny o = true -> wanted o (queryWords q) e = true <-> Keep o e = true /\ any_word e q = true.
Proof.
  intros Ho. unfold wanted, skips, any_word. rewrite Ho, andb_true_iff, negb_true_iff. cbn [andb negb orb].
  rewrite orb_false_r. apply and_iff_compat_l.
  by destruct (blen (queryWords q) =? 0), (matchCount e (queryWords q) =? 0).
Qed.

Lemma filter_fst_hits words n (hs : list (Entry * Z)) :
  Forall (fun h => h.2 = matchCount h.1 words) hs ->
  filter (fun e => matchCount e words = n) hs.*1 = (filter (fun h : Entry * Z => h.2 = n) hs).*1.
Proof.
  induction 1 as [|[e m] hs Hh _ IH]; [done|]. cbn in Hh. subst m. cbn [fmap list_fmap fst].
  rewrite !filter_cons. cbn [snd]. case_decide; cbn [fmap list_fmap fst]; by rewrite ?IH.
Qed.

Lemma sorted_fst words hs :
  StronglySorted more hs -> Forall (fun h => h.2 = matchCount h.1 words) hs ->
  StronglySorted (fun x y => matchCount y words <= matchCount x words) hs.*1.
Proof.
  induction 1 as [|h l Hs IH Hm]; [constructor|].
  intros [Hh Hl]%Forall_cons. constructor; [by apply IH|]. apply Forall_fmap.
  rewrite Forall_forall in *. intros g Hg. specialize (Hm g Hg). specialize (Hl g Hg).
  unfold more in *. cbn. lia.
Qed.

(** C39: The reference search. Without [Any], [Filter] returns the entries
    that pass the options' filters and match the query, in the order given,
    the first [limit] of them when [limit] is positive: stopping early loses
    none. Under [Any] it returns those that pass and hold at least one word
    (all that pass for a query of no words), those with more distinct words
    first and ties in the order given, and cuts to [limit] after ranking. *)
Theorem Filter_reference o es q limit :
  (if soAny o then
     let hits := filter (fun e => Keep o e = true /\ any_word e q = true) es in
     let count e := matchCount e (queryWords q) in
     exists ranked, Filter o es q limit = capped limit ranked
       /\ ranked ≡ₚ hits
       /\ StronglySorted (fun x y => count y <= count x) ranked
       /\ forall n, filter (fun e => count e = n) ranked = filter (fun e => count e = n) hits
   else Filter o es q limit = capped limit (filter (fun e => Keep o e = true /\ Match e q = true) es))
  /\ forall e, any_word e q = true <-> queryWords q = [] \/ Exists (holds_word e) (queryWords q).
Proof.
  split.
  2: { intros e. unfold any_word. rewrite orb_true_iff, negb_true_iff, Z.eqb_eq, Z.eqb_neq, matchCount_some.
       unfold blen. destruct (queryWords q); cbn [length]; [tauto|]. split; intros [?|?]; (done || lia || tauto). }
  destruct (soAny o) eqn:Ho.
  - intros hits count. unfold Filter. rewrite Ho, cap_hits, filter_loop_all by auto.
    rewrite (filter_ext_in _ (fun e => Keep o e = true /\ any_word e q = true)) by (intros; by apply wanted_any).
    fold hits. set (hs := with_count (queryWords q) <$> hits).
    assert (Hhs : Forall (fun h => h.2 = matchCount h.1 (queryWords q)) (sort_hits hs)).
    { rewrite sort_hits_perm. apply Forall_fmap, Forall_true. done. }
    exists (sort_hits hs).*1. split_and!.
    + by rewrite <- capped_fmap.
    + rewrite sort_hits_perm. unfold hs. by rewrite fst_with_count.
    + by apply sorted_fst; [apply sort_hits_sorted|].
    + intros n. unfold count. rewrite filter_fst_hits by done. rewrite sort_hits_stable.
      rewrite <- (filter_fst_hits (queryWords q)); [by unfold hs; rewrite fst_with_count|].
      apply Forall_fmap, Forall_true. done.
  - unfold Filter. rewrite Ho, cap_hits.
    rewrite <- (filter_ext_in (fun e => wanted o (queryWords q) e = true)
                  (fun e => Keep o e = true /\ Match e q = true)) by (intros; by apply wanted_plain).
    rewrite <- capped_fmap. unfold capped. destruct (Z.ltb_spec 0 limit).
    + rewrite filter_loop_limit by (done || lia). rewrite Z.sub_0_r, fst_with_count.
      by rewrite take_take, Nat.min_id.
    + rewrite filter_loop_all by auto. by rewrite fst_with_count.
Qed.

(** ** Which searches are refused *)

(** Every option set is among [supported]. *)
Definition supports (supported : list bytes) (o : SearchOptions) : Prop :=
  Forall (fun n => n ∈ supported) (Names o).

Lemma find_none {A} (f : A -> bool) l : List.find f l = None <-> Forall (fun x => f x = false) l.
Proof.
  induction l as [|x l IH]; cbn; [by split|]. rewrite Forall_cons, <- IH. destruct (f x); naive_solver.
Qed.

Lemma SearchOptions_Check_cases o supported :
  match SearchOptions_Check o supported with
  | None => supports supported o /\ map_Forall (fun k _ => name_spec k) (meta_map (soMeta o))
  | Some (ErrUnsupported n) => n ∈ Names o /\ n ∉ supported
  | Some (ErrInvalid (MetaKeyNotKebab k)) => supports supported o /\ is_Some (meta_map (soMeta o) !! k) /\ ~ name_spec k
  | Some _ => False
  end.
Proof.
  unfold SearchOptions_Check, Contains. destruct (List.find _ (Names o)) as [n|] eqn:E.
  { apply List.find_some in E as [Hn Hs]. bool_hyps. by apply list_elem_of_In in Hn. }
  assert (Hs : supports supported o).
  { apply find_none in E. unfold supports. eapply Forall_impl; [exact E|]. cbn. intros n Hn. by bool_hyps. }
  destruct (List.find _ (map_to_list _)) as [[k v]|] eqn:F.
  - apply List.find_some in F as [Hk Hv]. cbn in Hv. bool_hyps. apply list_elem_of_In, elem_of_map_to_list in Hk.
    split_and!; [done|by eexists|]. cbn. intros ?%ValidName_iff. congruence.
  - split; [done|]. apply find_none in F. rewrite map_Forall_to_list. eapply Forall_impl; [exact F|].
    intros [k v] Hk. cbn in *. bool_hyps. by apply ValidName_iff.
Qed.

Lemma all_supported o : supports AllSearchOptions o.
Proof.
  unfold supports, Names. repeat case_match; cbn [app]; repeat constructor; unfold AllSearchOptions; set_solver.
Qed.

Lemma check_scopes_None scopes : check_scopes scopes = None <-> Forall name_spec scopes.
Proof.
  induction scopes as [|s scopes IH]; cbn; [by split|]. rewrite Forall_cons, <- IH, <- ValidName_iff.
  unfold CheckScope, ValidScope. destruct (ValidName s); naive_solver.
Qed.

(** The in-memory store's search. With valid scopes and metadata keys
    that are names it always answers: the reference search over what the
    scopes' journals replay to, scope by scope in the order given and by name
    within each. Otherwise it fails with [ErrInvalid], and since it supports
    every option it refuses none as unsupported. *)
Theorem MemStore_search m scopes q limit o :
  mem_ok m ->
  match mem_search_with m scopes q limit o with
  | Ok es => Forall name_spec scopes
      /\ map_Forall (fun k _ => name_spec k) (meta_map (soMeta o))
      /\ es = Filter o (concat (live_in (replay (msJournal m)) <$> scopes)) q limit
  | Err e => wraps e = SInvalid
      /\ ~ (Forall name_spec scopes /\ map_Forall (fun k _ => name_spec k) (meta_map (soMeta o)))
  end.
Proof.
  intros Hm. unfold mem_search_with. destruct (check_scopes scopes) as [e|] eqn:Es.
  { split; [|rewrite <- check_scopes_None, Es; naive_solver].
    clear -Es. induction scopes as [|s ss IH]; [done|]. cbn in Es. unfold CheckScope in Es.
    destruct (ValidScope s); naive_solver. }
  apply check_scopes_None in Es as Hs. pose proof (SearchOptions_Check_cases o AllSearchOptions) as Ho.
  destruct (SearchOptions_Check o AllSearchOptions) as [[| [] | | | n | ]|]; try done.
  - split; [done|]. destruct Ho as (_ & [v Hk] & Hn). intros [_ Hf]. by apply Hn, (Hf k v).
  - exfalso. destruct Ho as [Hn Hns]. pose proof (all_supported o) as Ha. unfold supports in Ha.
    rewrite Forall_forall in Ha. auto.
  - split_and!; [done|apply Ho|]. f_equal. f_equal. clear -Hm Hs.
    induction Hs as [|s ss Hs _ IH]; [done|]. cbn [fmap list_fmap concat]. rewrite IH. f_equal.
    pose proof (mem_list_spec m s Hm) as L. unfold mem_list, spec_list in L.
    apply ValidName_iff in Hs. unfold CheckScope, ValidScope in L. rewrite Hs in L. by injection L.
Qed.

(** Searching a store with options. A store that is no [Searcher] is
    asked its plain search exactly when no option is set, and every option
    set is refused with [ErrUnsupported] naming one of them, never ignored; a
    [Searcher] is asked with the options as given. *)
Theorem SearchWith_refuses s scopes q limit o :
  match searcher s with
  | Some f => SearchWith s scopes q limit o = f scopes q limit o
  | None =>
      if bool_decide (Names o = []) then SearchWith s scopes q limit o = plain s scopes q limit
      else exists n, n ∈ Names o /\ SearchWith s scopes q limit o = Err (ErrUnsupported n)
  end.
Proof.
  unfold SearchWith. destruct (searcher s); [done|].
  pose proof (SearchOptions_Check_cases o []) as H. case_bool_decide as Hn.
  - assert (Hm : soMeta o = None) by (unfold Names in Hn; destruct (soMeta o), (soAny o); done).
    unfold SearchOptions_Check. rewrite Hn, Hm. cbn [List.find meta_map default].
    by rewrite map_to_list_empty.
  - assert (Hs : ~ supports [] o).
    { unfold supports. intros Hs. destruct (Names o) as [|n ns]; [done|]. apply Forall_cons in Hs as [?%not_elem_of_nil _]. done. }
    destruct (SearchOptions_Check o []) as [[| [] | | | n | ]|]; try done; try naive_solver.
Qed.
End Search.

(** With a case table that maps ASCII alone. *)
Lemma MemStore_search_witness :
  mem_ok demo /\
  match mem_search_with (fun r => r) demo [bs "user"] (bs "LONG answers") 3 (MkSearchOptions false None 0 0) with
  | Ok es => es = Filter (fun r => r) (MkSearchOptions false None 0 0)
                    (concat (live_in (replay (msJournal demo)) <$> [bs "user"])) (bs "LONG answers") 3
  | Err e => wraps e = SInvalid
  end.
Proof.
  split; [exact demo_ok|].
  pose proof (MemStore_search (fun r => r) demo [bs "user"] (bs "LONG answers") 3 (MkSearchOptions false None 0 0) demo_ok) as H.
  destruct (mem_search_with _ _ _ _ _ _).
  - apply H.
  - apply H.
Defined.
