(* ===== verification/Neutralise.v ===== *)
(** * Neutralising an entry's content: render.go

    [neutralise] rewrites stored text so that, placed in the block, no line
    of it reads as one of the block's own headings, opens an HTML block, or
    leaves a code fence open.  Modelled line by line as the code has it; the
    theorems state the result in CommonMark's terms rather than the code's. *)

From S2P Require Import Prelude GoStd.

Definition CR : ascii := ascii_of_N 13.
Definition LF : ascii := ascii_of_N 10.
Definition TAB : ascii := ascii_of_N 9.

Definition is_char (c d : ascii) : bool := Ascii.eqb c d.
Definition is_space (c : ascii) : bool := is_char " " c.
(** The cutset of [strings.Trim(s, " \t")]. *)
Definition blank (c : ascii) : bool := is_char " " c || is_char TAB c.
Definition is_digit (c : ascii) : bool := bin 48 57 c.
Definition quote_char (c : ascii) : bool := blank c || is_char ">" c.
Definition bullet (c : ascii) : bool := is_char "-" c || is_char "+" c || is_char "*" c.
Definition no_end (c : ascii) : bool := negb (is_char CR c || is_char LF c).

(** The length of the longest run of [c] at the start of [s]:
    [len(s) - len(strings.TrimLeft(s, c))]. *)
Definition run_len (c : ascii) (s : bytes) : nat := length (take_while (is_char c) s).

(** ** Lines *)

Record line := MkLine { body : bytes; lend : bytes }.

Fixpoint split_loop (fuel : nat) (s : bytes) : list line :=
  match fuel with
  | O => []
  | S f =>
      match drop_while no_end s with
      | [] => [MkLine s []]
      | c :: rest =>
          let e := if HasPrefix (c :: rest) [CR; LF] then [CR; LF] else [c] in
          MkLine (take_while no_end s) e :: split_loop f (drop (length e) (c :: rest))
      end
  end.

(** Every turn but the last consumes a line end. *)
Definition splitLines (s : bytes) : list line := split_loop (S (length s)) s.

Definition joinLines (ls : list line) : bytes := concat ((fun l => body l ++ lend l) <$> ls).

(** ** What the rules look at *)

(** The bytes of the ordered list marker at the start of [s], 0 for none. *)
Definition ordered_len (s : bytes) : nat :=
  let j := length (take_while is_digit (take 9 s)) in
  match drop j s with
  | d :: sp :: _ => if (is_char "." d || is_char ")" d) && blank sp then S j else O
  | _ => O
  end.

Fixpoint lead_loop (fuel : nat) (markers : bool) (s : bytes) : nat :=
  match fuel, s with
  | O, _ | _, [] => O
  | S f, c :: s' =>
      if quote_char c then S (lead_loop f markers s')
      else if negb markers then O
      else if bullet c then
        match s' with
        | d :: _ => if blank d then S (lead_loop f markers s') else O
        | [] => O
        end
      else if is_digit c then
        match ordered_len s with
        | O => O
        | n => (n + lead_loop f markers (drop n s))%nat
        end
      else O
  end.

Definition leadLen (s : bytes) (markers : bool) : nat := lead_loop (length s) markers s.

Definition atxLevel (s : bytes) : nat :=
  let n := run_len "#" s in
  if (n =? 0)%nat || (6 <? n)%nat then O
  else match drop n s with
       | c :: _ => if blank c then n else O
       | [] => n
       end.

Definition isUnderline (s : bytes) : bool :=
  match s with
  | [] => false
  | c :: _ =>
      (is_char "=" c || is_char "-" c) && bool_decide (Trim blank (drop (run_len c s) s) = [])
  end.

Definition opensFence (s : bytes) : option (ascii * nat) :=
  match s with
  | [] => None
  | c :: _ =>
      if negb (is_char "`" c || is_char "~" c) then None
      else let n := run_len c s in
           if (n <? 3)%nat || (is_char "`" c && ContainsStr (drop n s) (bs "`")) then None
           else Some (c, n)
  end.

Definition closesFence (s : bytes) (c : ascii) (n : nat) : bool :=
  let run := run_len c s in
  (n <=? run)%nat && bool_decide (Trim blank (drop run s) = []).

(** ** The fence left open *)

(** The fence character, its length, and the line that opened it. *)
Definition fence_state := option (ascii * nat * nat).

Definition unclosed_step (st : fence_state) (i : nat) (l : line) : fence_state :=
  let ind := run_len " " (body l) in
  let rest := drop ind (body l) in
  if (3 <? ind)%nat then st
  else match st with
       | Some (fence, fenceLen, _) => if closesFence rest fence fenceLen then None else st
       | None => match opensFence rest with Some (c, n) => Some (c, n, i) | None => None end
       end.

Fixpoint unclosed_loop (st : fence_state) (i : nat) (ls : list line) : fence_state :=
  match ls with
  | [] => st
  | l :: ls' => unclosed_loop (unclosed_step st i l) (S i) ls'
  end.

Definition unclosed (ls : list line) : option nat := snd <$> unclosed_loop None 0 ls.

(** ** The rewriting *)

(** [s[:n] + ins + s[n:]]. *)
Definition insert_at (n : nat) (ins s : bytes) : bytes := take n s ++ ins ++ drop n s.

Definition backslash : bytes := bs "\".

(** One turn of the first loop, [n] being the ATX level: the new body. *)
Definition fix_line (prevText : bool) (b : bytes) : bytes :=
  let lead := leadLen b true in
  let rest := drop lead b in
  let n := atxLevel rest in
  if (1 <=? n)%nat && (n <=? 3)%nat then insert_at lead (repeat "#"%char (4 - n)) b
  else if (n =? 0)%nat && HasPrefix rest (bs "<") then insert_at lead backslash b
  else if (n =? 0)%nat && prevText then
    let q := leadLen b false in
    if isUnderline (drop q b) then insert_at q backslash b else b
  else b.

(** [prevText] after a line: its body was neither blank nor an ATX heading. *)
Definition is_text (b : bytes) : bool :=
  (atxLevel (drop (leadLen b true) b) =? 0)%nat && negb (bool_decide (Trim blank b = [])).

Fixpoint fix_lines (prevText : bool) (ls : list line) : list line :=
  match ls with
  | [] => []
  | l :: ls' => MkLine (fix_line prevText (body l)) (lend l) :: fix_lines (is_text (body l)) ls'
  end.

(** The line that opened the fence, made text. *)
Definition escape_fence (l : line) : line := MkLine (insert_at (run_len " " (body l)) backslash (body l)) (lend l).

Fixpoint close_loop (fuel : nat) (ls : list line) : list line :=
  match fuel with
  | O => ls
  | S f => match unclosed ls with
           | None => ls
           | Some open => close_loop f (alter escape_fence open ls)
           end
  end.

(** The loop has no bound in the code; [close_fences_done] shows that one
    turn per line is enough. *)
Definition close_fences (ls : list line) : list line := close_loop (length ls) ls.

Definition neutralise (content : bytes) : bytes :=
  joinLines (close_fences (fix_lines false (splitLines content))).

(** ** The vectors of testdata/neutralise.json, one of each kind *)

Definition lf (s : bytes) : bytes := s ++ [LF].

Example neutralise_headings :
  neutralise (lf (bs "text") ++ lf (bs "## mid") ++ bs "text") = lf (bs "text") ++ lf (bs "#### mid") ++ bs "text"
  /\ neutralise (bs "    ## code") = bs "    #### code"
  /\ neutralise (bs "> - ## x") = bs "> - #### x"
  /\ neutralise (bs "12) ## x") = bs "12) #### x"
  /\ neutralise (bs "1.5 ## x") = bs "1.5 ## x"
  /\ neutralise (bs "####### seven") = bs "####### seven".
Proof. repeat split; vm_compute; reflexivity. Qed.

Example neutralise_setext :
  neutralise (bs "Title" ++ [CR] ++ bs "===") = bs "Title" ++ [CR] ++ bs "\==="
  /\ neutralise (lf (bs "> Title") ++ bs "> ---") = lf (bs "> Title") ++ bs "> \---"
  /\ neutralise (lf (bs "## a") ++ bs "---") = lf (bs "#### a") ++ bs "---".
Proof. repeat split; vm_compute; reflexivity. Qed.

Example neutralise_fences :
  neutralise (lf (bs "```") ++ bs "~~~") = lf (bs "\```") ++ bs "\~~~"
  /\ neutralise (lf (bs "<!--") ++ lf (bs "```") ++ lf (bs "-->") ++ bs "## project")
     = lf (bs "\<!--") ++ lf (bs "\```") ++ lf (bs "-->") ++ bs "#### project"
  /\ neutralise (lf (bs "~~~~") ++ lf (bs "# in") ++ lf (bs "~~~") ++ lf (bs "~~~~") ++ bs "# out")
     = lf (bs "~~~~") ++ lf (bs "#### in") ++ lf (bs "~~~") ++ lf (bs "~~~~") ++ bs "#### out".
Proof. repeat split; vm_compute; reflexivity. Qed.

(** ** Splitting and joining lines *)

Definition clean (b : bytes) : Prop := Forall (fun c => no_end c = true) b.
Definition line_end (e : bytes) : Prop := e = [CR; LF] \/ e = [LF] \/ e = [CR].

(** The lists of lines a text splits into: every line but the last ends, no
    body holds a line end, and a lone CR is not followed by an LF. *)
Fixpoint wf_lines (ls : list line) : Prop :=
  match ls with
  | [] => False
  | l :: ls' =>
      clean (body l) /\
      match ls' with
      | [] => lend l = []
      | l2 :: _ => line_end (lend l) /\ ~ (lend l = [CR] /\ body l2 = [] /\ lend l2 = [LF]) /\ wf_lines ls'
      end
  end.

Lemma joinLines_cons l ls : joinLines (l :: ls) = body l ++ lend l ++ joinLines ls.
Proof. unfold joinLines. cbn. by rewrite <- app_assoc. Qed.

Lemma join_split_loop f : forall s, (length s < f)%nat -> joinLines (split_loop f s) = s.
Proof.
  induction f as [|f IH]; intros s Hf; [lia|]. cbn [split_loop].
  pose proof (take_drop_while no_end s) as E.
  destruct (drop_while no_end s) as [|c rest] eqn:D.
  { rewrite joinLines_cons. unfold joinLines. cbn. by rewrite !app_nil_r. }
  rewrite joinLines_cons. cbn [body lend]. set (e := if HasPrefix _ _ then _ else _).
  assert (He : exists t, c :: rest = e ++ t /\ e <> []).
  { unfold e. destruct (HasPrefix (c :: rest) [CR; LF]) eqn:P; [|by exists rest].
    apply HasPrefix_spec in P as [t ->]. by exists t. }
  destruct He as (t & He & Hne). rewrite He, drop_app_length, IH.
  - by rewrite <- He.
  - apply (f_equal length) in E, He. rewrite !length_app in *. destruct e; [done|]. cbn in *. lia.
Qed.

Lemma join_splitLines s : joinLines (splitLines s) = s.
Proof. apply join_split_loop. lia. Qed.

Lemma no_end_false c : no_end c = false -> c = CR \/ c = LF.
Proof.
  unfold no_end, is_char. rewrite negb_false_iff, orb_true_iff, !Ascii.eqb_eq. naive_solver.
Qed.

(** What a joined list of lines starts with. *)
Lemma joinLines_head l ls :
  wf_lines (l :: ls) ->
  (forall t, joinLines (l :: ls) = LF :: t -> body l = [] /\ lend l = [LF]).
Proof.
  rewrite joinLines_cons. intros [Hc Hl] t E. destruct (body l) as [|c b]; cbn in E.
  - destruct ls as [|l2 ls]; [by rewrite Hl in E|].
    destruct Hl as ([Hl|[Hl|Hl]] & _); rewrite Hl in *; cbn in E; done.
  - injection E as -> E. inversion Hc; subst. done.
Qed.

Lemma HasPrefix_crlf c t : HasPrefix (c :: t) [CR; LF] = true -> c = CR /\ exists t', t = LF :: t'.
Proof. intros [u E]%HasPrefix_spec. injection E as -> ->. eauto. Qed.

Lemma split_join_loop ls : forall f,
  wf_lines ls -> (length (joinLines ls) < f)%nat -> split_loop f (joinLines ls) = ls.
Proof.
  induction ls as [|l ls IH]; intros f Hw Hf; [done|].
  destruct f as [|f]; [lia|]. pose proof Hw as [Hc Hl]. rewrite joinLines_cons in *. cbn [split_loop].
  rewrite drop_while_app, take_while_app by done. destruct ls as [|l2 ls].
  { rewrite Hl. unfold joinLines. cbn. rewrite app_nil_r. destruct l; cbn in *. by subst. }
  destruct Hl as (He & Hcr & Hw2).
  assert (Hend : exists c e', lend l = c :: e' /\ no_end c = false) by (destruct He as [-> | [-> | ->] ]; eauto).
  destruct Hend as (c & e' & Ee & Hn). rewrite Ee. cbn [app drop_while take_while]. rewrite Hn, app_nil_r.
  assert (Hpre : (if HasPrefix (c :: e' ++ joinLines (l2 :: ls)) [CR; LF] then [CR; LF] else [c]) = lend l).
  { rewrite Ee. destruct He as [He|[He|He]]; rewrite He in Ee; injection Ee as <- <-.
    - exact (f_equal (fun x : bool => if x then [CR; LF] else [CR]) (HasPrefix_app [CR; LF] _)).
    - done.
    - cbn [app]. destruct (HasPrefix _ _) eqn:P; [|done].
    apply HasPrefix_crlf in P as [_ [t P]]. apply joinLines_head in P; [|done]. by destruct Hcr. }
  rewrite Hpre. change (c :: e' ++ ?x) with ((c :: e') ++ x). rewrite <- Ee, drop_app_length.
  f_equal; [by destruct l|]. apply IH; [done|].
  rewrite !length_app in Hf. rewrite Ee in Hf. cbn [length] in Hf. lia.
Qed.

Lemma split_joinLines ls : wf_lines ls -> splitLines (joinLines ls) = ls.
Proof. intros H. apply split_join_loop; [done|lia]. Qed.

(** ** Leads *)

(** The lead of a line: quote characters, and list markers when [m] is set,
    each followed by a space or a tab. *)
Inductive Lead (m : bool) : bytes -> Prop :=
| lead_nil : Lead m []
| lead_quote c p : quote_char c = true -> Lead m p -> Lead m (c :: p)
| lead_bullet c d p :
    m = true -> bullet c = true -> blank d = true -> Lead m p -> Lead m (c :: d :: p)
| lead_ordered ds e d p :
    m = true -> (0 < length ds <= 9)%nat -> Forall (fun c => is_digit c = true) ds ->
    is_char "." e || is_char ")" e = true -> blank d = true -> Lead m p -> Lead m (ds ++ e :: d :: p).

(** What no lead goes on with. *)
Definition stops (m : bool) (r : bytes) : Prop :=
  match r with
  | [] => True
  | c :: _ => quote_char c = false /\ (m = true -> bullet c = false /\ is_digit c = false)
  end.

Lemma lead_loop_stop f m r : stops m r -> lead_loop f m r = O.
Proof.
  destruct f as [|f]; [done|]. destruct r as [|c r]; [done|]. cbn [stops lead_loop]. intros [-> H].
  destruct m; cbn [negb]; [|done]. by destruct H as [-> ->].
Qed.

Lemma char_eq c d : is_char c d = true -> d = c.
Proof. unfold is_char. by intros ->%Ascii.eqb_eq. Qed.

Lemma digit_not_quote c : is_digit c = true -> quote_char c = false /\ bullet c = false.
Proof.
  intros H. unfold quote_char, blank, bullet, is_char.
  repeat match goal with |- context [Ascii.eqb ?x c] =>
    destruct (Ascii.eqb_spec x c) as [<-|]; [done|] end. done.
Qed.

Lemma blank_quote d : blank d = true -> quote_char d = true.
Proof. unfold quote_char. by intros ->. Qed.

Lemma ordered_len_app ds e d p :
  (0 < length ds <= 9)%nat -> Forall (fun c => is_digit c = true) ds ->
  is_char "." e || is_char ")" e = true -> blank d = true ->
  ordered_len (ds ++ e :: d :: p) = S (length ds).
Proof.
  intros Hl Hd He Hb. unfold ordered_len.
  assert (En : is_digit e = false).
  { apply orb_true_iff in He as [->%char_eq| ->%char_eq]; done. }
  assert (Hj : length (take_while is_digit (take 9 (ds ++ e :: d :: p))) = length ds).
  { rewrite take_app, (take_ge ds) by lia. rewrite take_while_app by done.
    destruct (9 - length ds)%nat; cbn; rewrite ?En, app_nil_r; done. }
  by rewrite Hj, drop_app_length, He, Hb.
Qed.

Lemma lead_loop_app m p r : Lead m p -> stops m r -> forall f,
  (length p <= f)%nat -> lead_loop f m (p ++ r) = length p.
Proof.
  intros Hp Hr. induction Hp as [|c p Hc _ IH|c d p Hm Hc Hd _ IH|ds e d p Hm Hl Hds He Hd _ IH]; intros f Hf.
  - by apply lead_loop_stop.
  - destruct f as [|f]; [cbn in Hf; lia|]. cbn [app lead_loop length] in *. rewrite Hc. f_equal. apply IH. lia.
  - destruct f as [|[|f]]; [cbn in Hf; lia..|]. cbn [length] in Hf. subst m.
    assert (Hq : quote_char c = false).
    { unfold bullet in Hc. apply orb_true_iff in Hc as [[->%char_eq| ->%char_eq]%orb_true_iff| ->%char_eq]; done. }
    cbn [app lead_loop]. rewrite Hq, Hc, Hd. cbn [negb].
    rewrite (blank_quote d Hd), IH by lia. done.
  - destruct f as [|f]; [rewrite length_app in Hf; cbn in Hf; lia|]. subst m.
    rewrite <- app_assoc. cbn [app]. pose proof (ordered_len_app ds e d (p ++ r) Hl Hds He Hd) as Ho.
    destruct ds as [|c ds]; [cbn in Hl; lia|]. inversion Hds as [|? ? Hc _]; subst.
    destruct (digit_not_quote c Hc) as [Hq Hb].
    cbn [app lead_loop]. rewrite Hq, Hb, Hc. cbn [negb]. cbn [app] in Ho. rewrite Ho.
    change (c :: ds ++ e :: d :: p ++ r) with ((c :: ds) ++ [e] ++ d :: p ++ r).
    rewrite app_assoc, drop_app_length' by (rewrite length_app; cbn; lia).
    destruct f as [|f]; [rewrite length_app in Hf; cbn in Hf; lia|].
    cbn [lead_loop]. rewrite (blank_quote d Hd), IH.
    + cbn [length]. rewrite length_app. cbn [length]. lia.
    + rewrite length_app in Hf. cbn [length] in Hf. lia.
Qed.

Lemma ordered_len_inv s n :
  ordered_len s = S n -> exists ds e d r, s = ds ++ e :: d :: r /\ n = length ds /\ (length ds <= 9)%nat
    /\ Forall (fun c => is_digit c = true) ds /\ is_char "." e || is_char ")" e = true /\ blank d = true.
Proof.
  unfold ordered_len. set (t := take_while is_digit (take 9 s)).
  destruct (drop (length t) s) as [|e [|d r]] eqn:D; [done..|]. case_match eqn:E; [|done].
  apply andb_true_iff in E as [He Hd]. intros [= <-]. exists t, e, d, r.
  assert (Ht : take (length t) s = t).
  { pose proof (take_drop_while is_digit (take 9 s)) as T. fold t in T.
    rewrite <- (take_drop 9 s), <- T, <- app_assoc. by rewrite take_app_length. }
  split_and!; [|done| |apply take_while_Forall|done|done].
  - rewrite <- D. rewrite <- Ht at 1. by rewrite take_drop.
  - unfold t. etransitivity; [apply take_while_length_le|]. rewrite length_take. lia.
Qed.

(** What the loop skips is a lead. *)
Lemma lead_loop_Lead m f : forall s, (length s <= f)%nat -> exists p r, s = p ++ r /\ Lead m p /\ lead_loop f m s = length p.
Proof.
  induction f as [f IH] using (well_founded_induction lt_wf). intros s Hf.
  destruct f as [|f]; [destruct s; [|cbn in Hf; lia]; exists [], []; split_and!; [done|constructor|done]|].
  destruct s as [|c s]; [exists [], []; split_and!; [done|constructor|done]|]. cbn [length] in Hf. cbn [lead_loop].
  assert (Hz : exists p r, c :: s = p ++ r /\ Lead m p /\ O = length p) by (exists [], (c :: s); split_and!; [done|constructor|done]).
  destruct (quote_char c) eqn:Hq.
  { destruct (IH f ltac:(lia) s ltac:(lia)) as (p & r & -> & Hp & ->). exists (c :: p), r. split_and!; [done|by constructor|done]. }
  destruct m; [|done]. cbn [negb]. destruct (bullet c) eqn:Hb.
  { destruct s as [|d s]; [done|]. destruct (blank d) eqn:Hd; [|done]. cbn [length] in Hf.
    destruct f as [|f]; [lia|]. cbn [lead_loop]. rewrite (blank_quote d Hd).
    destruct (IH f ltac:(lia) s ltac:(lia)) as (p & r & -> & Hp & ->). exists (c :: d :: p), r.
    split_and!; [done|by apply lead_bullet|done]. }
  destruct (is_digit c) eqn:Hc; [|done]. destruct (ordered_len (c :: s)) as [|n] eqn:Ho; [done|].
  apply ordered_len_inv in Ho as (ds & e & d & r & E & -> & Hl & Hds & He & Hd). rewrite E in *.
  assert (Hlen : (0 < length ds)%nat).
  { destruct ds; [|cbn; lia]. cbn in E. injection E as -> _.
    apply orb_true_iff in He as [->%char_eq| ->%char_eq]; done. }
  apply (f_equal length) in E as El. cbn [length] in El. rewrite length_app in El. cbn [length] in El.
  change (ds ++ e :: d :: r) with (ds ++ [e] ++ d :: r) at 2.
  rewrite app_assoc, drop_app_length' by (rewrite length_app; cbn; lia).
  destruct f as [|f]; [lia|]. cbn [lead_loop]. rewrite (blank_quote d Hd).
  destruct (IH f ltac:(lia) r ltac:(lia)) as (p & r' & -> & Hp & ->).
  exists (ds ++ e :: d :: p), r'. split_and!.
  - by rewrite <- app_assoc.
  - by apply lead_ordered.
  - rewrite length_app. cbn [length]. lia.
Qed.

Lemma leadLen_app m p r : Lead m p -> stops m r -> leadLen (p ++ r) m = length p.
Proof. intros Hp Hr. apply lead_loop_app; [done..|]. rewrite length_app. lia. Qed.

Lemma leadLen_split s m : exists p r, s = p ++ r /\ Lead m p /\ leadLen s m = length p.
Proof. by apply lead_loop_Lead. Qed.

(** ** What a line reads as, in CommonMark's terms *)

Definition blank_start (t : bytes) : Prop := match t with [] => True | c :: _ => blank c = true end.

(** An ATX heading of level [lo] to [hi], in a quote or a list or not. *)
Definition atx_heading (lo hi : nat) (b : bytes) : Prop :=
  exists p k t, Lead true p /\ (lo <= k <= hi)%nat /\ blank_start t /\ b = p ++ repeat "#"%char k ++ t.

Definition html_start (b : bytes) : Prop := exists p t, Lead true p /\ b = p ++ bs "<" ++ t.

Definition setext_underline (b : bytes) : Prop :=
  exists p c k w, Lead false p /\ (c = "="%char \/ c = "-"%char) /\ (1 <= k)%nat
    /\ Forall (fun c => blank c = true) w /\ b = p ++ repeat c k ++ w.

(** A line a setext underline would make a heading of. *)
Definition text_line (b : bytes) : Prop := ~ Forall (fun c => blank c = true) b /\ ~ atx_heading 1 6 b.

(** ** Runs and levels *)

Definition not_char_start (c : ascii) (t : bytes) : Prop := match t with [] => True | d :: _ => is_char c d = false end.

Lemma repeat_char c k : Forall (fun d => is_char c d = true) (repeat c k).
Proof. induction k; constructor; [apply Ascii.eqb_refl|done]. Qed.

Lemma run_len_repeat c k t : not_char_start c t -> run_len c (repeat c k ++ t) = k.
Proof.
  intros Ht. unfold run_len. rewrite take_while_app by apply repeat_char. rewrite length_app, repeat_length.
  destruct t as [|d t]; cbn in *; [lia|]. rewrite Ht. cbn. lia.
Qed.

Lemma run_split c s : exists t, s = repeat c (run_len c s) ++ t /\ not_char_start c t.
Proof.
  exists (drop_while (is_char c) s). split.
  - rewrite <- (take_drop_while (is_char c) s) at 1. f_equal. unfold run_len.
    pose proof (take_while_Forall (is_char c) s) as H. induction H as [|d l Hd _ IH]; [done|].
    cbn. apply char_eq in Hd as ->. by f_equal.
  - destruct (drop_while _ s) as [|d t] eqn:E; [done|]. by apply drop_while_head in E.
Qed.

Lemma drop_repeat {A} (c : A) k t : drop k (repeat c k ++ t) = t.
Proof. apply drop_app_length'. by rewrite repeat_length. Qed.

Lemma run_drop c s : s = repeat c (run_len c s) ++ drop (run_len c s) s.
Proof.
  destruct (run_split c s) as (t & E & _). revert E. generalize (run_len c s). intros n ->. by rewrite drop_repeat.
Qed.

Lemma blank_not_hash t : blank_start t -> not_char_start "#" t.
Proof.
  destruct t as [|c t]; [done|]. cbn. unfold blank.
  by intros [->%char_eq| ->%char_eq]%orb_true_iff.
Qed.

Lemma atxLevel_heading k t : (1 <= k <= 6)%nat -> blank_start t -> atxLevel (repeat "#"%char k ++ t) = k.
Proof.
  intros Hk Ht. unfold atxLevel. rewrite run_len_repeat by by apply blank_not_hash.
  rewrite drop_repeat. destruct (Nat.eqb_spec k 0), (Nat.ltb_spec 6 k); try lia. cbn [orb].
  destruct t as [|c t]; [done|]. cbn in Ht. by rewrite Ht.
Qed.

Lemma atxLevel_pos s : atxLevel s <> O ->
  (1 <= atxLevel s <= 6)%nat /\ exists t, s = repeat "#"%char (atxLevel s) ++ t /\ blank_start t.
Proof.
  unfold atxLevel. destruct (run_split "#" s) as (t & E & _). set (n := run_len "#" s) in *.
  destruct (Nat.eqb_spec n 0), (Nat.ltb_spec 6 n); cbn [orb]; try done.
  rewrite E, drop_repeat. destruct t as [|c t].
  - intros _. split; [lia|]. by exists [].
  - destruct (blank c) eqn:Hc; [|done]. intros _. split; [lia|]. by exists (c :: t).
Qed.

Lemma atxLevel_other c t : c <> "#"%char -> atxLevel (c :: t) = O.
Proof.
  intros Hc. destruct (decide (atxLevel (c :: t) = 0%nat)) as [|H]; [done|].
  apply atxLevel_pos in H as (Hn & u & E & _). destruct (atxLevel (c :: t)); [lia|]. cbn in E. by injection E as ->.
Qed.

Lemma atxLevel_nil : atxLevel [] = O.
Proof. done. Qed.

Lemma hash_stops m k t : (1 <= k)%nat -> stops m (repeat "#"%char k ++ t).
Proof. destruct k; [lia|]. by cbn. Qed.

Lemma isUnderline_iff s : isUnderline s = true <->
  exists c k w, (c = "="%char \/ c = "-"%char) /\ (1 <= k)%nat /\ Forall (fun c => blank c = true) w /\ s = repeat c k ++ w.
Proof.
  unfold isUnderline. split.
  - destruct s as [|c s]; [done|]. intros [Hc Hw]%andb_true_iff. bool_hyps. rewrite Trim_nil in Hw.
    exists c, (run_len c (c :: s)), (drop (run_len c (c :: s)) (c :: s)).
    split_and!; [|unfold run_len; cbn; rewrite (Ascii.eqb_refl c : is_char c c = true); cbn; lia|done|].
    + apply orb_true_iff in Hc as [->%char_eq| ->%char_eq]; auto.
    + apply run_drop.
  - intros (c & k & w & Hc & Hk & Hw & ->). destruct k as [|k]; [lia|].
    assert (Hn : not_char_start c w).
    { destruct Hw as [|d w Hd _]; [done|]. cbn. unfold blank in Hd.
      apply orb_true_iff in Hd as [->%char_eq| ->%char_eq]; destruct Hc as [-> | ->]; done. }
    change (repeat c (S k) ++ w) with (c :: (repeat c k ++ w)) at 1.
    cbn [app repeat]. change (c :: repeat c k ++ w) with (repeat c (S k) ++ w).
    rewrite run_len_repeat, drop_repeat by done. apply andb_true_iff. split.
    + by destruct Hc as [-> | ->].
    + apply bool_decide_eq_true. by apply Trim_nil.
Qed.

(** ** One line rewritten *)

Lemma lead_false_quote p : Lead false p -> Forall (fun c => quote_char c = true) p.
Proof. induction 1; try done. by constructor. Qed.

Lemma lead_false_true p : Lead false p -> Lead true p.
Proof. induction 1; try done; [constructor|by constructor]. Qed.

Lemma insert_at_app p ins r : insert_at (length p) ins (p ++ r) = p ++ ins ++ r.
Proof. unfold insert_at. by rewrite take_app_length, drop_app_length. Qed.

Lemma lead_at p r : Lead true p -> stops true r ->
  leadLen (p ++ r) true = length p /\ drop (leadLen (p ++ r) true) (p ++ r) = r.
Proof. intros Hp Hr. rewrite leadLen_app by done. split; [done|apply drop_app_length]. Qed.

(** A byte that is text wherever it stands. *)
Definition plain (c : ascii) : Prop := c = "\"%char \/ c = "`"%char \/ c = "~"%char.

Lemma plain_not_quote c : plain c -> quote_char c = false.
Proof. by intros [-> | [-> | ->] ]. Qed.

Lemma plain_stops c r : plain c -> stops true (c :: r).
Proof. by intros [-> | [-> | ->] ]. Qed.

(** The bytes of an underline. *)
Lemma underline_bytes s x : isUnderline s = true -> x ∈ s -> x = "="%char \/ x = "-"%char \/ blank x = true.
Proof.
  intros (c & k & w & Hc & _ & Hw & ->)%isUnderline_iff. rewrite elem_of_app. intros [Hx|Hx].
  - pose proof (repeat_char c k) as Hr. rewrite Forall_forall in Hr. apply Hr, char_eq in Hx as ->. naive_solver.
  - rewrite Forall_forall in Hw. auto.
Qed.

Lemma no_underline b x :
  x ∈ b -> quote_char x = false -> x <> "="%char -> x <> "-"%char ->
  isUnderline (drop (leadLen b false) b) = false.
Proof.
  intros Hx Hq H1 H2. destruct (isUnderline _) eqn:E; [|done]. exfalso.
  destruct (leadLen_split b false) as (p & r & -> & Hp & Hl). rewrite Hl, drop_app_length in E.
  apply elem_of_app in Hx as [Hx|Hx].
  - apply lead_false_quote in Hp. rewrite Forall_forall in Hp. apply Hp in Hx. congruence.
  - destruct (underline_bytes r x E Hx) as [?|[?|Hb]]; [done..|]. apply blank_quote in Hb. congruence.
Qed.

Lemma not_blank b x : x ∈ b -> quote_char x = false -> bool_decide (Trim blank b = []) = false.
Proof.
  intros Hx Hq. apply bool_decide_eq_false. rewrite Trim_nil, Forall_forall. intros H.
  apply H, blank_quote in Hx. congruence.
Qed.

(** A line with a plain byte after a lead is text, and stays as it is. *)
Lemma plain_line prev p c r : Lead true p -> plain c ->
  fix_line prev (p ++ c :: r) = p ++ c :: r /\ is_text (p ++ c :: r) = true.
Proof.
  intros Hp Hc. destruct (lead_at p (c :: r) Hp (plain_stops c r Hc)) as [Hl Hd].
  assert (Ha : atxLevel (c :: r) = O) by (apply atxLevel_other; by destruct Hc as [-> | [-> | ->] ]).
  assert (Hin : c ∈ p ++ c :: r) by set_solver. pose proof (plain_not_quote c Hc) as Hq.
  unfold fix_line, is_text. rewrite Hd, Ha. cbn [Nat.leb Nat.eqb andb]. split.
  - replace (HasPrefix (c :: r) (bs "<")) with false by by destruct Hc as [-> | [-> | ->] ].
    destruct prev; [|done]. rewrite (no_underline _ c); [done..| |]; by destruct Hc as [-> | [-> | ->] ].
  - by rewrite (not_blank _ c).
Qed.

(** A line that is a heading of level four or more, or any heading. *)
Lemma heading_line p k t : Lead true p -> (1 <= k <= 6)%nat -> blank_start t ->
  drop (leadLen (p ++ repeat "#"%char k ++ t) true) (p ++ repeat "#"%char k ++ t) = repeat "#"%char k ++ t
  /\ leadLen (p ++ repeat "#"%char k ++ t) true = length p
  /\ atxLevel (repeat "#"%char k ++ t) = k.
Proof.
  intros Hp Hk Ht. destruct (lead_at p (repeat "#"%char k ++ t) Hp) as [Hl Hd]; [apply hash_stops; lia|].
  split_and!; [done|done|by apply atxLevel_heading].
Qed.

Lemma heading_not_text p k t : Lead true p -> (1 <= k <= 6)%nat -> blank_start t ->
  is_text (p ++ repeat "#"%char k ++ t) = false.
Proof.
  intros Hp Hk Ht. destruct (heading_line p k t Hp Hk Ht) as (Hd & _ & Ha).
  unfold is_text. rewrite Hd, Ha. by destruct k; [lia|].
Qed.

(** What [fix_line] does to a line. *)
Inductive fixed (prev : bool) (b : bytes) : bytes -> Prop :=
| fixed_same : fixed prev b b
| fixed_atx p k t :
    Lead true p -> (1 <= k <= 3)%nat -> blank_start t -> b = p ++ repeat "#"%char k ++ t ->
    fixed prev b (p ++ repeat "#"%char 4 ++ t)
| fixed_html p t : Lead true p -> b = p ++ "<"%char :: t -> fixed prev b (p ++ "\"%char :: "<"%char :: t)
| fixed_setext p r :
    prev = true -> Lead false p -> isUnderline r = true -> b = p ++ r ->
    atxLevel (drop (leadLen b true) b) = O -> fixed prev b (p ++ "\"%char :: r).

Lemma fix_line_fixed prev b : fixed prev b (fix_line prev b).
Proof.
  unfold fix_line. destruct (leadLen_split b true) as (p & r & Eb & Hp & Hl).
  assert (Hd : drop (leadLen b true) b = r) by (rewrite Hl, Eb; apply drop_app_length).
  destruct (decide (1 <= atxLevel r <= 3)%nat) as [Hn|Hn].
  { rewrite Hd. destruct (atxLevel_pos r) as (_ & t & Er & Ht); [lia|].
    set (n := atxLevel r) in *. destruct (Nat.leb_spec 1 n), (Nat.leb_spec n 3); try lia. cbn [andb].
    replace (insert_at _ _ b) with (p ++ repeat "#"%char 4 ++ t).
    { apply (fixed_atx _ _ p n t); [done|lia|done|congruence]. }
    rewrite Hl, Eb, insert_at_app, Er, (app_assoc (repeat _ _)), <- repeat_app.
    by replace (4 - n + n)%nat with 4%nat by lia. }
  rewrite Hd. replace (_ && _) with false.
  2: { symmetry. apply andb_false_iff. rewrite !Nat.leb_gt. lia. }
  destruct (Nat.eqb_spec (atxLevel r) 0) as [Ha|_]; cbn [andb]; [|constructor].
  destruct (HasPrefix r (bs "<")) eqn:Hh.
  { apply HasPrefix_spec in Hh as [t ->]. rewrite Hl, Eb, insert_at_app. by apply fixed_html. }
  destruct prev; [|constructor]. destruct (isUnderline _) eqn:Hu; [|constructor].
  destruct (leadLen_split b false) as (q & u & Eq & Hq & Hlq). rewrite Hlq in *. rewrite Eq in Hu.
  rewrite drop_app_length in Hu. rewrite Eq at 2. rewrite insert_at_app.
  apply fixed_setext; try done. by rewrite Hd.
Qed.

(** Whatever was rewritten is none of these again, whatever came before it. *)
Lemma fix_line_rewritten prev prev' b :
  fix_line prev b = b \/ fix_line prev' (fix_line prev b) = fix_line prev b.
Proof.
  destruct (fix_line_fixed prev b) as [|p k t Hp Hk Ht _|p t Hp _|p r _ Hp _ _ _].
  - by left.
  - right. destruct (heading_line p 4 t Hp) as (Hd & _ & Ha); [lia|done|].
    unfold fix_line. by rewrite Hd, Ha.
  - right. apply (plain_line prev' p "\"%char); [done|by left].
  - right. apply (plain_line prev' p "\"%char); [by apply lead_false_true|by left].
Qed.

Lemma fix_line_idem prev b : fix_line prev (fix_line prev b) = fix_line prev b.
Proof. destruct (fix_line_rewritten prev prev b) as [E|E]; [by rewrite E|done]. Qed.

Lemma is_text_fixed prev b : is_text (fix_line prev b) = is_text b.
Proof.
  destruct (fix_line_fixed prev b) as [|p k t Hp Hk Ht ->|p t Hp ->|p r _ Hp Hu -> Ha].
  - done.
  - rewrite !heading_not_text by (done || lia). done.
  - rewrite (proj2 (plain_line prev p "\"%char _ Hp (or_introl eq_refl))).
    destruct (lead_at p ("<"%char :: t) Hp) as [_ Hd]; [done|]. unfold is_text. rewrite Hd.
    rewrite (atxLevel_other "<"%char) by done. rewrite (not_blank _ "<"%char); [done|set_solver|done].
  - rewrite (proj2 (plain_line prev p "\"%char _ (lead_false_true _ Hp) (or_introl eq_refl))).
    unfold is_text. rewrite Ha. apply isUnderline_iff in Hu as (c & k & w & Hc & Hk & _ & ->).
    rewrite (not_blank _ c); [done| |by destruct Hc as [-> | ->] ].
    destruct k; [lia|]. set_solver.
Qed.

Lemma insert_at_length n ins (b : bytes) : length (insert_at n ins b) = (length ins + length b)%nat.
Proof. unfold insert_at. rewrite !length_app, Nat.add_assoc, (Nat.add_comm _ (length ins)), <- Nat.add_assoc, <- length_app. by rewrite take_drop. Qed.

Lemma insert_at_ne n ins (b : bytes) : ins <> [] -> insert_at n ins b <> b.
Proof. intros Hi E%(f_equal length). rewrite insert_at_length in E. destruct ins; [done|]. cbn in E. lia. Qed.

Lemma underline_atx b : setext_underline b -> atxLevel (drop (leadLen b true) b) = O /\ ~ html_start b
  /\ isUnderline (drop (leadLen b false) b) = true.
Proof.
  intros (p & c & k & w & Hp & Hc & Hk & Hw & ->).
  assert (Hb : Forall (fun x => quote_char x = true \/ x = c) (p ++ repeat c k ++ w)).
  { rewrite !Forall_app. split_and!.
    - apply lead_false_quote in Hp. eapply Forall_impl; [exact Hp|]. auto.
    - eapply Forall_impl; [exact (repeat_char c k)|]. cbn. intros x ->%char_eq. auto.
    - eapply Forall_impl; [exact Hw|]. cbn. intros x Hx%blank_quote. auto. }
  rewrite Forall_forall in Hb. split_and!.
  - destruct (decide (atxLevel (drop (leadLen (p ++ repeat c k ++ w) true) (p ++ repeat c k ++ w)) = 0%nat)) as [|Hn]; [done|].
    apply atxLevel_pos in Hn as (Hn & t & E & _). destruct (atxLevel _) as [|n]; [lia|]. cbn in E.
    assert (Hin : "#"%char ∈ p ++ repeat c k ++ w).
    { rewrite <- (take_drop (leadLen (p ++ repeat c k ++ w) true) (p ++ repeat c k ++ w)), E. set_solver. }
    apply Hb in Hin as [?|?]; [done|]. by destruct Hc as [-> | ->].
  - intros (q & t & _ & E). assert (Hin : "<"%char ∈ p ++ repeat c k ++ w) by (rewrite E; cbn; set_solver).
    apply Hb in Hin as [?|?]; [done|]. by destruct Hc as [-> | ->].
  - assert (Hs : stops false (repeat c k ++ w)).
    { destruct k; [lia|]. cbn. split; [|done]. by destruct Hc as [-> | ->]. }
    rewrite leadLen_app, drop_app_length by done. apply isUnderline_iff. by exists c, k, w.
Qed.

(** A line the rules leave alone reads as none of them. *)
Lemma fixed_safe prev b :
  fix_line prev b = b -> ~ atx_heading 1 3 b /\ ~ html_start b /\ (prev = true -> ~ setext_underline b).
Proof.
  intros Hf. split_and!.
  - intros (p & k & t & Hp & Hk & Ht & ->). destruct (heading_line p k t Hp) as (Hd & Hl & Ha); [lia|done|].
    revert Hf. unfold fix_line. rewrite Hd, Ha, Hl.
    destruct (Nat.leb_spec 1 k), (Nat.leb_spec k 3); try lia. cbn [andb].
    apply insert_at_ne. destruct (4 - k)%nat eqn:E; [lia|done].
  - intros (p & t & Hp & ->). change (bs "<" ++ t) with ("<"%char :: t) in *.
    destruct (lead_at p ("<"%char :: t) Hp) as [Hl Hd]; [done|].
    revert Hf. unfold fix_line. rewrite Hd, (atxLevel_other "<"%char) by done. cbn [Nat.leb Nat.eqb andb].
    rewrite (HasPrefix_app (bs "<") t : HasPrefix ("<"%char :: t) (bs "<") = true).
    by apply insert_at_ne.
  - intros -> Hu. destruct (underline_atx b Hu) as (Ha & Hh & Hi). revert Hf. unfold fix_line.
    rewrite Ha, Hi. cbn [Nat.leb Nat.eqb andb]. destruct (HasPrefix _ _) eqn:P; [by apply insert_at_ne|].
    by apply insert_at_ne.
Qed.

Lemma is_text_iff b : is_text b = true <-> text_line b.
Proof.
  unfold is_text, text_line. rewrite andb_true_iff, Nat.eqb_eq, negb_true_iff, bool_decide_eq_false, Trim_nil.
  split.
  - intros [Ha Hb]. split; [done|]. intros (p & k & t & Hp & Hk & Ht & ->).
    destruct (heading_line p k t Hp Hk Ht) as (Hd & _ & E). rewrite Hd, E in Ha. lia.
  - intros [Hb Ha]. split; [|done]. destruct (leadLen_split b true) as (p & r & -> & Hp & Hl).
    rewrite Hl, drop_app_length. destruct (decide (atxLevel r = 0%nat)) as [|Hn]; [done|].
    destruct Ha. destruct (atxLevel_pos r Hn) as (Hk & t & Er & Ht). rewrite Er. by exists p, (atxLevel r), t.
Qed.

(** ** Fences *)

Definition opener (l : line) : bool :=
  let ind := run_len " " (body l) in
  (ind <=? 3)%nat && match opensFence (drop ind (body l)) with Some _ => true | None => false end.

Lemma opener_inv l : opener l = true ->
  exists k c r, (c = "`"%char \/ c = "~"%char) /\ body l = repeat " "%char k ++ c :: r /\ run_len " " (body l) = k.
Proof.
  unfold opener. intros [_ Ho]%andb_true_iff. destruct (opensFence _) as [[c n]|] eqn:E; [|done].
  unfold opensFence in E. pose proof (run_drop " " (body l)) as Er.
  destruct (drop _ (body l)) as [|d r]; [done|]. destruct (negb _) eqn:Hd; [done|].
  apply negb_false_iff, orb_true_iff in Hd.
  exists (run_len " " (body l)), d, r. split_and!; [|done|done].
  by destruct Hd as [->%char_eq| ->%char_eq]; auto.
Qed.

Lemma repeat_space_lead m k : Lead m (repeat " "%char k).
Proof. induction k; constructor; done. Qed.

Lemma escape_body l k r : body l = repeat " "%char k ++ r -> run_len " " (body l) = k ->
  body (escape_fence l) = repeat " "%char k ++ "\"%char :: r.
Proof.
  intros Hb Hk. cbn [escape_fence body]. rewrite Hk, Hb. unfold insert_at.
  by rewrite take_app_length', drop_app_length' by by rewrite repeat_length.
Qed.

Lemma escape_fence_body l : opener l = true ->
  exists p c r, Lead true p /\ plain c /\ body l = p ++ c :: r /\ body (escape_fence l) = p ++ "\"%char :: c :: r.
Proof.
  intros (k & c & r & Hc & Hb & Hk)%opener_inv. exists (repeat " "%char k), c, r.
  split_and!; [apply repeat_space_lead|unfold plain; tauto|done|by apply escape_body].
Qed.

Lemma escape_not_opener l : opener l = true -> opener (escape_fence l) = false.
Proof.
  intros (k & c & r & Hc & Hb & Hk)%opener_inv. unfold opener. rewrite (escape_body l k (c :: r)) by done.
  rewrite run_len_repeat, drop_repeat by done. apply andb_false_r.
Qed.

(** The line an open fence was opened by is one that opens a fence. *)
Lemma unclosed_loop_opener ls : forall st i c n j,
  unclosed_loop st i ls = Some (c, n, j) ->
  st = Some (c, n, j) \/ (i <= j)%nat /\ exists l, ls !! (j - i)%nat = Some l /\ opener l = true.
Proof.
  induction ls as [|l ls IH]; intros st i c n j H; cbn [unclosed_loop] in H; [by left|].
  apply IH in H as [H|(Hj & l' & Hl & Ho)].
  - unfold unclosed_step in H. destruct (Nat.ltb_spec 3 (run_len " " (body l))) as [|Hi]; [by left|].
    destruct st as [[[f m] k]|].
    + destruct (closesFence _ _ _); [done|]. by left.
    + destruct (opensFence _) as [[d m]|] eqn:E; [|done]. injection H as -> -> ->. right. split; [done|].
      exists l. rewrite Nat.sub_diag. split; [done|]. unfold opener. rewrite E.
      apply andb_true_iff. split; [by apply Nat.leb_le|done].
  - right. split; [lia|]. exists l'. replace (j - i)%nat with (S (j - S i)) by lia. done.
Qed.

Lemma unclosed_opener ls i : unclosed ls = Some i -> exists l, ls !! i = Some l /\ opener l = true.
Proof.
  unfold unclosed. intros ([[c n] j] & H & [= ->])%fmap_Some.
  apply unclosed_loop_opener in H as [?|(_ & l & Hl & Ho)]; [done|]. rewrite Nat.sub_0_r in Hl. eauto.
Qed.

Definition openers (ls : list line) : nat := length (filter (fun l => opener l = true) ls).

Lemma alter_middle {A} (f : A -> A) l1 x l2 : alter f (length l1) (l1 ++ x :: l2) = l1 ++ f x :: l2.
Proof. induction l1 as [|y l1 IH]; [done|]. cbn. by f_equal. Qed.

(** Escaping the line that opened the fence leaves one opener less. *)
Lemma openers_escape ls i l : ls !! i = Some l -> opener l = true ->
  S (openers (alter escape_fence i ls)) = openers ls.
Proof.
  intros Hl Ho. apply list_elem_of_split_length in Hl as (l1 & l2 & -> & ->).
  rewrite alter_middle. unfold openers. rewrite !filter_app, !length_app.
  rewrite filter_cons_False by (rewrite escape_not_opener; done). rewrite filter_cons_True by done. cbn [length]. lia.
Qed.

Lemma close_loop_done f : forall ls, (openers ls <= f)%nat -> unclosed (close_loop f ls) = None.
Proof.
  induction f as [|f IH]; intros ls Hf; cbn [close_loop]; destruct (unclosed ls) as [i|] eqn:E; try done.
  - apply unclosed_opener in E as (l & Hl & Ho). pose proof (openers_escape ls i l Hl Ho). lia.
  - apply IH. apply unclosed_opener in E as (l & Hl & Ho). pose proof (openers_escape ls i l Hl Ho). lia.
Qed.

(** One turn per line is enough: the loop ends, with no fence open. *)
Lemma close_fences_done ls : unclosed (close_fences ls) = None.
Proof. apply close_loop_done. apply length_filter. Qed.

(** ** The result *)

(** Line by line, one list of lines is another with [P] between bodies. *)
Definition lines_rel (P : bytes -> bytes -> Prop) : list line -> list line -> Prop :=
  Forall2 (fun l l' => lend l' = lend l /\ P (body l) (body l')).

(** The rewriting touches a line with text on it, and leaves text there. *)
Definition same_kind (b b' : bytes) : Prop := (b' = [] <-> b = []) /\ (clean b -> clean b').

Lemma lines_rel_wf ls ls' : lines_rel same_kind ls ls' -> wf_lines ls -> wf_lines ls'.
Proof.
  induction 1 as [|l l' ls ls' [He [Hn Hc]] H IH]; [done|]. intros [Hl Hw]. split; [auto|].
  destruct H as [|l2 l2' ls ls' [He2 [Hn2 _]] H]; [by rewrite He|].
  destruct Hw as (Hend & Hcr & Hw). rewrite He, He2, Hn2. auto.
Qed.

Lemma same_kind_insert p c c' (r r' : bytes) :
  (forall x, x ∈ r' -> x ∈ p ++ c :: r \/ no_end x = true) -> no_end c' = true -> same_kind (p ++ c :: r) (p ++ c' :: r').
Proof.
  intros Hr Hc'. split.
  - split; intros E; by destruct p.
  - unfold clean. rewrite !Forall_forall. intros H x [Hx|[->|Hx]%elem_of_cons]%elem_of_app; [|done|].
    + apply H. set_solver.
    + destruct (Hr x Hx); auto.
Qed.

Lemma fix_line_kind prev b : same_kind b (fix_line prev b).
Proof.
  destruct (fix_line_fixed prev b) as [|p k t Hp Hk Ht ->|p t Hp ->|p r _ Hp Hu -> _].
  - done.
  - destruct k as [|k]; [lia|]. apply same_kind_insert; [|done].
    intros x. cbn [repeat app]. rewrite !elem_of_cons. intros [->|[->|[->|Hx]]]; [by right..|]. left. set_solver.
  - apply same_kind_insert; [|done]. set_solver.
  - apply isUnderline_iff in Hu as (c & k & w & _ & Hk & _ & ->). destruct k; [lia|].
    apply same_kind_insert; [|done]. set_solver.
Qed.

Lemma escape_kind l : opener l = true -> same_kind (body l) (body (escape_fence l)).
Proof.
  intros (p & c & r & _ & _ & -> & ->)%escape_fence_body. apply same_kind_insert; [set_solver|done].
Qed.

Lemma same_kind_refl b : same_kind b b.
Proof. done. Qed.

Lemma same_kind_trans b b' b'' : same_kind b b' -> same_kind b' b'' -> same_kind b b''.
Proof. intros [H1 H2] [H3 H4]. split; [by rewrite H3|auto]. Qed.

Lemma fix_lines_kind ls : forall prev, lines_rel same_kind ls (fix_lines prev ls).
Proof.
  induction ls as [|l ls IH]; intros prev; constructor; [|apply IH]. split; [done|]. apply fix_line_kind.
Qed.

(** The lines of [fix_lines] are left alone by a second reading. *)
Lemma fix_lines_idem ls : forall prev, fix_lines prev (fix_lines prev ls) = fix_lines prev ls.
Proof.
  induction ls as [|l ls IH]; intros prev; [done|]. cbn [fix_lines body lend].
  by rewrite fix_line_idem, is_text_fixed, IH.
Qed.

(** What the fence loop does to each line: nothing, or one escape. *)
Definition escaped (l l' : line) : Prop := l' = l \/ opener l = true /\ l' = escape_fence l.

Lemma escaped_trans l l' l'' : escaped l l' -> escaped l' l'' -> escaped l l''.
Proof.
  intros [->|[Ho ->]]; [done|]. intros [->|[Ho' _]]; [by right|]. by rewrite escape_not_opener in Ho'.
Qed.

Lemma Forall2_escaped_refl ls : Forall2 escaped ls ls.
Proof. induction ls; constructor; [by left|done]. Qed.

Lemma Forall2_escaped_trans ls ls' ls'' : Forall2 escaped ls ls' -> Forall2 escaped ls' ls'' -> Forall2 escaped ls ls''.
Proof.
  intros H. revert ls''. induction H as [|l l' ls ls' Hl _ IH]; intros ls'' H'; inversion H'; subst; constructor.
  - by eapply escaped_trans.
  - by apply IH.
Qed.

Lemma close_loop_escaped f : forall ls, Forall2 escaped ls (close_loop f ls).
Proof.
  induction f as [|f IH]; intros ls; cbn [close_loop]; [apply Forall2_escaped_refl|].
  destruct (unclosed ls) as [i|] eqn:E; [|apply Forall2_escaped_refl].
  eapply Forall2_escaped_trans; [|apply IH].
  apply unclosed_opener in E as (l & Hl & Ho). apply list_elem_of_split_length in Hl as (l1 & l2 & -> & ->).
  rewrite alter_middle. apply Forall2_app; [apply Forall2_escaped_refl|].
  constructor; [by right|apply Forall2_escaped_refl].
Qed.

Lemma escaped_kind ls ls' : Forall2 escaped ls ls' -> lines_rel same_kind ls ls'.
Proof.
  induction 1 as [|l l' ls ls' Hl _ IH]; constructor; [|done].
  destruct Hl as [->|[Ho ->]]; [done|]. split; [done|]. by apply escape_kind.
Qed.

(** Escaping fences leaves the rules nothing to do. *)
Lemma escaped_fixed ls ls' : Forall2 escaped ls ls' -> forall prev, fix_lines prev ls = ls -> fix_lines prev ls' = ls'.
Proof.
  induction 1 as [|l l' ls ls' Hl _ IH]; intros prev E; [done|]. cbn [fix_lines] in *. injection E as El E.
  destruct Hl as [->|[Ho ->]].
  - rewrite IH; [|done]. f_equal. exact El.
  - destruct (escape_fence_body l Ho) as (p & c & r & Hp & Hc & Hb & Hb').
    destruct (plain_line prev p "\"%char (c :: r) Hp (or_introl eq_refl)) as [Hf Ht].
    destruct (plain_line prev p c r Hp Hc) as [_ Ht0].
    rewrite Hb', Hf, Ht. rewrite Hb, Ht0 in E. rewrite IH; [|done]. f_equal.
    unfold escape_fence in *. cbn [body lend] in *. by rewrite Hb'.
Qed.

(** The lines [neutralise] puts together. *)
Definition neutral_lines (content : bytes) : list line := close_fences (fix_lines false (splitLines content)).

Lemma split_loop_wf f : forall s, (length s < f)%nat -> wf_lines (split_loop f s).
Proof.
  induction f as [|f IH]; intros s Hf; [lia|]. cbn [split_loop].
  destruct (drop_while no_end s) as [|c rest] eqn:D.
  { split; [|done]. by apply drop_while_nil. }
  split; [apply take_while_Forall|]. cbn [lend]. pose proof (drop_while_head _ _ _ _ D) as Hc.
  apply (f_equal length) in D as Dl. pose proof (take_drop_while no_end s) as E. apply (f_equal length) in E.
  rewrite length_app, Dl in E. cbn [length] in E.
  set (e := if HasPrefix _ _ then _ else _).
  assert (Hlt : (length (drop (length e) (c :: rest)) < f)%nat).
  { rewrite length_drop. unfold e. destruct (HasPrefix _ _); cbn [length]; lia. }
  specialize (IH _ Hlt). pose proof (join_split_loop _ _ Hlt) as J.
  destruct (split_loop f _) as [|l2 ls] eqn:S; [done|]. split_and!; [| |done].
  - unfold e. destruct (HasPrefix _ _); [by left|]. right. apply no_end_false in Hc as [-> | ->]; auto.
  - intros (He & Hb & H2). rewrite joinLines_cons, Hb, H2 in J. unfold e in *.
    destruct (HasPrefix (c :: rest) [CR; LF]) eqn:P; [done|]. injection He as ->.
    cbn [length drop app] in J. change (skipn 0 rest) with rest in J. rewrite <- J in P.
    pose proof (HasPrefix_app [CR; LF] (joinLines ls)) as Q. cbn [app] in Q. congruence.
Qed.

Lemma splitLines_wf s : wf_lines (splitLines s).
Proof. apply split_loop_wf. lia. Qed.

Lemma neutral_lines_facts content :
  splitLines (neutralise content) = neutral_lines content
  /\ fix_lines false (neutral_lines content) = neutral_lines content
  /\ unclosed (neutral_lines content) = None
  /\ lines_rel same_kind (splitLines content) (neutral_lines content).
Proof.
  pose proof (fix_lines_kind (splitLines content) false) as K1.
  pose proof (close_loop_escaped (length (fix_lines false (splitLines content))) (fix_lines false (splitLines content))) as K.
  fold (close_fences (fix_lines false (splitLines content))) in K. fold (neutral_lines content) in K.
  pose proof (escaped_kind _ _ K) as K2. split_and!.
  - apply split_joinLines. apply (lines_rel_wf _ _ K2), (lines_rel_wf _ _ K1), splitLines_wf.
  - apply (escaped_fixed _ _ K), fix_lines_idem.
  - apply close_fences_done.
  - clear -K1 K2. unfold lines_rel in *. revert K2. generalize (neutral_lines content). induction K1 as [|l l' ls ls' [He Hk] _ IH]; intros ls'' H; inversion H as [|? l'' ? ? [He' Hk']]; subst; constructor.
    + split; [congruence|by eapply same_kind_trans].
    + by apply IH.
Qed.

(** ** Fences in CommonMark's terms *)

Definition fence_char (c : ascii) : Prop := c = "`"%char \/ c = "~"%char.

(** A line that opens a fence of [n] of [c], with any info string. *)
Definition opens (c : ascii) (n : nat) (b : bytes) : Prop :=
  exists k info, (k <= 3)%nat /\ fence_char c /\ (3 <= n)%nat /\ not_char_start c info
    /\ (c = "`"%char -> "`"%char ∉ info) /\ b = repeat " "%char k ++ repeat c n ++ info.

Definition closes (c : ascii) (n : nat) (b : bytes) : Prop :=
  exists k m w, (k <= 3)%nat /\ (n <= m)%nat /\ Forall (fun c => blank c = true) w
    /\ b = repeat " "%char k ++ repeat c m ++ w.

(** Every fence is closed: the lines are text that opens none, and blocks
    from an opening line to the first that closes it. *)
Inductive fenced : list bytes -> Prop :=
| fenced_nil : fenced []
| fenced_text b bs : (forall c n, ~ opens c n b) -> fenced bs -> fenced (b :: bs)
| fenced_block c n b inner b' bs :
    opens c n b -> Forall (fun x => ~ closes c n x) inner -> closes c n b' -> fenced bs ->
    fenced (b :: inner ++ b' :: bs).

Lemma not_space_run k c t : c <> " "%char -> run_len " " (repeat " "%char k ++ c :: t) = k.
Proof. intros Hc. apply run_len_repeat. apply Ascii.eqb_neq. congruence. Qed.

Lemma opens_iff c n b :
  opens c n b <-> (run_len " " b <= 3)%nat /\ opensFence (drop (run_len " " b) b) = Some (c, n).
Proof.
  split.
  - intros (k & info & Hk & Hc & Hn & Hi & Hb & ->). destruct n as [|n]; [lia|].
    assert (Er : run_len " " (repeat " "%char k ++ repeat c (S n) ++ info) = k).
    { apply (not_space_run k c (repeat c n ++ info)). by destruct Hc as [-> | ->]. }
    rewrite Er, drop_repeat. split; [done|]. unfold opensFence. cbn [repeat app].
    change (c :: repeat c n ++ info) with (repeat c (S n) ++ info). rewrite run_len_repeat, drop_repeat by done.
    replace (negb _) with false by by destruct Hc as [-> | ->].
    destruct (Nat.ltb_spec (S n) 3); [lia|]. cbn [orb].
    destruct (is_char "`" c && ContainsStr info (bs "`")) eqn:E; [|done].
    apply andb_true_iff in E as [->%char_eq (x & y & ->)%ContainsStr_spec]. destruct (Hb eq_refl). cbn. set_solver.
  - intros [Hk Ho]. exists (run_len " " b). pose proof (run_drop " " b) as Eb.
    destruct (drop (run_len " " b) b) as [|d r]; [done|]. unfold opensFence in Ho.
    destruct (negb _) eqn:Hd; [done|]. apply negb_false_iff, orb_true_iff in Hd.
    destruct ((run_len d (d :: r) <? 3)%nat || _) eqn:E; [done|]. injection Ho as -> Hn.
    apply orb_false_iff in E as [E1%Nat.ltb_ge E2]. destruct (run_split c (c :: r)) as (t & Et & Ht).
    exists t. rewrite Hn in *. split_and!; [done| |done|done| |].
    + by destruct Hd as [->%char_eq| ->%char_eq]; [left|right].
    + intros -> Hin. rewrite Et, drop_repeat in E2. cbn in E2.
      apply list_elem_of_split in Hin as (x & y & ->). pose proof (Index_app x (bs "`") y) as Hi.
      unfold ContainsStr in E2. apply bool_decide_eq_false in E2. by destruct E2.
    + by rewrite <- Et.
Qed.

Lemma closes_iff c n b : fence_char c -> (1 <= n)%nat ->
  closes c n b <-> (run_len " " b <= 3)%nat /\ closesFence (drop (run_len " " b) b) c n = true.
Proof.
  intros Hc Hn. split.
  - intros (k & m & w & Hk & Hm & Hw & ->). destruct m as [|m]; [lia|].
    assert (Er : run_len " " (repeat " "%char k ++ repeat c (S m) ++ w) = k).
    { apply (not_space_run k c (repeat c m ++ w)). by destruct Hc as [-> | ->]. }
    rewrite Er, drop_repeat. split; [done|]. unfold closesFence.
    rewrite run_len_repeat.
    2: { destruct Hw as [|d w Hd _]; [done|]. cbn. unfold blank in Hd.
         apply orb_true_iff in Hd as [->%char_eq| ->%char_eq]; by destruct Hc as [-> | ->]. }
    rewrite drop_repeat. apply andb_true_iff. split; [by apply Nat.leb_le|].
    apply bool_decide_eq_true. by apply Trim_nil.
  - intros [Hk Hcl]. unfold closesFence in Hcl. apply andb_true_iff in Hcl as [Hm%Nat.leb_le Hw].
    bool_hyps. rewrite Trim_nil in Hw. pose proof (run_drop " " b) as Eb.
    set (r := drop (run_len " " b) b) in *. pose proof (run_drop c r) as Er.
    exists (run_len " " b), (run_len c r), (drop (run_len c r) r). split_and!; [done..|]. by rewrite <- Er.
Qed.

Lemma unclosed_fenced ls : forall i,
  (unclosed_loop None i ls = None -> fenced (body <$> ls))
  /\ (forall c n j, fence_char c -> (1 <= n)%nat -> unclosed_loop (Some (c, n, j)) i ls = None ->
      exists inner b' bs, body <$> ls = inner ++ b' :: bs /\ Forall (fun x => ~ closes c n x) inner
        /\ closes c n b' /\ fenced bs).
Proof.
  induction ls as [|l ls IH]; intros i; [split; [constructor|done]|]. destruct (IH (S i)) as [IH1 IH2]. split.
  - cbn [unclosed_loop]. unfold unclosed_step. cbn [fmap list_fmap].
    destruct (Nat.ltb_spec 3 (run_len " " (body l))) as [Hi|Hi].
    { intros H. apply fenced_text; [|auto]. intros c n [? _]%opens_iff. lia. }
    destruct (opensFence _) as [[c n]|] eqn:E; intros H.
    + assert (Ho : opens c n (body l)) by by apply opens_iff.
      pose proof Ho as (_ & _ & _ & Hc & Hn & _).
      destruct (IH2 c n i Hc ltac:(lia) H) as (inner & b' & bs & -> & Hin & Hcl & Hf). by eapply fenced_block.
    + apply fenced_text; [|auto]. intros c n [_ Ho]%opens_iff. congruence.
  - intros c n j Hc Hn. cbn [unclosed_loop]. unfold unclosed_step. cbn [fmap list_fmap].
    assert (Hstep : ~ closes c n (body l) -> unclosed_loop (Some (c, n, j)) (S i) ls = None ->
      exists inner b' bs, body l :: (body <$> ls) = inner ++ b' :: bs /\ Forall (fun x => ~ closes c n x) inner
        /\ closes c n b' /\ fenced bs).
    { intros Hnc H. destruct (IH2 c n j Hc Hn H) as (inner & b' & bs & -> & Hin & Hcl & Hf).
      exists (body l :: inner), b', bs. split_and!; [done|by constructor|done..]. }
    destruct (Nat.ltb_spec 3 (run_len " " (body l))) as [Hi|Hi].
    { apply Hstep. rewrite closes_iff by done. lia. }
    destruct (closesFence _ _ _) eqn:E.
    + intros H. exists [], (body l), (body <$> ls). split_and!; [done|done| |auto]. by apply closes_iff.
    + apply Hstep. rewrite closes_iff, E by done. naive_solver.
Qed.

(** ** Lines of a text made of two *)

Lemma split_loop_lines f s : (length s < f)%nat -> split_loop f s = splitLines s.
Proof.
  intros Hf. pose proof (split_loop_wf f s Hf) as Hw. pose proof (split_joinLines _ Hw) as E.
  by rewrite join_split_loop in E.
Qed.

Lemma splitLines_unfold s :
  splitLines s = match drop_while no_end s with
                 | [] => [MkLine s []]
                 | c :: rest =>
                     let e := if HasPrefix (c :: rest) [CR; LF] then [CR; LF] else [c] in
                     MkLine (take_while no_end s) e :: splitLines (drop (length e) (c :: rest))
                 end.
Proof.
  unfold splitLines at 1. cbn [split_loop]. destruct (drop_while no_end s) as [|c rest] eqn:D; [done|].
  f_equal. apply split_loop_lines.
  pose proof (take_drop_while no_end s) as E. apply (f_equal length) in E. rewrite length_app, D in E. cbn [length] in E.
  rewrite length_drop. destruct (HasPrefix _ _); cbn [length]; lia.
Qed.

Lemma splitLines_clean s : clean s -> splitLines s = [MkLine s []].
Proof. intros H. by rewrite splitLines_unfold, drop_while_none. Qed.

Lemma splitLines_head s t : clean s -> splitLines (s ++ LF :: t) = MkLine s [LF] :: splitLines t.
Proof.
  intros H. rewrite splitLines_unfold, drop_while_app, take_while_app by done. cbn.
  by rewrite app_nil_r, drop_0.
Qed.

(** Every line of two texts with a line feed between is a line of one of
    them: a CR at the end of the first joins the line feed, no more. *)
Lemma splitLines_app_elem n : forall x y b, (length x <= n)%nat ->
  b ∈ body <$> splitLines (x ++ LF :: y) -> b ∈ body <$> splitLines x \/ b ∈ body <$> splitLines y.
Proof.
  induction n as [n IH] using (well_founded_induction lt_wf). intros x y b Hn Hb.
  destruct (drop_while no_end x) as [|c r] eqn:D.
  { apply drop_while_nil in D. rewrite splitLines_head in Hb by done. cbn [fmap list_fmap body] in Hb.
    apply elem_of_cons in Hb as [->|Hb]; [left|by right]. rewrite splitLines_clean by done. cbn. left. }
  pose proof (take_drop_while no_end x) as Ex. rewrite D in Ex. pose proof (take_while_Forall no_end x) as Hc.
  set (p := take_while no_end x) in *. pose proof (drop_while_head _ _ _ _ D) as Hcn.
  assert (Ecx : drop_while no_end (x ++ LF :: y) = c :: r ++ LF :: y).
  { rewrite <- Ex, <- app_assoc, drop_while_app by done. cbn. by rewrite Hcn. }
  assert (Etx : take_while no_end (x ++ LF :: y) = p).
  { rewrite <- Ex, <- app_assoc, take_while_app by done. cbn. rewrite Hcn. by rewrite app_nil_r. }
  rewrite splitLines_unfold, Ecx, Etx in Hb. rewrite (splitLines_unfold x), D. fold p.
  assert (Hlen : (length r < length x)%nat) by (rewrite <- Ex, length_app; cbn; lia).
  destruct r as [|d r].
  { cbn [app] in *. destruct (HasPrefix [c] [CR; LF]) eqn:P1; [apply HasPrefix_crlf in P1 as (_ & ? & ?); done|].
    cbv zeta in *. cbn [fmap list_fmap body length] in *.
    destruct (HasPrefix (c :: LF :: y) [CR; LF]); cbn [length drop] in Hb; rewrite ?drop_0 in Hb; cbn [length drop];
      apply elem_of_cons in Hb as [->|Hb]; try (left; by left).
    - by right.
    - change (LF :: y) with ([] ++ LF :: y) in Hb. rewrite splitLines_head in Hb by constructor.
      cbn [fmap list_fmap body] in Hb. apply elem_of_cons in Hb as [->|Hb]; [|by right].
      left. right. change (skipn 0 []) with (@nil ascii). rewrite splitLines_clean by constructor. left. }
  assert (Eh : HasPrefix (c :: (d :: r) ++ LF :: y) [CR; LF] = HasPrefix (c :: d :: r) [CR; LF]).
  { cbn [app HasPrefix]. destruct (_ =? _)%char; [|done]. destruct (_ =? _)%char; [|done]. cbn.
    by destruct r, y. }
  rewrite Eh in Hb. cbv zeta in *. set (e := if HasPrefix (c :: d :: r) [CR; LF] then [CR; LF] else [c]) in *.
  assert (Ed : exists k, k = drop (length e) (c :: d :: r) /\ drop (length e) (c :: (d :: r) ++ LF :: y) = k ++ LF :: y
      /\ (length k < length x)%nat).
  { unfold e. destruct (HasPrefix _ _); cbn [length]; eexists; (split; [reflexivity|]); cbn; rewrite ?drop_0; cbn in Hlen |- *; split; done || lia. }
  destruct Ed as (k & Ek & Ed & Hk). rewrite Ed in Hb. rewrite <- Ek.
  cbn [fmap list_fmap body] in *. apply elem_of_cons in Hb as [->|Hb]; [left; by left|].
  apply (IH (length k)) in Hb as [Hb|Hb]; [left; by right|by right|lia|done].
Qed.

Lemma splitLines_app x y b :
  b ∈ body <$> splitLines (x ++ LF :: y) -> b ∈ body <$> splitLines x \/ b ∈ body <$> splitLines y.
Proof. by apply (splitLines_app_elem (length x)). Qed.

(** ** Claims *)

Lemma fix_lines_lookup ls : forall prev i l, fix_lines prev ls = ls -> ls !! i = Some l ->
  exists p, fix_line p (body l) = body l
    /\ forall j l0, i = S j -> ls !! j = Some l0 -> is_text (body l0) = true -> p = true.
Proof.
  induction ls as [|l' ls IH]; intros prev i l E Hl; [done|]. cbn [fix_lines] in E. injection E as El E.
  destruct i as [|i].
  - injection Hl as ->. exists prev. split; [|done]. by rewrite <- El at 2.
  - destruct (IH _ i l E Hl) as (p & Hp & Hprev). destruct i as [|i].
    + exists (is_text (body l')). split; [|intros j l0 [= <-] [= ->]; done].
      destruct ls as [|l2 ls]; [done|]. injection Hl as ->. cbn [fix_lines] in E. injection E as E _. by rewrite <- E at 2.
    + exists p. split; [done|]. intros j l0 [= <-] Hl0. by apply (Hprev i l0).
Qed.

(** C15: No content can forge the block's structure. In what [neutralise]
    returns, read as CommonMark reads lines, and inside quotes and list items
    too: no line is an ATX heading of level one to three, none opens an HTML
    block, none underlines the text line before it as a setext heading, and
    every code fence opened is closed by a later line of it. *)
Theorem neutralise_safe content :
  let ls := splitLines (neutralise content) in
  (forall i l, ls !! i = Some l ->
     ~ atx_heading 1 3 (body l) /\ ~ html_start (body l)
     /\ forall j l0, i = S j -> ls !! j = Some l0 -> text_line (body l0) -> ~ setext_underline (body l))
  /\ fenced (body <$> ls).
Proof.
  intros ls. unfold ls. destruct (neutral_lines_facts content) as (-> & Hf & Hu & _). split.
  - intros i l Hl. destruct (fix_lines_lookup _ _ i l Hf Hl) as (p & Hp & Hprev).
    destruct (fixed_safe p (body l) Hp) as (H1 & H2 & H3). split_and!; [done|done|].
    intros j l0 Hj Hl0 Ht%is_text_iff. apply H3. by apply (Hprev j l0).
  - apply (unclosed_fenced _ 0). unfold unclosed in Hu. by apply fmap_None in Hu.
Qed.

(** Applying the rule twice gives what applying it once gave. *)
Theorem neutralise_idempotent content : neutralise (neutralise content) = neutralise content.
Proof.
  destruct (neutral_lines_facts content) as (Hs & Hf & Hu & _).
  unfold neutralise at 1. rewrite Hs, Hf.
  assert (Hc : close_fences (neutral_lines content) = neutral_lines content).
  { unfold close_fences. destruct (neutral_lines content) as [|l ls]; [done|]. cbn [length close_loop]. by rewrite Hu. }
  by rewrite Hc.
Qed.

(** One insertion at one place: a backslash, or one to three hashes. *)
Definition inserted (b b' : bytes) : Prop :=
  b' = b \/ exists x y ins, b = x ++ y /\ b' = x ++ ins ++ y
    /\ (ins = backslash \/ exists k, (1 <= k <= 3)%nat /\ ins = repeat "#"%char k).

Lemma fix_line_inserted prev b : inserted b (fix_line prev b).
Proof.
  destruct (fix_line_fixed prev b) as [|p k t Hp Hk Ht ->|p t Hp ->|p r _ Hp Hu -> _]; [by left|..]; right.
  - exists p, (repeat "#"%char k ++ t), (repeat "#"%char (4 - k)). split_and!; [done| |right; exists (4 - k)%nat; split; [lia|done]].
    rewrite (app_assoc (repeat _ _)), <- repeat_app. by replace (4 - k + k)%nat with 4%nat by lia.
  - exists p, ("<"%char :: t), backslash. auto.
  - exists p, r, backslash. auto.
Qed.

(** A line the first loop rewrote opens no fence. *)
Lemma fixed_not_opener prev b e : fix_line prev b <> b -> opener (MkLine (fix_line prev b) e) = false.
Proof.
  intros Hne. destruct (opener (MkLine (fix_line prev b) e)) eqn:Ho; [|done]. exfalso.
  apply opener_inv in Ho as (k & c & r & Hc & Hb & _). cbn [body] in Hb.
  assert (Hf : fix_line prev b = b); [|done].
  assert (Hlead : forall p d t, Lead true p -> d <> c -> stops true (d :: t) -> p ++ d :: t = repeat " "%char k ++ c :: r -> False).
  { intros p d t Hp Hd Hs E. pose proof (leadLen_app true p (d :: t) Hp Hs) as L1.
    assert (Hsc : stops true (c :: r)) by by destruct Hc as [-> | ->].
    pose proof (leadLen_app true _ (c :: r) (repeat_space_lead true k) Hsc) as L2.
    rewrite <- E, L1 in L2. apply app_inj_1 in E as [_ E]; [|done]. congruence. }
  destruct (fix_line_fixed prev b) as [|p j t Hp Hj Ht ->|p t Hp ->|p u _ Hp Hu -> _]; [done|..]; exfalso.
  - apply (Hlead p "#"%char (repeat "#"%char 3 ++ t)); try done. by destruct Hc as [-> | ->].
  - apply (Hlead p "\"%char ("<"%char :: t)); try done. by destruct Hc as [-> | ->].
  - apply (Hlead p "\"%char u); try done; [by apply lead_false_true|by destruct Hc as [-> | ->] ].
Qed.

(** [neutralise] only inserts: the output has the input's lines, line
    ends included, and each line is the input's with nothing removed and at
    most one insertion, a backslash or the one to three hashes that make a
    heading of level four. *)
Theorem neutralise_inserts content :
  content = joinLines (splitLines content)
  /\ lines_rel inserted (splitLines content) (splitLines (neutralise content)).
Proof.
  split; [by rewrite join_splitLines|]. destruct (neutral_lines_facts content) as (-> & _).
  unfold neutral_lines, lines_rel, close_fences. generalize (length (fix_lines false (splitLines content))). intros n.
  pose proof (close_loop_escaped n (fix_lines false (splitLines content))) as H. revert H.
  generalize (close_loop n (fix_lines false (splitLines content))). generalize false.
  generalize (splitLines content). intros ls.
  induction ls as [|l ls IH]; intros prev ls' H; inversion H as [|? l' ? ? Hl Hr]; subst; constructor; [|by eapply IH].
  destruct Hl as [->|[Ho ->]]; [split; [done|apply fix_line_inserted]|]. split; [done|].
  destruct (decide (fix_line prev (body l) = body l)) as [E|E]; [|by rewrite fixed_not_opener in Ho].
  apply escape_fence_body in Ho as (p & c & r & _ & _ & Hb & ->). cbn [body] in Hb. rewrite E in Hb.
  right. exists p, (c :: r), backslash. auto.
Qed.
