(* ===== verification/Json.v ===== *)
(** * JSON as encoding/json writes it

    The strings, numbers, arrays and objects [json.Marshal] writes, byte for
    byte: the sizes of two records are compared by the code, so the encoder
    is modelled and not only what it encodes. *)

From S2P Require Import Prelude GoStd.

Definition hex_digit (n : N) : ascii := ascii_of_N (if (n <? 10)%N then 48 + n else 87 + n).

Definition quote : ascii := ascii_of_N 34.

(** One ASCII byte inside a string. *)
Definition json_byte (c : ascii) : bytes :=
  if Ascii.eqb c quote || Ascii.eqb c "\" then ["\"%char; c]
  else if Ascii.eqb c (ascii_of_N 8) then bs "\b"
  else if Ascii.eqb c (ascii_of_N 12) then bs "\f"
  else if Ascii.eqb c (ascii_of_N 10) then bs "\n"
  else if Ascii.eqb c (ascii_of_N 13) then bs "\r"
  else if Ascii.eqb c (ascii_of_N 9) then bs "\t"
  else if bin 0 31 c || Ascii.eqb c "<" || Ascii.eqb c ">" || Ascii.eqb c "&"
  then bs "\u00" ++ [hex_digit (bv c / 16)%N; hex_digit (bv c mod 16)%N]
  else [c].

(** A rune of more than one byte, or a byte that is none. *)
Definition json_rune (r : bytes) : bytes :=
  if (length r =? 1)%nat then bs "\ufffd"
  else if bool_decide (r = ascii_of_N <$> [226; 128; 168]%N) then bs "\u2028"
  else if bool_decide (r = ascii_of_N <$> [226; 128; 169]%N) then bs "\u2029"
  else r.

Fixpoint json_loop (fuel : nat) (s : bytes) : bytes :=
  match fuel, s with
  | O, _ | _, [] => []
  | S f, c :: s' =>
      if bin 0 127 c then json_byte c ++ json_loop f s'
      else json_rune (take (rune_len s) s) ++ json_loop f (drop (rune_len s) s)
  end.

Definition json_string (s : bytes) : bytes := [quote] ++ json_loop (length s) s ++ [quote].

(** A member [name] of an object; [json_opt] leaves it out, as [omitempty]. *)
Definition json_member (name value : bytes) : bytes := json_string name ++ bs ":" ++ value.
Definition json_opt (b : bool) (m : bytes) : list bytes := if b then [m] else [].

Definition json_object (members : list bytes) : bytes := bs "{" ++ Join (bs ",") members ++ bs "}".
Definition json_array (items : list bytes) : bytes := bs "[" ++ Join (bs ",") items ++ bs "]".

Example json_string_ex :
  json_string (bs "a<b" ++ [quote; ascii_of_N 10; ascii_of_N 255])
  = [quote] ++ bs "a\u003cb\" ++ [quote] ++ bs "\n\ufffd" ++ [quote].
Proof. by vm_compute. Qed.
