(* ===== verification/JsonRead.v ===== *)
(** * JSON as encoding/json reads it

    The scanner of [json.Unmarshal], giving the text of each literal as it
    stands, and the unquoting of strings; the integers of strconv.  What
    [Json] writes is read back: [scan_render]. *)

From S2P Require Import Prelude GoStd GoTime Json.

(** ** Values

    A number and a string keep the text between their delimiters, as the
    decoder of the field they are for reads it. *)
Inductive json :=
| JNull
| JBool (b : bool)
| JNumber (text : bytes)
| JString (raw : bytes)
| JArray (l : list json)
| JObject (members : list (bytes * json)).

(** ** The scanner *)

Definition is_ws (c : ascii) : bool :=
  Ascii.eqb c " " || Ascii.eqb c (ascii_of_N 9) || Ascii.eqb c (ascii_of_N 13) || Ascii.eqb c (ascii_of_N 10).

Abbreviation skip_ws := (drop_while is_ws).

Definition is_hex (c : ascii) : bool := bin 48 57 c || bin 97 102 c || bin 65 70 c.

(** A byte that may follow a backslash, "u" apart. *)
Definition simple_escape (c : ascii) : bool :=
  Ascii.eqb c quote || Ascii.eqb c "\" || Ascii.eqb c "/" || Ascii.eqb c "b" || Ascii.eqb c "f"
  || Ascii.eqb c "n" || Ascii.eqb c "r" || Ascii.eqb c "t".

(** After the opening quote: the text before the closing one, and the rest. *)
Fixpoint scan_string (s : bytes) : option (bytes * bytes) :=
  match s with
  | [] => None
  | c :: s1 =>
      if Ascii.eqb c quote then Some ([], s1)
      else if Ascii.eqb c "\" then
        match s1 with
        | e :: s2 =>
            if simple_escape e then '(raw, r) ← scan_string s2; Some (c :: e :: raw, r)
            else if Ascii.eqb e "u" then
              match s2 with
              | h1 :: h2 :: h3 :: h4 :: s3 =>
                  if is_hex h1 && is_hex h2 && is_hex h3 && is_hex h4
                  then '(raw, r) ← scan_string s3; Some (c :: e :: h1 :: h2 :: h3 :: h4 :: raw, r)
                  else None
              | _ => None
              end
            else None
        | [] => None
        end
      else if bin 0 31 c then None
      else '(raw, r) ← scan_string s1; Some (c :: raw, r)
  end.

(** The digits at the head of [s], one at least. *)
Definition scan_digits (s : bytes) : option (bytes * bytes) :=
  match take_while isDigit s with
  | [] => None
  | ds => Some (ds, drop_while isDigit s)
  end.

Definition scan_int (s : bytes) : option (bytes * bytes) :=
  match s with
  | c :: s' => if Ascii.eqb c "0" then Some ([c], s') else scan_digits s
  | [] => None
  end.

Definition scan_frac (s : bytes) : option (bytes * bytes) :=
  match s with
  | c :: s' => if Ascii.eqb c "." then '(ds, r) ← scan_digits s'; Some (c :: ds, r) else Some ([], s)
  | [] => Some ([], [])
  end.

Definition scan_sign (s : bytes) : bytes * bytes :=
  match s with
  | c :: s' => if Ascii.eqb c "+" || Ascii.eqb c "-" then ([c], s') else ([], s)
  | [] => ([], [])
  end.

Definition scan_exp (s : bytes) : option (bytes * bytes) :=
  match s with
  | c :: s' =>
      if Ascii.eqb c "e" || Ascii.eqb c "E" then
        let (sign, s1) := scan_sign s' in
        '(ds, r) ← scan_digits s1; Some (c :: sign ++ ds, r)
      else Some ([], s)
  | [] => Some ([], [])
  end.

Definition scan_number (s : bytes) : option (bytes * bytes) :=
  let (minus, s) := match s with c :: s' => if Ascii.eqb c "-" then ([c], s') else ([], s) | [] => ([], []) end in
  '(i, s) ← scan_int s; '(f, s) ← scan_frac s; '(e, s) ← scan_exp s;
  Some (minus ++ i ++ f ++ e, s).

Section Scan.
Context (value : bytes -> option (json * bytes)).

(** The items of an array up to its bracket, and the members of an object;
    each takes a byte at least, so the length of the text is fuel enough. *)
Fixpoint scan_items (fuel : nat) (s : bytes) : option (list json * bytes) :=
  match fuel with
  | O => None
  | S f =>
      '(v, s) ← value (skip_ws s);
      match skip_ws s with
      | c :: s => if Ascii.eqb c "]" then Some ([v], s)
                  else if Ascii.eqb c "," then '(l, r) ← scan_items f s; Some (v :: l, r)
                  else None
      | [] => None
      end
  end.

Fixpoint scan_members (fuel : nat) (s : bytes) : option (list (bytes * json) * bytes) :=
  match fuel with
  | O => None
  | S f =>
      s ← expect quote (skip_ws s); '(k, s) ← scan_string s;
      s ← expect ":" (skip_ws s); '(v, s) ← value (skip_ws s);
      match skip_ws s with
      | c :: s => if Ascii.eqb c "}" then Some ([(k, v)], s)
                  else if Ascii.eqb c "," then '(l, r) ← scan_members f s; Some ((k, v) :: l, r)
                  else None
      | [] => None
      end
  end.
End Scan.

Definition literals : list (bytes * json) :=
  [(bs "null", JNull); (bs "true", JBool true); (bs "false", JBool false)].

Fixpoint scan_literal (ws : list (bytes * json)) (s : bytes) : option (json * bytes) :=
  match ws with
  | [] => None
  | (w, v) :: ws' => if HasPrefix s w then Some (v, drop (length w) s) else scan_literal ws' s
  end.

(** A value at the head of [s], nested [depth] deep at most. *)
Fixpoint scan_value (depth : nat) (s : bytes) : option (json * bytes) :=
  match s with
  | [] => None
  | c :: s' =>
      if Ascii.eqb c quote then '(raw, r) ← scan_string s'; Some (JString raw, r)
      else if Ascii.eqb c "[" then
        match depth with
        | O => None
        | S d => match expect "]" (skip_ws s') with
                 | Some r => Some (JArray [], r)
                 | None => '(l, r) ← scan_items (scan_value d) (S (length s')) s'; Some (JArray l, r)
                 end
        end
      else if Ascii.eqb c "{" then
        match depth with
        | O => None
        | S d => match expect "}" (skip_ws s') with
                 | Some r => Some (JObject [], r)
                 | None => '(l, r) ← scan_members (scan_value d) (S (length s')) s'; Some (JObject l, r)
                 end
        end
      else if Ascii.eqb c "-" || isDigit c then '(t, r) ← scan_number s; Some (JNumber t, r)
      else scan_literal literals s
  end.

(** encoding/json's maxNestingDepth. *)
Definition maxNestingDepth : nat := Z.to_nat 10000.

(** The value [data] holds, when it is one value and white space. *)
Definition json_parse (data : bytes) : option json :=
  match scan_value maxNestingDepth (skip_ws data) with
  | Some (v, r) => if bool_decide (skip_ws r = []) then Some v else None
  | None => None
  end.

(** ** Unquoting *)

Definition hex_value (c : ascii) : N :=
  (if bin 48 57 c then bv c - 48 else if bin 97 102 c then bv c - 87 else bv c - 55)%N.

Definition hex4 (a b c d : ascii) : N :=
  (((hex_value a * 16 + hex_value b) * 16 + hex_value c) * 16 + hex_value d)%N.

(** utf8.AppendRune, for a rune that is no surrogate. *)
Definition encode_rune (r : N) : bytes :=
  ascii_of_N <$>
  (if r <? 128 then [r]
   else if r <? 2048 then [192 + r / 64; 128 + r mod 64]
   else if r <? 65536 then [224 + r / 4096; 128 + r / 64 mod 64; 128 + r mod 64]
   else [240 + r / 262144; 128 + r / 4096 mod 64; 128 + r / 64 mod 64; 128 + r mod 64])%N.

(** The encoding of U+FFFD. *)
Definition replacement : bytes := ascii_of_N <$> [239; 191; 189]%N.

Definition surrogate (lo hi r : N) : bool := (lo <=? r)%N && (r <=? hi)%N.

Definition unescape (e : ascii) : ascii :=
  if Ascii.eqb e "b" then ascii_of_N 8
  else if Ascii.eqb e "f" then ascii_of_N 12
  else if Ascii.eqb e "n" then ascii_of_N 10
  else if Ascii.eqb e "r" then ascii_of_N 13
  else if Ascii.eqb e "t" then ascii_of_N 9
  else e.

(** getu4: the number of a "\uXXXX" at the head of [s], and what follows. *)
Definition getu4 (s : bytes) : option (N * bytes) :=
  match s with
  | b :: u :: s' =>
      if Ascii.eqb b "\" && Ascii.eqb u "u" then
        match s' with
        | h1 :: h2 :: h3 :: h4 :: t =>
            if is_hex h1 && is_hex h2 && is_hex h3 && is_hex h4 then Some (hex4 h1 h2 h3 h4, t) else None
        | _ => None
        end
      else None
  | _ => None
  end.

(** The text a scanned string holds: an escaped half of a pair of
    surrogates on its own, and a byte that is no rune, read as U+FFFD. *)
Fixpoint unquote_loop (fuel : nat) (raw : bytes) : bytes :=
  match fuel, raw with
  | O, _ | _, [] => []
  | S f, c :: raw' =>
      if Ascii.eqb c "\" then
        match getu4 raw with
        | Some (r, t) =>
            if surrogate 55296 57343 r then
              match getu4 t with
              | Some (r', t') =>
                  if surrogate 55296 56319 r && surrogate 56320 57343 r'
                  then encode_rune (65536 + (r - 55296) * 1024 + (r' - 56320)) ++ unquote_loop f t'
                  else replacement ++ unquote_loop f t
              | None => replacement ++ unquote_loop f t
              end
            else encode_rune r ++ unquote_loop f t
        | None => match raw' with
                  | e :: t => unescape e :: unquote_loop f t
                  | [] => []
                  end
        end
      else if bin 0 127 c then c :: unquote_loop f raw'
      else (if (rune_len raw =? 1)%nat then replacement else take (rune_len raw) raw)
           ++ unquote_loop f (drop (rune_len raw) raw)
  end.

Definition unquote (raw : bytes) : bytes := unquote_loop (length raw) raw.

(** ** strconv.ParseUint and ParseInt, in base ten *)

Definition all_digits (s : bytes) : bool := negb (bool_decide (s = [])) && forallb isDigit s.

Definition ParseUint (bits : Z) (s : bytes) : option Z :=
  if all_digits s && (value s <? 2 ^ bits) then Some (value s) else None.

Definition ParseInt (bits : Z) (s : bytes) : option Z :=
  let (neg, ds) := match s with
                   | c :: s' => if Ascii.eqb c "-" then (true, s') else if Ascii.eqb c "+" then (false, s') else (false, s)
                   | [] => (false, [])
                   end in
  if all_digits ds then
    let n := if neg : bool then - value ds else value ds in
    if (- 2 ^ (bits - 1) <=? n) && (n <? 2 ^ (bits - 1)) then Some n else None
  else None.

(** ** Decoding into Go values

    A decoder is given the value and what the variable held, which a null
    leaves as it is; [None] is an error, after which the callers here use
    nothing that was decoded. *)
Definition decoder (T : Type) : Type := json -> T -> option T.

Definition decode_string : decoder bytes := fun v old =>
  match v with JNull => Some old | JString raw => Some (unquote raw) | _ => None end.

Definition decode_bool : decoder bool := fun v old =>
  match v with JNull => Some old | JBool b => Some b | _ => None end.

Definition decode_uint (bits : Z) : decoder Z := fun v old =>
  match v with JNull => Some old | JNumber t => ParseUint bits t | _ => None end.

Definition decode_int (bits : Z) : decoder Z := fun v old =>
  match v with JNull => Some old | JNumber t => ParseInt bits t | _ => None end.

(** [Time.UnmarshalJSON], which takes the text of the string as it stands. *)
Definition decode_time : decoder Z := fun v old =>
  match v with JNull => Some old | JString raw => Parse_RFC3339Nano raw | _ => None end.

(** A map: a null is nil, and members are added to what the variable held;
    each value is decoded into a zero one. *)
Definition decode_map {V} (zero : V) (dec : decoder V) : decoder (option (gmap bytes V)) := fun v old =>
  match v with
  | JNull => Some None
  | JObject ms =>
      Some <$> foldl (fun acc m => x ← acc; w ← dec m.2 zero; Some (<[unquote m.1 := w]> x)) (Some (default ∅ old)) ms
  | _ => None
  end.

(** A pointer: a null is nil, and a value is decoded into what it points to,
    new and zero when it is nil. *)
Definition decode_ptr {T} (zero : T) (dec : decoder T) : decoder (option T) := fun v old =>
  match v with JNull => Some None | _ => x ← dec v (default zero old); Some (Some x) end.

(** A slice: how many elements it has, and its array, which may hold more
    from an earlier value; what the array does not hold is zero. *)
Record slice (T : Type) := MkSlice { slice_len : nat; slice_array : list T }.

Arguments MkSlice {T} _ _.
Arguments slice_len {T} _.
Arguments slice_array {T} _.

Definition nil_slice {T} : slice T := MkSlice 0 [].
Definition slice_list {T} (s : slice T) : list T := take (slice_len s) (slice_array s).

Fixpoint decode_elems {T} (zero : T) (dec : decoder T) (vs : list json) (old : list T) : option (list T) :=
  match vs with
  | [] => Some old
  | v :: vs' => x ← dec v (default zero (head old)); l ← decode_elems zero dec vs' (tail old); Some (x :: l)
  end.

(** Each element is decoded into the one that the array has in its place; an
    empty array makes a new slice. *)
Definition decode_slice {T} (zero : T) (dec : decoder T) : decoder (slice T) := fun v old =>
  match v with
  | JNull | JArray [] => Some nil_slice
  | JArray vs => MkSlice (length vs) <$> decode_elems zero dec vs (slice_array old)
  | _ => None
  end.

(** How the name of a member is compared with the names of the fields, which
    are lowercase: ASCII in any case, the long s as an s, the Kelvin sign as
    a k. *)
Fixpoint fold_key (k : bytes) : bytes :=
  match k with
  | [] => []
  | c :: k' =>
      if HasPrefix k (ascii_of_N <$> [197; 191]%N)
      then match k' with _ :: k'' => "s"%char :: fold_key k'' | [] => [] end
      else if HasPrefix k (ascii_of_N <$> [226; 132; 170]%N)
      then match k' with _ :: _ :: k'' => "k"%char :: fold_key k'' | _ => [] end
      else lower_ascii c :: fold_key k'
  end.

(** A field: its name, and how its value is decoded into the struct. *)
Definition fields (T : Type) : Type := list (bytes * decoder T).

Fixpoint field_of {T} (fs : fields T) (k : bytes) : option (decoder T) :=
  match fs with
  | [] => None
  | (name, dec) :: fs' => if bool_decide (fold_key k = name) then Some dec else field_of fs' k
  end.

(** One member of an object; a name that is no field's is skipped. *)
Definition decode_member {T} (fs : fields T) (acc : option T) (m : bytes * json) : option T :=
  x ← acc;
  match field_of fs (unquote m.1) with
  | Some dec => dec m.2 x
  | None => Some x
  end.

Definition decode_struct {T} (fs : fields T) : decoder T := fun v x =>
  match v with
  | JNull => Some x
  | JObject ms => foldl (decode_member fs) (Some x) ms
  | _ => None
  end.

(** ** Writing a value *)

Fixpoint render (v : json) : bytes :=
  match v with
  | JNull => bs "null"
  | JBool b => if b then bs "true" else bs "false"
  | JNumber t => t
  | JString raw => [quote] ++ raw ++ [quote]
  | JArray l => json_array (map render l)
  | JObject ms => json_object (map (fun m => ([quote] ++ m.1 ++ [quote]) ++ bs ":" ++ render m.2) ms)
  end.

(** The string value of [s] as json.Marshal writes it. *)
Definition jstring (s : bytes) : json := JString (json_loop (length s) s).
Definition jnumber (n : Z) : json := JNumber (Itoa n).

Definition q (s : string) : bytes := (fun c => if Ascii.eqb c "'" then quote else c) <$> bs s.

Example json_parse_ex :
  json_parse (q " [ 'a\u00e9' , -1.5e3, {'k' : null} ] ")
  = Some (JArray [JString (bs "a\u00e9"); JNumber (bs "-1.5e3"); JObject [(bs "k", JNull)]])
  /\ json_parse (q "[1,]") = None /\ json_parse (q "01") = None /\ json_parse (q "'a") = None
  /\ json_parse (q "{'a':1} x") = None.
Proof. by vm_compute. Qed.

Example unquote_ex :
  unquote (bs "a\u00e9\ud83d\ude00\ud83dx\n") = bs "aé😀" ++ replacement ++ bs "x" ++ [ascii_of_N 10].
Proof. by vm_compute. Qed.

Example json_int_ex :
  ParseUint 64 (bs "18446744073709551615") = Some (2 ^ 64 - 1) /\ ParseUint 64 (bs "18446744073709551616") = None
  /\ ParseUint 64 (bs "1e3") = None /\ ParseInt 64 (bs "-5") = Some (-5).
Proof. by vm_compute. Qed.

(** ** What is written is read back *)

(** No byte of [s] is a control character; in particular it is one line. *)
Definition clean (s : bytes) : Prop := Forall (fun c => bin 32 255 c = true) s.

Lemma clean_text_app s t : clean s -> clean t -> clean (s ++ t).
Proof. intros. by apply Forall_app. Qed.

Lemma clean_check s : forallb (bin 32 255) s = true -> clean s.
Proof. rewrite forallb_forall. intros H. apply Forall_forall. intros c Hc. apply H. by apply list_elem_of_In. Qed.

(** A text the scanner of strings passes over as it is. *)
Definition piece (p : bytes) : Prop :=
  clean p /\ forall t, scan_string (p ++ t) = ('(raw, r) ← scan_string t; Some (p ++ raw, r)).

Lemma piece_nil : piece [].
Proof. split; [constructor|]. intros t. cbn. by destruct (scan_string t) as [[]|]. Qed.

Lemma piece_app p p' : piece p -> piece p' -> piece (p ++ p').
Proof.
  intros [Hc H] [Hc' H']. split; [by apply clean_text_app|]. intros t. rewrite <- app_assoc, H, H'.
  destruct (scan_string t) as [[]|]; cbn; [by rewrite <- app_assoc|done].
Qed.

Lemma piece_high c : bin 128 255 c = true -> piece [c].
Proof.
  destruct c as [[] [] [] [] [] [] [] []]; try done; intros _; (split; [by apply clean_check|]);
    intros t; cbn; by destruct (scan_string t) as [[]|].
Qed.

Lemma pieces_high l : Forall (fun c => bin 128 255 c = true) l -> piece l.
Proof. induction 1; [apply piece_nil|]. apply (piece_app [x]); [by apply piece_high|done]. Qed.

Lemma piece_ascii c : bin 0 127 c = true -> piece (json_byte c).
Proof.
  destruct c as [[] [] [] [] [] [] [] []]; try done; intros _;
    match goal with |- piece ?p => let v := eval vm_compute in p in change p with v end;
    (split; [by apply clean_check|]); intros t; cbn; by destruct (scan_string t) as [[]|].
Qed.

Lemma not_ascii c : bin 0 127 c = false -> bin 128 255 c = true.
Proof. by destruct c as [[] [] [] [] [] [] [] []]. Qed.

Lemma rune_len_bounds c s : (1 <= rune_len (c :: s) <= length (c :: s))%nat.
Proof.
  unfold rune_len. destruct s as [|c1 [|c2 [|c3 s]]]; cbn [length]; repeat case_match; lia.
Qed.

(** The bytes of a rune past ASCII, and that they are a rune in any text. *)
Lemma rune_len_take c s t :
  bin 0 127 c = false -> rune_len (c :: s) <> 1%nat ->
  Forall (fun d => bin 128 255 d = true) (take (rune_len (c :: s)) (c :: s))
  /\ rune_len (take (rune_len (c :: s)) (c :: s) ++ t) = rune_len (c :: s).
Proof.
  assert (Hb : forall d lo, (128 <= lo)%N -> forall hi, bin lo hi d = true -> bin 128 255 d = true).
  { intros d lo Hlo hi. unfold bin. rewrite !andb_true_iff, !N.leb_le. pose proof (N_ascii_bounded d). unfold bv. lia. }
  intros Hc Hn. apply not_ascii in Hc as Hc'. unfold rune_len in *.
  destruct s as [|c1 s]; [done|]. rewrite Hc in *.
  destruct (bin 194 223 c && cont c1) eqn:E2; [apply andb_true_iff in E2 as [E2 E3]|].
  { cbn. rewrite Hc, E2, E3. split; [|done]. repeat constructor; [done|by eapply Hb, E3]. }
  destruct s as [|c2 s]; [done|].
  assert (Hlead3 : lead3 c c1 = true -> bin 128 255 c1 = true).
  { unfold lead3, cont. rewrite !orb_true_iff, !andb_true_iff.
    intros [[[_ H]|[_ H]]|[_ H]]; (eapply Hb; [|exact H]); lia. }
  destruct (lead3 c c1 && cont c2) eqn:E3.
  { cbn. rewrite Hc, E2, E3. split; [|done]. apply andb_true_iff in E3 as [E3 E4].
    repeat constructor; [done|auto|by eapply Hb, E4]. }
  destruct s as [|c3 s]; [done|].
  assert (Hlead4 : lead4 c c1 = true -> bin 128 255 c1 = true).
  { unfold lead4, cont. rewrite !orb_true_iff, !andb_true_iff.
    intros [[[_ H]|[_ H]]|[_ H]]; (eapply Hb; [|exact H]); lia. }
  destruct (lead4 c c1 && cont c2 && cont c3) eqn:E4; [|done].
  cbn. rewrite Hc, E2, E3, E4. split; [|done]. rewrite !andb_true_iff in E4. destruct E4 as [[E4 E5] E6].
  repeat constructor; [done|auto|by eapply Hb, E5|by eapply Hb, E6].
Qed.

Lemma piece_rune c s :
  bin 0 127 c = false -> piece (json_rune (take (rune_len (c :: s)) (c :: s))).
Proof.
  intros Hc. pose proof (rune_len_bounds c s) as Hb. unfold json_rune. rewrite length_take_le by lia.
  destruct (Nat.eqb_spec (rune_len (c :: s)) 1) as [E|E].
  { split; [by apply clean_check|]. intros t. cbn. by destruct (scan_string t) as [[]|]. }
  case_bool_decide; [|case_bool_decide].
  1, 2: split; [by apply clean_check|]; intros t; cbn; by destruct (scan_string t) as [[]|].
  apply pieces_high. by apply (rune_len_take c s []).
Qed.

Lemma json_loop_piece f s : piece (json_loop f s).
Proof.
  revert s. induction f as [|f IH]; intros [|c s]; try apply piece_nil. cbn [json_loop].
  destruct (bin 0 127 c) eqn:E; apply piece_app; auto using piece_ascii, piece_rune.
Qed.

(** [s] with each byte that is no rune's replaced by U+FFFD. *)
Fixpoint sanitise_loop (fuel : nat) (s : bytes) : bytes :=
  match fuel, s with
  | O, _ | _, [] => []
  | S f, c :: s' =>
      if bin 0 127 c then c :: sanitise_loop f s'
      else (if (rune_len s =? 1)%nat then replacement else take (rune_len s) s)
           ++ sanitise_loop f (drop (rune_len s) s)
  end.

Definition sanitise (s : bytes) : bytes := sanitise_loop (length s) s.

Lemma unquote_ascii f c t :
  bin 0 127 c = true -> unquote_loop (S f) (json_byte c ++ t) = c :: unquote_loop f t.
Proof. destruct c as [[] [] [] [] [] [] [] []]; try done. Qed.

Lemma unquote_high f c s t :
  bin 0 127 c = false -> 
  unquote_loop (S f) (json_rune (take (rune_len (c :: s)) (c :: s)) ++ t)
  = (if (rune_len (c :: s) =? 1)%nat then replacement else take (rune_len (c :: s)) (c :: s)) ++ unquote_loop f t.
Proof.
  intros Hc. pose proof (rune_len_bounds c s) as Hb. unfold json_rune. rewrite length_take_le by lia.
  destruct (Nat.eqb_spec (rune_len (c :: s)) 1) as [E|E]; [done|].
  case_bool_decide as E1; [by rewrite E1|]. case_bool_decide as E2; [by rewrite E2|].
  destruct (rune_len_take c s t Hc E) as [_ Hr].
  pose proof (length_take_le (c :: s) (rune_len (c :: s)) ltac:(lia)) as Hl.
  destruct (rune_len (c :: s)) as [|n] eqn:En; [lia|]. rewrite firstn_cons in *.
  cbn [app unquote_loop]. rewrite Hc. assert (Ascii.eqb c "\" = false) as ->.
  { destruct (Ascii.eqb_spec c "\"); [by subst|done]. }
  cbn [app] in Hr. rewrite Hr. cbn [length] in Hl. destruct n as [|n]; [done|]. cbn [Nat.eqb].
  change (c :: take (S n) s ++ t) with ((c :: take (S n) s) ++ t).
  by rewrite take_app_length', drop_app_length' by (cbn [length]; lia).
Qed.

Lemma unquote_json_loop g : forall f s,
  (length s <= f)%nat -> (length s <= g)%nat ->
  unquote_loop f (json_loop g s) = sanitise_loop g s.
Proof.
  induction g as [|g IH]; intros f [|c s] Hf Hg; try (by destruct f); cbn [length] in *.
  destruct f as [|f]; [lia|]. cbn [json_loop sanitise_loop]. destruct (bin 0 127 c) eqn:E.
  - rewrite unquote_ascii by done. f_equal. apply IH; lia.
  - rewrite unquote_high by done. f_equal. pose proof (rune_len_bounds c s).
    apply IH; rewrite length_drop; cbn [length] in *; lia.
Qed.

Lemma json_byte_length c : (1 <= length (json_byte c))%nat.
Proof. unfold json_byte. repeat case_match; cbn; lia. Qed.

Lemma json_loop_length g : forall s, (length s <= g)%nat -> (length s <= length (json_loop g s))%nat.
Proof.
  induction g as [|g IH]; intros [|c s] Hg; cbn [length] in *; try lia. cbn [json_loop].
  destruct (bin 0 127 c); rewrite length_app.
  - pose proof (json_byte_length c). specialize (IH s). lia.
  - pose proof (rune_len_bounds c s) as Hb. cbn [length] in Hb.
    specialize (IH (drop (rune_len (c :: s)) (c :: s))). rewrite length_drop in IH. cbn [length] in IH.
    assert ((rune_len (c :: s) <= length (json_rune (take (rune_len (c :: s)) (c :: s))))%nat); [|lia].
    unfold json_rune. rewrite length_take_le by (cbn [length]; lia). repeat case_match; bool_hyps.
    + match goal with H : (_ =? _)%nat = true |- _ => apply Nat.eqb_eq in H as -> end. cbn. lia.
    + match goal with H : take _ _ = _ |- _ => apply (f_equal length) in H end.
      rewrite length_take_le in * by (cbn [length]; lia). cbn in *. lia.
    + match goal with H : take _ _ = _ |- _ => apply (f_equal length) in H end.
      rewrite length_take_le in * by (cbn [length]; lia). cbn in *. lia.
    + rewrite length_take_le by (cbn [length]; lia). lia.
Qed.

Lemma unquote_json s : unquote (json_loop (length s) s) = sanitise s.
Proof. apply unquote_json_loop; [by apply json_loop_length|done]. Qed.

(** Text that is valid UTF-8 is kept as it is. *)
Lemma sanitise_loop_valid g : forall s, (length s <= g)%nat -> ValidString s = true -> sanitise_loop g s = s.
Proof.
  induction g as [|g IH]; intros [|c s] Hg Hv; cbn [length] in *; try done; [lia|].
  cbn [sanitise_loop ValidString] in *. destruct (bin 0 127 c) eqn:E0; [f_equal; apply IH; [lia|done]|].
  destruct s as [|c1 s]; [done|]. cbn [rune_len length] in *. rewrite E0 in *.
  destruct (bin 194 223 c) eqn:E2.
  { apply andb_true_iff in Hv as [-> Hv]. cbn. do 2 f_equal. rewrite drop_0. apply IH; [lia|done]. }
  cbn [andb]. destruct s as [|c2 s]; [done|]. cbn [length] in *. destruct (lead3 c c1) eqn:E3.
  { apply andb_true_iff in Hv as [-> Hv]. cbn. do 3 f_equal. rewrite drop_0. apply IH; [lia|done]. }
  cbn [andb]. destruct s as [|c3 s]; [done|]. cbn [length] in *.
  rewrite !andb_true_iff in Hv. destruct Hv as [[[-> ->] ->] Hv]. cbn. do 4 f_equal.
  rewrite drop_0. apply IH; [lia|done].
Qed.

Lemma sanitise_valid s : ValidString s = true -> sanitise s = s.
Proof. by apply sanitise_loop_valid. Qed.

(** What may follow a value. *)
Definition after_value (rest : bytes) : bool :=
  match rest with
  | [] => true
  | c :: _ => Ascii.eqb c "," || Ascii.eqb c "]" || Ascii.eqb c "}" || is_ws c
  end.

Definition number_ok (t : bytes) : Prop :=
  clean t /\ match t with c :: _ => Ascii.eqb c "-" || isDigit c = true | [] => False end
  /\ forall rest, after_value rest = true -> scan_number (t ++ rest) = Some (t, rest).

Definition raw_ok (raw : bytes) : Prop :=
  clean raw /\ forall rest, scan_string (raw ++ quote :: rest) = Some (raw, rest).

Lemma piece_raw p : piece p -> raw_ok p.
Proof. intros [Hc H]. split; [done|]. intros rest. rewrite H. cbn. by rewrite app_nil_r. Qed.

Lemma jstring_raw s : raw_ok (json_loop (length s) s).
Proof. apply piece_raw, json_loop_piece. Qed.

(** ASCII that the encoder writes as it stands, as in a time. *)
Definition plain (c : ascii) : bool :=
  bin 32 127 c && negb (Ascii.eqb c quote) && negb (Ascii.eqb c "\") && negb (Ascii.eqb c "<")
  && negb (Ascii.eqb c ">") && negb (Ascii.eqb c "&").

Lemma json_byte_plain c : plain c = true -> json_byte c = [c] /\ bin 0 127 c = true.
Proof. by destruct c as [[] [] [] [] [] [] [] []]. Qed.

Lemma plain_raw s : Forall (fun c => plain c = true) s -> raw_ok s.
Proof.
  intros H. apply piece_raw. induction H as [|c s H _ IH]; [apply piece_nil|].
  destruct (json_byte_plain c H) as [E1 E2]. apply (piece_app [c] s); [|done].
  rewrite <- E1. by apply piece_ascii.
Qed.

(** Decimal integers are numbers as JSON has them: no leading zero. *)
Lemma digits_head f n : 0 < n -> Z.log2 n < Z.of_nat f ->
  exists c ds, digits f n = c :: ds /\ Ascii.eqb c "0" = false.
Proof.
  revert n. induction f as [|f IH]; intros n Hn Hf; [pose proof (Z.log2_nonneg n); lia|]. cbn [digits].
  destruct (Z.ltb_spec n 10).
  - exists (digit n), []. split; [done|]. apply Ascii.eqb_neq. intros E.
    apply (f_equal bv) in E. rewrite bv_digit in E by lia. cbn in E. lia.
  - pose proof (log2_div10 n ltac:(lia)). destruct (IH (n / 10)) as (c & ds & -> & Hc).
    + apply Z.div_str_pos. lia.
    + lia.
    + by exists c, (ds ++ [digit (n mod 10)]).
Qed.

Lemma scan_digits_app ds rest :
  ds <> [] -> Forall (fun c => isDigit c = true) ds -> after_value rest = true ->
  scan_digits (ds ++ rest) = Some (ds, rest).
Proof.
  intros Hne Hd Hr. unfold scan_digits. rewrite take_while_app, drop_while_app by done.
  assert (E : take_while isDigit rest = [] /\ drop_while isDigit rest = rest).
  { destruct rest as [|c rest]; [done|]. cbn in *. assert (isDigit c = false) as ->; [|done].
    by destruct c as [[] [] [] [] [] [] [] []]. }
  destruct E as [-> ->]. rewrite app_nil_r. by destruct ds.
Qed.

Lemma scan_frac_end rest : after_value rest = true -> scan_frac rest = Some ([], rest).
Proof. destruct rest as [|c rest]; [done|]. by destruct c as [[] [] [] [] [] [] [] []]. Qed.

Lemma scan_exp_end rest : after_value rest = true -> scan_exp rest = Some ([], rest).
Proof. destruct rest as [|c rest]; [done|]. by destruct c as [[] [] [] [] [] [] [] []]. Qed.

Lemma digits_clean ds : Forall (fun c => isDigit c = true) ds -> clean ds.
Proof.
  unfold clean. intros H. eapply Forall_impl; [exact H|]. intros c.
  by destruct c as [[] [] [] [] [] [] [] []].
Qed.

(** The integer part of a decimal. *)
Lemma scan_int_nonneg n rest : 0 <= n -> after_value rest = true -> scan_int (Itoa n ++ rest) = Some (Itoa n, rest).
Proof.
  intros Hn Hr. destruct (Itoa_nonneg n Hn) as (Hd & Hne & _).
  pose proof (scan_digits_app _ _ Hne Hd Hr) as Hs. unfold scan_int.
  destruct (Z.eq_dec n 0) as [->|Hz]; [done|].
  assert (exists c ds, Itoa n = c :: ds /\ Ascii.eqb c "0" = false) as (c & ds & E & Hc).
  { unfold Itoa. destruct (Z.ltb_spec n 0); [lia|]. rewrite Z.abs_eq by done.
    apply digits_head; [lia|]. pose proof (Z.log2_nonneg n). lia. }
  rewrite E in *. cbn [app] in *. by rewrite Hc.
Qed.

Lemma number_ok_Itoa n : number_ok (Itoa n).
Proof.
  assert (Hpos : forall m, 0 <= m -> exists c ds, Itoa m = c :: ds /\ isDigit c = true).
  { intros m Hm. destruct (Itoa_nonneg m Hm) as (Hd & Hne & _). destruct (Itoa m); [done|].
    inversion Hd; subst. eauto. }
  destruct (Z.ltb_spec n 0) as [H|H].
  - assert (Itoa n = "-"%char :: Itoa (- n)) as ->.
    { unfold Itoa. rewrite Z.abs_opp. destruct (Z.ltb_spec n 0), (Z.ltb_spec (- n) 0); done || lia. }
    split_and!; [constructor; [done|]; apply digits_clean, Itoa_nonneg; lia|done|].
    intros rest Hr. cbn [app]. unfold scan_number. cbn. rewrite scan_int_nonneg by (done || lia). cbn.
    rewrite scan_frac_end by done. cbn. rewrite scan_exp_end by done. cbn. by rewrite app_nil_r.
  - destruct (Hpos n H) as (c & ds & E & Hc). split_and!.
    + apply digits_clean, Itoa_nonneg. lia.
    + rewrite E, Hc. apply orb_true_r.
    + intros rest Hr. unfold scan_number. pose proof (scan_int_nonneg n rest H Hr) as Hs.
      rewrite E in *. cbn [app] in *. assert (Ascii.eqb c "-" = false) as ->.
      { by destruct c as [[] [] [] [] [] [] [] []]. }
      rewrite Hs. cbn. rewrite scan_frac_end by done. cbn. rewrite scan_exp_end by done. cbn. by rewrite app_nil_r.
Qed.

(** A value the encoder can write, nested less than [d] deep. *)
Inductive writable : nat -> json -> Prop :=
| wr_null d : writable d JNull
| wr_bool d b : writable d (JBool b)
| wr_number d t : number_ok t -> writable d (JNumber t)
| wr_string d raw : raw_ok raw -> writable d (JString raw)
| wr_array d l : Forall (writable d) l -> writable (S d) (JArray l)
| wr_object d ms : Forall (fun m => raw_ok m.1 /\ writable d m.2) ms -> writable (S d) (JObject ms).

#[export] Hint Constructors writable : mem.
#[export] Hint Resolve jstring_raw number_ok_Itoa : mem.

Lemma writable_mono d d' v : writable d v -> (d <= d')%nat -> writable d' v.
Proof.
  revert d' v. induction d as [|d IH]; intros d' v H Hd; inversion H; subst; auto with mem;
    (destruct d' as [|d']; [lia|]); constructor; (eapply Forall_impl; [eassumption|]); cbn.
  - intros x Hx. apply IH; [done|lia].
  - intros x [? Hx]. split; [done|]. apply IH; [done|lia].
Qed.

(** What the encoder writes is one line. *)
Lemma Join_clean sep l : clean sep -> Forall clean l -> clean (Join sep l).
Proof.
  intros Hs H. induction H as [|x l Hx Hl IH]; [constructor|].
  destruct l; [done|]. cbn [Join] in *. by repeat apply clean_text_app.
Qed.

Lemma render_clean d v : writable d v -> clean (render v).
Proof.
  revert v. induction d as [|d IH]; intros v H; inversion H; subst; cbn [render];
    try (by apply clean_check); try (by case_match; apply clean_check);
    try match goal with N : number_ok _ |- _ => apply N end;
    try match goal with R : raw_ok _ |- _ => apply clean_text_app; [by apply clean_check|]; apply clean_text_app; [apply R|by apply clean_check] end.
  - unfold json_array. apply clean_text_app; [by apply clean_check|]. apply clean_text_app; [|by apply clean_check].
    apply Join_clean; [by apply clean_check|]. apply Forall_fmap. eapply Forall_impl; [eassumption|]. auto.
  - unfold json_object. apply clean_text_app; [by apply clean_check|]. apply clean_text_app; [|by apply clean_check].
    apply Join_clean; [by apply clean_check|]. apply Forall_fmap. eapply Forall_impl; [eassumption|].
    intros [k w] [[Hk _] Hw]. cbn. constructor; [done|]. apply clean_text_app; [apply clean_text_app; [done|by apply clean_check]|].
    constructor; [done|]. by apply IH.
Qed.

(** ** The round trip *)

Lemma expect_app c t : expect c (c :: t) = Some t.
Proof. cbn. by rewrite Ascii.eqb_refl. Qed.

(** A value starts with a byte that is no white space and no bracket that
    closes, and none is empty. *)
Lemma render_head d v : writable d v -> exists c t, render v = c :: t
  /\ is_ws c = false /\ Ascii.eqb c "]" = false /\ Ascii.eqb c "}" = false.
Proof.
  intros H. inversion H; subst; cbn [render]; try (by eexists _, _).
  - destruct b; by eexists _, _.
  - match goal with N : number_ok _ |- _ => destruct N as (_ & Hc & _) end.
    destruct t as [|c t]; [done|]. exists c, t. by destruct c as [[] [] [] [] [] [] [] []].
Qed.

Section Items.
Context (d : nat) (IH : forall v rest, writable d v -> after_value rest = true ->
  scan_value d (render v ++ rest) = Some (v, rest)).

Lemma scan_item v rest :
  writable d v -> after_value rest = true -> scan_value d (skip_ws (render v ++ rest)) = Some (v, rest).
Proof.
  intros Hv Hr. destruct (render_head _ _ Hv) as (c & t & E & Hc & _).
  rewrite <- (IH v rest Hv Hr), E. cbn. by rewrite Hc.
Qed.

Lemma scan_items_render l : forall f rest, l <> [] -> (length l <= f)%nat -> Forall (writable d) l ->
  scan_items (scan_value d) f (Join (bs ",") (map render l) ++ bs "]" ++ rest) = Some (l, rest).
Proof.
  induction l as [|v l IHl]; intros f rest Hne Hf Hl; [done|]. destruct f as [|f]; [cbn in Hf; lia|].
  apply Forall_cons in Hl as [Hv Hl]. cbn [scan_items map]. destruct l as [|v' l].
  - cbn [map Join]. rewrite scan_item by done. done.
  - specialize (IHl f rest ltac:(done) ltac:(cbn in *; lia) Hl). cbn [map] in *.
    rewrite Join_cons by done. rewrite <- !app_assoc.
    set (X := Join (bs ",") (render v' :: map render l) ++ bs "]" ++ rest) in *. clearbody X.
    rewrite scan_item by done. cbn.
    by rewrite IHl.
Qed.

Definition render_member (m : bytes * json) : bytes := ([quote] ++ m.1 ++ [quote]) ++ bs ":" ++ render m.2.

Lemma scan_members_render l : forall f rest, l <> [] -> (length l <= f)%nat ->
  Forall (fun m => raw_ok m.1 /\ writable d m.2) l ->
  scan_members (scan_value d) f (Join (bs ",") (map render_member l) ++ bs "}" ++ rest) = Some (l, rest).
Proof.
  assert (Hone : forall k v t, raw_ok k -> writable d v -> after_value t = true ->
    exists s1 s2, expect quote (skip_ws (render_member (k, v) ++ t)) = Some s1
      /\ scan_string s1 = Some (k, s2) /\ exists s3, expect ":" (skip_ws s2) = Some s3
      /\ scan_value d (skip_ws s3) = Some (v, t)).
  { intros k v t [_ Hk] Hv Ht. exists (k ++ quote :: bs ":" ++ render v ++ t), (bs ":" ++ render v ++ t).
    split_and!; [|apply Hk|].
    - unfold render_member. cbn. by rewrite <- !app_assoc.
    - exists (render v ++ t). split; [done|]. by apply scan_item. }
  induction l as [|[k v] l IHl]; intros f rest Hne Hf Hl; [done|]. destruct f as [|f]; [cbn in Hf; lia|].
  apply Forall_cons in Hl as [[Hk Hv] Hl]. cbn [fst snd] in *. cbn [scan_members map]. destruct l as [|m l].
  - cbn [map Join]. destruct (Hone k v (bs "}" ++ rest) Hk Hv eq_refl) as (s1 & s2 & -> & E2 & s3 & E3 & E4).
    cbn [mbind option_bind]. rewrite E2. cbn. rewrite E3. cbn. by rewrite E4.
  - specialize (IHl f rest ltac:(done) ltac:(cbn in *; lia) Hl). cbn [map] in *.
    rewrite Join_cons by done. rewrite <- !app_assoc.
    set (X := Join (bs ",") (render_member m :: map render_member l) ++ bs "}" ++ rest) in *. clearbody X.
    destruct (Hone k v (bs "," ++ X) Hk Hv eq_refl) as (s1 & s2 & -> & E2 & s3 & E3 & E4).
    cbn [mbind option_bind]. rewrite E2. cbn [mbind option_bind]. rewrite E3. cbn [mbind option_bind]. rewrite E4.
    cbn. by rewrite IHl.
Qed.
End Items.

Lemma Join_length sep (l : list bytes) : (forall x, x ∈ l -> x <> []) -> (length l <= length (Join sep l))%nat.
Proof.
  induction l as [|x l IH]; intros H; [done|].
  assert (Hx : (1 <= length x)%nat) by (destruct x as [|? ?]; [by destruct (H []); [left|]|cbn; lia]).
  specialize (IH ltac:(intros; apply H; by right)). destruct l as [|y l]; [cbn; lia|].
  rewrite Join_cons by done. rewrite !length_app. cbn [length] in *. lia.
Qed.

Lemma scan_literal_render (v : json) rest :
  v = JNull \/ v = JBool true \/ v = JBool false -> forall d, scan_value d (render v ++ rest) = Some (v, rest).
Proof. intros [-> | [-> | -> ] ] [|d]; by destruct rest. Qed.

Lemma Join_map_head {A} (f : A -> bytes) (P : ascii -> Prop) sep l :
  l <> [] -> Forall (fun x => exists c t, f x = c :: t /\ P c) l ->
  exists c t, Join sep (map f l) = c :: t /\ P c.
Proof.
  intros Hne Hl. destruct l as [|x l]; [done|]. apply Forall_cons in Hl as [(c & t & E & Hc) _].
  cbn [map]. destruct (map f l) as [|y k]; [exists c, t; by cbn|].
  exists c, (t ++ sep ++ Join sep (y :: k)). split; [|done]. by rewrite Join_cons, E by done.
Qed.

Lemma map_fuel {A} (f : A -> bytes) sep l k :
  Forall (fun x => exists c t, f x = c :: t) l -> (length l <= S (length (Join sep (map f l) ++ k)))%nat.
Proof.
  intros Hl. rewrite length_app. rewrite <- (length_map f l) at 1.
  pose proof (Join_length sep (map f l)) as H. specialize (H ltac:(
    intros x Hx; apply list_elem_of_fmap in Hx as (y & -> & Hy); rewrite Forall_forall in Hl;
    destruct (Hl y Hy) as (? & ? & ->); done)). lia.
Qed.

Section Containers.
Context (d : nat) (IH : forall v rest, writable d v -> after_value rest = true ->
  scan_value d (render v ++ rest) = Some (v, rest)).

Lemma scan_array l rest : Forall (writable d) l -> scan_value (S d) (render (JArray l) ++ rest) = Some (JArray l, rest).
Proof using IH.
  intros Hl. destruct (decide (l = [])) as [->|Hne]; [done|]. cbn [render]. unfold json_array.
  assert (Hh : Forall (fun v => exists c t, render v = c :: t /\ is_ws c = false /\ Ascii.eqb c "]" = false) l).
  { eapply Forall_impl; [exact Hl|]. cbn. intros v (c & t & E & H1 & H2 & _)%render_head. eauto. }
  pose proof (Join_map_head render _ (bs ",") l Hne Hh) as (c & t & E & Hc & Hc').
  pose proof (scan_items_render d IH l (S (length (Join (bs ",") (map render l) ++ bs "]" ++ rest))) rest Hne) as Hs.
  specialize (Hs ltac:(apply map_fuel; eapply Forall_impl; [exact Hh|]; cbn; naive_solver) Hl).
  assert (He : expect "]" (skip_ws (Join (bs ",") (map render l) ++ bs "]" ++ rest)) = None).
  { rewrite E. cbn. rewrite Hc. cbn. by rewrite Hc'. }
  rewrite <- !app_assoc. set (X := Join (bs ",") (map render l) ++ bs "]" ++ rest) in *. clearbody X.
  cbn -[scan_items scan_members]. by rewrite He, Hs.
Qed.

Lemma scan_object l rest : Forall (fun m => raw_ok m.1 /\ writable d m.2) l ->
  scan_value (S d) (render (JObject l) ++ rest) = Some (JObject l, rest).
Proof using IH.
  intros Hl. destruct (decide (l = [])) as [->|Hne]; [done|]. cbn [render]. fold render_member.
  change (map _ l) with (map render_member l). unfold json_object.
  assert (Hh : Forall (fun m => exists c t, render_member m = c :: t /\ is_ws c = false /\ Ascii.eqb c "}" = false) l).
  { apply Forall_true. intros m. by eexists _, _. }
  pose proof (Join_map_head render_member _ (bs ",") l Hne Hh) as (c & t & E & Hc & Hc').
  pose proof (scan_members_render d IH l (S (length (Join (bs ",") (map render_member l) ++ bs "}" ++ rest))) rest Hne) as Hs.
  specialize (Hs ltac:(apply map_fuel; eapply Forall_impl; [exact Hh|]; cbn; naive_solver) Hl).
  assert (He : expect "}" (skip_ws (Join (bs ",") (map render_member l) ++ bs "}" ++ rest)) = None).
  { rewrite E. cbn. rewrite Hc. cbn. by rewrite Hc'. }
  rewrite <- !app_assoc. set (X := Join (bs ",") (map render_member l) ++ bs "}" ++ rest) in *. clearbody X.
  cbn -[scan_items scan_members]. by rewrite He, Hs.
Qed.
End Containers.

(** A value written is the value read, and reading stops where it ends. *)
Lemma scan_render d : forall v rest, writable d v -> after_value rest = true ->
  scan_value d (render v ++ rest) = Some (v, rest).
Proof.
  assert (Hnum : forall d t rest, number_ok t -> after_value rest = true ->
    scan_value d (t ++ rest) = Some (JNumber t, rest)).
  { intros d' t rest (_ & Hh & Hs) Hr. destruct t as [|c t]; [done|]. specialize (Hs rest Hr).
    cbn [app] in *. assert (Ascii.eqb c quote = false /\ Ascii.eqb c "[" = false /\ Ascii.eqb c "{" = false) as (E1 & E2 & E3)
      by by destruct c as [[] [] [] [] [] [] [] []].
    destruct d'; cbn [scan_value]; by rewrite E1, E2, E3, Hh, Hs. }
  assert (Hstr : forall d raw rest, raw_ok raw -> scan_value d (([quote] ++ raw ++ [quote]) ++ rest) = Some (JString raw, rest)).
  { intros d' raw rest [_ Hs]. rewrite <- !app_assoc. destruct d'; cbn; by rewrite Hs. }
  induction d as [|d IH]; intros v rest H Hr; inversion H; subst; cbn [render]; auto.
  1, 3: apply (scan_literal_render JNull); auto.
  1, 2: apply (scan_literal_render (JBool b)); destruct b; auto.
  - by apply scan_array.
  - by apply scan_object.
Qed.

(** The whole of a text, white space after it or not. *)
Lemma json_parse_ws d v ws :
  writable d v -> (d <= maxNestingDepth)%nat -> Forall (fun c => is_ws c = true) ws -> json_parse (render v ++ ws) = Some v.
Proof.
  intros Hv Hd Hws. pose proof (writable_mono _ _ _ Hv Hd) as Hw. unfold json_parse.
  destruct (render_head _ _ Hw) as (c & t & E & Hc & _).
  pose proof (scan_render _ v ws Hw) as Hs.
  assert (after_value ws = true) as Ha.
  { destruct Hws as [|b ws Hb _]; [done|]. cbn. rewrite Hb. by rewrite !orb_true_r. }
  specialize (Hs Ha).
  assert (skip_ws (render v ++ ws) = render v ++ ws) as -> by (rewrite E; cbn; by rewrite Hc). rewrite Hs.
  by rewrite drop_while_none.
Qed.

Lemma json_parse_render d v : writable d v -> (d <= maxNestingDepth)%nat -> json_parse (render v) = Some v.
Proof. intros Hv Hd. rewrite <- (app_nil_r (render v)). by eapply json_parse_ws. Qed.

(** ** A text cut short

    What the scanner makes of a text it makes of any longer one, as long as it
    stopped before the end of it: a strict prefix of an object is no value. *)

Lemma drop_while_extend {A} (p : A -> bool) s u c r :
  drop_while p s = c :: r -> drop_while p (s ++ u) = c :: r ++ u.
Proof. induction s as [|x s IH]; cbn; [done|]. destruct (p x); [apply IH|]. by intros [= -> ->]. Qed.

Lemma take_while_extend {A} (p : A -> bool) s u :
  drop_while p s <> [] -> take_while p (s ++ u) = take_while p s.
Proof. induction s as [|x s IH]; cbn; [done|]. destruct (p x); [|done]. intros H. by rewrite IH. Qed.

Lemma expect_extend c s u r : expect c s = Some r -> expect c (s ++ u) = Some (r ++ u).
Proof. destruct s as [|d s]; cbn; [done|]. destruct (Ascii.eqb _ _); [|done]. by intros [= ->]. Qed.

Lemma scan_string_extend u s raw r : scan_string s = Some (raw, r) -> scan_string (s ++ u) = Some (raw, r ++ u).
Proof.
  remember (length s) as n eqn:Hn. assert (Hle : (length s <= n)%nat) by lia. clear Hn.
  revert s raw r Hle. induction n as [|n IH]; intros [|c s] raw r Hle; cbn in Hle; [done|lia|done|].
  cbn [scan_string app]. destruct (Ascii.eqb c quote); [by intros [= <- <-]|].
  assert (Hk : forall (k : bytes -> bytes) s' raw r, (length s' <= n)%nat ->
            ('(raw, r) ← scan_string s'; Some (k raw, r)) = Some (raw, r) ->
            ('(raw, r) ← scan_string (s' ++ u); Some (k raw, r)) = Some (raw, r ++ u)).
  { intros k s' raw' r' Hl. destruct (scan_string s') as [[a b]|] eqn:E; [|done].
    rewrite (IH s' a b Hl E). cbn. by intros [= <- <-]. }
  destruct (Ascii.eqb c "\").
  - destruct s as [|e s]; [done|]. cbn [app]. cbn in Hle.
    destruct (simple_escape e); [apply (Hk (fun raw => c :: e :: raw)); lia|].
    destruct (Ascii.eqb e "u"); [|done]. destruct s as [|h1 [|h2 [|h3 [|h4 s]]]]; try done. cbn [app]. cbn in Hle.
    destruct (is_hex h1 && is_hex h2 && is_hex h3 && is_hex h4); [|done].
    apply (Hk (fun raw => c :: e :: h1 :: h2 :: h3 :: h4 :: raw)). lia.
  - destruct (bin 0 31 c); [done|]. apply (Hk (fun raw => c :: raw)). lia.
Qed.

(** A scanner that gives the same on a longer text, when something is left. *)
Definition extends {A} (scan : bytes -> option (A * bytes)) : Prop :=
  forall s u v r, scan s = Some (v, r) -> r <> [] -> scan (s ++ u) = Some (v, r ++ u).

Lemma scan_digits_extends : extends scan_digits.
Proof.
  intros s u ds r. unfold scan_digits. destruct (take_while isDigit s) as [|d l] eqn:E; [done|].
  intros [= <- <-] Hr. rewrite take_while_extend, E by done.
  destruct (drop_while isDigit s) as [|c r] eqn:Ed; [done|]. by rewrite (drop_while_extend _ _ u c r).
Qed.

Lemma scan_int_extends : extends scan_int.
Proof.
  intros [|c s] u v r; [done|]. cbn [scan_int app]. destruct (Ascii.eqb c "0"); [by intros [= <- <-]|].
  intros H Hr. exact (scan_digits_extends (c :: s) u v r H Hr).
Qed.

Lemma scan_frac_extends : extends scan_frac.
Proof.
  intros [|c s] u v r; [by intros [= <- <-]|]. cbn [scan_frac app]. destruct (Ascii.eqb c "."); [|by intros [= <- <-]].
  destruct (scan_digits s) as [[ds r']|] eqn:E; [|done]. cbn. intros [= <- <-] Hr. by rewrite (scan_digits_extends s u _ _ E).
Qed.

Lemma scan_exp_extends : extends scan_exp.
Proof.
  intros [|c s] u v r; [by intros [= <- <-]|]. cbn [scan_exp app].
  destruct (Ascii.eqb c "e" || Ascii.eqb c "E"); [|by intros [= <- <-]].
  assert (Hs : forall ds r', ('(ds, r) ← scan_digits (scan_sign s).2; Some (c :: (scan_sign s).1 ++ ds, r)) = Some (ds, r')
             -> r' <> [] -> scan_sign (s ++ u) = ((scan_sign s).1, (scan_sign s).2 ++ u)).
  { intros ds r'. destruct s as [|d s]; [done|]. cbn. by destruct (Ascii.eqb d "+" || Ascii.eqb d "-"). }
  specialize (Hs v r). destruct (scan_sign s) as [sign s1]. cbn [fst snd] in Hs.
  destruct (scan_digits s1) as [[ds r']|] eqn:E; [|done]. intros H Hr. rewrite (Hs H Hr).
  cbn in H. injection H as <- <-. by rewrite (scan_digits_extends s1 u _ _ E).
Qed.

Lemma scan_rest_nonempty s :
  (forall f r, scan_frac s = Some (f, r) -> r <> [] -> s <> []) /\ (forall e r, scan_exp s = Some (e, r) -> r <> [] -> s <> []).
Proof. destruct s; split; try done; by intros ? ? [= <- <-]. Qed.

Lemma scan_number_extends : extends scan_number.
Proof.
  intros s u v r. unfold scan_number.
  assert (Hm : forall m s1, match s with c :: s' => if Ascii.eqb c "-" then ([c], s') else ([], s) | [] => ([], []) end = (m, s1)
    -> s1 <> [] -> match s ++ u with c :: s' => if Ascii.eqb c "-" then ([c], s') else ([], s ++ u) | [] => ([], []) end = (m, s1 ++ u)).
  { intros m s1. destruct s as [|c s]; [by intros [= <- <-]|]. cbn. destruct (Ascii.eqb c "-"); by intros [= <- <-]. }
  destruct (match s with c :: _ => _ | [] => _ end) as [m s1] eqn:Es. specialize (Hm m s1 eq_refl).
  destruct (scan_int s1) as [[i s2]|] eqn:E1; [|done]. cbn [mbind option_bind].
  destruct (scan_frac s2) as [[f s3]|] eqn:E2; [|done]. cbn [mbind option_bind].
  destruct (scan_exp s3) as [[e s4]|] eqn:E3; [|done]. cbn [mbind option_bind]. intros [= <- <-] H4.
  pose proof (proj2 (scan_rest_nonempty s3) _ _ E3 H4) as H3. pose proof (proj1 (scan_rest_nonempty s2) _ _ E2 H3) as H2.
  rewrite Hm by (by intros ->). rewrite (scan_int_extends s1 u _ _ E1 H2). cbn [mbind option_bind].
  rewrite (scan_frac_extends s2 u _ _ E2 H3). cbn [mbind option_bind]. by rewrite (scan_exp_extends s3 u _ _ E3 H4).
Qed.

Lemma scan_literal_extends : extends (scan_literal literals).
Proof.
  intros s u v r. cbn [scan_literal literals].
  destruct (HasPrefix s (bs "null")) eqn:E1;
    [|destruct (HasPrefix s (bs "true")) eqn:E2; [|destruct (HasPrefix s (bs "false")) eqn:E3; [|done] ] ].
  1: apply HasPrefix_spec in E1 as [t ->]. 2: apply HasPrefix_spec in E2 as [t ->]. 3: apply HasPrefix_spec in E3 as [t ->].
  all: rewrite <- app_assoc, HasPrefix_app, !drop_app_length; intros H _; injection H as <- <-; reflexivity.
Qed.

Section Extends.
Context (value : bytes -> option (json * bytes)) (Hv : extends value) (H0 : value [] = None).

Lemma value_extends s u v r : value (skip_ws s) = Some (v, r) -> r <> [] -> value (skip_ws (s ++ u)) = Some (v, r ++ u).
Proof using Hv H0.
  intros H Hr. destruct (skip_ws s) as [|c s'] eqn:E; [congruence|].
  rewrite (drop_while_extend _ _ u c s' E). exact (Hv (c :: s') u v r H Hr).
Qed.

Lemma skip_expect_extend c s u r : expect c (skip_ws s) = Some r -> expect c (skip_ws (s ++ u)) = Some (r ++ u).
Proof using.
  destruct (skip_ws s) as [|d s'] eqn:E; [done|]. rewrite (drop_while_extend _ _ u d s' E). apply (expect_extend c (d :: s')).
Qed.

Lemma skip_expect_none c s u : skip_ws s <> [] -> expect c (skip_ws s) = None -> expect c (skip_ws (s ++ u)) = None.
Proof using.
  destruct (skip_ws s) as [|d s'] eqn:E; [done|]. rewrite (drop_while_extend _ _ u d s' E). cbn. by destruct (Ascii.eqb d c).
Qed.

Lemma skip_nonempty s c r : skip_ws s = c :: r -> s <> [].
Proof using. by destruct s. Qed.

Lemma scan_items_extend f f' s u l r :
  (f <= f')%nat -> scan_items value f s = Some (l, r) -> scan_items value f' (s ++ u) = Some (l, r ++ u).
Proof using Hv H0.
  revert f' s l r. induction f as [|f IH]; intros [|f'] s l r Hf; try done; [lia|]. cbn [scan_items].
  destruct (value (skip_ws s)) as [[v s1]|] eqn:E1; [|done]. cbn [mbind option_bind].
  destruct (skip_ws s1) as [|c s2] eqn:E2; [done|]. rewrite (value_extends s u v s1 E1) by by eapply skip_nonempty.
  cbn [mbind option_bind]. rewrite (drop_while_extend _ _ u c s2 E2). destruct (Ascii.eqb c "]"); [by intros [= <- <-]|].
  destruct (Ascii.eqb c ","); [|done]. destruct (scan_items value f s2) as [[l' r']|] eqn:E3; [|done].
  cbn [mbind option_bind]. intros [= <- <-]. by rewrite (IH f' s2 l' r') by (done || lia).
Qed.

Lemma scan_members_extend f f' s u l r :
  (f <= f')%nat -> scan_members value f s = Some (l, r) -> scan_members value f' (s ++ u) = Some (l, r ++ u).
Proof using Hv H0.
  revert f' s l r. induction f as [|f IH]; intros [|f'] s l r Hf; try done; [lia|]. cbn [scan_members].
  destruct (expect quote (skip_ws s)) as [s1|] eqn:E1; [|done]. rewrite (skip_expect_extend _ _ u _ E1). cbn [mbind option_bind].
  destruct (scan_string s1) as [[k s2]|] eqn:E2; [|done]. rewrite (scan_string_extend u s1 k s2 E2). cbn [mbind option_bind].
  destruct (expect ":" (skip_ws s2)) as [s3|] eqn:E3; [|done]. rewrite (skip_expect_extend _ _ u _ E3). cbn [mbind option_bind].
  destruct (value (skip_ws s3)) as [[v s4]|] eqn:E4; [|done]. cbn [mbind option_bind].
  destruct (skip_ws s4) as [|c s5] eqn:E5; [done|]. rewrite (value_extends s3 u v s4 E4) by by eapply skip_nonempty.
  cbn [mbind option_bind]. rewrite (drop_while_extend _ _ u c s5 E5). destruct (Ascii.eqb c "}"); [by intros [= <- <-]|].
  destruct (Ascii.eqb c ","); [|done]. destruct (scan_members value f s5) as [[l' r']|] eqn:E6; [|done].
  cbn [mbind option_bind]. intros [= <- <-]. by rewrite (IH f' s5 l' r') by (done || lia).
Qed.
End Extends.

(** An array or an object ends in its own bracket. *)
Definition bracketed (c : ascii) : bool := Ascii.eqb c "[" || Ascii.eqb c "{".

Lemma scan_value_extend d c s u v r :
  scan_value d (c :: s) = Some (v, r) -> bracketed c = true \/ r <> [] -> scan_value d (c :: s ++ u) = Some (v, r ++ u).
Proof.
  revert c s u v r. induction d as [|d IH]; intros c s u v r; cbn [scan_value]; unfold bracketed.
  all: destruct (Ascii.eqb c quote);
    [destruct (scan_string s) as [[raw r']|] eqn:E; [|done]; rewrite (scan_string_extend u s raw r' E); by intros [= <- <-]|].
  all: destruct (Ascii.eqb c "[") eqn:Eb; [|destruct (Ascii.eqb c "{") eqn:Ec; [|intros H [?|Hr]; [done|] ] ]; try done.
  1, 4: destruct (Ascii.eqb c "-" || isDigit c);
    [destruct (scan_number (c :: s)) as [[t r']|] eqn:E; [|done]; cbn in H; injection H as <- <-;
     change (c :: s ++ u) with ((c :: s) ++ u); by rewrite (scan_number_extends (c :: s) u _ _ E Hr)
    |exact (scan_literal_extends (c :: s) u v r H Hr)].
  all: assert (Hx : extends (scan_value d)) by (intros [|c' s'] u' v' r' H Hr; [by destruct d|by apply IH; [|right] ]);
    assert (H0 : scan_value d [] = None) by by destruct d.
  - destruct (expect "]" (skip_ws s)) as [r'|] eqn:E; [rewrite (skip_expect_extend _ _ u _ E); by intros [= <- <-]|].
    destruct (scan_items (scan_value d) (S (length s)) s) as [[l r']|] eqn:E1; [|done]. intros [= <- <-] _.
    rewrite (skip_expect_none _ _ u) by (try done; intros Es; cbn [scan_items] in E1; rewrite Es, H0 in E1; done).
    by rewrite (scan_items_extend _ Hx H0 (S (length s)) _ s u l r') by (done || (rewrite length_app; lia)).
  - destruct (expect "}" (skip_ws s)) as [r'|] eqn:E; [rewrite (skip_expect_extend _ _ u _ E); by intros [= <- <-]|].
    destruct (scan_members (scan_value d) (S (length s)) s) as [[l r']|] eqn:E1; [|done]. intros [= <- <-] _.
    rewrite (skip_expect_none _ _ u) by (try done; intros Es; cbn [scan_members] in E1; rewrite Es in E1; done).
    by rewrite (scan_members_extend _ Hx H0 (S (length s)) _ s u l r') by (done || (rewrite length_app; lia)).
Qed.

(** An object that is read both from a text and from a longer one is the same,
    and only white space follows it. *)
Lemma json_parse_cut s t v x :
  json_parse ("{"%char :: s) = Some x -> json_parse ("{"%char :: s ++ t) = Some v -> x = v /\ skip_ws t = [].
Proof.
  unfold json_parse. change (skip_ws ("{"%char :: ?l)) with ("{"%char :: l).
  destruct (scan_value maxNestingDepth ("{"%char :: s)) as [[y r]|] eqn:E; [|done].
  rewrite (scan_value_extend _ _ _ t _ _ E) by by left.
  destruct (bool_decide_reflect (skip_ws r = [])) as [Hr|]; [|done]. intros [= <-].
  rewrite drop_while_app by by apply drop_while_nil.
  destruct (bool_decide_reflect (skip_ws t = [])); [|done]. by intros [= <-].
Qed.
