(* ===== verification/Codec.v ===== *)
(** * Records and entries as JSON

    What json.Marshal writes for a [Change] (memory.go's field tags) and for
    the journal's cursor (filestore/state.go), and what json.Unmarshal reads.
    A record whose text is valid UTF-8 and whose times are of years 0 to
    9999 is one line, and reads back as it was: [unmarshal_marshal_change]. *)

From S2P Require Import Prelude GoStd GoTime Sha256 Memory Json JsonRead.

(** A member, and one that [omitempty] may leave out. *)
Definition member (name : bytes) (v : json) : bytes * json := (json_loop (length name) name, v).
Definition opt (b : bool) (m : bytes * json) : list (bytes * json) := if b then [m] else [].
Definition nonempty (s : bytes) : bool := negb (bool_decide (s = [])).

(** [Time.MarshalJSON] fails for a year that is not of four digits. *)
Definition year_ok (t : Z) : bool := (0 <=? cvYear (civil_of t)) && (cvYear (civil_of t) <? 10000).
Definition jtime (t : Z) : json := JString (Format_RFC3339Nano t).

(** A map's members in the order of the keys. *)
Definition jmap {V} (value : V -> json) (m : gmap bytes V) : json :=
  JObject (omap (fun k => v ← m !! k; Some (member k (value v))) (sort_bytes (map_to_list m).*1)).

(** ** Entry and Change *)

Definition entry_json (e : Entry) : json :=
  JObject ([member (bs "scope") (jstring (eScope e)); member (bs "name") (jstring (eName e));
            member (bs "content") (jstring (eContent e))]
           ++ opt (negb (bool_decide (meta_map (eMeta e) = ∅))) (member (bs "meta") (jmap jstring (meta_map (eMeta e))))
           ++ [member (bs "hash") (jstring (eHash e))]
           ++ opt (nonempty (eMetaHash e)) (member (bs "meta_hash") (jstring (eMetaHash e)))
           ++ [member (bs "updated") (jtime (eUpdated e))]
           ++ opt (eDeleted e) (member (bs "deleted") (JBool true))).

Definition change_json (c : Change) : json :=
  JObject ([member (bs "seq") (jnumber (cSeq c)); member (bs "entry") (entry_json (cEntry c))]
           ++ opt (nonempty (cPrev c)) (member (bs "prev") (jstring (cPrev c)))
           ++ opt (nonempty (cReplaced c)) (member (bs "replaced") (jstring (cReplaced c)))
           ++ opt (nonempty (cSession c)) (member (bs "session") (jstring (cSession c)))
           ++ opt (nonempty (cSource c)) (member (bs "source") (jstring (cSource c)))
           ++ [member (bs "at") (jtime (cAt c))]).

(** json.Marshal of a [Change]. *)
Definition marshal_change (c : Change) : option bytes :=
  if year_ok (eUpdated (cEntry c)) && year_ok (cAt c) then Some (render (change_json c)) else None.

Definition zero_entry : Entry := MkEntry [] [] [] None [] [] 0 false.
Definition zero_change : Change := MkChange 0 zero_entry [] [] [] [] 0.

Definition entry_fields : fields Entry :=
  [(bs "scope", fun v e => x ← decode_string v (eScope e);
      Some (MkEntry x (eName e) (eContent e) (eMeta e) (eHash e) (eMetaHash e) (eUpdated e) (eDeleted e)));
   (bs "name", fun v e => x ← decode_string v (eName e);
      Some (MkEntry (eScope e) x (eContent e) (eMeta e) (eHash e) (eMetaHash e) (eUpdated e) (eDeleted e)));
   (bs "content", fun v e => x ← decode_string v (eContent e);
      Some (MkEntry (eScope e) (eName e) x (eMeta e) (eHash e) (eMetaHash e) (eUpdated e) (eDeleted e)));
   (bs "meta", fun v e => x ← decode_map [] decode_string v (eMeta e);
      Some (MkEntry (eScope e) (eName e) (eContent e) x (eHash e) (eMetaHash e) (eUpdated e) (eDeleted e)));
   (bs "hash", fun v e => x ← decode_string v (eHash e);
      Some (MkEntry (eScope e) (eName e) (eContent e) (eMeta e) x (eMetaHash e) (eUpdated e) (eDeleted e)));
   (bs "meta_hash", fun v e => x ← decode_string v (eMetaHash e);
      Some (MkEntry (eScope e) (eName e) (eContent e) (eMeta e) (eHash e) x (eUpdated e) (eDeleted e)));
   (bs "updated", fun v e => x ← decode_time v (eUpdated e);
      Some (MkEntry (eScope e) (eName e) (eContent e) (eMeta e) (eHash e) (eMetaHash e) x (eDeleted e)));
   (bs "deleted", fun v e => x ← decode_bool v (eDeleted e);
      Some (MkEntry (eScope e) (eName e) (eContent e) (eMeta e) (eHash e) (eMetaHash e) (eUpdated e) x))].

Definition change_fields : fields Change :=
  [(bs "seq", fun v c => x ← decode_uint 64 v (cSeq c);
      Some (MkChange x (cEntry c) (cPrev c) (cReplaced c) (cSession c) (cSource c) (cAt c)));
   (bs "entry", fun v c => x ← decode_struct entry_fields v (cEntry c);
      Some (MkChange (cSeq c) x (cPrev c) (cReplaced c) (cSession c) (cSource c) (cAt c)));
   (bs "prev", fun v c => x ← decode_string v (cPrev c);
      Some (MkChange (cSeq c) (cEntry c) x (cReplaced c) (cSession c) (cSource c) (cAt c)));
   (bs "replaced", fun v c => x ← decode_string v (cReplaced c);
      Some (MkChange (cSeq c) (cEntry c) (cPrev c) x (cSession c) (cSource c) (cAt c)));
   (bs "session", fun v c => x ← decode_string v (cSession c);
      Some (MkChange (cSeq c) (cEntry c) (cPrev c) (cReplaced c) x (cSource c) (cAt c)));
   (bs "source", fun v c => x ← decode_string v (cSource c);
      Some (MkChange (cSeq c) (cEntry c) (cPrev c) (cReplaced c) (cSession c) x (cAt c)));
   (bs "at", fun v c => x ← decode_time v (cAt c);
      Some (MkChange (cSeq c) (cEntry c) (cPrev c) (cReplaced c) (cSession c) (cSource c) x))].

(** json.Unmarshal into a zero [Change]. *)
Definition unmarshal_change (data : bytes) : option Change :=
  v ← json_parse data; decode_struct change_fields v zero_change.

(** ** The journal's cursor (filestore/state.go) *)

Record stateEntry := MkStateEntry { seHashOf : bytes; seMetaOf : bytes }.

Record cursor := MkCursor {
  curSeq : Z; curOff : Z; curHead : bytes; curEntries : option (gmap bytes stateEntry) }.

#[global] Instance stateEntry_eq_dec : EqDecision stateEntry.
Proof. solve_decision. Defined.

Definition stateEntry_json (se : stateEntry) : json :=
  JObject ([member (bs "hash") (jstring (seHashOf se))]
           ++ opt (nonempty (seMetaOf se)) (member (bs "meta") (jstring (seMetaOf se)))).

Definition cursor_json (st : cursor) : json :=
  JObject ([member (bs "seq") (jnumber (curSeq st)); member (bs "off") (jnumber (curOff st))]
           ++ opt (nonempty (curHead st)) (member (bs "head") (jstring (curHead st)))
           ++ opt (negb (bool_decide (default ∅ (curEntries st) = ∅)))
                (member (bs "entries") (jmap stateEntry_json (default ∅ (curEntries st))))).

Definition stateEntry_fields : fields stateEntry :=
  [(bs "hash", fun v se => x ← decode_string v (seHashOf se); Some (MkStateEntry x (seMetaOf se)));
   (bs "meta", fun v se => x ← decode_string v (seMetaOf se); Some (MkStateEntry (seHashOf se) x))].

Definition cursor_fields : fields cursor :=
  [(bs "seq", fun v st => x ← decode_uint 64 v (curSeq st); Some (MkCursor x (curOff st) (curHead st) (curEntries st)));
   (bs "off", fun v st => x ← decode_int 64 v (curOff st); Some (MkCursor (curSeq st) x (curHead st) (curEntries st)));
   (bs "head", fun v st => x ← decode_string v (curHead st); Some (MkCursor (curSeq st) (curOff st) x (curEntries st)));
   (bs "entries", fun v st =>
      x ← decode_map (MkStateEntry [] []) (decode_struct stateEntry_fields) v (curEntries st);
      Some (MkCursor (curSeq st) (curOff st) (curHead st) x))].

Definition marshal_cursor (st : cursor) : bytes := render (cursor_json st).

(** json.Unmarshal into a new cursor, whose map is there and empty. *)
Definition unmarshal_cursor (data : bytes) : option cursor :=
  v ← json_parse data; decode_struct cursor_fields v (MkCursor 0 0 [] (Some ∅)).

Example marshal_change_ex :
  let e := MkEntry (bs "user") (bs "style") (bs "A<b") (Some {[ bs "type" := bs "x"; bs "a" := [] ]}) (bs "h") [] 0 false in
  marshal_change (MkChange 3 e (bs "p") [] [] [] 0)
  = Some (q "{'seq':3,'entry':{'scope':'user','name':'style','content':'A\u003cb','meta':{'a':'','type':'x'},'hash':'h','updated':'0001-01-01T00:00:00Z'},'prev':'p','at':'0001-01-01T00:00:00Z'}").
Proof. by vm_compute. Qed.

(** A field in another case, one given twice, one the struct has not, a null. *)
Example unmarshal_change_ex :
  unmarshal_change (q "{'SEQ':1,'seq':2,'x':[],'entry':{'name':'a','content':null},'entry':{'hash':'h'}}")
  = Some (MkChange 2 (MkEntry [] (bs "a") [] None (bs "h") [] 0 false) [] [] [] [] 0)
  /\ unmarshal_change (q "{'seq':-1}") = None /\ unmarshal_change (q "{'seq':'1'}") = None
  /\ unmarshal_change (q "{'seq':1") = None.
Proof. by vm_compute. Qed.

(** ** Written, then read *)

Lemma decode_jstring s old : ValidString s = true -> decode_string (jstring s) old = Some s.
Proof. intros H. cbn. by rewrite unquote_json, sanitise_valid. Qed.

Lemma year_ok_bounds t : year_ok t = true -> 0 <= cvYear (civil_of t) < 10000.
Proof. unfold year_ok. intros. bool_hyps. lia. Qed.

Lemma decode_jtime t old : year_ok t = true -> decode_time (jtime t) old = Some t.
Proof. intros H. apply Parse_Format. by apply year_ok_bounds. Qed.

Lemma decode_jnumber n old : 0 <= n < 2 ^ 64 -> decode_uint 64 (jnumber n) old = Some n.
Proof.
  intros H. cbn [decode_uint jnumber]. unfold ParseUint, all_digits.
  destruct (Itoa_nonneg n ltac:(lia)) as (Hd & Hne & ->). rewrite bool_decide_eq_false_2 by done.
  assert (forallb isDigit (Itoa n) = true) as ->.
  { apply forallb_forall. intros c Hc. rewrite Forall_forall in Hd. apply Hd. by apply list_elem_of_In. }
  cbn. by destruct (Z.ltb_spec n (2 ^ 64)); [|lia].
Qed.

Lemma decode_jnumber_int n old : 0 <= n < 2 ^ 63 -> decode_int 64 (jnumber n) old = Some n.
Proof.
  intros H. cbn [decode_int jnumber]. unfold ParseInt, all_digits.
  destruct (Itoa_nonneg n ltac:(lia)) as (Hd & Hne & Hv). pose proof Hd as Hd'.
  assert (forallb isDigit (Itoa n) = true) as Ha.
  { apply forallb_forall. intros c Hc. rewrite Forall_forall in Hd. apply Hd. by apply list_elem_of_In. }
  destruct (Itoa n) as [|c ds] eqn:E; [done|]. apply Forall_cons in Hd' as [Hc _].
  assert (Ascii.eqb c "-" = false /\ Ascii.eqb c "+" = false) as [-> ->] by by destruct c as [[] [] [] [] [] [] [] []].
  rewrite bool_decide_eq_false_2, Ha by done. cbn [negb andb]. rewrite Hv.
  destruct (Z.leb_spec (- 2 ^ (64 - 1)) n), (Z.ltb_spec n (2 ^ (64 - 1))); done || lia.
Qed.

Lemma jmap_members {V} (value : V -> json) (P : bytes * json -> Prop) (m : gmap bytes V) ks :
  (forall k v, m !! k = Some v -> P (member k (value v))) ->
  Forall P (omap (fun k => v ← m !! k; Some (member k (value v))) ks).
Proof.
  intros H. apply Forall_forall. intros x (k & _ & Hx)%list_elem_of_omap.
  destruct (m !! k) as [v|] eqn:E; [|done]. cbn in Hx. simplify_eq. by apply H.
Qed.

(** A map written is read back into an empty one. *)
Lemma decode_jmap {V} (value : V -> json) (dec : decoder V) (zero : V) (m : gmap bytes V) (old : option (gmap bytes V)) :
  (forall k v, m !! k = Some v -> ValidString k = true /\ dec (value v) zero = Some v) ->
  default ∅ old = ∅ -> decode_map zero dec (jmap value m) old = Some (Some m).
Proof.
  intros Hm Hold. unfold decode_map, jmap. rewrite Hold.
  set (ks := sort_bytes (map_to_list m).*1).
  assert (Hks : forall k, is_Some (m !! k) -> k ∈ ks).
  { intros k [v Hv]. unfold ks. rewrite sort_bytes_perm, list_elem_of_fmap. exists (k, v). by rewrite elem_of_map_to_list. }
  assert (Hstep : forall l x, x ⊆ m -> exists x',
    foldl (fun acc m => x ← acc; w ← dec m.2 zero; Some (<[unquote m.1 := w]> x)) (Some x)
      (omap (fun k => v ← m !! k; Some (member k (value v))) l) = Some x'
    /\ x' ⊆ m /\ x ⊆ x' /\ forall k, k ∈ l -> x' !! k = m !! k).
  { induction l as [|k l IH]; intros x Hx; [exists x; split_and!; [done..|by intros k ?%not_elem_of_nil]|].
    cbn [omap list_omap]. destruct (m !! k) as [v|] eqn:Ek; cbn [mbind option_bind].
    - destruct (Hm k v Ek) as [Hk Hv]. cbn [foldl mbind option_bind fst snd member].
      rewrite Hv. cbn. rewrite unquote_json, sanitise_valid by done.
      destruct (IH (<[k:=v]> x)) as (x' & -> & H1 & H2 & H3).
      { apply insert_subseteq_l; done. }
      exists x'. split_and!; [done..| |].
      + etrans; [|exact H2]. apply map_subseteq_spec. intros i w Hi. destruct (decide (i = k)) as [->|].
        * rewrite lookup_insert_eq. by rewrite <- Ek, (lookup_weaken x m k w).
        * by rewrite lookup_insert_ne.
      + intros i [->|Hi]%elem_of_cons; [|by apply H3]. rewrite Ek.
        eapply lookup_weaken; [|exact H2]. by rewrite lookup_insert_eq.
    - destruct (IH x Hx) as (x' & -> & H1 & H2 & H3). exists x'. split_and!; [done..|].
      intros i [->|Hi]%elem_of_cons; [|by apply H3]. rewrite Ek.
      apply eq_None_not_Some. intros [w Hw]. apply (lookup_weaken _ m) in Hw; [congruence|done]. }
  destruct (Hstep ks ∅ (map_empty_subseteq _)) as (x' & -> & H1 & _ & H3). cbn. do 2 f_equal.
  apply map_eq. intros k. destruct (m !! k) as [v|] eqn:E; [rewrite <- E; by apply H3, Hks|].
  apply eq_None_not_Some. intros [w Hw]. apply (lookup_weaken _ m) in Hw; [congruence|done].
Qed.

(** A list written is read back into a slice that was nil. *)
Lemma decode_jlist {A} (value : A -> json) (dec : decoder A) (zero : A) (l : list A) :
  Forall (fun x => dec (value x) zero = Some x) l ->
  decode_slice zero dec (JArray (value <$> l)) nil_slice = Some (MkSlice (length l) l).
Proof.
  intros H. assert (decode_elems zero dec (value <$> l) [] = Some l) as E.
  { induction H as [|x l Hx _ IH]; [done|]. cbn. rewrite Hx. cbn. by rewrite IH. }
  destruct l as [|x l]; [done|]. cbn [fmap list_fmap decode_slice nil_slice slice_array] in *. rewrite E. cbn.
  by rewrite length_fmap.
Qed.

Lemma slice_whole {A} (l : list A) : slice_list (MkSlice (length l) l) = l.
Proof. apply firstn_all. Qed.

Lemma decode_member_field {T} (fs : fields T) name v x dec :
  field_of fs (unquote (json_loop (length name) name)) = Some dec ->
  decode_member fs (Some x) (member name v) = dec v x.
Proof. intros H. unfold decode_member. cbn [fst snd member mbind option_bind]. by rewrite H. Qed.

(** A string left out when it is empty, as the field is then. *)
Lemma decode_opt_string {T} (fs : fields T) name s x dec (set : bytes -> T) :
  field_of fs (unquote (json_loop (length name) name)) = Some dec ->
  ValidString s = true -> (forall v, dec v x = (y ← decode_string v []; Some (set y))) -> set [] = x ->
  foldl (decode_member fs) (Some x) (opt (nonempty s) (member name (jstring s))) = Some (set s).
Proof.
  intros Hf Hs Hd Hx. destruct (nonempty s) eqn:E; cbn [foldl opt].
  - erewrite decode_member_field by done. by rewrite Hd, decode_jstring.
  - unfold nonempty in E. bool_hyps. by subst.
Qed.

(** Text that JSON carries as it is, and metadata of such text, which is nil
    when there is none. *)
Definition meta_text_ok (m : option (gmap bytes bytes)) : Prop :=
  m <> Some ∅ /\ map_Forall (fun k v => ValidString k = true /\ ValidString v = true) (meta_map m).

Record entry_carried (e : Entry) : Prop := {
  ec_scope : ValidString (eScope e) = true;
  ec_name : ValidString (eName e) = true;
  ec_content : ValidString (eContent e) = true;
  ec_meta : meta_text_ok (eMeta e);
  ec_hash : ValidString (eHash e) = true;
  ec_meta_hash : ValidString (eMetaHash e) = true;
  ec_updated : year_ok (eUpdated e) = true
}.

Record change_carried (c : Change) : Prop := {
  cc_seq : 0 <= cSeq c < 2 ^ 64;
  cc_entry : entry_carried (cEntry c);
  cc_prev : ValidString (cPrev c) = true;
  cc_replaced : ValidString (cReplaced c) = true;
  cc_session : ValidString (cSession c) = true;
  cc_source : ValidString (cSource c) = true;
  cc_at : year_ok (cAt c) = true
}.

Lemma decode_meta m : meta_text_ok m -> m <> None ->
  decode_map [] decode_string (jmap jstring (meta_map m)) None = Some m.
Proof.
  intros [_ Hm] Hn. destruct m as [m|]; [|done]. apply decode_jmap; [|done].
  intros k v Hk. destruct (Hm k v Hk). split; [done|]. by apply decode_jstring.
Qed.

#[local] Opaque decode_member opt.

(** Members in turn: each is the field's that it names. *)
Ltac field_in_turn :=
  first
    [ rewrite foldl_app
    | erewrite decode_opt_string; [|reflexivity|assumption|reflexivity|reflexivity]
    | progress cbn [foldl]
    | erewrite decode_member_field by reflexivity; cbv beta;
      rewrite ?decode_jstring, ?decode_jtime, ?decode_jnumber by assumption;
      cbn [mbind option_bind cSeq cEntry cPrev cReplaced cSession cSource cAt
        eScope eName eContent eMeta eHash eMetaHash eUpdated eDeleted] ].

(** The metadata, left out when there is none. *)
Lemma decode_opt_meta a b c m : meta_text_ok m ->
  foldl (decode_member entry_fields) (Some (MkEntry a b c None [] [] 0 false))
    (opt (negb (bool_decide (meta_map m = ∅))) (member (bs "meta") (jmap jstring (meta_map m))))
  = Some (MkEntry a b c m [] [] 0 false).
Proof.
  intros Hm. case_bool_decide as Hz; cbn [negb].
  - destruct m; [|done]. destruct Hm as [Hne _]. cbn in Hz. by subst.
  - change (opt true ?m) with [m]. cbn [foldl]. erewrite decode_member_field by reflexivity. cbv beta.
    cbn [eMeta]. rewrite (decode_meta m Hm) by (by intros ->). done.
Qed.

Lemma decode_entry e : entry_carried e -> decode_struct entry_fields (entry_json e) zero_entry = Some e.
Proof.
  intros []. destruct e as [scope name content meta hash mhash updated deleted].
  unfold entry_json, decode_struct, zero_entry.
  cbn [eScope eName eContent eMeta eHash eMetaHash eUpdated eDeleted] in *.
  repeat field_in_turn.
  rewrite decode_opt_meta by done. repeat field_in_turn. by destruct deleted.
Qed.

Lemma decode_change c : change_carried c -> decode_struct change_fields (change_json c) zero_change = Some c.
Proof.
  intros [Hq He Hp Hr Hs Hso Ha]. destruct c as [seq e prev replaced session source at_].
  pose proof (decode_entry e He) as Hd. unfold change_json, zero_change. unfold decode_struct at 1.
  cbn [cSeq cEntry cPrev cReplaced cSession cSource cAt] in *.
  repeat field_in_turn. rewrite Hd. cbn [mbind option_bind]. by repeat field_in_turn.
Qed.

#[local] Transparent decode_member opt.

(** ** One line, and the whole of it *)

Lemma plain_digit c : bin 48 57 c = true \/ c = "-"%char -> plain c = true.
Proof. destruct c as [[] [] [] [] [] [] [] []]; by intros [?| ?]. Qed.

Lemma digits_plain s : Forall (fun c => isDigit c = true) s -> Forall (fun c => plain c = true) s.
Proof. intros H. eapply Forall_impl; [exact H|]. intros c Hc. apply plain_digit. by left. Qed.

Lemma pad_plain w n : Forall (fun c => plain c = true) (pad w n).
Proof.
  unfold pad. apply Forall_app. split; [case_match; by repeat constructor|].
  case_match; [apply digits_plain, fixed_digits_digits|].
  eapply Forall_impl; [apply Itoa_bytes|]. intros c. apply plain_digit.
Qed.

Lemma frac_plain n : Forall (fun c => plain c = true) (frac n).
Proof.
  unfold frac. case_bool_decide; [constructor|]. constructor; [done|]. apply digits_plain.
  pose proof (fixed_digits_digits 9 n) as Hd. destruct (trim_zeros_spec (fixed_digits 9 n)) as (l & E & _).
  rewrite E in Hd. by apply Forall_app in Hd as [Hd _].
Qed.

Lemma jtime_writable d t : writable d (jtime t).
Proof.
  constructor. apply plain_raw. unfold Format_RFC3339Nano. cbv zeta.
  rewrite !Forall_app. split_and!; auto using pad_plain, frac_plain; by repeat constructor.
Qed.

Lemma jstring_writable d s : writable d (jstring s).
Proof. constructor. apply jstring_raw. Qed.

Lemma jnumber_writable d n : writable d (jnumber n).
Proof. constructor. apply number_ok_Itoa. Qed.

Lemma member_writable d name v : writable d v -> raw_ok (member name v).1 /\ writable d (member name v).2.
Proof. intros H. split; [apply jstring_raw|done]. Qed.

Lemma opt_Forall (P : bytes * json -> Prop) b m : P m -> Forall P (opt b m).
Proof. intros H. destruct b; by repeat constructor. Qed.

Lemma jmap_writable {V} d (value : V -> json) m : (forall v, writable d (value v)) -> writable (S d) (jmap value m).
Proof. intros H. constructor. apply jmap_members. intros k v _. by apply member_writable. Qed.

#[export] Hint Resolve jtime_writable jstring_writable jnumber_writable jmap_writable member_writable opt_Forall : mem.

(** The members of an object, one by one. *)
Ltac members_writable :=
  repeat rewrite ?Forall_app, ?Forall_cons, ?Forall_nil;
  repeat match goal with
  | |- raw_ok _ /\ _ => apply member_writable
  | |- _ /\ _ => split
  | |- True => done
  | |- Forall _ (opt _ _) => apply opt_Forall
  end.

Lemma entry_writable d e : writable (S (S d)) (entry_json e).
Proof.
  constructor. members_writable; auto with mem.
Qed.

Lemma change_writable d c : writable (S (S (S d))) (change_json c).
Proof.
  constructor. members_writable; auto using entry_writable with mem.
Qed.

(** A record written is one line of text, and the record when read. *)
Lemma unmarshal_marshal_change c line :
  change_carried c -> marshal_change c = Some line -> clean line /\ unmarshal_change line = Some c.
Proof.
  intros Hc. unfold marshal_change. destruct (_ && _); [|done]. intros E.
  assert (line = render (change_json c)) as -> by congruence. clear E. split.
  - apply (render_clean 3 (change_json c)), change_writable.
  - unfold unmarshal_change. rewrite (json_parse_render 3 (change_json c)); [|apply change_writable|unfold maxNestingDepth; lia].
    by apply decode_change.
Qed.

Lemma marshal_carried c : change_carried c -> is_Some (marshal_change c).
Proof. intros [_ [] _ _ _ _ Ha]. unfold marshal_change. rewrite Ha. rewrite ec_updated0. eauto. Qed.

(** The cursor: what is saved is what is loaded. *)
Record cursor_carried (st : cursor) : Prop := {
  cu_seq : 0 <= curSeq st < 2 ^ 64;
  cu_off : 0 <= curOff st < 2 ^ 63;
  cu_head : ValidString (curHead st) = true;
  cu_entries : exists m, curEntries st = Some m
    /\ map_Forall (fun k se => ValidString k = true /\ ValidString (seHashOf se) = true
                     /\ ValidString (seMetaOf se) = true) m
}.

#[local] Opaque decode_member opt.

Lemma decode_stateEntry se :
  ValidString (seHashOf se) = true -> ValidString (seMetaOf se) = true ->
  decode_struct stateEntry_fields (stateEntry_json se) (MkStateEntry [] []) = Some se.
Proof.
  intros Hh Hm. destruct se as [h m]. unfold stateEntry_json, decode_struct.
  cbn [seHashOf seMetaOf] in *. rewrite foldl_app. cbn [foldl].
  erewrite decode_member_field by reflexivity. cbv beta. cbn [seHashOf seMetaOf].
  rewrite decode_jstring by done. cbn [mbind option_bind].
  erewrite decode_opt_string; [|reflexivity|assumption|reflexivity|reflexivity]. done.
Qed.

Lemma decode_cursor st : cursor_carried st ->
  decode_struct cursor_fields (cursor_json st) (MkCursor 0 0 [] (Some ∅)) = Some st.
Proof.
  intros [Hs Ho Hh (m & Em & Hm)]. destruct st as [seq off head entries].
  cbn [curSeq curOff curHead curEntries] in *. subst entries. unfold cursor_json, decode_struct.
  cbn [curSeq curOff curHead curEntries default]. rewrite !foldl_app. cbn [foldl].
  erewrite decode_member_field by reflexivity. cbv beta. cbn [curSeq curOff curHead curEntries].
  rewrite decode_jnumber by done. cbn [mbind option_bind].
  erewrite decode_member_field by reflexivity. cbv beta. cbn [curSeq curOff curHead curEntries].
  rewrite decode_jnumber_int by done. cbn [mbind option_bind].
  erewrite decode_opt_string; [|reflexivity|assumption|reflexivity|reflexivity].
  case_bool_decide as Hz; cbn [negb].
  { change (opt false ?x) with (@nil (bytes * json)). cbn [foldl].
    assert (m = ∅) as -> by exact Hz. done. }
  change (opt true ?x) with [x]. cbn [foldl].
  erewrite decode_member_field by reflexivity. cbv beta. cbn [curSeq curOff curHead curEntries].
  rewrite (decode_jmap stateEntry_json); [done| |done].
  intros k se Hk. destruct (Hm k se Hk) as (H1 & H2 & H3). split; [done|]. by apply decode_stateEntry.
Qed.

#[local] Transparent decode_member opt.

Lemma cursor_writable d st : writable (S (S (S d))) (cursor_json st).
Proof.
  constructor. members_writable; auto with mem. apply jmap_writable. intros se.
  constructor. members_writable; auto with mem.
Qed.

Lemma unmarshal_marshal_cursor st :
  cursor_carried st -> unmarshal_cursor (marshal_cursor st ++ [ascii_of_N 10]) = Some st.
Proof.
  intros H. unfold unmarshal_cursor, marshal_cursor.
  rewrite (json_parse_ws 3 (cursor_json st)); [|apply cursor_writable|unfold maxNestingDepth; lia|by repeat constructor].
  by apply decode_cursor.
Qed.
