(* ===== verification/Frontmatter.v ===== *)
(** * Entry files: filestore/frontmatter.go

    An entry file is a block of "key: value" lines between "---" lines and
    then the content, byte for byte.  What the store writes for an entry it
    may hold reads back as the entry: [decode_encode]. *)

From S2P Require Import Prelude GoStd GoTime Sha256 Memory Json JsonRead Codec.

Definition newline : ascii := ascii_of_N 10.
Definition delimiter : bytes := bs "---" ++ [newline].

(** ** Writing *)

Definition writeField (key value : bytes) : bytes :=
  key ++ bs ":" ++ (if bool_decide (value = []) then [] else bs " " ++ value) ++ [newline].

Definition encode (e : Entry) : bytes :=
  delimiter
  ++ writeField (bs "name") (eName e)
  ++ writeField (bs "updated") (Format_RFC3339Nano (eUpdated e))
  ++ concat ((fun k => writeField k (meta_get (eMeta e) k)) <$> sorted_keys (meta_map (eMeta e)))
  ++ delimiter ++ eContent e.

(** ** Reading *)

Record decoded := MkDecoded { dMeta : option (gmap bytes bytes); dUpdated : Z; dContent : bytes }.

(** [strings.Cut] and [strings.Split] at one byte. *)
Fixpoint Cut (c : ascii) (s : bytes) : option (bytes * bytes) :=
  match s with
  | [] => None
  | d :: s' => if Ascii.eqb d c then Some ([], s') else '(a, b) ← Cut c s'; Some (d :: a, b)
  end.

Fixpoint Split (c : ascii) (s : bytes) : list bytes :=
  match s with
  | [] => [[]]
  | d :: s' =>
      if Ascii.eqb d c then [] :: Split c s'
      else match Split c s' with l :: ls => (d :: l) :: ls | [] => [[d]] end
  end.

(** One line of the block. *)
Definition decode_line (d : decoded) (line : bytes) : decoded :=
  match Cut ":" line with
  | None => d
  | Some (k, v) =>
      let key := TrimSpace k in
      let value := TrimSpace v in
      if bool_decide (key = bs "name") then d
      else if bool_decide (key = bs "updated") then
        match Parse_RFC3339Nano value with
        | Some t => MkDecoded (dMeta d) t (dContent d)
        | None => d
        end
      else if negb (ValidName key) then d
      else MkDecoded (Some (<[key := value]> (meta_map (dMeta d)))) (dUpdated d) (dContent d)
  end.

Definition decode (s : bytes) : decoded :=
  if negb (HasPrefix s delimiter) then MkDecoded None 0 s
  else
    let rest := drop (length delimiter) s in
    let split :=
      if HasPrefix rest delimiter then Some ([], drop (length delimiter) rest)
      else match Index rest (newline :: delimiter) with
           | None => None
           | Some i => Some (take i rest, drop (i + 1 + length delimiter) rest)
           end in
    match split with
    | None => MkDecoded None 0 s
    | Some (block, rest) => fold_left decode_line (Split newline block) (MkDecoded None 0 rest)
    end.

Definition demo_file : bytes :=
  Join [newline] [bs "---"; bs "name: style"; bs "updated: 2026-09-20T10:00:03Z"; bs "description: How to answer";
                  bs "type: feedback"; bs "---"; bs "Prefers short answers and tabs. Lives in Bristol."].

(** The example of docs/filestore-format.md. *)
Example decode_ex :
  decode demo_file
  = MkDecoded (Some {[ bs "description" := bs "How to answer"; bs "type" := bs "feedback" ]})
      (Date (MkCivil 2026 9 20 10 0 3 0)) (bs "Prefers short answers and tabs. Lives in Bristol.")
  /\ encode (MkEntry (bs "user") (bs "style") (bs "Prefers short answers and tabs. Lives in Bristol.")
       (Some {[ bs "description" := bs "How to answer"; bs "type" := bs "feedback" ]}) [] []
       (Date (MkCivil 2026 9 20 10 0 3 0)) false) = demo_file.
Proof. by vm_compute. Qed.

(** A note that opens with a rule, a note without a block, an empty block. *)
Example decode_by_hand :
  decode (bs "---" ++ [newline] ++ bs "not a block") = MkDecoded None 0 (bs "---" ++ [newline] ++ bs "not a block")
  /\ decode (bs "a note") = MkDecoded None 0 (bs "a note")
  /\ decode (delimiter ++ delimiter ++ bs "x") = MkDecoded None 0 (bs "x")
  /\ decode (delimiter ++ bs "b_c: 1" ++ [newline] ++ bs " k :  v " ++ [newline] ++ delimiter ++ bs "x")
     = MkDecoded (Some {[ bs "k" := bs "v" ]}) 0 (bs "x").
Proof. by vm_compute. Qed.

(** ** Lines *)

Lemma Cut_app c k v : c ∉ k -> Cut c (k ++ c :: v) = Some (k, v).
Proof.
  induction k as [|d k IH]; intros Hk; cbn; [by rewrite Ascii.eqb_refl|].
  rewrite not_elem_of_cons in Hk. destruct Hk as [Hd Hk].
  destruct (Ascii.eqb_spec d c); [congruence|]. by rewrite IH.
Qed.

Lemma Split_app c x s : c ∉ x -> Split c (x ++ c :: s) = x :: Split c s.
Proof.
  induction x as [|d x IH]; intros Hx; cbn; [by rewrite Ascii.eqb_refl|].
  rewrite not_elem_of_cons in Hx. destruct Hx as [Hd Hx].
  destruct (Ascii.eqb_spec d c); [congruence|]. by rewrite IH.
Qed.

Lemma Split_none c x : c ∉ x -> Split c x = [x].
Proof.
  induction x as [|d x IH]; intros Hx; cbn; [done|].
  rewrite not_elem_of_cons in Hx. destruct Hx as [Hd Hx].
  destruct (Ascii.eqb_spec d c); [congruence|]. by rewrite IH.
Qed.

(** Lines joined are the lines split. *)
Lemma Split_Join c (ls : list bytes) : ls <> [] -> Forall (fun l => c ∉ l) ls -> Split c (Join [c] ls) = ls.
Proof.
  intros Hne H. induction H as [|x ls Hx Hl IH]; [done|].
  destruct ls as [|y ls]; [by apply Split_none|].
  rewrite Join_cons by done. cbn [app]. rewrite Split_app by done. by rewrite IH.
Qed.

(** The block of a file ends at the first line that is the delimiter. *)
Lemma Index_at a sub b :
  (forall i, (i < length a)%nat -> HasPrefix (drop i (a ++ sub ++ b)) sub = false) ->
  Index (a ++ sub ++ b) sub = Some (length a).
Proof.
  induction a as [|c a IH]; intros H.
  - cbn [app length]. destruct (sub ++ b) eqn:E; cbn [Index]; rewrite <- E, HasPrefix_app; done.
  - cbn [app Index length]. rewrite (H 0%nat ltac:(cbn; lia) : HasPrefix (c :: a ++ sub ++ b) sub = false).
    rewrite IH; [done|]. intros i Hi. apply (H (S i)). cbn. lia.
Qed.

(** No line of [a] past the first starts with a hyphen. *)
Definition no_rule (a : bytes) : Prop :=
  forall x y, a = x ++ newline :: y -> match y with c :: _ => c <> "-"%char | [] => True end.

Lemma Index_delimiter a b :
  no_rule a -> Index (a ++ (newline :: delimiter) ++ b) (newline :: delimiter) = Some (length a).
Proof.
  intros Ha. apply Index_at. intros i Hi.
  destruct (HasPrefix _ _) eqn:E; [|done]. exfalso. apply HasPrefix_spec in E as [t E].
  rewrite drop_app_le in E by lia. destruct (drop i a) as [|c r] eqn:Er.
  { apply (f_equal length) in Er. rewrite length_drop in Er. cbn in Er. lia. }
  cbn [app] in E. injection E as -> E.
  assert (a = take i a ++ newline :: r) as Ea by (by rewrite <- Er, take_drop).
  specialize (Ha _ _ Ea). destruct r as [|c r]; cbn in E; injection E as E _; [done|congruence].
Qed.

(** ** White space *)

Lemma TrimSpace_space v : TrimSpace (" "%char :: v) = TrimSpace v.
Proof. unfold TrimSpace, TrimLeftSpace. cbn [length trim_lead]. by destruct v. Qed.

(** A byte that ends no encoding of white space. *)
Definition printing (c : ascii) : bool := bin 33 126 c.

Lemma lead_len_printing c s : printing c = true -> lead_len space_runes (c :: s) = O.
Proof. destruct c as [[] [] [] [] [] [] [] []]; try done; intros _; by destruct s as [|? [|? ?]]. Qed.

Lemma tail_len_printing c s : printing c = true -> lead_len (reverse <$> space_runes) (c :: s) = O.
Proof. destruct c as [[] [] [] [] [] [] [] []]; try done; intros _; by destruct s as [|? [|? ?]]. Qed.

Lemma TrimSpace_printing s : Forall (fun c => printing c = true) s -> TrimSpace s = s.
Proof.
  intros H. unfold TrimSpace.
  assert (TrimLeftSpace s = s) as ->.
  { destruct H as [|c s Hc _]; [done|]. unfold TrimLeftSpace. cbn [length trim_lead]. by rewrite lead_len_printing. }
  unfold TrimRightSpace. rewrite <- (reverse_involutive s) at 3. f_equal.
  apply Forall_reverse in H. rewrite <- (length_reverse s). destruct H as [|c r Hc _]; [done|].
  cbn [length trim_lead]. by rewrite tail_len_printing.
Qed.

(** ** What is written is read back *)

Definition field_line (k v : bytes) : bytes := k ++ bs ":" ++ (if bool_decide (v = []) then [] else bs " " ++ v).

(** The lines of a block. *)
Definition block_lines (e : Entry) : list bytes :=
  field_line (bs "name") (eName e) :: field_line (bs "updated") (Format_RFC3339Nano (eUpdated e))
  :: ((fun k => field_line k (meta_get (eMeta e) k)) <$> sorted_keys (meta_map (eMeta e))).

Lemma concat_lines (ls : list bytes) : ls <> [] -> concat ((fun l => l ++ [newline]) <$> ls) = Join [newline] ls ++ [newline].
Proof.
  induction ls as [|l ls IH]; [done|]. intros _. destruct ls as [|k ls].
  - cbn. by rewrite app_nil_r.
  - rewrite Join_cons by done. cbn [fmap list_fmap concat] in *. rewrite IH by done.
    by rewrite <- !app_assoc.
Qed.

Lemma encode_lines e :
  encode e = delimiter ++ Join [newline] (block_lines e) ++ (newline :: delimiter) ++ eContent e.
Proof.
  unfold encode. f_equal. change (newline :: delimiter) with ([newline] ++ delimiter).
  rewrite <- !app_assoc. rewrite (app_assoc (Join _ _)), <- concat_lines by done.
  assert (Hw : forall k v, writeField k v = field_line k v ++ [newline]).
  { intros k v. unfold writeField, field_line. by rewrite <- !app_assoc. }
  unfold block_lines. cbn [fmap list_fmap concat]. rewrite !Hw, <- !app_assoc. repeat (f_equal; []).
  rewrite <- list_fmap_compose. apply list_fmap_ext. intros _ k _. apply Hw.
Qed.

Lemma no_rule_Join ls :
  Forall (fun l => newline ∉ l /\ exists c r, l = c :: r /\ c <> "-"%char) ls -> no_rule (Join [newline] ls).
Proof.
  induction ls as [|l ls IH]; intros Hl x y E; [by destruct x|].
  apply Forall_cons in Hl as [[Hl (c & r & El & Hc)] Hls].
  destruct ls as [|k ls].
  { cbn [Join] in E. exfalso. apply Hl. rewrite E. set_solver. }
  rewrite Join_cons in E by done. cbn [app] in E.
  destruct (decide (newline ∈ x)) as [Hx|Hx].
  - apply list_elem_of_split_l in Hx as (x1 & x2 & -> & Hx1). rewrite <- app_assoc in E. cbn [app] in E.
    apply app_sep_inj in E as [_ E]; [|done..]. by eapply IH.
  - apply app_sep_inj in E as [_ <-]; [|done..].
    apply Forall_cons in Hls as [[_ (c' & r' & -> & Hc')] _].
    destruct ls; [done|]. by rewrite Join_cons.
Qed.

Lemma name_printing k : name_spec k -> Forall (fun c => printing c = true) k.
Proof.
  intros H%ValidName_iff%ValidName_bytes. eapply Forall_impl; [exact H|].
  intros c. destruct c as [[] [] [] [] [] [] [] []]; by intros [?| ?].
Qed.

Lemma name_head k : name_spec k -> exists c r, k = c :: r /\ c <> "-"%char.
Proof.
  intros [([|[|c g] gs] & Hne & Hg & ->) _]; [done|by inversion Hg as [|? ? []]|].
  rewrite join_cons_byte. eexists _, _. split; [done|]. intros ->.
  apply Forall_cons in Hg as [[_ Hg] _]. by apply Forall_cons in Hg as [Hg _].
Qed.

(** A value that is one line and trimmed. *)
Definition line_value (v : bytes) : Prop := newline ∉ v /\ TrimSpace v = v.

Lemma field_line_ok k v : name_spec k -> line_value v ->
  newline ∉ field_line k v /\ exists c r, field_line k v = c :: r /\ c <> "-"%char.
Proof.
  intros Hk [Hv _]. split.
  - unfold field_line. rewrite !not_elem_of_app. split_and!.
    + intros Hin. apply ValidName_iff, ValidName_bytes in Hk. rewrite Forall_forall in Hk.
      destruct (Hk _ Hin); done.
    + set_solver.
    + case_bool_decide; set_solver.
  - destruct (name_head k Hk) as (c & r & -> & Hc). by eexists c, _.
Qed.

(** What [decode_line] makes of a line written for a key. *)
Lemma decode_field_line d k v : name_spec k -> line_value v ->
  decode_line d (field_line k v)
  = (if bool_decide (k = bs "name") then d
     else if bool_decide (k = bs "updated") then
       match Parse_RFC3339Nano v with Some t => MkDecoded (dMeta d) t (dContent d) | None => d end
     else MkDecoded (Some (<[k := v]> (meta_map (dMeta d)))) (dUpdated d) (dContent d)).
Proof.
  intros Hk [_ Hv]. unfold decode_line, field_line. cbn [bs app String.list_ascii_of_string].
  rewrite Cut_app.
  2: { intros Hin. apply ValidName_iff, ValidName_bytes in Hk. rewrite Forall_forall in Hk. destruct (Hk _ Hin); done. }
  rewrite (TrimSpace_printing k) by by apply name_printing.
  assert (TrimSpace (if bool_decide (v = []) then [] else " "%char :: v) = v) as ->.
  { case_bool_decide; [by subst|]. by rewrite TrimSpace_space. }
  apply ValidName_iff in Hk as ->. done.
Qed.

Lemma decode_meta_lines (m : gmap bytes bytes) : forall ks d,
  map_Forall meta_pair_spec m -> (forall k, k ∈ ks -> is_Some (m !! k)) ->
  meta_map (dMeta d) ⊆ m ->
  exists dm, fold_left decode_line ((fun k => field_line k (default [] (m !! k))) <$> ks) d
    = MkDecoded dm (dUpdated d) (dContent d)
    /\ meta_map dm ⊆ m /\ meta_map (dMeta d) ⊆ meta_map dm /\ (forall k, k ∈ ks -> meta_map dm !! k = m !! k)
    /\ (is_Some dm <-> is_Some (dMeta d) \/ ks <> []).
Proof.
  induction ks as [|k ks IH]; intros d Hm Hks Hd.
  { exists (dMeta d). destruct d. cbn. split_and!; try done; [by intros ? ?%not_elem_of_nil|tauto]. }
  destruct (Hks k ltac:(left)) as [v Hv]. rewrite fmap_cons. cbn [fold_left]. rewrite Hv. change (default [] (Some v)) with v.
  destruct (Hm k v Hv) as [Hk [Hn Hu] Hl Ht _].
  rewrite decode_field_line; [|done|split; [by intros Hin; apply Hl in Hin as [_ Hin]|done] ].
  rewrite !bool_decide_eq_false_2 by done.
  set (d' := MkDecoded (Some (<[k:=v]> (meta_map (dMeta d)))) (dUpdated d) (dContent d)).
  destruct (IH d') as (dm & -> & H1 & H2 & H3 & H4); [done|set_solver|by apply insert_subseteq_l|].
  assert (H2' : <[k:=v]> (meta_map (dMeta d)) ⊆ meta_map dm) by exact H2.
  exists dm. split_and!; [done..| | |].
  - etrans; [|exact H2']. apply map_subseteq_spec. intros i w Hi. destruct (decide (i = k)) as [->|].
    + rewrite lookup_insert_eq. rewrite <- Hv. eapply lookup_weaken; [exact Hi|exact Hd].
    + by rewrite lookup_insert_ne.
  - intros i [->|Hi]%elem_of_cons; [|by apply H3]. rewrite Hv. eapply lookup_weaken; [|exact H2']. apply lookup_insert_eq.
  - rewrite H4. split; [by right|]. intros _. left. eauto.
Qed.

Lemma printing_line s : Forall (fun c => printing c = true) s -> line_value s.
Proof.
  intros H. split; [|by apply TrimSpace_printing]. intros Hin. rewrite Forall_forall in H. by specialize (H _ Hin).
Qed.

Lemma Format_printing t : Forall (fun c => printing c = true) (Format_RFC3339Nano t).
Proof.
  assert (Hp : forall c, bin 48 57 c = true \/ c = "-"%char -> printing c = true).
  { intros c. destruct c as [[] [] [] [] [] [] [] []]; by intros [?| ?]. }
  assert (Hd : forall s, Forall (fun c => isDigit c = true) s -> Forall (fun c => printing c = true) s).
  { intros s H. eapply Forall_impl; [exact H|]. intros c Hc. apply Hp. by left. }
  assert (Hpad : forall w n, Forall (fun c => printing c = true) (pad w n)).
  { intros w n. unfold pad. apply Forall_app. split; [case_match; by repeat constructor|].
    case_match; [apply Hd, fixed_digits_digits|]. eapply Forall_impl; [apply Itoa_bytes|]. exact Hp. }
  unfold Format_RFC3339Nano. cbv zeta. rewrite !Forall_app. split_and!; auto; try (by repeat constructor).
  unfold frac. case_bool_decide; [constructor|]. constructor; [done|]. apply Hd.
  pose proof (fixed_digits_digits 9 (cvNsec (civil_of t))) as Hf.
  destruct (trim_zeros_spec (fixed_digits 9 (cvNsec (civil_of t)))) as (l & E & _).
  rewrite E in Hf. by apply Forall_app in Hf as [Hf _].
Qed.

(** The metadata as a file keeps it: none is nil. *)
Definition file_meta (m : option (gmap bytes bytes)) : option (gmap bytes bytes) :=
  if decide (size (meta_map m) = O) then None else m.

Lemma block_lines_ok e :
  Storable e 0 ->
  Forall (fun l => newline ∉ l /\ exists c r, l = c :: r /\ c <> "-"%char) (block_lines e).
Proof.
  intros [_ Hn _ _ Hm _ _]. repeat apply Forall_cons_2.
  - apply field_line_ok; [by apply ValidName_iff|]. by apply printing_line, name_printing.
  - apply field_line_ok; [by apply ValidName_iff|]. apply printing_line, Format_printing.
  - apply Forall_fmap, Forall_forall. intros k [v Hv]%sorted_keys_elem. cbn. unfold meta_get. rewrite Hv.
    destruct (Hm k v Hv) as [Hk _ Hl Ht _]. apply field_line_ok; [done|].
    split; [by intros Hin; apply Hl in Hin as [_ Hin]|done].
Qed.

Lemma decode_head d e :
  name_spec (eName e) -> year_ok (eUpdated e) = true ->
  decode_line (decode_line d (field_line (bs "name") (eName e)))
    (field_line (bs "updated") (Format_RFC3339Nano (eUpdated e)))
  = MkDecoded (dMeta d) (eUpdated e) (dContent d).
Proof.
  intros Hn Hu%year_ok_bounds%Parse_Format.
  rewrite (decode_field_line d (bs "name") (eName e)) by (by apply ValidName_iff) || (by apply printing_line, name_printing).
  rewrite bool_decide_eq_true_2 by done.
  rewrite decode_field_line by (by apply ValidName_iff) || (by apply printing_line, Format_printing).
  by rewrite bool_decide_eq_false_2, bool_decide_eq_true_2, Hu by done.
Qed.

(** The metadata of a block: all of it, and nil when there is none. *)
Lemma decode_meta_block m t c :
  map_Forall meta_pair_spec (meta_map m) ->
  fold_left decode_line ((fun k => field_line k (meta_get m k)) <$> sorted_keys (meta_map m)) (MkDecoded None t c)
  = MkDecoded (file_meta m) t c.
Proof.
  intros Hm.
  destruct (decode_meta_lines (meta_map m) (sorted_keys (meta_map m)) (MkDecoded None t c)) as (dm & E & H1 & _ & H3 & H4).
  { done. } { by intros k Hk%sorted_keys_elem. } { apply map_empty_subseteq. }
  unfold meta_get. rewrite E. cbn [dUpdated dContent dMeta] in *. f_equal. clear E.
  assert (Edm : meta_map dm = meta_map m).
  { apply (anti_symm (⊆)); [done|]. apply map_subseteq_spec. intros k v Hk. rewrite <- Hk.
    apply H3, sorted_keys_elem. eauto. }
  unfold file_meta. destruct (decide (size (meta_map m) = O)) as [Hz|Hz].
  - apply map_size_empty_inv in Hz. apply eq_None_not_Some. rewrite H4, Hz. by intros [[]|[]].
  - destruct dm as [dm|].
    + destruct m as [m|]; [cbn in Edm; by subst|done].
    + destruct Hz. by rewrite <- Edm.
Qed.

Lemma fold_left_two {A B} (f : A -> B -> A) x y l d : fold_left f (x :: y :: l) d = fold_left f l (f (f d x) y).
Proof. done. Qed.

Lemma decode_block e c :
  Storable e 0 -> year_ok (eUpdated e) = true ->
  fold_left decode_line (block_lines e) (MkDecoded None 0 c) = MkDecoded (file_meta (eMeta e)) (eUpdated e) c.
Proof.
  intros [_ Hn _ _ Hm _ _] Hu. unfold block_lines. rewrite fold_left_two, (decode_head _ e Hn Hu).
  exact (decode_meta_block _ _ _ Hm).
Qed.

(** C18: An entry file read back is the entry written: for every entry a store
    may hold, of a time in years 0 to 9999, [decode] of what [encode] writes
    gives its metadata, its time to the nanosecond and its content byte for
    byte, whatever the content holds, delimiters included. *)
Theorem decode_encode e :
  Storable e 0 -> year_ok (eUpdated e) = true ->
  decode (encode e) = MkDecoded (file_meta (eMeta e)) (eUpdated e) (eContent e).
Proof.
  intros He Hu. rewrite encode_lines. unfold decode. rewrite HasPrefix_app, drop_app_length. cbn [negb].
  pose proof (block_lines_ok e He) as Hl.
  destruct (HasPrefix (Join [newline] (block_lines e) ++ _) delimiter) eqn:Hp.
  { apply HasPrefix_spec in Hp as [t Ht]. apply Forall_cons in Hl as [[_ (c & r & El & Hc)] _].
    unfold block_lines in Ht. rewrite El, Join_cons in Ht by done. injection Ht as E _. congruence. }
  rewrite Index_delimiter by by apply no_rule_Join.
  rewrite take_app_length. cbv beta iota zeta.
  rewrite Split_Join; [|done|by eapply Forall_impl; [exact Hl|]; cbn; intros ? []].
  rewrite decode_block by done. f_equal.
  rewrite app_assoc. apply drop_app_length'. rewrite length_app. cbn [length]. lia.
Qed.

Definition demo_entry : Entry :=
  MkEntry (bs "user") (bs "style") (bs "---" ++ [newline] ++ bs "type: rule" ++ [newline] ++ bs "---" ++ [newline])
    (Some {[ bs "type" := bs "feedback"; bs "tag" := [] ]}) [] [] (Date (MkCivil 2026 9 20 10 0 3 500)) false.

Lemma decode_encode_witness :
  Storable demo_entry 0 /\
  decode (encode demo_entry) = MkDecoded (eMeta demo_entry) (eUpdated demo_entry) (eContent demo_entry).
Proof.
  assert (H : Storable demo_entry 0) by (apply (CheckEntry_None _ _ None); by vm_compute).
  split; [exact H|]. apply (decode_encode demo_entry H). by vm_compute.
Defined.

(** Reading keeps the content: what a file is read as ends the file, so a
    content that is never written back is never changed. *)
Lemma decode_content_suffix s : exists p, s = p ++ dContent (decode s).
Proof.
  assert (Hf : forall ls d, dContent (fold_left decode_line ls d) = dContent d).
  { induction ls as [|l ls IH]; intros d; [done|]. cbn [fold_left]. rewrite IH. unfold decode_line.
    by repeat case_match. }
  unfold decode. destruct (HasPrefix s delimiter) eqn:Hp; cbn [negb]; [|by exists []].
  apply HasPrefix_spec in Hp as [t ->]. rewrite drop_app_length.
  destruct (HasPrefix t delimiter) eqn:Ht.
  - apply HasPrefix_spec in Ht as [u ->]. rewrite drop_app_length, Hf. exists (delimiter ++ delimiter). by rewrite <- app_assoc.
  - destruct (Index t (newline :: delimiter)) as [i|]; [|by exists []]. rewrite Hf. cbn [dContent].
    exists (delimiter ++ take (i + 1 + length delimiter) t). by rewrite <- app_assoc, take_drop.
Qed.
