(* ===== verification/Records.v ===== *)
(** * Records a store of text can keep

    What the stores that write their records as JSON share: names and hashes
    are text, and a record the contract makes from text is one JSON carries. *)

From S2P Require Import Prelude GoStd GoTime Sha256 Memory Store Json JsonRead Codec Frontmatter.

Lemma printing_ascii s : Forall (fun c => printing c = true) s -> Forall (fun c => bin 0 127 c = true) s.
Proof.
  intros H. eapply Forall_impl; [exact H|]. intros c. by destruct c as [[] [] [] [] [] [] [] []].
Qed.

Lemma name_text n : ValidName n = true -> ValidString n = true.
Proof. intros H%ValidName_iff. by apply ValidString_ascii, printing_ascii, name_printing. Qed.

Lemma Hash_text c : ValidString (Hash c) = true.
Proof.
  apply ValidString_ascii. unfold Hash. apply Forall_app. split; [by repeat constructor|].
  unfold Sha256.hex. apply Forall_concat, Forall_fmap.
  assert (Hd : forall x, 0 <= x < 16 -> bin 0 127 (Sha256.hex_digit x) = true).
  { intros x Hx. assert (Hall : forallb (fun n => bin 0 127 (Sha256.hex_digit (Z.of_nat n))) (seq 0 16) = true) by reflexivity.
    rewrite forallb_forall in Hall. replace x with (Z.of_nat (Z.to_nat x)) by lia. apply Hall. apply in_seq. lia. }
  assert (Hb : forall n x, Forall (fun b => 0 <= b < 256) (Sha256.be_bytes n x)).
  { intros n x. unfold Sha256.be_bytes. apply Forall_fmap, Forall_true. intros i. cbn.
    change 255 with (Z.ones 8). rewrite Z.land_ones by lia. apply Z.mod_pos_bound. lia. }
  unfold Sha256.digest. eapply (Forall_impl (fun b => 0 <= b < 256)).
  - apply Forall_concat, Forall_fmap, Forall_true. intros x. apply Hb.
  - intros b Hbd. cbn. repeat constructor; apply Hd.
    + rewrite Z.shiftr_div_pow2 by lia. change (2 ^ 4) with 16.
      split; [apply Z.div_pos; lia|apply Z.div_lt_upper_bound; lia].
    + change 15 with (Z.ones 4). rewrite Z.land_ones by lia. apply Z.mod_pos_bound. lia.
Qed.

Lemma MetaHash_text m : ValidString (MetaHash m) = true.
Proof. unfold MetaHash. case_match; [done|apply Hash_text]. Qed.

(** The hashes a caller gives are text. *)
Definition opts_text (opts : list PutOption) : Prop :=
  ValidString (oIfHash (ResolvePutOptions opts)) = true /\ ValidString (oBase (ResolvePutOptions opts)) = true.

(** Without a size limit the entry's faults are the same, the size apart. *)
Lemma CheckEntry_unlimited e max stored err : CheckEntry e 0 None = Some err -> CheckEntry e max stored = Some err.
Proof.
  unfold CheckEntry, CheckEntry_in. repeat (case_match; try done).
Qed.

Lemma stamped_carried now e :
  Storable e 0 -> year_ok now = true -> entry_carried (stamped now e).
Proof.
  intros [Hs Hn _ Hu Hm _ _] Hy. split; cbn.
  - by apply name_text, ValidName_iff.
  - by apply name_text, ValidName_iff.
  - done.
  - split.
    + case_decide as Hz; [done|]. intros E. rewrite E in Hz. by destruct Hz.
    + assert (E : meta_map (if decide (size (meta_map (eMeta e)) = 0%nat) then None else eMeta e) = meta_map (eMeta e)).
      { case_decide as Hz; [|done]. by apply map_size_empty_inv in Hz as ->. }
      rewrite E. intros k v Hk. destruct (Hm k v Hk) as [Hkn _ _ _ Hv]. split; [|done]. by apply name_text, ValidName_iff.
  - apply Hash_text.
  - apply MetaHash_text.
  - done.
Qed.

(** What a journal leaves live is the entry of one of its records. *)
Lemma replay_record j r e :
  replay j !! r = Some e -> exists c, c ∈ j /\ cEntry c = e /\ change_ref c = r /\ eDeleted e = false.
Proof.
  rewrite replay_last. destruct (last_for j r) as [c|] eqn:E; [|done]. cbn.
  destruct (eDeleted (cEntry c)) eqn:Ed; [done|]. intros [= <-].
  unfold last_for in E. apply last_Some_elem_of, list_elem_of_filter in E as [Hr Hin]. eauto.
Qed.

Lemma replay_carried j r e : Forall change_carried j -> replay j !! r = Some e -> entry_carried e.
Proof.
  intros Hj (c & Hin & <- & _)%replay_record. rewrite Forall_forall in Hj. apply (Hj c Hin).
Qed.

Section Carried.
Context (j : list Change) (now : Z) (session : bytes).
Context (Hj : Forall change_carried j) (Hl : blen j + 1 < 2 ^ 64) (Hy : year_ok now = true) (Hse : ValidString session = true).

Lemma have_hash_text r : ValidString (have_hash (replay j !! r)) = true.
Proof using Hj. destruct (replay j !! r) as [e|] eqn:Er; [|done]. by apply (replay_carried _ _ _ Hj) in Er as []. Qed.

Lemma spec_put_carried max e opts c :
  opts_text opts -> spec_put max j now session e opts = Ok c -> change_carried c.
Proof using Hj Hl Hy Hse.
  intros [Ho Hb]. unfold spec_put. destruct (CheckEntry e max _) eqn:Ec; [done|].
  destruct (PutOptions_Check _ _ _ _); [done|]. intros [= <-]. apply CheckEntry_None in Ec.
  assert (He : Storable e 0) by (destruct Ec; split; try done; by left).
  pose proof (blen_nonneg j). pose proof (have_hash_text (entry_ref e)) as Hh.
  split; cbn; try done; [unfold next_seq; lia|by apply stamped_carried|].
  all: unfold BaseFor; destruct (oConditional _); [done|]; by destruct (oHasBase _).
Qed.

Lemma spec_forget_carried scope name c :
  spec_forget j now session scope name = Ok c -> change_carried c.
Proof using Hj Hl Hy Hse.
  unfold spec_forget. destruct (CheckRef scope name); [done|].
  destruct (replay j !! (scope, name)) as [e|] eqn:Er; [|done]. intros [= <-].
  destruct (replay_carried _ _ _ Hj Er). pose proof (blen_nonneg j).
  split; cbn; try done; unfold next_seq; lia.
Qed.
End Carried.
