(* ===== verification/Fsys.v ===== *)
(** * The store's directory: filestore/fsys.go

    The directory as the store sees it through an [os.Root]: two levels of
    names, each a regular file with its data, modification time and number
    of names, or a directory, a link, or something else.  What changes the
    directory can fail, as the world's plan has it, and a write that fails
    may leave part of what it was given; an operation is a function of the
    world that returns a result or an error and the world after it, so a
    crash is a plan in which everything fails from some call on.  Reading
    fails only for what is found; other input errors are not modelled. *)

From S2P Require Import Prelude GoStd Sha256 Memory.

(** ** The directory *)

Record file := MkFile { fData : bytes; fTime : Z; fLinks : Z }.

Inductive object :=
| OFile (f : file)
| ODir
| OLink  (** a link, or what reads as irregular *)
| OOther (** a FIFO, a socket, a device *).

#[global] Instance file_eq_dec : EqDecision file.
Proof. solve_decision. Defined.
#[global] Instance object_eq_dec : EqDecision object.
Proof. solve_decision. Defined.

(** A directory of the root, empty for the root itself, and a name in it. *)
Abbreviation path := (bytes * bytes)%type.

Definition top (name : bytes) : path := ([], name).

Record world := MkWorld {
  wFiles : gmap path object;
  wClock : Z;                (** the time a file written now is given *)
  wRand : nat -> list Z;     (** what crypto/rand gives, in turn *)
  wPlan : list (option nat)  (** how the next changes go: [Some n] fails, after n bytes *)
}.

Definition with_files (m : gmap path object) (w : world) : world := MkWorld m (wClock w) (wRand w) (wPlan w).

(** ** Errors and operations *)

Inductive ferror :=
| FStore (e : error)         (** one of the contract's *)
| FLinkedScope (s : bytes)
| FNotRegular (p : path)
| FNotDir (d : bytes)
| FExists (p : path)
| FNotExist (p : path)
| FEncode                    (** a time json.Marshal refuses *)
| FIO (p : path)             (** a system call that failed *)
| FLock (s : bytes).         (** the lock was not taken *)

Definition M (A : Type) : Type := world -> res ferror A * world.

Definition ret {A} (a : A) : M A := fun w => (Ok a, w).
Definition fail {A} (e : ferror) : M A := fun w => (Err e, w).
Definition bind {A B} (m : M A) (k : A -> M B) : M B := fun w =>
  match m w with
  | (Ok a, w') => k a w'
  | (Err e, w') => (Err e, w')
  end.
(** What reading the directory gives. *)
Definition look {A} (f : world -> res ferror A) : M A := fun w => (f w, w).
(** The error of an operation, as a value. *)
Definition try {A} (m : M A) : M (option ferror) := fun w =>
  match m w with
  | (Ok _, w') => (Ok None, w')
  | (Err e, w') => (Ok (Some e), w')
  end.

Declare Scope fs_scope.
Delimit Scope fs_scope with fs.
Notation "'let!' x := m 'in' k" := (bind m (fun x => k))
  (at level 10, x pattern, m at level 100, k at level 200) : fs_scope.
Notation "'run!' m 'in' k" := (bind m (fun _ => k))
  (at level 10, m at level 100, k at level 200) : fs_scope.
#[global] Open Scope fs_scope.

(** ** System calls *)

(** How the next change goes. *)
Definition sys (w : world) : option nat * world :=
  match wPlan w with
  | [] => (None, w)
  | o :: l => (o, MkWorld (wFiles w) (wClock w) (wRand w) l)
  end.

Definition change (p : path) (f : world -> gmap path object) : M unit := fun w =>
  match sys w with
  | (None, w') => (Ok tt, with_files (f w') w')
  | (Some _, w') => (Err (FIO p), w')
  end.

(** A directory of the root. *)
Definition Mkdir (d : bytes) : M unit :=
  let! there := look (fun w => Ok (bool_decide (is_Some (wFiles w !! top d)))) in
  if there : bool then fail (FExists (top d)) else change (top d) (fun w => <[top d := ODir]> (wFiles w)).

(** O_CREATE|O_EXCL: an empty file where there is nothing. *)
Definition CreateExcl (p : path) : M unit :=
  let! there := look (fun w => Ok (bool_decide (is_Some (wFiles w !! p)))) in
  if there : bool then fail (FExists p)
  else change p (fun w => <[p := OFile (MkFile [] (wClock w) 1)]> (wFiles w)).

(** The file at [p] with [data] after what it holds. *)
Definition grown (p : path) (data : bytes) (w : world) : gmap path object :=
  match wFiles w !! p with
  | Some (OFile f) => <[p := OFile (MkFile (fData f ++ data) (wClock w) (fLinks f))]> (wFiles w)
  | _ => wFiles w
  end.

(** A Write at the end of an open file; one that fails may have written a
    part. *)
Definition Write (p : path) (data : bytes) : M unit := fun w =>
  match sys w with
  | (None, w') => (Ok tt, with_files (grown p data w') w')
  | (Some n, w') => (Err (FIO p), with_files (grown p (take n data) w') w')
  end.

(** Sync and Close of a file written. *)
Definition Sync (p : path) : M unit := change p wFiles.
Definition Close (p : path) : M unit := change p wFiles.

(** A rename replaces what is at the new name, a link included; a directory
    it does not. *)
Definition Rename (p p' : path) : M unit :=
  let! dir := look (fun w => Ok (bool_decide (wFiles w !! p' = Some ODir))) in
  if dir : bool then fail (FIO p')
  else change p' (fun w => match wFiles w !! p with
                           | Some o => <[p' := o]> (delete p (wFiles w))
                           | None => wFiles w
                           end).

(** A link is removed, not what it names. *)
Definition Remove (p : path) : M unit :=
  let! there := look (fun w => Ok (bool_decide (is_Some (wFiles w !! p)))) in
  if there : bool then change p (fun w => delete p (wFiles w)) else fail (FNotExist p).

(** Eight random bytes. *)
Definition draw : M (list Z) := fun w =>
  (Ok (wRand w O), MkWorld (wFiles w) (wClock w) (fun n => wRand w (S n)) (wPlan w)).

(** ** What fsys.go makes of them *)

Definition scopeIsDir (w : world) (scope : bytes) : res ferror bool :=
  match wFiles w !! top scope with
  | None => Ok false
  | Some OLink => Err (FLinkedScope scope)
  | Some ODir => Ok true
  | Some _ => Ok false
  end.

Definition isDir (w : world) (name : bytes) : bool := bool_decide (wFiles w !! top name = Some ODir).

Definition regularAlone (o : object) : bool :=
  match o with OFile f => fLinks f <=? 1 | _ => false end.

(** [readRegular], and what [openRegular] lets through. *)
Inductive read_error := ReadNotExist | ReadNotRegular.

Definition readRegular (w : world) (p : path) : res read_error file :=
  match wFiles w !! p with
  | None => Err ReadNotExist
  | Some (OFile f) => if regularAlone (OFile f) then Ok f else Err ReadNotRegular
  | Some _ => Err ReadNotRegular
  end.

(** A file beside [p], written, synced and renamed to [p]; on an error it is
    removed.  Syncing the directory after is for durability alone. *)
Definition tmp_prefix : bytes := bs ".tmp-".

Definition writeAtomic (p : path) (data : bytes) : M unit :=
  run! (if bool_decide (p.1 = []) then ret tt
        else let! e := try (Mkdir p.1) in
             match e with
             | None | Some (FExists _) =>
                 let! ok := look (fun w => Ok (isDir w p.1)) in
                 if ok : bool then ret tt else fail (FNotDir p.1)
             | Some err => fail err
             end) in
  let! suffix := draw in
  let tmp := (p.1, tmp_prefix ++ Sha256.hex suffix) in
  run! CreateExcl tmp in
  let! werr := try (Write tmp data) in
  let! werr := match werr with None => try (Sync tmp) | Some _ => ret werr end in
  let! cerr := try (Close tmp) in
  let werr := match werr with None => cerr | Some _ => werr end in
  let! werr := match werr with None => try (Rename tmp p) | Some _ => ret werr end in
  match werr with
  | None => ret tt
  | Some err => run! try (Remove tmp) in fail err
  end.

(** The names in a directory. *)
Definition ReadDir (w : world) (dir : bytes) : list (bytes * object) :=
  omap (fun po : path * object => if bool_decide (po.1.1 = dir) then Some (po.1.2, po.2) else None)
    (map_to_list (wFiles w)).

(** ** A world in which nothing fails *)

Definition quiet (w : world) : Prop := wPlan w = [].

Lemma change_quiet p f w : quiet w -> change p f w = (Ok tt, with_files (f w) w).
Proof. unfold quiet, change, sys. intros ->. done. Qed.

Lemma Write_quiet p data w : quiet w -> Write p data w = (Ok tt, with_files (grown p data w) w).
Proof. unfold quiet, Write, sys. intros ->. done. Qed.

Lemma with_files_id w : with_files (wFiles w) w = w.
Proof. by destruct w. Qed.

Lemma with_files_twice m m' w : with_files m (with_files m' w) = with_files m w.
Proof. done. Qed.

Lemma quiet_with_files m w : quiet w -> quiet (with_files m w).
Proof. done. Qed.

#[export] Hint Resolve quiet_with_files : mem.

(** The directory, once made. *)
Definition dir_made (d : bytes) (m : gmap path object) : gmap path object :=
  if bool_decide (d = []) then m
  else match m !! top d with Some _ => m | None => <[top d := ODir]> m end.

(** A directory [writeAtomic] can write in: the root, or one that is there
    and no link, or nothing. *)
Definition dir_ok (d : bytes) (m : gmap path object) : Prop :=
  d = [] \/ m !! top d = None \/ m !! top d = Some ODir.

Definition no_tmp (n : bytes) : Prop := HasPrefix n tmp_prefix = false.

(** The temporary names to come are free. *)
Definition fresh (w : world) : Prop :=
  forall i d, wFiles w !! (d, tmp_prefix ++ Sha256.hex (wRand w i)) = None.

Lemma no_tmp_ne n s : no_tmp n -> n <> tmp_prefix ++ s.
Proof. unfold no_tmp. intros H ->. by rewrite HasPrefix_app in H. Qed.

Lemma make_dir_quiet d w : quiet w -> dir_ok d (wFiles w) ->
  (if bool_decide (d = []) then ret tt
   else let! e := try (Mkdir d) in
        match e with
        | None | Some (FExists _) =>
            let! ok := look (fun w => Ok (isDir w d)) in
            if ok : bool then ret tt else fail (FNotDir d)
        | Some err => fail err
        end) w = (Ok tt, with_files (dir_made d (wFiles w)) w).
Proof.
  intros Hw Hd. unfold dir_made. case_bool_decide as Hn; [by rewrite with_files_id|].
  destruct Hd as [?|[Hd|Hd]]; [done| |]; unfold bind, try, Mkdir, look; rewrite Hd.
  - unfold bind, look. rewrite Hd. cbn [bool_decide is_Some]. rewrite bool_decide_eq_false_2 by by intros [].
    rewrite change_quiet by done. cbn. unfold isDir. cbn. rewrite lookup_insert_eq. by rewrite bool_decide_eq_true_2.
  - unfold bind, look. rewrite Hd. rewrite bool_decide_eq_true_2 by eauto. cbn. unfold isDir. rewrite Hd.
    rewrite bool_decide_eq_true_2 by done. by rewrite with_files_id.
Qed.

Lemma dir_made_other d m p : p <> top d -> dir_made d m !! p = m !! p.
Proof.
  intros Hp. unfold dir_made. case_bool_decide; [done|]. case_match; [done|]. by rewrite lookup_insert_ne.
Qed.

Lemma CreateExcl_quiet p w :
  quiet w -> wFiles w !! p = None ->
  CreateExcl p w = (Ok tt, with_files (<[p := OFile (MkFile [] (wClock w) 1)]> (wFiles w)) w).
Proof.
  intros Hq Hp. unfold CreateExcl, bind, look. rewrite Hp, bool_decide_eq_false_2 by by intros [].
  by apply change_quiet.
Qed.

Lemma Rename_quiet p p' o w :
  quiet w -> wFiles w !! p = Some o -> wFiles w !! p' <> Some ODir ->
  Rename p p' w = (Ok tt, with_files (<[p' := o]> (delete p (wFiles w))) w).
Proof.
  intros Hq Hp Hp'. unfold Rename, bind, look. rewrite bool_decide_eq_false_2 by done.
  rewrite change_quiet by done. by rewrite Hp.
Qed.

Lemma try_ok {A} (m : M A) a w w' : m w = (Ok a, w') -> try m w = (Ok None, w').
Proof. unfold try. by intros ->. Qed.

Lemma bind_ok {A B} (m : M A) (k : A -> M B) a w w' : m w = (Ok a, w') -> bind m k w = k a w'.
Proof. unfold bind. by intros ->. Qed.

Lemma bind_err {A B} (m : M A) (k : A -> M B) e w w' : m w = (Err e, w') -> bind m k w = (Err e, w').
Proof. unfold bind. by intros ->. Qed.

Lemma grown_file p data m w t n :
  m !! p = Some (OFile (MkFile data t n)) -> forall more,
  grown p more (with_files m w) = <[p := OFile (MkFile (data ++ more) (wClock w) n)]> m.
Proof. intros H more. unfold grown. cbn. by rewrite H. Qed.

(** A file written, whole: nothing else is left of the writing but the draw
    of its temporary name. *)
Lemma writeAtomic_quiet p data w :
  quiet w -> fresh w -> dir_ok p.1 (wFiles w) -> wFiles w !! p <> Some ODir -> no_tmp p.2 -> p <> top p.1 ->
  writeAtomic p data w
  = (Ok tt, MkWorld (<[p := OFile (MkFile data (wClock w) 1)]> (dir_made p.1 (wFiles w)))
              (wClock w) (fun n => wRand w (S n)) []).
Proof.
  intros Hq Hf Hd Hp Hn Hpt. unfold writeAtomic.
  erewrite bind_ok by by apply make_dir_quiet. unfold draw at 1. unfold bind at 1. cbv beta.
  set (m := dir_made p.1 (wFiles w)). set (tmp := (p.1, tmp_prefix ++ Sha256.hex (wRand w O))).
  assert (Htmp : m !! tmp = None).
  { unfold m. destruct (decide (p.1 = [])) as [E|E].
    - unfold dir_made. rewrite bool_decide_eq_true_2 by done. apply Hf.
    - rewrite dir_made_other; [apply Hf|]. by intros [= ]. }
  assert (Hpd : m !! p <> Some ODir) by (unfold m; by rewrite dir_made_other).
  assert (Hne : p <> tmp) by (intros E; apply (no_tmp_ne _ _ Hn (f_equal snd E))).
  cbn [with_files wRand wFiles wClock wPlan].
  set (w0 := MkWorld m (wClock w) (fun n => wRand w (S n)) (wPlan w)).
  assert (Hq0 : quiet w0) by done.
  erewrite bind_ok by by apply CreateExcl_quiet.
  erewrite bind_ok by (eapply try_ok, Write_quiet; done).
  erewrite grown_file by apply lookup_insert_eq. cbn [app].
  erewrite bind_ok by (eapply try_ok, change_quiet; done).
  erewrite bind_ok by (eapply try_ok, change_quiet; done).
  erewrite bind_ok.
  2: { eapply try_ok, Rename_quiet; [done| |]; cbn.
       - by rewrite !lookup_insert_eq.
       - by rewrite !lookup_insert_ne. }
  cbn. f_equal. unfold with_files. cbn. rewrite !insert_insert_eq, delete_insert_id by done. by rewrite Hq.
Qed.
