(* ===== verification/FileJournal.v ===== *)
(** * The journal of the file store: filestore/journal.go

    journal.jsonl is a record per line.  A write appends a line, ending a
    torn one before it; a reader takes the complete lines and skips damage;
    the last number is found from the tail, read backwards in growing
    chunks. *)

From S2P Require Import Prelude GoStd GoTime Sha256 Memory Store Json JsonRead Codec Frontmatter Fsys.

Definition journalName : bytes := bs "journal.jsonl".
Definition journal_path : path := top journalName.

(** ** Records *)

(** [decodeRecord]: the checks of a line that parses. *)
Definition decodeRecord (line : bytes) : option Change :=
  c ← unmarshal_change line;
  if cSeq c =? 0 then None
  else if negb (ValidScope (eScope (cEntry c))) || negb (ValidName (eName (cEntry c))) then None
  else if bool_decide (eHash (cEntry c) = []) then None
  else Some c.

(** ** Opening the journal to read it *)

(** [None] for a journal that is not there. *)
Definition open_journal (w : world) : res ferror (option bytes) :=
  match readRegular w journal_path with
  | Ok f => Ok (Some (fData f))
  | Err ReadNotExist => Ok None
  | Err ReadNotRegular => Err (FNotRegular journal_path)
  end.

(** bufio's ReadBytes: up to a newline, [None] for text without one. *)
Definition ReadBytes (s : bytes) : option (bytes * bytes) := Cut newline s.

Definition headLimit : nat := Z.to_nat (Z.shiftl 64 10).

(** The first line with its newline, cut at the limit. *)
Definition head_of (data : bytes) : bytes :=
  let s := take headLimit data in
  match ReadBytes s with
  | Some (line, _) => line ++ [newline]
  | None => s
  end.

Definition headLine (w : world) : res ferror bytes :=
  let? data := open_journal w in Ok (match data with Some s => head_of s | None => [] end).

(** ** Reading forward *)

(** What [scanJournal] calls its function with: a record, or the number of a
    line that is none. *)
Fixpoint scan_lines (fuel : nat) (lineNo end_ : Z) (s : bytes) : list (res jerror Change) * Z :=
  match fuel with
  | O => ([], end_)
  | S f =>
      match ReadBytes s with
      | None => ([], end_)
      | Some (line, rest) =>
          let (l, e) := scan_lines f (lineNo + 1) (end_ + blen line + 1) rest in
          if bool_decide (TrimSpace line = []) then (l, e)
          else (match decodeRecord line with Some c => Ok c | None => Err (Damaged lineNo) end :: l, e)
      end
  end.

(** [scanJournal] from [off] with a function that never stops it: the calls,
    and the offset after the last complete line. Each line takes a byte at
    least, so the length is fuel enough. *)
Definition scanJournal (w : world) (off : Z) : res ferror (list (res jerror Change) * Z) :=
  let? data := open_journal w in
  match data with
  | None => Ok ([], 0)
  | Some s =>
      if blen s <? off then Ok ([], blen s)
      else
        let s := if 0 <? off then drop (Z.to_nat off) s else s in
        Ok (scan_lines (length s) 1 off s)
  end.

Definition records (l : list (res jerror Change)) : list Change :=
  omap (fun ev => match ev with Ok c => Some c | Err _ => None end) l.

(** [readJournal], the calls to a function that never stops it: a journal
    that cannot be opened is one error. *)
Definition readJournal (w : world) (after : Z) : list (res (jerror + ferror) Change) :=
  match scanJournal w 0 with
  | Err e => [Err (inr e)]
  | Ok (l, _) =>
      omap (fun ev => match ev with
                      | Err d => Some (Err (inl d))
                      | Ok c => if after <? cSeq c then Some (Ok c) else None
                      end) l
  end.

(** ** Reading from the tail *)

Fixpoint LastIndexByte (s : bytes) (c : ascii) : option nat :=
  match s with
  | [] => None
  | d :: s' => match LastIndexByte s' c with
               | Some i => Some (S i)
               | None => if Ascii.eqb d c then Some O else None
               end
  end.

Section Tail.
Context {R : Type} (fn : bytes -> option R) (data : bytes).

(** Where the inner loop ends: a line the function stopped at, the start of
    the file, or a line that starts before what is read. *)
Inductive tail_end := Stopped (r : R) | AtStart | Before (limit : nat).

Fixpoint tail_lines_in (fuel start : nat) (buf : bytes) (limit : nat) : tail_end :=
  match fuel with
  | O => AtStart
  | S f =>
      match LastIndexByte (take limit buf) newline with
      | None =>
          if (start =? 0)%nat then match fn (take limit buf) with Some r => Stopped r | None => AtStart end
          else Before limit
      | Some begin =>
          match fn (drop (S begin) (take limit buf)) with
          | Some r => Stopped r
          | None => tail_lines_in f start buf begin
          end
      end
  end.

Fixpoint tail_loop (fuel start chunk : nat) (buf : bytes) (limit : option nat) : option R :=
  match fuel with
  | O => None
  | S f =>
      if (start =? 0)%nat then None
      else
        let n := Nat.min chunk start in
        let buf := take n (drop (start - n) data) ++ buf in
        let start := (start - n)%nat in
        let chunk := (chunk * 2)%nat in
        match match limit with None => LastIndexByte buf newline | Some l => Some (l + n)%nat end with
        | None => tail_loop f start chunk buf None
        | Some limit =>
            match tail_lines_in (S (length buf)) start buf limit with
            | Stopped r => Some r
            | AtStart => None
            | Before limit => tail_loop f start chunk (take (S limit) buf) (Some limit)
            end
        end
  end.

(** What the function stops at; each turn reads a byte at least. *)
Definition tailLines (chunk : nat) : option R := tail_loop (S (length data)) (length data) chunk [] None.
End Tail.

Definition tail_chunk : nat := Z.to_nat (Z.shiftl 4 10).

(** What [lastSeq] asks of a line: white space and damage are passed over. *)
Definition line_seq (line : bytes) : option Z :=
  if bool_decide (TrimSpace line = []) then None else cSeq <$> decodeRecord line.

Definition lastSeq (w : world) : res ferror Z :=
  let? data := open_journal w in
  Ok (match data with Some s => default 0 (tailLines line_seq s tail_chunk) | None => 0 end).

(** ** Appending *)

(** [openRegular] to append, creating the file when there is none. *)
Definition open_append : M unit :=
  let! o := look (fun w => Ok (wFiles w !! journal_path)) in
  match o with
  | Some o => if regularAlone o then ret tt else fail (FNotRegular journal_path)
  | None => change journal_path (fun w => <[journal_path := OFile (MkFile [] (wClock w) 1)]> (wFiles w))
  end.

Definition journal_data (w : world) : bytes :=
  match wFiles w !! journal_path with Some (OFile f) => fData f | _ => [] end.

(** The newline that ends a torn line. *)
Definition terminator (data : bytes) : bytes :=
  match last data with Some c => if Ascii.eqb c newline then [] else [newline] | None => [] end.

Definition appendJournal (c : Change) : M Z :=
  match marshal_change c with
  | None => fail FEncode
  | Some line =>
      run! open_append in
      let! data := look (fun w => Ok (journal_data w)) in
      let! werr := try (Write journal_path (terminator data ++ line ++ [newline])) in
      let! werr := match werr with None => try (Sync journal_path) | Some _ => ret werr end in
      let! end_ := look (fun w => Ok (blen (journal_data w))) in
      let! cerr := try (Close journal_path) in
      match werr with
      | Some err => fail err
      | None => match cerr with Some err => fail err | None => ret end_ end
      end
  end.

(** ** Lines *)

(** The complete lines of a text: what ends in no newline is not one. *)
Definition lines (s : bytes) : list bytes := removelast (Split newline s).

Lemma Split_nonempty c s : Split c s <> [].
Proof. destruct s as [|d s]; cbn; [done|]. case_match; [done|]. by case_match. Qed.

Lemma Split_last c x y : c ∉ y -> Split c (x ++ c :: y) = Split c x ++ [y].
Proof.
  intros Hy. induction x as [|d x IH]; cbn [app Split].
  - by rewrite Ascii.eqb_refl, Split_none.
  - destruct (Ascii.eqb d c); [by rewrite IH|]. rewrite IH.
    pose proof (Split_nonempty c x). by destruct (Split c x).
Qed.

Lemma lines_cons a b : newline ∉ a -> lines (a ++ newline :: b) = a :: lines b.
Proof.
  intros Ha. unfold lines. rewrite Split_app by done. pose proof (Split_nonempty newline b).
  by destruct (Split newline b).
Qed.

Lemma lines_tail x y : newline ∉ y -> lines (x ++ newline :: y) = Split newline x.
Proof. intros Hy. unfold lines. by rewrite Split_last, removelast_last. Qed.

Lemma lines_none s : newline ∉ s -> lines s = [].
Proof. intros H. unfold lines. by rewrite Split_none. Qed.

Lemma Cut_spec c s :
  match Cut c s with
  | Some (a, b) => s = a ++ c :: b /\ c ∉ a
  | None => c ∉ s
  end.
Proof.
  induction s as [|d s IH]; cbn; [by apply not_elem_of_nil|].
  destruct (Ascii.eqb_spec d c) as [->|Hd]; [split; [done|by apply not_elem_of_nil]|].
  destruct (Cut c s) as [[a b]|]; cbn.
  - destruct IH as [-> Ha]. split; [done|]. by apply not_elem_of_cons.
  - by apply not_elem_of_cons.
Qed.

(** ** Reading forward *)

(** A blank line is nothing; any other is a record or damage. *)
Fixpoint line_events (lineNo : Z) (ls : list bytes) : list (res jerror Change) :=
  match ls with
  | [] => []
  | line :: ls' =>
      (if bool_decide (TrimSpace line = []) then []
       else [match decodeRecord line with Some c => Ok c | None => Err (Damaged lineNo) end])
      ++ line_events (lineNo + 1) ls'
  end.

(** The length of the complete lines. *)
Definition whole (s : bytes) : Z := foldr (fun l n => blen l + 1 + n) 0 (lines s).

Lemma scan_lines_spec f : forall n e s, (length s <= f)%nat ->
  scan_lines f n e s = (line_events n (lines s), e + whole s).
Proof.
  induction f as [|f IH]; intros n e s Hf.
  - destruct s; [|cbn in Hf; lia]. cbn. f_equal. unfold whole. cbn. lia.
  - cbn [scan_lines]. unfold ReadBytes. pose proof (Cut_spec newline s) as Hc.
    destruct (Cut newline s) as [[a b]|].
    + destruct Hc as [-> Ha]. rewrite IH by (rewrite length_app in Hf; cbn in Hf; lia).
      unfold whole. rewrite lines_cons by done. cbn [line_events foldr].
      case_bool_decide; cbn [app]; f_equal; lia.
    + unfold whole. rewrite lines_none by done. cbn. f_equal. lia.
Qed.

(** ** Reading backward gives what reading forward gives *)

Lemma LastIndexByte_spec s c :
  match LastIndexByte s c with
  | Some i => (i < length s)%nat /\ s = take i s ++ c :: drop (S i) s /\ c ∉ drop (S i) s
  | None => c ∉ s
  end.
Proof.
  induction s as [|d s IH]; cbn [LastIndexByte]; [by apply not_elem_of_nil|].
  destruct (LastIndexByte s c) as [i|].
  - destruct IH as (Hi & E & Hn). split_and!; [cbn; lia| |done]. rewrite firstn_cons, skipn_cons.
    cbn [app]. by rewrite <- E.
  - destruct (Ascii.eqb_spec d c) as [->|Hd].
    + split_and!; [cbn; lia|by rewrite take_0|by rewrite skipn_cons, drop_0].
    + by apply not_elem_of_cons.
Qed.

Section TailSpec.
Context {R : Type} (fn : bytes -> option R).

(** What [fn] first answers, asked from the last line to the first. *)
Definition last_answer (ls : list bytes) : option R := head (omap fn (reverse ls)).

Lemma last_answer_snoc ls l :
  last_answer (ls ++ [l]) = match fn l with Some r => Some r | None => last_answer ls end.
Proof. unfold last_answer. rewrite reverse_snoc. cbn. by destruct (fn l). Qed.

Lemma tail_lines_in_spec p buf f : forall limit, (limit < f)%nat ->
  match tail_lines_in fn f (length p) buf limit with
  | Stopped r => last_answer (Split newline (p ++ take limit buf)) = Some r
  | AtStart => last_answer (Split newline (p ++ take limit buf)) = None
  | Before l => (l <= limit)%nat /\ length p <> 0%nat
      /\ last_answer (Split newline (p ++ take limit buf)) = last_answer (Split newline (p ++ take l buf))
  end.
Proof.
  induction f as [|f IH]; intros limit Hf; [lia|]. cbn [tail_lines_in].
  pose proof (LastIndexByte_spec (take limit buf) newline) as Hl.
  destruct (LastIndexByte (take limit buf) newline) as [i|].
  - destruct Hl as (Hi & E & Hn). rewrite length_take in Hi.
    assert (Es : Split newline (p ++ take limit buf) = Split newline (p ++ take i buf) ++ [drop (S i) (take limit buf)]).
    { rewrite E at 1. rewrite app_assoc, Split_last by done. by rewrite take_take, Nat.min_l by lia. }
    rewrite Es, last_answer_snoc. destruct (fn _) as [r|]; [done|].
    specialize (IH i ltac:(lia)). destruct (tail_lines_in _ _ _ _ _); [done|done|].
    destruct IH as (? & ? & ?). split_and!; [lia|done..].
  - destruct (Nat.eqb_spec (length p) 0) as [Hp|Hp]; [|done].
    destruct p; [|done]. cbn [app]. rewrite Split_none by done.
    unfold last_answer. cbn. by destruct (fn _).
Qed.

Variable data : bytes.

Lemma tail_loop_spec f : forall start chunk buf limit,
  (start < f)%nat -> (1 <= chunk)%nat -> (start <= length data)%nat ->
  match limit with
  | None => buf = drop start data /\ newline ∉ buf
  | Some l => (l <= length buf)%nat /\ start <> 0%nat
  end ->
  tail_loop fn data f start chunk buf limit
  = last_answer (match limit with
                 | None => lines data
                 | Some l => Split newline (take start data ++ take l buf)
                 end).
Proof.
  induction f as [|f IH]; intros start chunk buf limit Hf Hc Hs Hinv; [lia|]. cbn [tail_loop].
  destruct (Nat.eqb_spec start 0) as [->|H0].
  { destruct limit as [l|]; [by destruct Hinv|]. destruct Hinv as [-> Hn].
    rewrite drop_0 in Hn. by rewrite lines_none. }
  set (n := Nat.min chunk start). set (piece := take n (drop (start - n) data)).
  assert (Hn : (1 <= n <= start)%nat) by (unfold n; lia).
  assert (Hlen : length piece = n) by (unfold piece; rewrite length_take, length_drop; lia).
  assert (Htake : take start data = take (start - n) data ++ piece).
  { unfold piece. rewrite take_drop_commute. replace (start - n + n)%nat with start by lia.
    rewrite <- (take_drop (start - n) (take start data)) at 1. f_equal.
    by rewrite take_take, Nat.min_l by lia. }
  assert (Hp : length (take (start - n) data) = (start - n)%nat) by (rewrite length_take; lia).
  (* one turn of the outer loop, the newline of the last line found *)
  assert (Hturn : forall l, (l <= length (piece ++ buf))%nat ->
    match tail_lines_in fn (S (length (piece ++ buf))) (start - n) (piece ++ buf) l with
    | Stopped r => Some r
    | AtStart => None
    | Before l' => tail_loop fn data f (start - n) (chunk * 2) (take (S l') (piece ++ buf)) (Some l')
    end = last_answer (Split newline (take (start - n) data ++ take l (piece ++ buf)))).
  { intros l Hl.
    pose proof (tail_lines_in_spec (take (start - n) data) (piece ++ buf) (S (length (piece ++ buf))) l ltac:(lia)) as Ht.
    rewrite Hp in Ht. destruct (tail_lines_in _ _ _ _ _) as [r| |l']; [done|done|].
    destruct Ht as (Hl' & Hne & ->). rewrite IH; [|lia|lia|lia|rewrite length_take; lia].
    by rewrite take_take, Nat.min_l by lia. }
  destruct limit as [l|].
  - destruct Hinv as [Hl _]. rewrite Hturn by (rewrite length_app; lia). do 2 f_equal.
    rewrite Htake, <- app_assoc. f_equal. rewrite take_app_ge by lia. rewrite Hlen. f_equal. f_equal. lia.
  - destruct Hinv as [-> Hbuf].
    assert (Hwhole : piece ++ drop start data = drop (start - n) data).
    { unfold piece. rewrite take_drop_commute. replace (start - n + n)%nat with start by lia.
      rewrite <- (take_drop (start) data) at 3. rewrite drop_app_le by (rewrite length_take; lia). done. }
    pose proof (LastIndexByte_spec (piece ++ drop start data) newline) as Hi.
    destruct (LastIndexByte _ newline) as [i|].
    + destruct Hi as (Hi & E & Hni). rewrite Hturn by lia. f_equal.
      symmetry. rewrite <- (take_drop (start - n) data) at 1. rewrite <- Hwhole, E at 1.
      rewrite app_assoc, lines_tail by done. done.
    + rewrite IH; [done|lia|lia|lia|]. by rewrite <- Hwhole.
Qed.

Lemma tailLines_scan chunk : (1 <= chunk)%nat -> tailLines fn data chunk = last_answer (lines data).
Proof.
  intros Hc. unfold tailLines. rewrite tail_loop_spec; [done|lia|lia|lia|].
  split; [by rewrite drop_ge by lia|by apply not_elem_of_nil].
Qed.

(** C25: Reading the journal's lines from the tail in growing chunks, as a
    write does to number its record, terminates and finds what reading it
    whole finds: for every file and every chunk size, [tailLines] stops at
    the last complete line its function answers for, and a torn last line is
    not seen. *)
Theorem tailLines_reads_backward chunk :
  (1 <= chunk)%nat -> tailLines fn data chunk = last_answer (lines data).
Proof. apply tailLines_scan. Qed.
End TailSpec.

Lemma tailLines_reads_backward_witness :
  tailLines (fun l => if bool_decide (l = []) then None else Some l)
    (bs "first" ++ [newline] ++ bs "second" ++ [newline; newline] ++ bs "torn") 3 = Some (bs "second").
Proof. rewrite tailLines_reads_backward by lia. vm_compute. reflexivity. Defined.

(** ** The text after an append *)

(** What follows the last newline: a torn line. *)
Definition tail_of (s : bytes) : bytes := List.last (Split newline s) [].

Lemma Split_lines s : Split newline s = lines s ++ [tail_of s].
Proof. unfold lines, tail_of. apply app_removelast_last, Split_nonempty. Qed.

Lemma tail_of_spec x y : newline ∉ y -> tail_of (x ++ newline :: y) = y.
Proof. intros Hy. unfold tail_of. rewrite Split_last by done. apply last_last. Qed.

Lemma tail_of_none s : newline ∉ s -> tail_of s = s.
Proof. intros H. unfold tail_of. by rewrite Split_none. Qed.

(** The complete lines as text, and the torn one. *)
Lemma lines_text s : s = concat ((fun l => l ++ [newline]) <$> lines s) ++ tail_of s.
Proof.
  remember (length s) as n eqn:Hn. assert (Hle : (length s <= n)%nat) by lia. clear Hn.
  revert s Hle. induction n as [|n IH]; intros s Hle; [by destruct s; [|cbn in Hle; lia]|].
  pose proof (Cut_spec newline s) as Hc. destruct (Cut newline s) as [[a b]|].
  - destruct Hc as [-> Ha]. rewrite lines_cons by done. cbn [fmap list_fmap concat].
    assert (E : tail_of (a ++ newline :: b) = tail_of b).
    { unfold tail_of. rewrite Split_app by done. pose proof (Split_nonempty newline b). by destruct (Split newline b). }
    rewrite E, <- !app_assoc. cbn [app]. do 2 f_equal. apply IH.
    rewrite length_app in Hle. cbn in Hle. lia.
  - rewrite lines_none, tail_of_none by done. done.
Qed.

Lemma whole_tail s : blen s = whole s + blen (tail_of s).
Proof.
  rewrite (lines_text s) at 1. rewrite blen_app. f_equal. unfold whole.
  induction (lines s) as [|l ls IH]; [done|]. cbn [fmap list_fmap concat foldr].
  rewrite !blen_app, IH, blen_cons, blen_nil. lia.
Qed.

Lemma whole_nonneg s : 0 <= whole s.
Proof.
  unfold whole. induction (lines s) as [|l ls IH]; cbn [foldr]; [lia|]. pose proof (blen_nonneg l). lia.
Qed.

Lemma whole_zero s : whole s = 0 <-> lines s = [].
Proof.
  unfold whole. destruct (lines s) as [|l ls]; [done|]. cbn [foldr]. split; [|done].
  pose proof (blen_nonneg l). assert (0 <= foldr (fun l n => blen l + 1 + n) 0 ls); [|lia].
  induction ls as [|l' ls IH]; cbn [foldr]; [lia|]. pose proof (blen_nonneg l'). lia.
Qed.

Lemma tail_no_newline s : newline ∉ tail_of s.
Proof.
  remember (length s) as n eqn:Hn. assert (Hle : (length s <= n)%nat) by lia. clear Hn.
  revert s Hle. induction n as [|n IH]; intros s Hle.
  { destruct s; [apply not_elem_of_nil|cbn in Hle; lia]. }
  pose proof (LastIndexByte_spec s newline) as Hi. destruct (LastIndexByte s newline) as [i|].
  - destruct Hi as (_ & E & Hn). rewrite E, tail_of_spec by done. done.
  - by rewrite tail_of_none.
Qed.

Lemma Split_no_byte c s : Forall (fun l => c ∉ l) (Split c s).
Proof.
  induction s as [|d s IH]; cbn [Split]; [by repeat constructor; apply not_elem_of_nil|].
  destruct (Ascii.eqb_spec d c); [constructor; [apply not_elem_of_nil|done]|].
  pose proof (Split_nonempty c s). destruct (Split c s); [done|].
  apply Forall_cons in IH as [? ?]. constructor; [by apply not_elem_of_cons|done].
Qed.

Lemma lines_no_newline s : Forall (fun l => newline ∉ l) (lines s).
Proof. pose proof (Split_no_byte newline s) as H. rewrite Split_lines in H. by apply Forall_app in H as [H _]. Qed.

Lemma Split_concat ls line :
  Forall (fun l => newline ∉ l) ls -> newline ∉ line ->
  Split newline (concat ((fun l => l ++ [newline]) <$> ls) ++ line) = ls ++ [line].
Proof.
  intros H Hl. induction H as [|l ls Hn _ IH]; [by apply Split_none|].
  cbn [fmap list_fmap concat]. rewrite <- !app_assoc. cbn [app]. by rewrite Split_app, IH by done.
Qed.

(** A newline is put first exactly when there is a torn line. *)
Lemma terminator_spec s : terminator s = if bool_decide (tail_of s = []) then [] else [newline].
Proof.
  unfold terminator. pose proof (LastIndexByte_spec s newline) as Hi.
  destruct (LastIndexByte s newline) as [i|].
  - destruct Hi as (_ & E & Hn). rewrite E. rewrite tail_of_spec by done. rewrite last_app_cons.
    destruct (drop (S i) s) as [|c t]; cbn [last]; [done|].
    rewrite bool_decide_eq_false_2 by done. change (last (newline :: c :: t)) with (last (c :: t)).
    destruct (last (c :: t)) as [d|] eqn:El; [|by destruct (last_is_Some (c :: t)) as [_ [? ?]]; [|congruence]].
    apply last_Some_elem_of in El. destruct (Ascii.eqb_spec d newline); [by subst|done].
  - rewrite tail_of_none by done. destruct s as [|c t]; [done|]. rewrite bool_decide_eq_false_2 by done.
    destruct (last (c :: t)) as [d|] eqn:El; [|by destruct (last_is_Some (c :: t)) as [_ [? ?]]; [|congruence]].
    apply last_Some_elem_of in El. destruct (Ascii.eqb_spec d newline); [by subst|done].
Qed.

(** The torn line becomes a line of its own before the one appended. *)
Lemma lines_append s line :
  newline ∉ line ->
  lines (s ++ terminator s ++ line ++ [newline])
  = lines s ++ (if bool_decide (tail_of s = []) then [] else [tail_of s]) ++ [line]
  /\ tail_of (s ++ terminator s ++ line ++ [newline]) = [].
Proof.
  intros Hl. rewrite !app_assoc. split; [|apply tail_of_spec, not_elem_of_nil].
  rewrite (lines_tail _ []) by apply not_elem_of_nil. rewrite <- app_assoc, terminator_spec.
  case_bool_decide as Ht; cbn [app].
  - rewrite (lines_text s) at 1. rewrite Ht, !app_nil_r.
    by rewrite Split_concat by (done || apply lines_no_newline).
  - rewrite Split_last by done. by rewrite Split_lines, <- app_assoc.
Qed.

(** ** The records of a text *)

Definition text_records (s : bytes) : list Change := records (line_events 1 (lines s)).

Lemma records_app l k : records (l ++ k) = records l ++ records k.
Proof. apply omap_app. Qed.

Lemma line_events_app n ls ks :
  line_events n (ls ++ ks) = line_events n ls ++ line_events (n + blen ls) ks.
Proof.
  revert n. induction ls as [|l ls IH]; intros n; cbn [app line_events].
  - f_equal. unfold blen. cbn. lia.
  - rewrite IH, blen_cons, app_assoc. do 2 f_equal. lia.
Qed.

(** The record of a line, in whatever place it is. *)
Definition line_record (line : bytes) : list Change :=
  if bool_decide (TrimSpace line = []) then [] else match decodeRecord line with Some c => [c] | None => [] end.

Lemma records_events n ls : records (line_events n ls) = concat (line_record <$> ls).
Proof.
  revert n. induction ls as [|l ls IH]; intros n; [done|]. cbn [line_events fmap list_fmap concat].
  rewrite records_app, IH. f_equal. unfold line_record. case_bool_decide; [done|]. by destruct (decodeRecord l).
Qed.

Lemma text_records_lines s : text_records s = concat (line_record <$> lines s).
Proof. apply records_events. Qed.

Lemma lines_split x y : tail_of x = [] -> lines (x ++ y) = lines x ++ lines y.
Proof.
  intros Hx. rewrite (lines_text x) at 1. rewrite Hx, app_nil_r.
  pose proof (lines_no_newline x) as Hn. induction Hn as [|l ls Hl _ IH]; [done|].
  cbn [fmap list_fmap concat]. rewrite <- !app_assoc. cbn [app]. rewrite lines_cons by done. by rewrite IH.
Qed.

Lemma text_records_app x y : tail_of x = [] -> text_records (x ++ y) = text_records x ++ text_records y.
Proof. intros Hx. rewrite !text_records_lines, lines_split by done. by rewrite fmap_app, concat_app. Qed.

Lemma whole_app x y : tail_of x = [] -> whole (x ++ y) = blen x + whole y.
Proof.
  intros Hx. rewrite (whole_tail x), Hx, blen_nil. unfold whole. rewrite lines_split by done.
  rewrite foldr_app. induction (lines x) as [|l ls IH]; cbn [foldr]; lia.
Qed.

(** The number a write finds from the tail is the last record's. *)
Lemma last_answer_records ls :
  last_answer line_seq ls = cSeq <$> last (concat (line_record <$> ls)).
Proof.
  induction ls as [|l ls IH] using rev_ind; [done|].
  rewrite last_answer_snoc, fmap_app, concat_app, IH. cbn. rewrite app_nil_r.
  unfold line_seq, line_record. case_bool_decide; [by rewrite app_nil_r|].
  destruct (decodeRecord l); cbn; [by rewrite last_snoc|by rewrite app_nil_r].
Qed.

Definition seq_of (rs : list Change) : Z := match last rs with Some c => cSeq c | None => 0 end.

Lemma lastSeq_spec w :
  lastSeq w = (let? data := open_journal w in Ok (match data with Some s => seq_of (text_records s) | None => 0 end)).
Proof.
  unfold lastSeq. destruct (open_journal w) as [[s|]|]; [|done..]. cbn [res_bind]. f_equal.
  rewrite tailLines_scan by (unfold tail_chunk; change (Z.shiftl 4 10) with 4096; lia). rewrite last_answer_records, <- text_records_lines. unfold seq_of. by destruct (last _).
Qed.

(** ** An append in a world in which nothing fails *)

Lemma open_journal_ext w w' :
  wFiles w' !! journal_path = wFiles w !! journal_path -> open_journal w' = open_journal w.
Proof. unfold open_journal, readRegular. by intros ->. Qed.

(** The journal's text, none for a journal that is not there. *)
Definition holds (w : world) (s : bytes) : Prop :=
  exists o, open_journal w = Ok o /\ s = default [] o.

Lemma holds_file w s :
  holds w s -> (wFiles w !! journal_path = None /\ s = [])
               \/ exists f, wFiles w !! journal_path = Some (OFile f) /\ fLinks f <= 1 /\ fData f = s.
Proof.
  intros (o & Ho & ->). unfold open_journal, readRegular in Ho.
  destruct (wFiles w !! journal_path) as [[f| | |]|]; try done; [|left; by simplify_eq].
  destruct (regularAlone (OFile f)) eqn:E; [|done]. cbn in E. bool_hyps. right. exists f. by simplify_eq/=.
Qed.

Lemma file_holds w f : wFiles w !! journal_path = Some (OFile f) -> fLinks f <= 1 -> holds w (fData f).
Proof.
  intros Hf Hl. exists (Some (fData f)). split; [|done]. unfold open_journal, readRegular. rewrite Hf. cbn.
  by destruct (Z.leb_spec (fLinks f) 1); [|lia].
Qed.

Lemma appendJournal_quiet c line s w :
  quiet w -> holds w s -> marshal_change c = Some line ->
  let s' := s ++ terminator s ++ line ++ [newline] in
  exists f, fData f = s' /\ fLinks f <= 1
    /\ appendJournal c w = (Ok (blen s'), with_files (<[journal_path := OFile f]> (wFiles w)) w).
Proof.
  intros Hq Hs Hc. cbv zeta. unfold appendJournal. rewrite Hc.
  assert (Ho : exists f t n, open_append w = (Ok tt, with_files f w) /\ f !! journal_path = Some (OFile (MkFile s t n))
    /\ n <= 1 /\ forall o, <[journal_path := o]> f = <[journal_path := o]> (wFiles w)).
  { unfold open_append, bind, look. destruct (holds_file _ _ Hs) as [[-> ->]|(f & Hf & Hl & <-)].
    - rewrite change_quiet by done. eexists _, _, 1. split_and!; [done|apply lookup_insert_eq|done|].
      intros o. by rewrite insert_insert_eq.
    - rewrite Hf. cbn. destruct (Z.leb_spec (fLinks f) 1); [|lia].
      exists (wFiles w), (fTime f), (fLinks f). split_and!; [by rewrite with_files_id|by destruct f|done|done]. }
  destruct Ho as (m & t & n & Ho & Hm & Hn & Hins).
  erewrite bind_ok by exact Ho. unfold bind at 1, look at 1. unfold journal_data at 1. cbn [with_files wFiles].
  rewrite Hm. cbn [fData].
  exists (MkFile (s ++ terminator s ++ line ++ [newline]) (wClock w) n). split_and!; [done|done|].
  erewrite bind_ok by (eapply try_ok, Write_quiet; done).
  erewrite grown_file by exact Hm. rewrite with_files_twice.
  erewrite bind_ok by (eapply try_ok, change_quiet; done).
  unfold bind at 1, look at 1. unfold journal_data. cbn [with_files wFiles]. rewrite lookup_insert_eq. cbn [fData].
  erewrite bind_ok by (eapply try_ok, change_quiet; done).
  cbn. by rewrite Hins.
Qed.

(** A journal of which every line is a record. *)
Definition undamaged (s : bytes) : Prop := Forall (fun l => exists c, line_record l = [c]) (lines s).

Lemma undamaged_events s : undamaged s -> line_events 1 (lines s) = Ok <$> text_records s.
Proof.
  unfold text_records. intros H. enough (E : forall n, line_events n (lines s) = Ok <$> records (line_events n (lines s))) by apply E.
  intros n. rewrite records_events. unfold undamaged in H. revert n.
  induction H as [|l ls [c Hc] _ IH]; intros n; [done|]. cbn [line_events fmap list_fmap concat].
  rewrite IH, fmap_app, Hc. unfold line_record in Hc. case_bool_decide; [done|].
  destruct (decodeRecord l); by simplify_eq/=.
Qed.
