(* ===== verification/FileState.v ===== *)
(** * The cursor beside the journal: filestore/state.go

    .state.json holds how far the store has read the journal and the hashes
    it last knew of every live entry.  It is derived: [loadState] gives what
    reading the whole journal gives, whatever the file holds that the store
    wrote for this journal, and rebuilds it otherwise. *)

From S2P Require Import Prelude GoStd GoTime Sha256 Memory Store Json JsonRead Codec Frontmatter Records Fsys FileJournal.

Definition stateName : bytes := bs ".state.json".

Record journalState := MkState {
  stSeq : Z; stOff : Z; stHead : bytes; stEntries : gmap bytes stateEntry; stRead : bool }.

Definition new_state : journalState := MkState 0 0 [] ∅ false.

Definition with_entries (st : journalState) (m : gmap bytes stateEntry) : journalState :=
  MkState (stSeq st) (stOff st) (stHead st) m (stRead st).

(** [note]: what the journal now holds for the entry of a change. *)
Definition note (e : Entry) (st : journalState) : journalState :=
  let k := key (eScope e) (eName e) in
  with_entries st
    (if eDeleted e then delete k (stEntries st)
     else <[k := MkStateEntry (eHash e) (MetaHash (eMeta e))]> (stEntries st)).

(** [held]: what a write to the name replaces, its hash alone. *)
Definition held (st : journalState) (scope name : bytes) : option Entry :=
  (fun se => MkEntry scope name [] None (seHashOf se) [] 0 false) <$> stEntries st !! key scope name.

Definition hashOf (e : option Entry) : bytes := match e with Some e => eHash e | None => [] end.

Definition agrees (se : stateEntry) (e : Entry) : bool :=
  bool_decide (seHashOf se = eHash e) && bool_decide (seMetaOf se = MetaHash (eMeta e)).

(** The function [loadState] and [rebuildState] scan with: a damaged line is
    the journal's readers' to report. *)
Definition catch_up (st : journalState) (ev : res jerror Change) : journalState :=
  match ev with
  | Err _ => st
  | Ok c => note (cEntry c) (MkState (cSeq c) (stOff st) (stHead st) (stEntries st) (stRead st))
  end.

Definition rebuildState (w : world) : res ferror journalState :=
  let? (l, off) := scanJournal w 0 in
  let st := foldl catch_up new_state l in
  let? head := headLine w in
  Ok (MkState (stSeq st) off (Hash head) (stEntries st) (stRead st)).

Definition of_cursor (c : cursor) (read : bool) : journalState :=
  MkState (curSeq c) (curOff c) (curHead c) (default ∅ (curEntries c)) read.

Definition loadState (w : world) : res ferror journalState :=
  let st := match readRegular w (top stateName) with
            | Ok f => match unmarshal_cursor (fData f) with
                      | Some c => of_cursor c true
                      | None => new_state
                      end
            | Err _ => new_state
            end in
  let? head := headLine w in
  if negb (bool_decide (stHead st = Hash head)) then rebuildState w
  else
    let? (l, off) := scanJournal w (stOff st) in
    let st' := foldl catch_up st l in
    if off <? stOff st then rebuildState w
    else Ok (MkState (stSeq st') off (stHead st') (stEntries st') (stRead st')).

Definition saveState (st : journalState) : M unit :=
  writeAtomic (top stateName)
    (marshal_cursor (MkCursor (stSeq st) (stOff st) (stHead st) (Some (stEntries st))) ++ [newline]).

(** A sequence number is a [uint64]. *)
Definition nextSeq (w : world) (st : journalState) : res ferror (journalState * Z) :=
  let? tail := lastSeq w in
  let st := if stSeq st <? tail then MkState tail (stOff st) (stHead st) (stEntries st) (stRead st) else st in
  Ok (st, (stSeq st + 1) mod 2 ^ 64).

(** [appendChange]; the state is the cursor as it leaves it. *)
Definition appendChange (st : journalState) (c : Change) : M (journalState * Change) :=
  let! (st, seq) := look (fun w => nextSeq w st) in
  let c := MkChange seq (cEntry c) (cPrev c) (cReplaced c) (cSession c) (cSource c) (cAt c) in
  let! off := appendJournal c in
  let first := stOff st =? 0 in
  let st := note (cEntry c) (MkState seq off (stHead st) (stEntries st) (stRead st)) in
  if first then
    let! head := look headLine in
    ret (MkState (stSeq st) (stOff st) (Hash head) (stEntries st) (stRead st), c)
  else ret (st, c).

(** [lastRecordFor]: the journal's last record for one entry. *)
Definition lastRecordFor (w : world) (scope name : bytes) : res ferror (option Change) :=
  let? (l, _) := scanJournal w 0 in Ok (last_for (records l) (scope, name)).

Definition entryName (scope name : bytes) : path := (scope, name ++ bs ".md").

(** [modTime], asked only of an entry file read before, or just written, or
    just removed. *)
Definition modTime (w : world) (p : path) : option Z :=
  match wFiles w !! p with
  | Some (OFile f) => Some (fTime f)
  | _ => None
  end.

(** [outside]: the record of a state found in place of the one the journal
    last held. *)
Definition outside (max : Z) (w : world) (st : journalState) (scope name : bytes) (cur : option Entry) (at_ : Z)
    : res ferror (option Change) :=
  let known := stEntries st !! key scope name in
  match cur, known with
  | None, None => Ok None
  | None, Some known =>
      let? last := lastRecordFor w scope name in
      match last with
      | None => Ok None
      | Some last =>
          let e := cEntry last in
          let e := MkEntry (eScope e) (eName e) (eContent e) (eMeta e) (eHash e) (MetaHash (eMeta e)) at_ true in
          Ok (Some (MkChange 0 e (seHashOf known) (seHashOf known) [] SourceReconciled at_))
      end
  | Some cur, _ =>
      if match known with Some se => agrees se cur | None => false end then Ok None
      else match CheckEntry cur max None with
           | Some _ => Ok None
           | None =>
               let updated := match modTime w (entryName scope name) with Some t => t | None => eUpdated cur end in
               let e := MkEntry (eScope cur) (eName cur) (eContent cur) (eMeta cur) (eHash cur) (eMetaHash cur)
                          updated (eDeleted cur) in
               let prev := match known with Some se => seHashOf se | None => [] end in
               Ok (Some (MkChange 0 e prev prev [] SourceReconciled at_))
           end
  end.

(** ** What the cursor is, for a journal's text *)

Definition note_map (m : gmap bytes stateEntry) (c : Change) : gmap bytes stateEntry :=
  let e := cEntry c in
  let k := key (eScope e) (eName e) in
  if eDeleted e then delete k m else <[k := MkStateEntry (eHash e) (MetaHash (eMeta e))]> m.

Definition entries_of (rs : list Change) : gmap bytes stateEntry := foldl note_map ∅ rs.

(** The last number and the state of every live entry, of a text's records,
    and where its complete lines end. *)
Definition state_for (s : bytes) (read : bool) : journalState :=
  MkState (seq_of (text_records s)) (whole s) (Hash (head_of s)) (entries_of (text_records s)) read.

Lemma catch_up_all l st :
  foldl catch_up st l
  = MkState (match last (records l) with Some c => cSeq c | None => stSeq st end) (stOff st) (stHead st)
      (foldl note_map (stEntries st) (records l)) (stRead st).
Proof.
  revert st. induction l as [|[c|] l IH]; intros st; [by destruct st| |exact (IH st)].
  change (records (Ok c :: l)) with (c :: records l).
  cbn [foldl]. rewrite IH. cbn. rewrite last_cons. by destruct (last (records l)).
Qed.

Lemma head_of_nil : head_of [] = [].
Proof. done. Qed.

Lemma headLine_holds w s : holds w s -> headLine w = Ok (head_of s).
Proof. intros (o & Ho & ->). unfold headLine. rewrite Ho. by destruct o. Qed.

(** Scanning from where complete lines end. *)
Lemma scanJournal_holds w x y :
  holds w (x ++ y) -> tail_of x = [] ->
  exists l, scanJournal w (blen x) = Ok (l, whole (x ++ y)) /\ records l = text_records y.
Proof.
  intros (o & Ho & E) Hx. unfold scanJournal. rewrite Ho. cbn [res_bind].
  destruct o as [s|]; cbn in E; subst.
  - rewrite blen_app. pose proof (blen_nonneg y). destruct (Z.ltb_spec (blen x + blen y) (blen x)); [lia|].
    assert (Ed : (if 0 <? blen x then drop (Z.to_nat (blen x)) (x ++ y) else x ++ y) = y).
    { destruct (Z.ltb_spec 0 (blen x)).
      - unfold blen. by rewrite Nat2Z.id, drop_app_length.
      - destruct x; [done|]. unfold blen in *. cbn in *. lia. }
    rewrite Ed, scan_lines_spec by done. eexists. rewrite whole_app by done. done.
  - apply app_nil in E as [-> ->]. by eexists.
Qed.

Lemma rebuildState_holds w s : holds w s -> rebuildState w = Ok (state_for s false).
Proof.
  intros Hs. unfold rebuildState. destruct (scanJournal_holds w [] s Hs eq_refl) as (l & E & Hl).
  cbn in E. change (blen (@nil ascii)) with 0 in E. rewrite E. cbn [res_bind].
  rewrite catch_up_all, (headLine_holds _ _ Hs). cbn. rewrite Hl. unfold state_for, seq_of. by destruct (last _).
Qed.

(** A cursor written for this journal: it stands where some of the complete
    lines end, with what their records hold. *)
Definition describes (s : bytes) (c : cursor) : Prop :=
  exists x y, s = x ++ y /\ tail_of x = [] /\ curOff c = blen x
    /\ curSeq c = seq_of (text_records x) /\ default ∅ (curEntries c) = entries_of (text_records x).

Definition saved (w : world) : option cursor :=
  match readRegular w (top stateName) with Ok f => unmarshal_cursor (fData f) | Err _ => None end.

Lemma seq_of_app x y : seq_of (x ++ y) = match last y with Some c => cSeq c | None => seq_of x end.
Proof. unfold seq_of. rewrite last_app. by destruct (last y). Qed.

Lemma loadState_holds w s :
  holds w s ->
  (forall c, saved w = Some c -> curHead c = Hash (head_of s) -> describes s c) ->
  exists read, loadState w = Ok (state_for s read).
Proof.
  intros Hs Hc. pose proof (rebuildState_holds _ _ Hs) as Hr. unfold loadState.
  set (st := match readRegular w (top stateName) with
             | Ok f => match unmarshal_cursor (fData f) with Some c => of_cursor c true | None => new_state end
             | Err _ => new_state end).
  rewrite (headLine_holds _ _ Hs). cbn [res_bind].
  destruct (bool_decide_reflect (stHead st = Hash (head_of s))) as [Hh|Hh]; cbn [negb]; [|by exists false].
  assert (Hd : exists x y, s = x ++ y /\ tail_of x = [] /\ stOff st = blen x
    /\ stSeq st = seq_of (text_records x) /\ stEntries st = entries_of (text_records x)).
  { unfold saved in Hc. unfold st in *. destruct (readRegular _ _) as [f|]; [|by exists [], s].
    destruct (unmarshal_cursor (fData f)) as [c|]; [|by exists [], s].
    destruct (Hc c eq_refl Hh) as (x & y & H). by exists x, y. }
  destruct Hd as (x & y & -> & Hx & Ho & Hseq & He). rewrite Ho.
  destruct (scanJournal_holds w x y Hs Hx) as (l & -> & Hl). cbn [res_bind].
  rewrite whole_app by done. pose proof (whole_nonneg y).
  destruct (Z.ltb_spec (blen x + whole y) (blen x)); [lia|].
  rewrite catch_up_all, Hl, Hseq, He, Hh. exists (stRead st). cbn. unfold state_for.
  rewrite whole_app, text_records_app, seq_of_app by done. unfold entries_of. by rewrite foldl_app.
Qed.

(** ** An append, and the cursor after it *)

Lemma Cut_app_some c s a b z : Cut c s = Some (a, b) -> Cut c (s ++ z) = Some (a, b ++ z).
Proof.
  revert a. induction s as [|d s IH]; intros a; cbn; [done|]. destruct (Ascii.eqb d c); [by intros [= <- <-]|].
  destruct (Cut c s) as [[a' b']|]; cbn; [|done]. intros [= <- <-]. by rewrite (IH a').
Qed.

(** The first line stays what it is. *)
Lemma head_of_app s z : newline ∈ s -> head_of (s ++ z) = head_of s.
Proof.
  intros Hn. unfold head_of, ReadBytes. pose proof (Cut_spec newline (take headLimit s)) as Hc.
  destruct (Cut newline (take headLimit s)) as [[a b]|] eqn:E.
  - rewrite firstn_app. by rewrite (Cut_app_some _ _ _ _ _ E).
  - assert (headLimit < length s)%nat.
    { destruct (decide (length s <= headLimit)%nat); [|lia]. by rewrite take_ge in Hc. }
    rewrite take_app_le by lia. by rewrite E.
Qed.

Lemma lines_newline s : lines s <> [] -> newline ∈ s.
Proof.
  intros H. destruct (decide (newline ∈ s)) as [Hn|Hn]; [done|]. by rewrite lines_none in H.
Qed.

(** A record as a line: printed between braces, so that it is not blank. *)
Lemma TrimSpace_between a m b : printing a = true -> printing b = true -> TrimSpace (a :: m ++ [b]) = a :: m ++ [b].
Proof.
  intros Ha Hb. unfold TrimSpace.
  assert (TrimLeftSpace (a :: m ++ [b]) = a :: m ++ [b]) as ->.
  { unfold TrimLeftSpace. cbn [length trim_lead]. by rewrite lead_len_printing. }
  unfold TrimRightSpace. rewrite <- (length_reverse (a :: m ++ [b])).
  assert (E : reverse (a :: m ++ [b]) = b :: reverse (a :: m)).
  { change (a :: m ++ [b]) with ((a :: m) ++ [b]). by rewrite reverse_snoc. }
  rewrite E. cbn [length trim_lead]. rewrite tail_len_printing by done. by rewrite <- E, reverse_involutive.
Qed.

Lemma marshal_not_blank c line : marshal_change c = Some line -> TrimSpace line <> [].
Proof.
  unfold marshal_change. destruct (_ && _); [|done]. intros E.
  assert (line = render (change_json c)) as -> by congruence.
  unfold change_json. cbn [render]. unfold json_object. cbn [bs app String.list_ascii_of_string].
  by rewrite TrimSpace_between.
Qed.

(** A record the store may append: text JSON carries, an entry it names. *)
Record appendable (c : Change) : Prop := {
  ap_carried : change_carried c;
  ap_scope : ValidScope (eScope (cEntry c)) = true;
  ap_name : ValidName (eName (cEntry c)) = true;
  ap_hash : eHash (cEntry c) <> [];
  ap_seq : cSeq c <> 0
}.

Lemma decodeRecord_marshal c line : appendable c -> marshal_change c = Some line -> line_record line = [c] /\ newline ∉ line.
Proof.
  intros [Hc Hs Hn Hh Hq] Hm. destruct (unmarshal_marshal_change c line Hc Hm) as [Hcl Hu]. split.
  - unfold line_record. rewrite bool_decide_eq_false_2 by by eapply marshal_not_blank.
    unfold decodeRecord. rewrite Hu. cbn. destruct (Z.eqb_spec (cSeq c) 0); [done|].
    rewrite Hs, Hn. cbn. by rewrite bool_decide_eq_false_2.
  - intros Hin. unfold clean in Hcl. rewrite Forall_forall in Hcl. by specialize (Hcl _ Hin).
Qed.

Definition numbered (n : Z) (c : Change) : Change :=
  MkChange n (cEntry c) (cPrev c) (cReplaced c) (cSession c) (cSource c) (cAt c).

(** The torn line is damage, as a write cut off short of its record's end
    leaves it. *)
Definition torn_ok (s : bytes) : Prop := line_record (tail_of s) = [].

Lemma text_records_append s c line :
  appendable c -> marshal_change c = Some line -> torn_ok s ->
  text_records (s ++ terminator s ++ line ++ [newline]) = text_records s ++ [c].
Proof.
  intros Hc Hm Ht. destruct (decodeRecord_marshal c line Hc Hm) as [Hr Hn].
  rewrite !text_records_lines. destruct (lines_append s line Hn) as [-> _].
  rewrite !fmap_app, !concat_app. cbn. rewrite Hr. f_equal.
  case_bool_decide; cbn; [done|]. by rewrite Ht.
Qed.

Lemma nextSeq_holds w s read :
  holds w s -> let n := seq_of (text_records s) in 0 <= n -> n + 1 < 2 ^ 64 ->
  nextSeq w (state_for s read) = Ok (state_for s read, n + 1).
Proof.
  intros (o & Ho & E) n Hn0 Hn. unfold nextSeq. rewrite lastSeq_spec, Ho. cbn [res_bind].
  assert (El : match o with Some s => seq_of (text_records s) | None => 0 end = n) by (unfold n; rewrite E; by destruct o).
  rewrite El. change (stSeq (state_for s read)) with n. rewrite Z.ltb_irrefl.
  change (stSeq (state_for s read)) with n. by rewrite Z.mod_small by lia.
Qed.

(** The cursor after a record that was appended. *)
Lemma appendChange_after c s z read w w1 :
  holds w s -> let n := seq_of (text_records s) in 0 <= n -> n + 1 < 2 ^ 64 ->
  appendJournal (numbered (n + 1) c) w = (Ok (blen (s ++ z)), w1) ->
  holds w1 (s ++ z) -> tail_of (s ++ z) = [] -> text_records (s ++ z) = text_records s ++ [numbered (n + 1) c] ->
  appendChange (state_for s read) c w = (Ok (state_for (s ++ z) read, numbered (n + 1) c), w1).
Proof.
  intros Hs n Hn0 Hn Ha Hs1 Htl Hrec. unfold appendChange. unfold bind at 1, look at 1.
  rewrite (nextSeq_holds w s read Hs) by done. fold n. fold (numbered (n + 1) c).
  erewrite bind_ok by exact Ha. cbn [stOff state_for].
  assert (Hw : blen (s ++ z) = whole (s ++ z)) by (pose proof (whole_tail (s ++ z)) as E; rewrite Htl, blen_nil in E; lia).
  assert (Hstate : forall h, h = Hash (head_of (s ++ z)) ->
    MkState (n + 1) (blen (s ++ z)) h (note_map (entries_of (text_records s)) (numbered (n + 1) c)) read = state_for (s ++ z) read).
  { intros h ->. unfold state_for. rewrite Hrec, Hw, seq_of_app. cbn. unfold entries_of. by rewrite foldl_app. }
  destruct (Z.eqb_spec (whole s) 0) as [H0|H0].
  - unfold bind, look, ret. rewrite (headLine_holds w1 _ Hs1), <- (Hstate _ eq_refl). done.
  - unfold ret. rewrite <- (Hstate (Hash (head_of s))); [done|]. f_equal. symmetry.
    apply head_of_app, lines_newline. by rewrite <- whole_zero.
Qed.

Lemma appendChange_err c s read w w1 e :
  holds w s -> let n := seq_of (text_records s) in 0 <= n -> n + 1 < 2 ^ 64 ->
  appendJournal (numbered (n + 1) c) w = (Err e, w1) -> appendChange (state_for s read) c w = (Err e, w1).
Proof.
  intros Hs n Hn0 Hn Ha. unfold appendChange. unfold bind at 1, look at 1.
  rewrite (nextSeq_holds w s read Hs) by done. fold n. fold (numbered (n + 1) c). by erewrite bind_err by exact Ha.
Qed.

Lemma appendChange_quiet st c s read w :
  quiet w -> holds w s -> st = state_for s read -> torn_ok s ->
  let n := seq_of (text_records s) in
  0 <= n -> n + 1 < 2 ^ 64 -> appendable (numbered (n + 1) c) ->
  exists f, fLinks f <= 1 /\ tail_of (fData f) = [] /\ text_records (fData f) = text_records s ++ [numbered (n + 1) c]
    /\ (exists line, lines (fData f) = lines s ++ (if bool_decide (tail_of s = []) then [] else [tail_of s]) ++ [line]
          /\ line_record line = [numbered (n + 1) c])
    /\ appendChange st c w
       = (Ok (state_for (fData f) read, numbered (n + 1) c),
          with_files (<[journal_path := OFile f]> (wFiles w)) w).
Proof.
  intros Hq Hs -> Ht n Hn0 Hn Hap. destruct (marshal_carried _ (ap_carried _ Hap)) as [line Hm].
  destruct (appendJournal_quiet _ _ _ _ Hq Hs Hm) as (f & Hf & Hl & Ha).
  set (s' := s ++ terminator s ++ line ++ [newline]) in *.
  destruct (lines_append s line) as [Hls Htl]; [by apply (decodeRecord_marshal _ _ Hap Hm)|]. fold s' in Hls, Htl.
  pose proof (text_records_append s _ line Hap Hm Ht) as Hrec. fold s' in Hrec.
  exists f. rewrite Hf. split_and!; [done..| |].
  { exists line. split; [done|]. by apply decodeRecord_marshal. }
  apply (appendChange_after c s (terminator s ++ line ++ [newline])); try done. fold s'.
  rewrite <- Hf. eapply file_holds; [apply lookup_insert_eq|done].
Qed.

(** ** Saving the cursor *)

Definition entries_text (m : gmap bytes stateEntry) : Prop :=
  map_Forall (fun k se => ValidString k = true /\ ValidString (seHashOf se) = true /\ ValidString (seMetaOf se) = true) m.

(** What a record needs for the cursor to hold its entry. *)
Definition named (c : Change) : Prop :=
  ValidScope (eScope (cEntry c)) = true /\ ValidName (eName (cEntry c)) = true /\ ValidString (eHash (cEntry c)) = true.

Lemma key_text scope name : ValidName scope = true -> ValidName name = true -> ValidString (key scope name) = true.
Proof.
  intros Hs%ValidName_iff Hn%ValidName_iff. apply ValidString_ascii. unfold key. rewrite !Forall_app.
  split_and!; [by apply printing_ascii, name_printing|by repeat constructor|by apply printing_ascii, name_printing].
Qed.

Lemma entries_of_text rs : Forall named rs -> entries_text (entries_of rs).
Proof.
  unfold entries_of. intros H. assert (He : entries_text ∅) by apply map_Forall_empty. revert H He.
  generalize (∅ : gmap bytes stateEntry) as m. induction rs as [|c rs IH]; intros m H Hm; [done|].
  apply Forall_cons in H as [(Hs & Hn & Hh) H]. cbn [foldl]. apply IH; [done|]. unfold note_map. cbv zeta.
  destruct (eDeleted (cEntry c)); [by apply map_Forall_delete|].
  apply map_Forall_insert_2; [|done]. split_and!; [by apply key_text|done|apply MetaHash_text].
Qed.

Definition cursor_of (st : journalState) : cursor := MkCursor (stSeq st) (stOff st) (stHead st) (Some (stEntries st)).

Lemma state_for_carried s read :
  Forall named (text_records s) -> 0 <= seq_of (text_records s) < 2 ^ 64 -> whole s < 2 ^ 63 ->
  cursor_carried (cursor_of (state_for s read)).
Proof.
  intros Hn Hs Ho. split; cbn.
  - done.
  - split; [apply whole_nonneg|done].
  - apply Hash_text.
  - eexists. split; [done|]. by apply entries_of_text.
Qed.

(** The cursor saved is read again, and nothing else of the directory is
    touched. *)
Lemma saveState_quiet st w :
  quiet w -> fresh w -> wFiles w !! top stateName <> Some ODir -> cursor_carried (cursor_of st) ->
  exists f, saveState st w
    = (Ok tt, MkWorld (<[top stateName := OFile f]> (wFiles w)) (wClock w) (fun n => wRand w (S n)) [])
    /\ fLinks f <= 1 /\ unmarshal_cursor (fData f) = Some (cursor_of st).
Proof.
  intros Hq Hf Hd Hc. unfold saveState. rewrite writeAtomic_quiet; try done; [|by left].
  eexists. split_and!; [unfold dir_made; done|done|]. by apply unmarshal_marshal_cursor.
Qed.

Lemma saved_file w f : wFiles w !! top stateName = Some (OFile f) -> fLinks f <= 1 -> saved w = unmarshal_cursor (fData f).
Proof.
  intros Hf Hl. unfold saved, readRegular. rewrite Hf. cbn. by destruct (Z.leb_spec (fLinks f) 1); [|lia].
Qed.

Lemma describes_whole s read : tail_of s = [] -> describes s (cursor_of (state_for s read)).
Proof.
  intros Ht. exists s, []. rewrite app_nil_r. split_and!; try done. cbn.
  pose proof (whole_tail s) as E. rewrite Ht, blen_nil in E. lia.
Qed.

Lemma describes_app s z c : describes s c -> describes (s ++ z) c.
Proof. intros (x & y & -> & H). exists x, (y ++ z). by rewrite app_assoc. Qed.

(** C24: Resuming from the cursor is reading the journal whole: when the cursor
    file, if it is read at all and names this journal's first line, was
    written where some of the journal's complete lines end, [loadState]
    returns what [rebuildState] computes from the whole journal, damaged and
    torn lines included, apart from the mark that the cursor was read. *)
Theorem loadState_rebuilds w s :
  holds w s -> (forall c, saved w = Some c -> curHead c = Hash (head_of s) -> describes s c) ->
  exists st, loadState w = Ok st
    /\ rebuildState w = Ok (MkState (stSeq st) (stOff st) (stHead st) (stEntries st) false).
Proof.
  intros Hs Hc. destruct (loadState_holds w s Hs Hc) as [read E]. exists (state_for s read).
  by rewrite E, (rebuildState_holds w s Hs).
Qed.

(** A journal of two records, a line that is none between them, and a torn
    line; a cursor written after the first. *)
Definition demo_line (n : Z) (scope name content : string) : bytes :=
  let e := MkEntry (bs scope) (bs name) (bs content) None (Hash (bs content)) [] 7 false in
  default [] (marshal_change (MkChange n e [] [] [] [] 7)) ++ [newline].

Definition demo_first : bytes := demo_line 1 "user" "style" "Short.".
Definition demo_text : bytes :=
  demo_first ++ bs "damage" ++ [newline] ++ demo_line 2 "user" "tone" "Dry." ++ bs "{'seq'".

Definition demo_cursor : cursor :=
  MkCursor 1 (blen demo_first) (Hash demo_first)
    (Some {[ bs "user/style" := MkStateEntry (Hash (bs "Short.")) [] ]}).

Definition demo_world : world :=
  MkWorld {[ journal_path := OFile (MkFile demo_text 5 1);
             top stateName := OFile (MkFile (marshal_cursor demo_cursor) 5 1) ]} 6 (fun n => [Z.of_nat n]) [].

Lemma loadState_rebuilds_witness :
  saved demo_world = Some demo_cursor /\
  exists st, loadState demo_world = Ok st
    /\ rebuildState demo_world = Ok (MkState (stSeq st) (stOff st) (stHead st) (stEntries st) false).
Proof.
  assert (E : saved demo_world = Some demo_cursor) by (vm_compute; reflexivity).
  split; [exact E|]. apply (loadState_rebuilds demo_world demo_text).
  - exists (Some demo_text). split; vm_compute; reflexivity.
  - rewrite E. intros c [= <-] _. exists demo_first, (drop (length demo_first) demo_text).
    split_and!; vm_compute; reflexivity.
Defined.
