(* ===== verification/FileStore.v ===== *)
(** * The file store: filestore/filestore.go

    Its operations on a world.  Writers hold the store's lock (Lock), which
    is given as the outcome of taking it, so an operation is one step; the
    clock is given with each call. *)

From S2P Require Import Prelude GoStd GoTime Sha256 Memory Store Search Json JsonRead Codec Frontmatter Fsys FileJournal FileState.

Definition indexName : bytes := bs "INDEX.md".

(** ** Reading *)

Definition readEntry (w : world) (scope name : bytes) : res ferror (option Entry) :=
  let? ok := scopeIsDir w scope in
  if negb ok then Ok None
  else match readRegular w (entryName scope name) with
       | Err _ => Ok None
       | Ok f =>
           let d := decode (fData f) in
           Ok (Some (MkEntry scope name (dContent d) (dMeta d) (Hash (dContent d)) (MetaHash (dMeta d))
                       (if dUpdated d =? 0 then fTime f else dUpdated d) false))
       end.

Definition file_get (w : world) (scope name : bytes) : res ferror Entry :=
  match CheckRef scope name with
  | Some e => Err (FStore e)
  | None =>
      let? e := readEntry w scope name in
      match e with
      | Some e => Ok e
      | None => Err (FStore (ErrNotFound scope name))
      end
  end.

Definition CutSuffix (s p : bytes) : option bytes :=
  if HasSuffix s p then Some (take (length s - length p) s) else None.

(** The entry a name in a scope directory is of. *)
Definition entry_of (n : bytes) (o : object) : option bytes :=
  name ← CutSuffix n (bs ".md");
  match o with
  | OFile _ => if ValidName name then Some name else None
  | _ => None
  end.

Fixpoint list_loop (w : world) (scope : bytes) (l : list (bytes * object)) : res ferror (list Entry) :=
  match l with
  | [] => Ok []
  | (n, o) :: l' =>
      match entry_of n o with
      | None => list_loop w scope l'
      | Some name =>
          let? e := readEntry w scope name in
          let? out := list_loop w scope l' in
          Ok (match e with Some e => e :: out | None => out end)
      end
  end.

Definition list_scope (w : world) (scope : bytes) : res ferror (list Entry) :=
  let? ok := scopeIsDir w scope in
  if negb ok then Ok []
  else let? out := list_loop w scope (ReadDir w scope) in Ok (sort_on eName out).

Definition file_list (w : world) (scope : bytes) : res ferror (list Entry) :=
  match CheckScope scope with
  | Some e => Err (FStore e)
  | None => list_scope w scope
  end.

(** ** Writing *)

Definition index_line (e : Entry) : bytes :=
  bs "- [" ++ eName e ++ bs "](" ++ eName e ++ bs ".md)"
  ++ (if bool_decide (Description e = []) then [] else bs " — " ++ Description e) ++ [newline].

Definition index_text (scope : bytes) (es : list Entry) : bytes :=
  bs "# " ++ scope ++ [newline; newline]
  ++ (if bool_decide (es = []) then bs "No entries." ++ [newline] else []) ++ concat (index_line <$> es).

Definition reindex (scope : bytes) : M unit :=
  let! es := look (fun w => list_scope w scope) in
  writeAtomic (scope, indexName) (index_text scope es).

(** [acquire], as the lock had it. *)
Definition acquire (lock : option ferror) : M unit :=
  match lock with Some e => fail e | None => ret tt end.

(** An error of the contract ends the operation. *)
Definition guard (e : option error) : M unit :=
  match e with Some e => fail (FStore e) | None => ret tt end.

Definition noteOutside (max : Z) (st : journalState) (scope name : bytes) (cur : option Entry) (at_ : Z)
    : M journalState :=
  let! c := look (fun w => outside max w st scope name cur at_) in
  match c with
  | None => ret st
  | Some c => let! (st, _) := appendChange st c in ret st
  end.

Definition file_put (max : Z) (lock : option ferror) (now : Z) (session : bytes) (e : Entry) (opts : list PutOption)
    : M Change :=
  let o := ResolvePutOptions opts in
  run! guard (CheckEntry e 0 None) in
  run! acquire lock in
  let! stored := look (fun w => readEntry w (eScope e) (eName e)) in
  run! guard (CheckEntry e max stored) in
  run! guard (PutOptions_Check o (eScope e) (eName e) stored) in
  let e := stamped now e in
  let! st := look loadState in
  run! writeAtomic (entryName (eScope e) (eName e)) (encode e) in
  run! reindex (eScope e) in
  let! st := noteOutside max st (eScope e) (eName e) stored now in
  let h := held st (eScope e) (eName e) in
  let prev := BaseFor o h in
  let prev := match stored with
              | Some s => if bool_decide (prev = eHash s) && negb (bool_decide (hashOf h = eHash s)) then hashOf h else prev
              | None => prev
              end in
  let! (st, c) := appendChange st (MkChange 0 e prev (hashOf h) session [] now) in
  run! saveState st in
  ret c.

Definition file_forget (max : Z) (lock : option ferror) (now : Z) (session scope name : bytes) : M Change :=
  run! guard (CheckRef scope name) in
  run! acquire lock in
  let! stored := look (fun w => readEntry w scope name) in
  match stored with
  | None => fail (FStore (ErrNotFound scope name))
  | Some stored =>
      let! st := look loadState in
      run! Remove (entryName scope name) in
      run! reindex scope in
      let! st := noteOutside max st scope name (Some stored) now in
      let h := held st scope name in
      let! e := (if match stEntries st !! key scope name with Some known => agrees known stored | None => false end
                 then ret stored
                 else let! last := look (fun w => lastRecordFor w scope name) in
                      ret (match last with
                           | Some c => if eDeleted (cEntry c) then stored else cEntry c
                           | None => stored
                           end)) in
      let e := MkEntry (eScope e) (eName e) (eContent e) (eMeta e) (eHash e) (MetaHash (eMeta e)) now true in
      let! (st, c) := appendChange st (MkChange 0 e (hashOf h) (hashOf h) session [] now) in
      run! saveState st in
      ret c
  end.

(** ** Searching and reading the journal *)

Section Search.
Variable lower_rune : bytes -> bytes.

Fixpoint list_all (w : world) (scopes : list bytes) : res ferror (list Entry) :=
  match scopes with
  | [] => Ok []
  | scope :: scopes' =>
      let? es := file_list w scope in let? rest := list_all w scopes' in Ok (es ++ rest)
  end.

Fixpoint check_all (scopes : list bytes) : option error :=
  match scopes with
  | [] => None
  | scope :: scopes' => match CheckScope scope with Some e => Some e | None => check_all scopes' end
  end.

Definition file_search_with (w : world) (scopes : list bytes) (query : bytes) (limit : Z) (opts : SearchOptions)
    : res ferror (list Entry) :=
  match check_all scopes with
  | Some e => Err (FStore e)
  | None =>
      match SearchOptions_Check opts AllSearchOptions with
      | Some e => Err (FStore e)
      | None => let? all := list_all w scopes in Ok (Filter lower_rune opts all query limit)
      end
  end.
End Search.

Definition file_journal (w : world) (after : Z) : list (res (jerror + ferror) Change) := readJournal w after.
Definition file_last_seq (w : world) : res ferror Z := lastSeq w.

(** ** Reconciling *)

Fixpoint scope_dirs (l : list (bytes * object)) : res ferror (list bytes) :=
  match l with
  | [] => Ok []
  | (n, o) :: l' =>
      if negb (ValidName n) then scope_dirs l'
      else match o with
           | OLink => Err (FLinkedScope n)
           | ODir => let? out := scope_dirs l' in Ok (n :: out)
           | _ => scope_dirs l'
           end
  end.

Definition scopes (w : world) : res ferror (list bytes) := scope_dirs (ReadDir w []).

Fixpoint live_entries (w : world) (ss : list bytes) (live : gmap bytes Entry) : res ferror (gmap bytes Entry) :=
  match ss with
  | [] => Ok live
  | scope :: ss' =>
      let? es := list_scope w scope in
      live_entries w ss' (foldl (fun live e => <[key (eScope e) (eName e) := e]> live) live es)
  end.

Definition split_key (k : bytes) : bytes * bytes :=
  match Cut "/" k with Some (scope, name) => (scope, name) | None => (k, []) end.

(** The records a loop over the keys appends, the error that ended it, and
    the cursor it leaves. *)
Fixpoint reconcile_loop (max now : Z) (live : gmap bytes Entry) (ks : list bytes) (st : journalState)
    : M (list Change * option ferror * journalState) :=
  match ks with
  | [] => ret ([], None, st)
  | k :: ks' =>
      let (scope, name) := split_key k in
      fun w =>
        match outside max w st scope name (live !! k) now with
        | Err e => (Ok ([], Some e, st), w)
        | Ok None => reconcile_loop max now live ks' st w
        | Ok (Some c) =>
            match appendChange st c w with
            | (Err e, w') => (Ok ([], Some e, st), w')
            | (Ok (st', rec), w') =>
                (let! (changes, err, st'') := reconcile_loop max now live ks' st' in
                 ret (rec :: changes, err, st'')) w'
            end
        end
  end.

Fixpoint reindex_all (ss : list bytes) : M unit :=
  match ss with
  | [] => ret tt
  | scope :: ss' => run! reindex scope in reindex_all ss'
  end.

(** Go ranges over the scopes touched in any order; their indexes are
    different files. *)
Definition touched (changes : list Change) : list bytes := remove_dups ((fun c => eScope (cEntry c)) <$> changes).

(** The changes recorded, and the error that stopped it, if any. *)
Definition Reconcile (max : Z) (lock : option ferror) (now : Z) : M (list Change * option ferror) :=
  run! acquire lock in
  let! st := look loadState in
  let! ss := look scopes in
  let! live := look (fun w => live_entries w ss ∅) in
  let keys := sort_bytes ((map_to_list live).*1
    ++ filter (fun k => live !! k = None) (map_to_list (stEntries st)).*1) in
  let! (changes, err, st') := reconcile_loop max now live keys st in
  match err with
  | Some e => ret (changes, Some e)
  | None =>
      let! e := (if negb (stRead st') || negb (stSeq st' =? stSeq st) || negb (stOff st' =? stOff st)
                 then try (saveState st') else ret None) in
      match e with
      | Some e => ret (changes, Some e)
      | None => let! e := try (reindex_all (touched changes)) in ret (changes, e)
      end
  end.

(** ** A handle on a store *)

(** A duration is in nanoseconds; a clock is what it reads at each instant. *)
Definition DefaultLockTimeout : Z := 2 * 10 ^ 9.

Record file_store := MkFileStore { fsDir : bytes; fsMax : Z; fsLockTimeout : Z; fsNow : Z -> Z }.

Definition Option : Type := file_store -> file_store.

Definition WithMaxEntryBytes (n : Z) : Option := fun s => MkFileStore (fsDir s) n (fsLockTimeout s) (fsNow s).
Definition WithLockTimeout (d : Z) : Option := fun s => MkFileStore (fsDir s) (fsMax s) d (fsNow s).
Definition WithClock (now : Z -> Z) : Option := fun s => MkFileStore (fsDir s) (fsMax s) (fsLockTimeout s) now.

(** [mkdir] is what making the store's own directory gave. *)
Definition file_Open (mkdir : bytes -> option ferror) (dir : bytes) (opts : list Option) : res ferror file_store :=
  let s := foldl (fun s opt => opt s) (MkFileStore dir DefaultMaxEntryBytes DefaultLockTimeout (fun t => t)) opts in
  match mkdir dir with
  | Some err => Err err
  | None => Ok s
  end.

(** A store opened in an empty directory. *)
Definition empty_world : world := MkWorld ∅ 5 (fun n => [Z.of_nat n]) [].
