(* ===== verification/FileLaws.v ===== *)
(** * The file store implements the contract

    A directory in sync with a journal: its complete lines are the journal's
    records, an entry file holds what the journal replays to for its entry,
    and the cursor, if any, was saved for this journal.  Every operation of
    the file store on such a directory answers as the specification does,
    and leaves it in sync. *)

From S2P Require Import Prelude GoStd GoTime Sha256 Memory Store Search Json JsonRead Codec Frontmatter Records Fsys FileJournal FileState FileStore.

(** ** The paths of the store *)

(** A file the store writes whole. *)
Inductive own : path -> Prop :=
| own_entry scope name : ValidName scope = true -> ValidName name = true -> own (entryName scope name)
| own_index scope : ValidName scope = true -> own (scope, indexName)
| own_state : own (top stateName).

Lemma name_no_dot n : ValidName n = true -> "."%char ∉ n.
Proof. intros H. by apply (ValidName_no_byte n "."%char). Qed.

Lemma name_not_top n x : ValidName n = true -> "."%char ∈ x -> top n <> top x.
Proof. intros Hn Hx [= ->]. by apply name_no_dot in Hn. Qed.

Lemma journal_not_top n : ValidName n = true -> journal_path <> top n.
Proof.
  intros Hn E. symmetry in E. apply (name_not_top n journalName Hn) in E; [done|].
  by apply (bool_decide_eq_true_1 _).
Qed.

Lemma name_no_tmp n s : ValidName n = true -> no_tmp (n ++ s).
Proof.
  intros Hn. unfold no_tmp. destruct n as [|c n]; [by apply ValidName_nonempty in Hn|].
  apply name_no_dot in Hn. rewrite not_elem_of_cons in Hn. destruct Hn as [Hn _].
  change (Ascii.eqb "." c && HasPrefix (n ++ s) (bs "tmp-") = false). by destruct (Ascii.eqb_spec "." c).
Qed.

Lemma own_no_tmp p : own p -> no_tmp p.2.
Proof. intros [scope name _ Hn|scope _|]; [by apply name_no_tmp|done..]. Qed.

Lemma own_journal p : own p -> p <> journal_path.
Proof.
  intros [scope name Hs _|scope Hs|]; unfold journal_path, top; [..|done]; intros [= -> _];
    by apply ValidName_nonempty in Hs.
Qed.

Lemma own_top p scope : own p -> ValidName scope = true -> p <> top scope.
Proof.
  intros [scope' name Hs' _|scope' Hs'|] Hs; unfold entryName, top.
  1, 2: intros [= -> _]; by apply ValidName_nonempty in Hs'.
  intros [= <-]. done.
Qed.

Lemma own_self p : own p -> p <> top p.1.
Proof.
  intros [scope name Hs _|scope Hs|]; cbn; unfold top, entryName; [..|done]; intros [= E _]; subst;
    by apply ValidName_nonempty in Hs.
Qed.

(** ** A directory the store can write in *)

Record calm (w : world) : Prop := {
  ca_quiet : quiet w;
  ca_fresh : fresh w;
  ca_dirs scope : ValidName scope = true -> dir_ok scope (wFiles w);
  ca_own p : own p -> wFiles w !! p <> Some ODir
}.

Lemma own_dir_ok p w : calm w -> own p -> dir_ok p.1 (wFiles w).
Proof. intros Hw [scope name Hs _|scope Hs|]; cbn; [by apply (ca_dirs w Hw)..|by left]. Qed.

Definition written (p : path) (f : file) (w : world) : world :=
  MkWorld (<[p := OFile f]> (dir_made p.1 (wFiles w))) (wClock w) (fun n => wRand w (S n)) [].

Lemma dir_made_cases d m p :
  dir_made d m !! p = m !! p \/ d <> [] /\ p = top d /\ m !! p = None /\ dir_made d m !! p = Some ODir.
Proof.
  unfold dir_made. case_bool_decide; [by left|]. destruct (m !! top d) eqn:E; [by left|].
  destruct (decide (p = top d)) as [->|Hne]; [right; by rewrite lookup_insert_eq|left; by rewrite lookup_insert_ne].
Qed.

Lemma calm_insert p f w rand :
  calm w -> own p \/ p = journal_path ->
  (forall i, exists k, rand i = wRand w k) ->
  calm (MkWorld (<[p := OFile f]> (dir_made p.1 (wFiles w))) (wClock w) rand []).
Proof.
  intros Hw Hp Hr. assert (Hd : dir_ok p.1 (wFiles w)) by (destruct Hp as [Hp| ->]; [by apply own_dir_ok|by left]).
  assert (Hnt : no_tmp p.2) by (destruct Hp as [Hp| ->]; [by apply own_no_tmp|done]).
  assert (Hname : p.1 <> [] -> ValidName p.1 = true).
  { destruct Hp as [[]| ->]; done. }
  split; cbn.
  - done.
  - intros i d. cbn [wFiles wRand]. destruct (Hr i) as [k ->].
    rewrite lookup_insert_ne by (intros E; by apply (no_tmp_ne _ _ Hnt (f_equal snd E))).
    destruct (dir_made_cases p.1 (wFiles w) (d, tmp_prefix ++ Sha256.hex (wRand w k))) as [->|(Hne & E & _)];
      [by apply (ca_fresh w Hw)|].
    apply (f_equal snd) in E. cbn [snd top] in E. symmetry in E.
    pose proof (name_no_tmp p.1 [] (Hname Hne)) as Hn. rewrite app_nil_r in Hn. by apply (no_tmp_ne _ _ Hn) in E.
  - intros scope Hs. right. rewrite lookup_insert_ne.
    2: { destruct Hp as [Hp| ->]; [by apply own_top|by apply journal_not_top]. }
    destruct (dir_made_cases p.1 (wFiles w) (top scope)) as [->|(_ & _ & _ & ->)]; [|by right].
    destruct (ca_dirs w Hw scope Hs) as [->|H]; [by apply ValidName_nonempty in Hs|done].
  - intros q Hq. destruct (decide (q = p)) as [->|Hne]; [by rewrite lookup_insert_eq|]. rewrite lookup_insert_ne by done.
    destruct (dir_made_cases p.1 (wFiles w) q) as [->|(Hne' & E & _)]; [by apply (ca_own w Hw)|].
    exfalso. by apply (own_top q p.1 Hq (Hname Hne')).
Qed.

Lemma writeAtomic_calm p data w :
  calm w -> own p ->
  let f := MkFile data (wClock w) 1 in
  writeAtomic p data w = (Ok tt, written p f w) /\ calm (written p f w).
Proof.
  intros Hw Hp. cbv zeta. split.
  - apply writeAtomic_quiet; [apply Hw|apply Hw|by apply own_dir_ok|by apply Hw|by apply own_no_tmp|by apply own_self].
  - apply calm_insert; [done|by left|]. intros i. by exists (S i).
Qed.

(** What a write leaves as it was. *)
Lemma written_other p f w q :
  q <> p -> q <> top p.1 -> wFiles (written p f w) !! q = wFiles w !! q.
Proof. intros Hp Hd. cbn. rewrite lookup_insert_ne by done. by rewrite dir_made_other. Qed.

Lemma written_root n f w q : q <> top n -> wFiles (written (top n) f w) !! q = wFiles w !! q.
Proof. intros Hp. cbn. by rewrite lookup_insert_ne. Qed.

Lemma written_self p f w : wFiles (written p f w) !! p = Some (OFile f).
Proof. apply lookup_insert_eq. Qed.

(** ** In sync with a journal *)

(** The file of an entry: its encoding, or nothing that reads as one. *)
Definition entry_file (m : gmap path object) (scope name : bytes) (o : option Entry) : Prop :=
  match o with
  | Some e => m !! top scope = Some ODir
      /\ exists f, m !! entryName scope name = Some (OFile f) /\ fLinks f <= 1 /\ fData f = encode e
  | None => forall f, m !! entryName scope name = Some (OFile f) -> 1 < fLinks f
  end.

Record synced (max : Z) (w : world) (j : list Change) : Prop := {
  sy_calm : calm w;
  sy_text : exists s, holds w s /\ text_records s = j /\ tail_of s = [] /\ undamaged s
              /\ blen s < 2 ^ 63 /\ forall c, saved w = Some c -> describes s c;
  sy_wf : journal_wf max j;
  sy_app : Forall appendable j;
  sy_time : Forall (fun c => cAt c <> 0) j;
  sy_entries scope name : ValidName scope = true -> ValidName name = true ->
    entry_file (wFiles w) scope name (replay j !! (scope, name))
}.

(** An entry a journal leaves live, as a file keeps it. *)
Lemma live_file max j r e :
  journal_wf max j -> Forall appendable j -> Forall (fun c => cAt c <> 0) j -> replay j !! r = Some e ->
  decode (encode e) = MkDecoded (eMeta e) (eUpdated e) (eContent e)
  /\ eUpdated e <> 0 /\ eHash e = Hash (eContent e) /\ eMetaHash e = MetaHash (eMeta e)
  /\ eDeleted e = false /\ entry_ref e = r /\ CheckEntry e max None = None.
Proof.
  intros Hj Ha Ht Hr. destruct (live_wf _ _ _ _ Hj Hr) as (Hh & Hm & Hs & Href & Hd).
  pose proof Hr as Hl. rewrite replay_last in Hl. destruct (last_for j r) as [c|] eqn:Ec; [|done]. cbn in Hl.
  destruct (eDeleted (cEntry c)); [done|]. injection Hl as <-.
  unfold last_for in Ec. apply last_Some_elem_of, list_elem_of_filter in Ec as [_ Hin].
  rewrite Forall_forall in Ha, Ht. destruct (Ha c Hin) as [[_ [_ _ _ Hmeta _ _ Hu] _ _ _ _ _] _ _ _ _].
  specialize (Ht c Hin). apply list_elem_of_lookup in Hin as [i Hi].
  pose proof (wf_at _ _ _ (Hj i c Hi)) as Hat. split_and!; try done.
  - rewrite decode_encode; [|by destruct Hs; split; try done; left|done]. f_equal. unfold file_meta.
    case_decide as Hz; [|done]. apply map_size_empty_inv in Hz. destruct (eMeta (cEntry c)) as [m|]; [|done].
    destruct Hmeta as [Hne _]. cbn in Hz. by subst.
  - congruence.
  - by apply CheckEntry_None.
Qed.

Lemma scopeIsDir_calm w scope : calm w -> ValidName scope = true ->
  scopeIsDir w scope = Ok (bool_decide (wFiles w !! top scope = Some ODir)).
Proof.
  intros Hw Hs. unfold scopeIsDir. destruct (ca_dirs w Hw scope Hs) as [->|[->| ->]]; [|done..].
  by apply ValidName_nonempty in Hs.
Qed.

(** A file that shows what the journal holds reads as that. *)
Lemma readEntry_file max w j scope name :
  calm w -> journal_wf max j -> Forall appendable j -> Forall (fun c => cAt c <> 0) j -> ValidName scope = true ->
  entry_file (wFiles w) scope name (replay j !! (scope, name)) -> readEntry w scope name = Ok (replay j !! (scope, name)).
Proof.
  intros Hw Hj Ha Ht Hs He. unfold readEntry. rewrite scopeIsDir_calm by done. cbn [res_bind].
  destruct (replay j !! (scope, name)) as [e|] eqn:Er.
  - destruct He as (-> & f & Hf & Hl & Hd). rewrite bool_decide_eq_true_2 by done. cbn [negb].
    unfold readRegular. rewrite Hf. cbn. destruct (Z.leb_spec (fLinks f) 1); [|lia]. rewrite Hd.
    destruct (live_file max j _ e Hj Ha Ht Er) as (-> & Hu & Hh & Hm & Hdel & Href & _). cbn.
    destruct (Z.eqb_spec (eUpdated e) 0); [done|]. injection Href as <- <-. rewrite <- Hh, <- Hm.
    destruct e. cbn in *. by subst.
  - case_bool_decide; cbn [negb]; [|done]. unfold readRegular. cbn in He.
    destruct (wFiles w !! entryName scope name) as [[f| | |]|]; [|done..].
    specialize (He f eq_refl). cbn. destruct (Z.leb_spec (fLinks f) 1); [lia|done].
Qed.

Section Reads.
Context (max : Z) (w : world) (j : list Change) (Hw : synced max w j).

Lemma scopeIsDir_synced scope : ValidName scope = true ->
  scopeIsDir w scope = Ok (bool_decide (wFiles w !! top scope = Some ODir)).
Proof using Hw. apply scopeIsDir_calm, Hw. Qed.

Lemma readEntry_synced scope name : ValidName scope = true -> ValidName name = true ->
  readEntry w scope name = Ok (replay j !! (scope, name)).
Proof using Hw. intros Hs Hn. apply (readEntry_file max); [apply Hw..|done|by apply Hw]. Qed.

Lemma CutSuffix_app s p : CutSuffix (s ++ p) p = Some s.
Proof.
  unfold CutSuffix, HasSuffix. rewrite reverse_app, HasPrefix_app, length_app.
  replace (length s + length p - length p)%nat with (length s) by lia. by rewrite take_app_length.
Qed.

Lemma CutSuffix_Some n p s : CutSuffix n p = Some s -> n = s ++ p.
Proof.
  unfold CutSuffix, HasSuffix. destruct (HasPrefix _ _) eqn:E; [|done]. intros [= <-].
  apply HasPrefix_spec in E as [t E]. apply (f_equal reverse) in E. rewrite reverse_involutive, reverse_app, reverse_involutive in E.
  rewrite E, length_app. replace (length (reverse t) + length p - length p)%nat with (length (reverse t)) by lia.
  by rewrite take_app_length.
Qed.

Lemma ReadDir_elem n o d : (n, o) ∈ ReadDir w d <-> wFiles w !! (d, n) = Some o.
Proof.
  unfold ReadDir. rewrite list_elem_of_omap. split.
  - intros ([[d' n'] o'] & Hin & H). cbn in H. case_bool_decide; [|done]. simplify_eq.
    by apply elem_of_map_to_list in Hin.
  - intros H. exists ((d, n), o). rewrite elem_of_map_to_list. split; [done|]. cbn. by rewrite bool_decide_eq_true_2.
Qed.

Lemma ReadDir_NoDup d : NoDup (ReadDir w d).*1.
Proof.
  unfold ReadDir. pose proof (NoDup_fst_map_to_list (wFiles w)) as Hnd.
  induction (map_to_list (wFiles w)) as [|[[d' n] o] l IH]; [constructor|]. cbn in Hnd.
  apply NoDup_cons in Hnd as [Hn Hnd]. cbn. case_bool_decide as Hd; [|by apply IH].
  cbn. apply NoDup_cons. split; [|by apply IH]. intros Hin. apply Hn.
  apply list_elem_of_fmap in Hin as ([n' o'] & -> & Hin). apply list_elem_of_omap in Hin as ([[d2 n2] o2] & Hin & H).
  cbn in H. case_bool_decide; [|done]. simplify_eq. apply list_elem_of_fmap. by eexists (_, _, o').
Qed.

(** The live entry a name in a directory is of. *)
Definition listed (scope : bytes) (no : bytes * object) : option Entry :=
  name ← entry_of no.1 no.2; replay j !! (scope, name).

Lemma entry_of_Some n o name : entry_of n o = Some name -> n = name ++ bs ".md" /\ ValidName name = true.
Proof.
  unfold entry_of. destruct (CutSuffix n (bs ".md")) as [s|] eqn:E; [|done]. cbn. apply CutSuffix_Some in E.
  destruct o; try done. destruct (ValidName s) eqn:Ev; [|done]. by intros [= <-].
Qed.

Lemma list_loop_synced scope l : ValidName scope = true -> list_loop w scope l = Ok (omap (listed scope) l).
Proof using Hw.
  intros Hs. induction l as [|[n o] l IH]; [done|]. cbn [list_loop omap list_omap]. unfold listed at 1. cbn [fst snd].
  destruct (entry_of n o) as [name|] eqn:E; cbn [mbind option_bind]; [|done].
  apply entry_of_Some in E as [_ Hv]. rewrite readEntry_synced, IH by done. cbn. by destruct (replay j !! _).
Qed.

Lemma list_scope_synced scope : ValidName scope = true -> list_scope w scope = Ok (live_in (replay j) scope).
Proof using Hw.
  intros Hs. unfold list_scope. rewrite scopeIsDir_synced by done. cbn [res_bind].
  pose proof (replay_keyed j) as Hk.
  assert (Hlive : forall n e, replay j !! (scope, n) = Some e -> ValidName n = true /\ eName e = n).
  { intros n e H. destruct (live_wf _ _ _ _ (sy_wf _ _ _ Hw) H) as (_ & _ & [_ Hn _ _ _ _ _] & Href & _).
    injection Href as _ <-. split; [by apply ValidName_iff|done]. }
  case_bool_decide as Hd; cbn [negb].
  - rewrite list_loop_synced by done. cbn [res_bind]. f_equal. apply live_in_unique; [done| |].
    + pose proof (ReadDir_NoDup scope) as Hnd. induction (ReadDir w scope) as [|[n o] l IH]; [constructor|].
      cbn in Hnd. apply NoDup_cons in Hnd as [Hn Hnd]. cbn [omap list_omap]. unfold listed at 1. cbn [fst snd].
      destruct (entry_of n o) as [name|] eqn:E; cbn [mbind option_bind]; [|by apply IH].
      destruct (replay j !! (scope, name)) as [e|] eqn:Er; [|by apply IH]. cbn. apply NoDup_cons. split; [|by apply IH].
      destruct (Hlive _ _ Er) as [_ ->]. apply entry_of_Some in E as [-> _]. intros Hin. apply Hn.
      apply list_elem_of_fmap in Hin as (e' & Ee & Hin). apply list_elem_of_omap in Hin as ([n' o'] & Hin & H').
      unfold listed in H'. cbn in H'. destruct (entry_of n' o') as [name'|] eqn:E'; [|done]. cbn in H'.
      destruct (Hlive _ _ H') as [_ En]. apply entry_of_Some in E' as [-> _]. apply list_elem_of_fmap.
      exists (name' ++ bs ".md", o'). split; [|done]. cbn. by rewrite Ee, En.
    + intros e. rewrite list_elem_of_omap. split.
      * intros ([n o] & Hin & H). unfold listed in H. cbn in H. destruct (entry_of n o) as [name|] eqn:E; [|done].
        cbn in H. destruct (Hlive _ _ H) as [_ ->]. done.
      * intros H. destruct (Hlive _ _ H) as [Hn _]. pose proof (sy_entries _ _ _ Hw scope _ Hs Hn) as He.
        rewrite H in He. destruct He as (_ & f & Hf & _). exists (eName e ++ bs ".md", OFile f).
        split; [by apply ReadDir_elem|]. unfold listed, entry_of. cbn [fst snd]. rewrite CutSuffix_app. cbn.
        by rewrite Hn.
  - f_equal. symmetry. destruct (live_in (replay j) scope) as [|e l] eqn:E; [done|]. exfalso.
    assert (Hin : e ∈ live_in (replay j) scope) by (rewrite E; left). apply live_in_elem in Hin; [|done].
    destruct (Hlive _ _ Hin) as [Hn _]. pose proof (sy_entries _ _ _ Hw scope _ Hs Hn) as He.
    rewrite Hin in He. by destruct He as (? & _).
Qed.
End Reads.

(** ** The cursor holds what the journal replays to *)

Definition state_of (e : Entry) : stateEntry := MkStateEntry (eHash e) (MetaHash (eMeta e)).

Lemma entries_replay j scope name :
  Forall (fun c => ValidScope (eScope (cEntry c)) = true) j -> ValidName scope = true ->
  entries_of j !! key scope name = state_of <$> replay j !! (scope, name).
Proof.
  intros Hj Hs. induction j as [|c j IH] using rev_ind; [done|].
  apply Forall_app in Hj as [Hj Hc]. rewrite Forall_singleton in Hc.
  rewrite replay_snoc. unfold entries_of. rewrite foldl_app. cbn [foldl]. fold (entries_of j).
  unfold note_map, apply_change, change_ref, entry_ref. cbv zeta.
  destruct (decide ((eScope (cEntry c), eName (cEntry c)) = (scope, name))) as [E|E].
  - injection E as -> ->. destruct (eDeleted (cEntry c)).
    + by rewrite !lookup_delete_eq.
    + by rewrite !lookup_insert_eq.
  - assert (key (eScope (cEntry c)) (eName (cEntry c)) <> key scope name).
    { intros Ek. apply key_inj in Ek as [? ?]; [congruence|done..]. }
    destruct (eDeleted (cEntry c)); [rewrite !lookup_delete_ne by done|rewrite !lookup_insert_ne by done]; by apply IH.
Qed.

Lemma appendable_scope j : Forall appendable j -> Forall (fun c => ValidScope (eScope (cEntry c)) = true) j.
Proof. intros H. eapply Forall_impl; [exact H|]. by intros c []. Qed.

Lemma appendable_named j : Forall appendable j -> Forall named j.
Proof. intros H. eapply Forall_impl; [exact H|]. intros c [[_ [] _ _ _ _ _] ? ? ? ?]. done. Qed.

Lemma synced_load max w j s :
  synced max w j -> holds w s -> text_records s = j -> exists read, loadState w = Ok (state_for s read).
Proof.
  intros Hw Hs Hj. destruct (sy_text _ _ _ Hw) as (s' & Hs' & _ & _ & _ & _ & Hc).
  assert (s' = s) as ->. { destruct Hs as (o & Ho & ->), Hs' as (o' & Ho' & ->). congruence. }
  apply loadState_holds; [done|]. intros c Hsv _. by apply Hc.
Qed.

Lemma synced_held st s read max w j scope name :
  synced max w j -> text_records s = j -> st = state_for s read -> ValidName scope = true ->
  stEntries st !! key scope name = state_of <$> replay j !! (scope, name).
Proof.
  intros Hw Hj -> Hs. cbn. rewrite Hj. apply entries_replay; [|done]. apply appendable_scope, Hw.
Qed.

(** The file agrees with the journal, so that there is nothing to note. *)
Lemma outside_synced max w w' j s read scope name at_ :
  synced max w j -> text_records s = j -> ValidName scope = true ->
  outside max w' (state_for s read) scope name (replay j !! (scope, name)) at_ = Ok None.
Proof.
  intros Hw Hj Hs. unfold outside. rewrite (synced_held _ s read max w j) by done.
  destruct (replay j !! (scope, name)) as [e|]; [|done]. cbn. unfold agrees, state_of. cbn.
  by rewrite !bool_decide_eq_true_2.
Qed.

Lemma noteOutside_synced max w w' j s read scope name at_ :
  synced max w j -> text_records s = j -> ValidName scope = true ->
  noteOutside max (state_for s read) scope name (replay j !! (scope, name)) at_ w' = (Ok (state_for s read), w').
Proof. intros Hw Hj Hs. unfold noteOutside, bind, look. by rewrite (outside_synced max w w' j s read). Qed.

(** Records are fewer than bytes. *)
Lemma text_records_length s : blen (text_records s) <= blen s.
Proof.
  rewrite text_records_lines. transitivity (blen (lines s)).
  - induction (lines s) as [|l ls IH]; [done|]. cbn [fmap list_fmap concat]. rewrite blen_app, blen_cons.
    assert (blen (line_record l) <= 1); [|lia]. unfold line_record.
    case_bool_decide; [done|]. by destruct (decodeRecord l).
  - rewrite (whole_tail s). pose proof (blen_nonneg (tail_of s)). unfold whole.
    assert (blen (lines s) <= foldr (fun l n => blen l + 1 + n) 0 (lines s)); [|lia].
    induction (lines s) as [|l ls IH]; [done|]. cbn [foldr]. rewrite blen_cons. pose proof (blen_nonneg l). lia.
Qed.

Lemma journal_wf_seq_of max j : journal_wf max j -> seq_of j = blen j.
Proof.
  intros Hj. unfold seq_of. destruct (last j) as [c|] eqn:E.
  - apply last_Some in E as [l ->]. rewrite (journal_wf_seq max _ (length l) c Hj).
    + rewrite blen_app. unfold blen. cbn. lia.
    + by rewrite lookup_app_r, Nat.sub_diag by lia.
  - by apply last_None in E as ->.
Qed.

Lemma holds_data w s : holds w s -> journal_data w = s.
Proof. unfold journal_data. intros H. destruct (holds_file w s H) as [[-> ->]|(f & -> & _ & <-)]; done. Qed.

(** ** The record appended and the cursor saved *)

Definition commit (st : journalState) (c : Change) : M Change :=
  let! (st, c) := appendChange st c in run! saveState st in ret c.

Lemma commit_quiet w s read c :
  calm w -> holds w s -> torn_ok s -> Forall appendable (text_records s) ->
  let n := seq_of (text_records s) in
  0 <= n -> n + 1 < 2 ^ 64 -> appendable (numbered (n + 1) c) ->
  exists w' s', commit (state_for s read) c w = (Ok (numbered (n + 1) c), w')
    /\ calm w' /\ holds w' s' /\ text_records s' = text_records s ++ [numbered (n + 1) c] /\ tail_of s' = []
    /\ (exists line, lines s' = lines s ++ (if bool_decide (tail_of s = []) then [] else [tail_of s]) ++ [line]
          /\ line_record line = [numbered (n + 1) c])
    /\ (whole s' < 2 ^ 63 -> exists cu, saved w' = Some cu /\ describes s' cu)
    /\ forall p, p <> journal_path -> p <> top stateName -> wFiles w' !! p = wFiles w !! p.
Proof.
  intros Hw Hs Ht Hall n Hn0 Hn Hap.
  destruct (appendChange_quiet _ c s read w (ca_quiet w Hw) Hs eq_refl Ht Hn0 Hn Hap)
    as (f & Hl & Htail & Hrec & Hlines & Ha). fold n in Hrec, Hlines, Ha.
  set (w1 := with_files (<[journal_path := OFile f]> (wFiles w)) w) in *.
  assert (Hw1 : calm w1).
  { pose proof (ca_quiet w Hw) as Hq.
    pose proof (calm_insert journal_path f w (wRand w) Hw (or_intror eq_refl) (fun i => ex_intro _ i eq_refl)) as H.
    unfold w1, with_files. by rewrite Hq. }
  assert (Hs1 : holds w1 (fData f)) by (eapply file_holds; [apply lookup_insert_eq|done]).
  unfold commit. erewrite bind_ok by exact Ha. unfold saveState.
  destruct (writeAtomic_calm (top stateName)
    (marshal_cursor (cursor_of (state_for (fData f) read)) ++ [newline]) w1 Hw1 own_state) as [E Hw2].
  erewrite bind_ok by exact E. exists (written (top stateName) (MkFile
    (marshal_cursor (cursor_of (state_for (fData f) read)) ++ [newline]) (wClock w1) 1) w1), (fData f).
  split_and!; try done.
  - destruct Hs1 as (o & Ho & Eo). exists o. split; [|done]. rewrite <- Ho. apply open_journal_ext.
    by apply written_root.
  - intros Hroom. exists (cursor_of (state_for (fData f) read)). split; [|by apply describes_whole].
    erewrite saved_file by (apply written_self || done). cbn [fData]. apply unmarshal_marshal_cursor, state_for_carried; [|..].
    + apply appendable_named. rewrite Hrec. apply Forall_app. split; [done|]. by constructor.
    + rewrite Hrec. unfold seq_of. rewrite last_snoc. cbn. lia.
    + done.
  - intros p Hp Hp'. rewrite written_root by done. cbn. by rewrite lookup_insert_ne.
Qed.

(** ** The entry file and the index *)

Lemma list_scope_calm w scope : calm w -> ValidName scope = true -> exists es, list_scope w scope = Ok es.
Proof.
  intros Hw Hs. assert (Hd : exists b, scopeIsDir w scope = Ok b).
  { unfold scopeIsDir. destruct (ca_dirs w Hw scope Hs) as [->|[->| ->]]; [by apply ValidName_nonempty in Hs|eauto..]. }
  destruct Hd as [b Hd]. unfold list_scope. rewrite Hd. cbn [res_bind]. destruct (negb b); [eauto|].
  assert (Hl : forall l, exists es, list_loop w scope l = Ok es).
  { induction l as [|[n o] l [es IH]]; [by eexists|]. cbn [list_loop]. destruct (entry_of n o); [|eauto].
    unfold readEntry at 1. rewrite Hd, IH. cbn [res_bind]. destruct (negb b); [by eexists|].
    destruct (readRegular _ _); by eexists. }
  destruct (Hl (ReadDir w scope)) as [es ->]. by eexists.
Qed.

Lemma dir_made_top d m : d <> [] -> dir_ok d m -> dir_made d m !! top d = Some ODir.
Proof.
  intros Hd [?|[E|E]]; [done| |]; unfold dir_made; rewrite bool_decide_eq_false_2, E by done; [apply lookup_insert_eq|done].
Qed.

Lemma reindex_calm w scope : calm w -> ValidName scope = true -> wFiles w !! top scope = Some ODir ->
  exists w', reindex scope w = (Ok tt, w') /\ calm w'
    /\ forall p, p <> (scope, indexName) -> wFiles w' !! p = wFiles w !! p.
Proof.
  intros Hw Hs Hd. destruct (list_scope_calm w scope Hw Hs) as [es Hes]. unfold reindex, look, bind. rewrite Hes.
  destruct (writeAtomic_calm (scope, indexName) (index_text scope es) w Hw (own_index scope Hs)) as [E Hw'].
  eexists. split_and!; [exact E|exact Hw'|]. intros p Hp. destruct (decide (p = top scope)) as [->|Ht].
  - rewrite Hd. cbn. rewrite lookup_insert_ne by (intros [= -> _]; by apply ValidName_nonempty in Hs).
    apply dir_made_top; [by apply ValidName_nonempty|by apply (ca_dirs w Hw)].
  - by apply written_other.
Qed.

Lemma entry_not_index scope scope' name : ValidName name = true -> entryName scope name <> (scope', indexName).
Proof.
  intros Hn E. apply (f_equal snd) in E. cbn [snd entryName] in E. change indexName with (bs "INDEX" ++ bs ".md") in E.
  apply app_inv_tail in E. subst. done.
Qed.

Lemma entryName_inj s n s' n' : entryName s n = entryName s' n' -> (s, n) = (s', n').
Proof. unfold entryName. intros E. injection E as -> E. by apply app_inv_tail in E as ->. Qed.

(** The file written and the index after it. *)
Lemma entry_written w scope name data :
  calm w -> ValidName scope = true -> ValidName name = true ->
  exists w1 w2, writeAtomic (entryName scope name) data w = (Ok tt, w1) /\ reindex scope w1 = (Ok tt, w2) /\ calm w2
    /\ wFiles w2 !! top scope = Some ODir
    /\ wFiles w2 !! entryName scope name = Some (OFile (MkFile data (wClock w) 1))
    /\ forall p, p <> entryName scope name -> p <> (scope, indexName) -> p <> top scope -> wFiles w2 !! p = wFiles w !! p.
Proof.
  intros Hw Hs Hn. pose proof (own_entry scope name Hs Hn) as Ho.
  destruct (writeAtomic_calm _ data w Hw Ho) as [E1 Hw1]. set (f := MkFile data (wClock w) 1) in *.
  assert (Hd : wFiles (written (entryName scope name) f w) !! top scope = Some ODir).
  { cbn. rewrite lookup_insert_ne by by apply own_top.
    apply dir_made_top; [by apply ValidName_nonempty|by apply (ca_dirs w Hw)]. }
  destruct (reindex_calm _ scope Hw1 Hs Hd) as (w2 & E2 & Hw2 & Hp).
  exists (written (entryName scope name) f w), w2. split_and!; [done..| | |].
  - rewrite Hp; [done|]. intros [= <- _]. by apply ValidName_nonempty in Hs.
  - rewrite Hp by by apply entry_not_index. apply written_self.
  - intros p H1 H2 H3. rewrite Hp by done. by apply written_other.
Qed.

Lemma entry_file_ext m m' scope name o :
  (m !! top scope = Some ODir -> m' !! top scope = Some ODir) ->
  m' !! entryName scope name = m !! entryName scope name ->
  entry_file m scope name o -> entry_file m' scope name o.
Proof.
  intros Ht He. unfold entry_file. rewrite He. destruct o as [e|]; [|done]. intros [H1 H2]. split; [by apply Ht|done].
Qed.

(** ** Put and Forget *)

Definition lift {A} (r : res error A) : res ferror A := match r with Ok a => Ok a | Err e => Err (FStore e) end.

Lemma appendable_carried j : Forall appendable j -> Forall change_carried j.
Proof. intros H. eapply Forall_impl; [exact H|]. by intros c []. Qed.

Lemma spec_put_appendable max j now session e opts c :
  Forall appendable j -> blen j + 1 < 2 ^ 64 -> year_ok now = true -> ValidString session = true -> opts_text opts ->
  spec_put max j now session e opts = Ok c -> appendable c.
Proof.
  intros Hj Hl Hy Hse Ho Esp. pose proof (spec_put_carried _ _ _ (appendable_carried _ Hj) Hl Hy Hse _ _ _ _ Ho Esp) as Hc.
  destruct (spec_put_wf _ _ _ _ _ _ _ Esp) as [Hs _ Hh _ Hst _ _]. pose proof (blen_nonneg j).
  split; [done|by apply ValidName_iff, Hst|by apply ValidName_iff, Hst|rewrite Hh; apply Hash_nonempty|].
  rewrite Hs. unfold next_seq. lia.
Qed.

Lemma bind_look {A B} (f : world -> res ferror A) (k : A -> M B) a w : f w = Ok a -> bind (look f) k w = k a w.
Proof. unfold bind, look. by intros ->. Qed.

Lemma guard_bind {B} e (k : unit -> M B) w :
  bind (guard e) k w = match e with Some err => (Err (FStore err), w) | None => k tt w end.
Proof. by destruct e. Qed.

(** The directory after the record of a write: in sync with the journal and
    the record. *)
Lemma synced_snoc max w w' s' j c :
  synced max w j -> calm w' -> holds w' s' -> text_records s' = j ++ [c] -> tail_of s' = [] -> undamaged s' ->
  (whole s' < 2 ^ 63 -> exists cu, saved w' = Some cu /\ describes s' cu) ->
  change_wf max j c -> appendable c -> cAt c <> 0 ->
  entry_file (wFiles w') (eScope (cEntry c)) (eName (cEntry c)) (live_of (Some c)) ->
  (forall scope name, ValidName scope = true -> ValidName name = true -> (scope, name) <> change_ref c ->
     wFiles w' !! entryName scope name = wFiles w !! entryName scope name) ->
  (forall scope, ValidName scope = true -> wFiles w !! top scope = Some ODir -> wFiles w' !! top scope = Some ODir) ->
  blen (journal_data w') < 2 ^ 63 -> synced max w' (j ++ [c]).
Proof.
  intros Hw Hc Hs Hr Ht Hun Hsv Hwf Ha Hat He Ho Hd Hroom. rewrite (holds_data _ _ Hs) in Hroom.
  assert (Hwh : whole s' < 2 ^ 63). { pose proof (whole_tail s'). pose proof (blen_nonneg (tail_of s')). lia. }
  split; [done| | | | |].
  - exists s'. split_and!; [done..|]. destruct (Hsv Hwh) as (cu & -> & Hcu). by intros ? [= <-].
  - apply journal_wf_snoc; [apply Hw|done].
  - apply Forall_app. split; [apply Hw|by constructor].
  - apply Forall_app. split; [apply Hw|by constructor].
  - intros scope name Hsc Hn. rewrite replay_last, last_for_snoc. case_decide as E.
    + unfold change_ref, entry_ref in E. by injection E as <- <-.
    + rewrite <- replay_last. eapply entry_file_ext, Hw; [by apply Hd|by apply Ho|done..].
Qed.

(** A write touches its entry's file, its scope's directory and index, and
    then the journal and the cursor. *)
Record touches (scope name : bytes) (w w2 w' : world) : Prop := {
  to_scope : ValidName scope = true;
  to_name : ValidName name = true;
  to_dir : wFiles w2 !! top scope = Some ODir;
  to_entry p : p <> entryName scope name -> p <> (scope, indexName) -> p <> top scope -> wFiles w2 !! p = wFiles w !! p;
  to_rest p : p <> journal_path -> p <> top stateName -> wFiles w' !! p = wFiles w2 !! p
}.

Lemma holds_same w w' s : wFiles w' !! journal_path = wFiles w !! journal_path -> holds w s -> holds w' s.
Proof. intros E (o & Ho & Eo). exists o. split; [|done]. rewrite <- Ho. by apply open_journal_ext. Qed.

Lemma entry_not_state scope name : ValidName scope = true -> entryName scope name <> top stateName.
Proof. intros Hs [= E _]. subst. by apply ValidName_nonempty in Hs. Qed.

Section Touches.
Context (scope name : bytes) (w w2 w' : world) (H : touches scope name w w2 w').

Lemma touches_journal : wFiles w2 !! journal_path = wFiles w !! journal_path.
Proof using H.
  destruct H as [Hs Hn _ He _]. apply He; [| |by apply journal_not_top].
  - intros E. by apply (own_journal _ (own_entry _ _ Hs Hn)).
  - intros E. by apply (own_journal _ (own_index _ Hs)).
Qed.

Lemma touches_self : wFiles w' !! entryName scope name = wFiles w2 !! entryName scope name.
Proof using H.
  destruct H as [Hs Hn _ _ Hr]. apply Hr; [|by apply entry_not_state].
  intros E. by apply (own_journal _ (own_entry _ _ Hs Hn)).
Qed.

Lemma touches_top sc : ValidName sc = true -> wFiles w' !! top sc = wFiles w2 !! top sc.
Proof using H.
  intros Hs. apply (to_rest _ _ _ _ _ H); intros E; [by apply (journal_not_top sc)|].
  by apply (own_top _ _ own_state Hs).
Qed.

Lemma touches_dirs sc : ValidName sc = true -> wFiles w !! top sc = Some ODir -> wFiles w' !! top sc = Some ODir.
Proof using H.
  intros Hsc Hd. rewrite touches_top by done. destruct H as [Hs Hn Hd2 He _].
  destruct (decide (sc = scope)) as [->|Hne]; [done|]. rewrite He; [done|..].
  - intros E. by apply (own_top _ _ (own_entry _ _ Hs Hn) Hsc).
  - intros E. by apply (own_top _ _ (own_index _ Hs) Hsc).
  - intros [= E]. congruence.
Qed.

Lemma touches_others sc n : ValidName sc = true -> ValidName n = true -> (sc, n) <> (scope, name) ->
  wFiles w' !! entryName sc n = wFiles w !! entryName sc n.
Proof using H.
  intros Hsc Hna Hne. destruct H as [Hs Hn _ He Hr]. rewrite Hr, He; [done|..].
  - by intros E%entryName_inj.
  - by apply entry_not_index.
  - intros E. by apply (own_top _ _ (own_entry _ _ Hsc Hna) Hs).
  - intros E. by apply (own_journal _ (own_entry _ _ Hsc Hna)).
  - by apply entry_not_state.
Qed.
End Touches.

(** The record of a write, appended to a directory that already shows it. *)
Lemma commit_synced max w w2 j s read scope name c0 c :
  synced max w j -> holds w s -> text_records s = j -> tail_of s = [] -> undamaged s ->
  touches scope name w w2 w2 -> calm w2 -> numbered (next_seq j) c0 = c ->
  blen j + 1 < 2 ^ 64 -> appendable c -> change_wf max j c -> cAt c <> 0 -> change_ref c = (scope, name) ->
  entry_file (wFiles w2) scope name (live_of (Some c)) ->
  exists w', commit (state_for s read) c0 w2 = (Ok c, w')
    /\ (blen (journal_data w') < 2 ^ 63 -> synced max w' (j ++ [c])).
Proof.
  intros Hw Hst Hj Ht Hun Hto Hw2 Hnum Hsm Hap Hwf Hat Href Hef.
  assert (Hs2 : holds w2 s) by (eapply holds_same, Hst; by eapply touches_journal).
  assert (Hseq : seq_of (text_records s) = blen j) by (rewrite Hj; apply (journal_wf_seq_of max), Hw).
  pose proof (blen_nonneg j) as Hnn.
  destruct (commit_quiet w2 s read c0) as (w' & s' & Ecm & Hw' & Hs' & Hr' & Ht' & (line & Hls & Hlr) & Hsv' & Hp').
  { done. } { done. } { unfold torn_ok. by rewrite Ht. } { rewrite Hj. apply Hw. }
  { by rewrite Hseq. } { by rewrite Hseq. } { rewrite Hseq. unfold next_seq in Hnum. by rewrite Hnum. }
  rewrite Hseq in *. unfold next_seq in Hnum. rewrite Hnum in *. exists w'. split; [exact Ecm|]. intros Hroom.
  assert (Hto' : touches scope name w w2 w') by by destruct Hto; split.
  pose proof (to_scope _ _ _ _ _ Hto) as Hsc. unfold change_ref, entry_ref in Href. injection Href as Es En.
  apply (synced_snoc max w w' s'); try done.
  - by rewrite Hr', Hj.
  - unfold undamaged. rewrite Hls, Ht. cbn [bool_decide]. rewrite bool_decide_eq_true_2 by done.
    apply Forall_app. split; [done|]. constructor; [eauto|done].
  - rewrite Es, En. eapply entry_file_ext, Hef; [by rewrite (touches_top _ _ _ _ _ Hto')|by eapply touches_self].
  - intros sc n Hsc' Hn Hne. apply (touches_others _ _ _ _ _ Hto'); [done..|].
    unfold change_ref, entry_ref in Hne. by rewrite Es, En in Hne.
  - apply (touches_dirs _ _ _ _ _ Hto').
Qed.

(** What a Put is built on and replaces, when the journal holds the file. *)
Lemma put_chain scope name o (stored : option Entry) :
  let h := (fun se => MkEntry scope name [] None (seHashOf se) [] 0 false) <$> (state_of <$> stored) in
  match stored with
  | Some s => if bool_decide (BaseFor o h = eHash s) && negb (bool_decide (hashOf h = eHash s)) then hashOf h else BaseFor o h
  | None => BaseFor o h
  end = BaseFor o stored /\ hashOf h = have_hash stored.
Proof.
  destruct stored as [s|]; [|done]. cbn [fmap option_fmap option_map hashOf seHashOf state_of eHash have_hash].
  rewrite (bool_decide_eq_true_2 (eHash s = eHash s)) by done. cbn [negb]. by rewrite andb_false_r.
Qed.

Section Put.
Context (max : Z) (w : world) (j : list Change) (now : Z) (session : bytes).
Context (Hw : synced max w j) (Hy : year_ok now = true) (Hz : now <> 0) (Hse : ValidString session = true).

Lemma journal_small : blen j + 1 < 2 ^ 64.
Proof using Hw.
  destruct (sy_text _ _ _ Hw) as (s & _ & <- & _ & _ & Hs & _). pose proof (text_records_length s). lia.
Qed.

Lemma file_put_synced e opts :
  opts_text opts ->
  exists w', file_put max None now session e opts w = (lift (spec_put max j now session e opts), w')
    /\ (blen (journal_data w') < 2 ^ 63 -> synced max w' (appended j (spec_put max j now session e opts))).
Proof using Hw Hy Hz Hse.
  intros Hopts. unfold file_put. rewrite guard_bind.
  destruct (CheckEntry e 0 None) as [err|] eqn:E0.
  { exists w. unfold spec_put. by rewrite (CheckEntry_unlimited e max _ err E0). }
  apply CheckEntry_None in E0 as He. destruct He as [Hs%ValidName_iff Hn%ValidName_iff _ _ _ _ _].
  erewrite bind_ok by done.
  erewrite bind_look by by eapply readEntry_synced. rewrite !guard_bind.
  destruct (spec_put max j now session e opts) as [c|err] eqn:Esp.
  2: { exists w. unfold spec_put in Esp. unfold entry_ref in Esp.
       destruct (CheckEntry e max _); [by simplify_eq|].
       destruct (PutOptions_Check _ _ _ _); [by simplify_eq|done]. }
  pose proof (spec_put_appendable _ _ _ _ _ _ _ (sy_app _ _ _ Hw) journal_small Hy Hse Hopts Esp) as Hap.
  pose proof (spec_put_wf _ _ _ _ _ _ _ Esp) as Hwf.
  destruct (sy_text _ _ _ Hw) as (s & Hst & Hj & Ht & Hun & _ & _).
  destruct (synced_load _ _ _ s Hw Hst Hj) as [read Hload].
  unfold spec_put in Esp. unfold entry_ref in Esp. destruct (CheckEntry e max _); [done|].
  destruct (PutOptions_Check _ _ _ _); [done|]. injection Esp as Ec.
  erewrite bind_look by exact Hload. change (eScope (stamped now e)) with (eScope e). change (eName (stamped now e)) with (eName e).
  destruct (entry_written w (eScope e) (eName e) (encode (stamped now e)) (sy_calm _ _ _ Hw) Hs Hn)
    as (w1 & w2 & E1 & E2 & Hw2 & Hd2 & Hf2 & Hp2).
  erewrite bind_ok by exact E1. erewrite bind_ok by exact E2.
  erewrite bind_ok by by apply (noteOutside_synced max w w2 j). unfold held. rewrite (synced_held _ s read max w j) by done.
  destruct (put_chain (eScope e) (eName e) (ResolvePutOptions opts) (replay j !! (eScope e, eName e))) as [-> ->].
  assert (Hce : cEntry c = stamped now e) by by rewrite <- Ec.
  apply (commit_synced max w w2 j s read (eScope e) (eName e)); try done.
  - apply journal_small.
  - by rewrite <- Ec.
  - unfold change_ref. by rewrite Hce.
  - unfold live_of. rewrite Hce. cbn [stamped eDeleted entry_file]. split; [done|].
    by exists (MkFile (encode (stamped now e)) (wClock w) 1).
Qed.

Lemma spec_forget_appendable scope name c :
  spec_forget j now session scope name = Ok c -> appendable c.
Proof using Hw Hy Hse.
  intros Esp. pose proof journal_small as Hl. pose proof (blen_nonneg j).
  pose proof (spec_forget_carried _ _ _ (appendable_carried _ (sy_app _ _ _ Hw)) Hl Hy Hse _ _ _ Esp) as Hc.
  destruct (spec_forget_wf _ _ _ _ _ _ _ (sy_wf _ _ _ Hw) Esp) as [Hs _ Hh _ Hst _ _].
  split; [done|by apply ValidName_iff, Hst|by apply ValidName_iff, Hst|rewrite Hh; apply Hash_nonempty|].
  rewrite Hs. unfold next_seq. lia.
Qed.

Lemma Remove_calm scope name f : ValidName scope = true -> ValidName name = true ->
  wFiles w !! entryName scope name = Some (OFile f) ->
  let w1 := with_files (delete (entryName scope name) (wFiles w)) w in
  Remove (entryName scope name) w = (Ok tt, w1) /\ calm w1.
Proof using Hw.
  intros Hs Hn Hf. cbv zeta. pose proof (sy_calm _ _ _ Hw) as [Hq Hfr Hd Ho]. split.
  - unfold Remove, bind, look. rewrite Hf, bool_decide_eq_true_2 by eauto. by apply change_quiet.
  - split; cbn.
    + done.
    + intros i d. cbn [wFiles wRand with_files]. destruct (decide (entryName scope name = (d, tmp_prefix ++ Sha256.hex (wRand w i)))) as [->|].
      * apply lookup_delete_eq.
      * rewrite lookup_delete_ne by done. apply Hfr.
    + intros sc Hsc. right. rewrite lookup_delete_ne by by apply own_top; [apply own_entry|].
      destruct (Hd sc Hsc) as [->|?]; [by apply ValidName_nonempty in Hsc|done].
    + intros p Hp. destruct (decide (entryName scope name = p)) as [<-|]; [by rewrite lookup_delete_eq|].
      rewrite lookup_delete_ne by done. by apply Ho.
Qed.

Lemma file_forget_synced scope name :
  exists w', file_forget max None now session scope name w = (lift (spec_forget j now session scope name), w')
    /\ (blen (journal_data w') < 2 ^ 63 -> synced max w' (appended j (spec_forget j now session scope name))).
Proof using Hw Hy Hz Hse.
  unfold file_forget. rewrite guard_bind. destruct (CheckRef scope name) as [err|] eqn:Er.
  { exists w. unfold spec_forget. by rewrite Er. }
  assert (Hv : ValidName scope = true /\ ValidName name = true).
  { unfold CheckRef, CheckScope, ValidScope in Er. by destruct (ValidName scope), (ValidName name). }
  destruct Hv as [Hs Hn]. erewrite bind_ok by done. erewrite bind_look by by eapply readEntry_synced.
  destruct (replay j !! (scope, name)) as [e|] eqn:Ee.
  2: { exists w. unfold spec_forget. by rewrite Er, Ee. }
  destruct (spec_forget j now session scope name) as [c|err] eqn:Esp.
  2: { unfold spec_forget in Esp. by rewrite Er, Ee in Esp. }
  pose proof (spec_forget_appendable _ _ _ Esp) as Hap.
  pose proof (spec_forget_wf _ _ _ _ _ _ _ (sy_wf _ _ _ Hw) Esp) as Hwf.
  unfold spec_forget in Esp. rewrite Er, Ee in Esp. injection Esp as Ec.
  destruct (sy_text _ _ _ Hw) as (s & Hst & Hj & Ht & Hun & _ & _).
  destruct (synced_load _ _ _ s Hw Hst Hj) as [read Hload]. erewrite bind_look by exact Hload.
  destruct (live_file max j _ e (sy_wf _ _ _ Hw) (sy_app _ _ _ Hw) (sy_time _ _ _ Hw) Ee)
    as (_ & _ & _ & Hmh & _ & Href & _).
  pose proof (sy_entries _ _ _ Hw scope name Hs Hn) as Hef. rewrite Ee in Hef. destruct Hef as (Hd & f & Hf & _ & _).
  destruct (Remove_calm scope name f Hs Hn Hf) as [E1 Hw1].
  set (w1 := with_files (delete (entryName scope name) (wFiles w)) w) in *.
  assert (Hd1 : wFiles w1 !! top scope = Some ODir).
  { cbn. rewrite lookup_delete_ne; [done|]. apply own_top; [by apply own_entry|done]. }
  destruct (reindex_calm w1 scope Hw1 Hs Hd1) as (w2 & E2 & Hw2 & Hp2).
  erewrite bind_ok by exact E1. erewrite bind_ok by exact E2. rewrite <- Ee.
  erewrite bind_ok by by apply (noteOutside_synced max w w2 j).
  rewrite (synced_held _ s read max w j) by done. rewrite Ee. cbn [fmap option_fmap option_map].
  assert (Hag : agrees (state_of e) e = true) by (unfold agrees, state_of; cbn; by rewrite !bool_decide_eq_true_2).
  rewrite Hag. erewrite bind_ok by done. unfold held. rewrite (synced_held _ s read max w j) by done. rewrite Ee.
  cbn [fmap option_fmap option_map hashOf seHashOf state_of eHash].
  injection Href as Es En.
  apply (commit_synced max w w2 j s read scope name); try done.
  - split; [done|done| | |done].
    + rewrite Hp2; [done|]. intros [= <- _]. by apply ValidName_nonempty in Hs.
    + intros p H1 H2 _. rewrite Hp2 by done. cbn. by rewrite lookup_delete_ne.
  - rewrite <- Ec. unfold numbered, tombstone. cbn. by rewrite Hmh.
  - apply journal_small.
  - by rewrite <- Ec.
  - rewrite <- Ec. unfold change_ref, entry_ref. cbn. by rewrite Es, En.
  - rewrite <- Ec. cbn. intros g. rewrite Hp2 by by apply entry_not_index. cbn. by rewrite lookup_delete_eq.
Qed.
End Put.

(** ** Any sequence of operations *)

Inductive fobs :=
| FGet (r : res ferror Entry)
| FList (r : res ferror (list Entry))
| FWrite (r : res ferror Change)
| FJournal (l : list (res (jerror + ferror) Change))
| FNumber (r : res ferror Z).

Definition file_do (max : Z) (w : world) (o : op) : world * fobs :=
  match o with
  | OGet scope name => (w, FGet (file_get w scope name))
  | OList scope => (w, FList (file_list w scope))
  | OPut now session e opts => let (r, w') := file_put max None now session e opts w in (w', FWrite r)
  | OForget now session scope name => let (r, w') := file_forget max None now session scope name w in (w', FWrite r)
  | OJournal after => (w, FJournal (file_journal w after))
  | OLastSeq => (w, FNumber (file_last_seq w))
  | OMaxEntryBytes => (w, FNumber (Ok max))
  end.

Fixpoint file_run (max : Z) (w : world) (ops : list op) : world * list fobs :=
  match ops with
  | [] => (w, [])
  | o :: ops' => let (w1, r) := file_do max w o in let (w2, rs) := file_run max w1 ops' in (w2, r :: rs)
  end.

(** An answer of the specification, as the file store gives it. *)
Definition file_obs (o : obs) : fobs :=
  match o with
  | RGet r => FGet (lift r)
  | RList r => FList (lift r)
  | RWrite r => FWrite (lift r)
  | RJournal l => FJournal ((fun r => match r with Ok c => Ok c | Err d => Err (inl d) end) <$> l)
  | RNumber n => FNumber (Ok n)
  end.

(** What JSON can carry: a time of years 0 to 9999 that is not the zero
    time, and text that is UTF-8. *)
Definition op_text (o : op) : Prop :=
  match o with
  | OPut now session _ opts => year_ok now = true /\ now <> 0 /\ ValidString session = true /\ opts_text opts
  | OForget now session _ _ => year_ok now = true /\ now <> 0 /\ ValidString session = true
  | OJournal after => 0 <= after
  | _ => True
  end.

(** The journal stays below 2^63 bytes, the range of an offset. *)
Fixpoint room (max : Z) (w : world) (ops : list op) : Prop :=
  match ops with
  | [] => True
  | o :: ops' => let w1 := (file_do max w o).1 in blen (journal_data w1) < 2 ^ 63 /\ room max w1 ops'
  end.

Lemma file_get_synced max w j scope name :
  synced max w j -> file_get w scope name = lift (spec_get j scope name).
Proof.
  intros Hw. unfold file_get, spec_get. destruct (CheckRef scope name) eqn:Er; [done|].
  assert (Hv : ValidName scope = true /\ ValidName name = true).
  { unfold CheckRef, CheckScope, ValidScope in Er. by destruct (ValidName scope), (ValidName name). }
  destruct Hv. rewrite (readEntry_synced max w j Hw) by done. cbn. by destruct (replay j !! _).
Qed.

Lemma file_list_synced max w j scope :
  synced max w j -> file_list w scope = lift (spec_list j scope).
Proof.
  intros Hw. unfold file_list, spec_list. unfold CheckScope at 1 2, ValidScope.
  destruct (ValidName scope) eqn:Hs; [|done]. by rewrite (list_scope_synced max w j Hw).
Qed.

Lemma file_journal_synced max w j after :
  synced max w j -> file_journal w after = Ok <$> filter (fun c => after < cSeq c) j.
Proof.
  intros Hw. destruct (sy_text _ _ _ Hw) as (s & Hs & Hj & Ht & Hun & _ & _).
  unfold file_journal, readJournal, scanJournal. destruct Hs as (o & -> & ->). cbn [res_bind].
  destruct o as [s|]; cbn [default] in *.
  - pose proof (blen_nonneg s). destruct (Z.ltb_spec (blen s) 0); [lia|]. rewrite Z.ltb_irrefl.
    rewrite scan_lines_spec by done. change (id s) with s in *. rewrite undamaged_events, Hj by done.
    clear. induction j as [|c j IH]; [done|]. cbn [fmap list_fmap omap list_omap].
    destruct (Z.ltb_spec after (cSeq c)).
    + rewrite filter_cons_True by done. cbn. by rewrite <- IH.
    + rewrite filter_cons_False by lia. done.
  - subst. done.
Qed.

Lemma file_last_seq_synced max w j : synced max w j -> file_last_seq w = Ok (blen j).
Proof.
  intros Hw. destruct (sy_text _ _ _ Hw) as (s & (o & Ho & E) & Hj & _).
  unfold file_last_seq. rewrite lastSeq_spec, Ho. cbn. rewrite <- (journal_wf_seq_of max j), <- Hj by apply Hw.
  rewrite E. by destruct o.
Qed.

Lemma file_do_synced max w j o :
  synced max w j -> op_text o -> blen (journal_data (file_do max w o).1) < 2 ^ 63 ->
  (file_do max w o).2 = file_obs (do (MkSpec max j) o).2
  /\ synced max (file_do max w o).1 (spJournal (do (MkSpec max j) o).1)
  /\ spMax (do (MkSpec max j) o).1 = max.
Proof.
  intros Hw Ho Hroom. destruct o as [scope name|scope|now session e opts|now session scope name|after| |]; cbn.
  - by erewrite file_get_synced.
  - by erewrite file_list_synced.
  - destruct Ho as (Hy & Hz & Hs & Hop).
    destruct (file_put_synced max w j now session Hw Hy Hz Hs e opts Hop) as (w' & E & Hw').
    cbn in Hroom. rewrite E in *. cbn in *. auto.
  - destruct Ho as (Hy & Hz & Hs).
    destruct (file_forget_synced max w j now session Hw Hy Hz Hs scope name) as (w' & E & Hw').
    cbn in Hroom. rewrite E in *. cbn in *. auto.
  - erewrite file_journal_synced by done. split; [|done]. f_equal. by rewrite <- list_fmap_compose.
  - by erewrite file_last_seq_synced.
  - done.
Qed.

(** C2: The file store implements the contract: on a directory in sync with a
    journal, an empty one to begin with, any sequence of operations is
    answered as the specification over the journal alone answers it, errors
    included, through the entry files, the journal's lines and the cursor;
    and the directory stays in sync with the specification's journal. *)
Theorem FileStore_refines max w j ops :
  synced max w j -> Forall op_text ops -> room max w ops ->
  (file_run max w ops).2 = file_obs <$> (run (MkSpec max j) ops).2
  /\ synced max (file_run max w ops).1 (spJournal (run (MkSpec max j) ops).1).
Proof.
  intros Hw Hops. revert w j Hw. induction Hops as [|o ops Ho _ IH]; intros w j Hw Hroom; [done|].
  destruct Hroom as [Hr Hroom]. destruct (file_do_synced max w j o Hw Ho Hr) as (Hobs & Hw1 & Hm).
  cbn [file_run run]. destruct (file_do max w o) as [w1 r]. destruct (do (MkSpec max j) o) as [[m1 j1] r1].
  cbn in *. subst. destruct (IH w1 j1 Hw1 Hroom) as [E Hw2].
  destruct (file_run max w1 ops) as [w2 rs]. destruct (run (MkSpec max j1) ops) as [s2 rs2]. cbn in *. by rewrite E.
Qed.

(** A new store, whatever its clock and its source of random names. *)
Lemma empty_calm rand clock : calm (MkWorld ∅ clock rand []).
Proof.
  split; [done|intros i d; apply lookup_empty| |].
  - intros scope _. right. left. apply lookup_empty.
  - intros p _. cbn. by rewrite lookup_empty.
Qed.

Lemma empty_synced max rand clock : synced max (MkWorld ∅ clock rand []) [].
Proof.
  split; [apply empty_calm| |by intros i c ?|constructor..|].
  - exists []. split; [by exists None|]. repeat split; try done. constructor.
  - intros scope name _ _. change (replay [] !! (scope, name)) with (None (A:=Entry)).
    intros f. cbn. by rewrite lookup_empty.
Qed.

Definition file_demo_ops : list op :=
  [OPut 1 (bs "s1") (MkEntry (bs "user") (bs "style") (bs "Short answers.") None [] [] 0 false) [];
   OPut 2 (bs "s2") (MkEntry (bs "user") (bs "tone") (bs "Dry.") None [] [] 0 false) [IfHash (bs "x")];
   OPut 3 (bs "s1") (MkEntry (bs "user") (bs "style") (bs "Long answers.") None [] [] 0 false) [BasedOn []];
   OForget 4 [] (bs "user") (bs "style");
   OGet (bs "user") (bs "style"); OJournal 1; OLastSeq].

Lemma FileStore_refines_witness :
  (file_run 4096 empty_world file_demo_ops).2 = file_obs <$> (run (MkSpec 4096 []) file_demo_ops).2
  /\ blen (spJournal (run (MkSpec 4096 []) file_demo_ops).1) = 3.
Proof.
  split; [|by vm_compute]. apply (FileStore_refines 4096 empty_world []); [apply empty_synced| |].
  - repeat constructor; vm_compute; split_and?; done.
  - vm_compute. split_and!; done.
Defined.
