(* ===== verification/FileFaults.v ===== *)
(** * The file store when system calls fail

    What an operation leaves, of a directory in sync with its journal,
    whatever its system calls do, under every plan of failures and short
    writes, a crash among them: a file written is the
    old one or the new one whole, and the journal only ever gains the record
    it was given, or a torn line that the next append turns into damage. *)

From S2P Require Import Prelude GoStd GoTime Sha256 Memory Store Search Json JsonRead Codec Frontmatter Records Fsys FileJournal FileState FileStore FileLaws.

(** ** What an operation may end in *)

Definition ends {A} (m : M A) (w : world) (Q : res ferror A -> world -> Prop) : Prop := Q (m w).1 (m w).2.

Lemma ends_ret {A} (a : A) w (Q : _ -> _ -> Prop) : Q (Ok a) w -> ends (ret a) w Q.
Proof. done. Qed.

Lemma ends_fail {A} e w (Q : res ferror A -> _ -> Prop) : Q (Err e) w -> ends (fail e) w Q.
Proof. done. Qed.

Lemma ends_look {A} (f : world -> res ferror A) w (Q : _ -> _ -> Prop) : Q (f w) w -> ends (look f) w Q.
Proof. done. Qed.

Lemma ends_weaken {A} (m : M A) w (P Q : _ -> _ -> Prop) : ends m w P -> (forall r w', P r w' -> Q r w') -> ends m w Q.
Proof. unfold ends. auto. Qed.

Lemma ends_elim {A} (m : M A) w (Q : _ -> _ -> Prop) r w' : ends m w Q -> m w = (r, w') -> Q r w'.
Proof. unfold ends. intros H E. by rewrite E in H. Qed.

Lemma ends_intro {A} (m : M A) w (Q : _ -> _ -> Prop) r w' : m w = (r, w') -> Q r w' -> ends m w Q.
Proof. unfold ends. by intros ->. Qed.

Lemma ends_bind {A B} (m : M A) (k : A -> M B) w Q :
  ends m w (fun r w' => match r with Ok a => ends (k a) w' Q | Err e => Q (Err e) w' end) -> ends (bind m k) w Q.
Proof. unfold ends, bind. by destruct (m w) as [[a|e] w']. Qed.

Lemma ends_try {A} (m : M A) w Q :
  ends m w (fun r w' => Q (Ok (match r with Ok _ => None | Err e => Some e end)) w') -> ends (try m) w Q.
Proof. unfold ends, try. by destruct (m w) as [[a|e] w']. Qed.

(** The same directory, a call later. *)
Definition replan (w w' : world) : Prop := wFiles w' = wFiles w /\ wClock w' = wClock w /\ wRand w' = wRand w.

Lemma sys_replan w : replan w (sys w).2.
Proof. unfold sys. by destruct (wPlan w). Qed.

Lemma ends_change p f w (Q : _ -> _ -> Prop) :
  (forall w1, replan w w1 -> Q (Ok tt) (with_files (f w1) w1)) -> (forall w1, replan w w1 -> Q (Err (FIO p)) w1) ->
  ends (change p f) w Q.
Proof.
  intros H1 H2. unfold ends, change. pose proof (sys_replan w) as Hr. destruct (sys w) as [[n|] w1]; cbn in *; auto.
Qed.

Lemma ends_Write p data w (Q : _ -> _ -> Prop) :
  (forall w1, replan w w1 -> Q (Ok tt) (with_files (grown p data w1) w1)) ->
  (forall n w1, replan w w1 -> Q (Err (FIO p)) (with_files (grown p (take n data) w1) w1)) ->
  ends (Write p data) w Q.
Proof.
  intros H1 H2. unfold ends, Write. pose proof (sys_replan w) as Hr. destruct (sys w) as [[n|] w1]; cbn in *; auto.
Qed.

(** ** Writing a file whole *)

(** Nothing but [p], its directory and temporary files has changed, and a
    directory is at most made. *)
Record near (p : path) (w w' : world) : Prop := {
  ne_clock : wClock w' = wClock w;
  ne_other q : q <> p -> p.1 = [] \/ q <> top p.1 -> no_tmp q.2 -> wFiles w' !! q = wFiles w !! q;
  ne_dir : wFiles w' !! top p.1 = wFiles w !! top p.1
           \/ p.1 <> [] /\ wFiles w !! top p.1 = None /\ wFiles w' !! top p.1 = Some ODir
}.

(** [near], and [p] as it was. *)
Definition kept (p : path) (w w' : world) : Prop := near p w w' /\ wFiles w' !! p = wFiles w !! p.

Lemma near_refl p w w' : replan w w' -> near p w w'.
Proof. intros (E & Ec & _). split; [done|by rewrite E|left; by rewrite E]. Qed.

Lemma near_trans p w w1 w2 : near p w w1 -> near p w1 w2 -> near p w w2.
Proof.
  intros [Hc1 Ho1 Hd1] [Hc2 Ho2 Hd2]. split; [congruence|intros q ???; by rewrite Ho2, Ho1|].
  destruct Hd1 as [E1|(Hn & E1 & E1')], Hd2 as [E2|(Hn2 & E2 & E2')]; try (left; congruence); right; split_and!; congruence.
Qed.

Lemma kept_refl p w w' : replan w w' -> kept p w w'.
Proof. intros H. split; [by apply near_refl|]. by destruct H as [-> _]. Qed.

Lemma kept_trans p w w1 w2 : kept p w w1 -> kept p w1 w2 -> kept p w w2.
Proof. intros [H1 E1] [H2 E2]. split; [by eapply near_trans|congruence]. Qed.

(** What is done to a temporary file of [p]'s directory. *)
Lemma kept_tmp p t w w1 m :
  replan w w1 -> no_tmp p.2 -> ~ no_tmp t.2 -> t <> top p.1 -> (forall q, q <> t -> m !! q = wFiles w !! q) ->
  kept p w (with_files m w1).
Proof.
  intros (E & Ec & _) Hp Ht Htop Hm. split; [split|]; cbn; [done| |left; by apply Hm|].
  - intros q _ _ Hq. apply Hm. by intros ->.
  - apply Hm. by intros ->.
Qed.

Lemma grown_other p data w q : q <> p -> grown p data w !! q = wFiles w !! q.
Proof. intros Hq. unfold grown. repeat case_match; try done. by rewrite lookup_insert_ne. Qed.

(** How a call ended, for the file written: whole, or as it was. *)
Definition replaced (p : path) (data : bytes) (w : world) (r : res ferror unit) (w' : world) : Prop :=
  match r with
  | Ok _ => near p w w' /\ wFiles w' !! p = Some (OFile (MkFile data (wClock w) 1))
  | Err _ => kept p w w'
  end.

Lemma make_dir_ends p w :
  p <> top p.1 ->
  ends (if bool_decide (p.1 = []) then ret tt
        else let! e := try (Mkdir p.1) in
             match e with
             | None | Some (FExists _) =>
                 let! ok := look (fun w => Ok (isDir w p.1)) in
                 if ok : bool then ret tt else fail (FNotDir p.1)
             | Some err => fail err
             end) w (fun _ w' => kept p w w').
Proof.
  intros Hp. case_bool_decide as Hd; [by apply ends_ret, kept_refl|].
  apply ends_bind, ends_try. unfold Mkdir. apply ends_bind, ends_look.
  assert (Hk : forall w1, kept p w w1 -> ends (let! ok := look (fun w => Ok (isDir w p.1)) in
      if ok : bool then ret tt else fail (FNotDir p.1)) w1 (fun _ w' => kept p w w')).
  { intros w1 H1. apply ends_bind, ends_look. by destruct (isDir w1 p.1). }
  destruct (bool_decide_reflect (is_Some (wFiles w !! top p.1))) as [Hs|Hs].
  - apply Hk. by apply kept_refl.
  - apply eq_None_not_Some in Hs. apply ends_change; intros w1 H1.
    + apply Hk. destruct H1 as (E & Ec & _). split; [split|]; cbn; rewrite ?E; [done| | |].
      * intros q _ [?|Hq] _; [done|]. by rewrite lookup_insert_ne.
      * right. by rewrite lookup_insert_eq.
      * by rewrite lookup_insert_ne.
    + by apply kept_refl.
Qed.

(** A temporary file taken back, and the call failed. *)
Lemma remove_tmp_ends p t data w w1 e :
  kept p w w1 -> no_tmp p.2 -> ~ no_tmp t.2 -> t <> top p.1 ->
  ends (run! try (Remove t) in fail e) w1 (replaced p data w).
Proof.
  intros H1 Hp Ht Htop. apply ends_bind, ends_try. unfold Remove. apply ends_bind, ends_look.
  case_bool_decide; [|by apply ends_fail]. apply ends_change; intros w2 H2; apply ends_fail; cbn.
  - eapply kept_trans; [exact H1|]. apply (kept_tmp p t); [done..|]. intros q Hq. destruct H2 as (-> & _).
    by rewrite lookup_delete_ne.
  - eapply kept_trans; [exact H1|by apply kept_refl].
Qed.

(** What has been written of a temporary file: nothing of [p] has changed. *)
Definition drafted (p t : path) (data : bytes) (w w' : world) : Prop :=
  kept p w w' /\ wFiles w' !! t = Some (OFile (MkFile data (wClock w) 1)).

(** A sync or a close. *)
Lemma flush_ends p t data w w1 :
  drafted p t data w w1 -> ends (try (change t wFiles)) w1 (fun r w2 => drafted p t data w w2 /\ exists e, r = Ok e).
Proof.
  intros [H1 E]. apply ends_try, ends_change; intros w2 H2.
  all: assert (Hk : kept p w w2) by (eapply kept_trans; [exact H1|by apply kept_refl]).
  all: assert (Et : wFiles w2 !! t = Some (OFile (MkFile data (wClock w) 1))) by (by destruct H2 as [-> _]).
  all: rewrite ?with_files_id; split; [by split|eauto].
Qed.

Lemma rename_ends p t data w w1 :
  drafted p t data w w1 -> p <> t -> ~ no_tmp t.2 -> t <> top p.1 -> p <> top p.1 ->
  ends (try (Rename t p)) w1 (fun r w2 => exists e, r = Ok e /\
    match e with None => near p w w2 /\ wFiles w2 !! p = Some (OFile (MkFile data (wClock w) 1)) | Some _ => kept p w w2 end).
Proof.
  intros [ [H1 Ep] E] Hpt Ht Htop Htp. apply ends_try. unfold Rename. apply ends_bind, ends_look.
  case_bool_decide; [apply ends_fail; eexists; split; [done|by split]|].
  apply ends_change; intros w2 H2; eexists; (split; [done|]); cbn.
  - destruct H2 as (E2 & Ec & _). rewrite E2, E. split; [|by rewrite lookup_insert_eq].
    eapply near_trans; [exact H1|]. split; cbn; [done| |left].
    + intros q Hq Hq2 Hq3. rewrite lookup_insert_ne, lookup_delete_ne by (done || by intros <-). done.
    + by rewrite lookup_insert_ne, lookup_delete_ne.
  - eapply kept_trans; [split; [exact H1|exact Ep]|by apply kept_refl].
Qed.

Lemma create_ends p t w :
  no_tmp p.2 -> ~ no_tmp t.2 -> t <> top p.1 ->
  ends (CreateExcl t) w (fun r w' => match r with Ok _ => drafted p t [] w w' | Err _ => kept p w w' end).
Proof.
  intros Hp Ht Htop. unfold CreateExcl. apply ends_bind, ends_look.
  case_bool_decide; [by apply ends_fail, kept_refl|]. apply ends_change; intros w1 H1; [|by apply kept_refl].
  destruct H1 as (E & Ec & Er). split; [|cbn; by rewrite lookup_insert_eq, Ec].
  apply (kept_tmp p t); try done. intros q Hq. by rewrite lookup_insert_ne, E.
Qed.

Lemma write_tmp_ends p t data w w1 :
  drafted p t [] w w1 -> no_tmp p.2 -> ~ no_tmp t.2 -> t <> top p.1 ->
  ends (try (Write t data)) w1 (fun r w2 => exists e d, r = Ok e /\ drafted p t d w w2 /\ (e = None -> d = data)).
Proof.
  intros [H1 E] Hp Ht Htop. apply ends_try.
  assert (Hd : forall d w2, replan w1 w2 -> drafted p t d w (with_files (grown t d w2) w2)).
  { intros d w2 H2. split.
    - eapply kept_trans; [exact H1|]. apply (kept_tmp p t); try done. intros q Hq. destruct H2 as (<- & _). by apply grown_other.
    - cbn. unfold grown. destruct H2 as (E2 & Ec & _). rewrite E2, E, lookup_insert_eq, Ec. by rewrite (ne_clock _ _ _ (proj1 H1)). }
  apply ends_Write; [intros w2 H2; exists None, data|intros n w2 H2; exists (Some (FIO t)), (take n data)]; auto.
  split_and!; [done|by apply Hd|done].
Qed.

(** A file written is the old one, on an error, or the new one whole. *)
Lemma writeAtomic_ends p data w :
  no_tmp p.2 -> p <> top p.1 -> ends (writeAtomic p data) w (replaced p data w).
Proof.
  intros Hp Htp. unfold writeAtomic. apply ends_bind. eapply ends_weaken; [by apply make_dir_ends|].
  intros [ [] |e] w1 H1; [|exact H1]. apply ends_bind. unfold draw at 1. unfold ends at 1. cbn [fst snd].
  set (t := (p.1, tmp_prefix ++ Sha256.hex (wRand w1 O))).
  set (w2 := MkWorld (wFiles w1) (wClock w1) (fun n => wRand w1 (S n)) (wPlan w1)).
  assert (H2 : kept p w w2) by (destruct H1 as [ [] ? ]; by split).
  assert (Ht : ~ no_tmp t.2) by (unfold no_tmp, t; cbn [snd]; by rewrite HasPrefix_app).
  assert (Htop : t <> top p.1).
  { unfold t, top. intros E. pose proof (f_equal fst E) as E1. pose proof (f_equal snd E) as E2. cbn in E1, E2. by rewrite E1 in E2. }
  assert (Hpt : p <> t) by (intros E; apply Ht; by rewrite <- E).
  assert (Hin : forall data w3, drafted p t data w2 w3 -> drafted p t data w w3).
  { intros d w3 [H3 E3]. split; [by eapply kept_trans|]. by rewrite E3, (ne_clock _ _ _ (proj1 H2)). }
  apply ends_bind. eapply ends_weaken; [by apply (create_ends p t)|].
  intros [ [] |e] w3 H3; [apply Hin in H3|by eapply kept_trans].
  apply ends_bind. eapply ends_weaken; [by apply (write_tmp_ends p t data w)|].
  intros r w4 (werr & d & -> & H4 & Hd). apply ends_bind.
  eapply (ends_weaken _ _ (fun r w5 => drafted p t d w w5 /\ exists werr', r = Ok werr' /\ (werr' = None -> d = data))).
  { destruct werr; [by apply ends_ret; eauto|]. eapply ends_weaken; [by apply flush_ends|]. intros r w5 [? [e ->]]. eauto. }
  intros r w5 (H5 & werr' & -> & Hd'). apply ends_bind. eapply ends_weaken; [by apply (flush_ends p t)|].
  intros r w6 [H6 [cerr ->] ]. apply ends_bind.
  assert (Hback : forall w7 e, kept p w w7 -> ends (run! try (Remove t) in fail e) w7 (replaced p data w))
    by (intros; by apply remove_tmp_ends).
  destruct (match werr' with Some _ => werr' | None => cerr end) as [err|] eqn:Ee.
  { apply ends_ret, Hback, H6. }
  assert (d = data) as -> by (apply Hd'; by destruct werr').
  eapply ends_weaken; [by apply (rename_ends p t data w)|]. intros r w7 (e & -> & H7).
  destruct e; [by apply Hback|exact H7].
Qed.

(** ** The journal *)

Lemma object_braces v : (exists ms, v = JObject ms) -> exists m, render v = "{"%char :: m ++ ["}"%char].
Proof. intros [ms ->]. cbn [render]. unfold json_object. eexists. reflexivity. Qed.

(** A record cut short of its last byte is no record, and no other record. *)
Lemma marshal_prefix c line p t :
  change_carried c -> marshal_change c = Some line -> line = p ++ t -> t <> [] -> json_parse p = None.
Proof.
  intros Hc Hm E Ht. assert (Hj : json_parse line = Some (change_json c) /\ line = render (change_json c)).
  { unfold marshal_change in Hm. destruct (_ && _); [|done]. assert (line = render (change_json c)) as -> by congruence.
    split; [|done]. apply (json_parse_render 3 (change_json c)); [apply change_writable|unfold maxNestingDepth; lia]. }
  destruct Hj as [Hj Hr]. destruct (json_parse p) as [x|] eqn:Ep; [|done]. exfalso.
  destruct p as [|b p]; [done|].
  destruct (object_braces (change_json c) ltac:(eexists; reflexivity)) as [m Hs]. rewrite <- Hr in Hs. assert (b = "{"%char) as -> by (rewrite E in Hs; by injection Hs).
  rewrite E in Hj. destruct (json_parse_cut p t _ x Ep Hj) as [_ Hw].
  rewrite E in Hs. injection Hs as Hs. apply drop_while_nil in Hw.
  destruct t as [|d t' _] using rev_ind; [done|].
  rewrite app_assoc in Hs. apply app_inj_tail in Hs as [_ ->]. apply Forall_app in Hw as [_ [Hw _]%Forall_cons]. vm_compute in Hw. discriminate.
Qed.

Lemma torn_record c line p t :
  change_carried c -> marshal_change c = Some line -> line = p ++ t -> t <> [] -> line_record p = [].
Proof.
  intros Hc Hm E Ht. unfold line_record. case_bool_decide; [done|]. unfold decodeRecord, unmarshal_change.
  by rewrite (marshal_prefix c line p t).
Qed.

(** The records of a journal once its torn line, if any, is terminated. *)
Definition settled (s : bytes) : list Change := text_records s ++ line_record (tail_of s).

Lemma text_records_terminated s : text_records (s ++ terminator s) = settled s /\ tail_of (s ++ terminator s) = [].
Proof.
  unfold settled. rewrite terminator_spec. case_bool_decide as Ht.
  - rewrite app_nil_r, Ht. split; [|done]. unfold line_record. by rewrite bool_decide_eq_true_2, app_nil_r.
  - split; [|apply tail_of_spec, not_elem_of_nil]. rewrite !text_records_lines.
    rewrite (lines_tail s []) by apply not_elem_of_nil. rewrite Split_lines, fmap_app, concat_app. cbn. by rewrite app_nil_r.
Qed.

Lemma settled_whole s : tail_of s = [] -> settled s = text_records s.
Proof. intros Ht. unfold settled. rewrite Ht. unfold line_record. by rewrite bool_decide_eq_true_2, app_nil_r. Qed.

Lemma holds_inj w s s' : holds w s -> holds w s' -> s = s'.
Proof. intros (o & Ho & ->) (o' & Ho' & ->). congruence. Qed.

(** What an append cut off anywhere leaves. *)
Lemma settled_cut s c line z k :
  appendable c -> marshal_change c = Some line -> terminator s ++ line ++ [newline] = z ++ k ->
  settled (s ++ z) = settled s \/ settled (s ++ z) = settled s ++ [c].
Proof.
  intros Hc Hm Hz. destruct (decodeRecord_marshal c line Hc Hm) as [Hr Hn].
  destruct (text_records_terminated s) as [Hs Ht]. set (s1 := s ++ terminator s) in *.
  assert (Hp : forall p t, line = p ++ t -> settled (s1 ++ p) = settled s \/ settled (s1 ++ p) = settled s ++ [c]).
  { intros p t Ep. assert (Hpn : newline ∉ p) by (intros Hin; apply Hn; rewrite Ep; apply elem_of_app; by left).
    unfold settled at 1 3. rewrite text_records_app, Hs by done.
    assert (Et : tail_of (s1 ++ p) = p).
    { unfold tail_of. rewrite (lines_text s1), Ht, app_nil_r, Split_concat by (done || apply lines_no_newline). apply last_last. }
    rewrite Et, (text_records_lines p), lines_none by done. cbn [fmap list_fmap concat]. rewrite app_nil_r.
    destruct t as [|d t].
    - rewrite app_nil_r in Ep. subst p. rewrite Hr. by right.
    - left. rewrite (torn_record c line p (d :: t)) by (done || apply Hc). by rewrite app_nil_r. }
  destruct z as [|b z]; [left; by rewrite app_nil_r|].
  assert (Hz' : exists z', b :: z = terminator s ++ z' /\ line ++ [newline] = z' ++ k).
  { destruct (decide (terminator s = [])) as [E|E]; [exists (b :: z); by rewrite E in *|].
    revert Hz. rewrite terminator_spec in *. case_bool_decide; [done|]. cbn. intros [= -> Hz]. by exists z. }
  destruct Hz' as (z' & -> & Ez). rewrite app_assoc. fold s1.
  destruct k as [|d k' _] using rev_ind.
  - rewrite app_nil_r in Ez. subst z'. right. unfold settled at 1.
    rewrite text_records_app, Hs by done. rewrite app_assoc, tail_of_spec by apply not_elem_of_nil.
    rewrite text_records_lines, (lines_tail line []) by apply not_elem_of_nil. rewrite Split_none by done.
    change (line_record []) with (@nil Change). rewrite app_nil_r. cbn [fmap list_fmap concat app]. by rewrite Hr, app_nil_r.
  - rewrite app_assoc in Ez. apply app_inj_tail in Ez as [Ez _]. by apply (Hp z' k').
Qed.

(** The journal holding [z] more than [s], and nothing else changed. *)
Record grew (s z : bytes) (w w' : world) : Prop := {
  gr_text : holds w' (s ++ z);
  gr_other q : q <> journal_path -> wFiles w' !! q = wFiles w !! q
}.

Lemma grew_nil s w w' : holds w s -> replan w w' -> grew s [] w w'.
Proof.
  intros Hs (E & _ & _). split; [|by rewrite E]. rewrite app_nil_r. eapply holds_same, Hs. by rewrite E.
Qed.

Lemma grew_trans s z w w1 w2 : grew s z w w1 -> replan w1 w2 -> grew s z w w2.
Proof. intros [Ht Ho] (E & _). split; [eapply holds_same, Ht; by rewrite E|intros q Hq; by rewrite E, Ho]. Qed.

Lemma grown_journal s f d w w1 :
  wFiles w1 !! journal_path = Some (OFile f) -> fLinks f <= 1 -> fData f = s ->
  (forall q, q <> journal_path -> wFiles w1 !! q = wFiles w !! q) ->
  grew s d w (with_files (grown journal_path d w1) w1).
Proof.
  intros Hf Hl Hd Ho. unfold grown. rewrite Hf. split; cbn.
  - rewrite <- Hd. eapply (file_holds _ (MkFile (fData f ++ d) _ _)); [apply lookup_insert_eq|done].
  - intros q Hq. rewrite lookup_insert_ne by done. by apply Ho.
Qed.

(** An append that fails leaves a beginning of what it was to write. *)
Lemma appendJournal_ends c line s z w :
  holds w s -> marshal_change c = Some line -> z = terminator s ++ line ++ [newline] ->
  ends (appendJournal c) w (fun r w' => match r with
                                      | Ok n => grew s z w w' /\ n = blen (s ++ z)
                                      | Err _ => exists y k, z = y ++ k /\ grew s y w w'
                                      end).
Proof.
  intros Hs Hm Ez. unfold appendJournal. rewrite Hm. apply ends_bind.
  eapply (ends_weaken _ _ (fun r w1 => match r with
    | Ok _ => exists f, wFiles w1 !! journal_path = Some (OFile f) /\ fLinks f <= 1 /\ fData f = s
                /\ forall q, q <> journal_path -> wFiles w1 !! q = wFiles w !! q
    | Err _ => grew s [] w w1 end)).
  { unfold open_append. apply ends_bind, ends_look. destruct (holds_file _ _ Hs) as [[-> ->]|(f & Hf & Hl & Hd)].
    - apply ends_change; intros w1 H1; [|by apply grew_nil]. destruct H1 as (E & _). cbn.
      eexists. split_and!; [apply lookup_insert_eq|done|done|]. intros q Hq. by rewrite lookup_insert_ne, E.
    - rewrite Hf. cbn [regularAlone]. destruct (Z.leb_spec (fLinks f) 1); [|lia]. apply ends_ret. eauto. }
  intros [ [] |e] w1 H1; [|by exists [], z]. destruct H1 as (f & Hf & Hl & Hd & Ho).
  apply ends_bind, ends_look.
  assert (journal_data w1 = s) as -> by (unfold journal_data; by rewrite Hf). rewrite <- Ez.
  pose proof (grown_journal s f) as Hg. apply ends_bind, ends_try, ends_Write.
  - intros w2 H2. assert (H3 : grew s z w (with_files (grown journal_path z w2) w2)).
    { destruct H2 as (E & _). apply (Hg z); try done; rewrite E; done. }
    set (w3 := with_files _ w2) in *. clearbody w3. apply ends_bind, ends_try, ends_change; intros w4 H4;
      apply ends_bind, ends_look, ends_bind, ends_try, ends_change; intros w5 H5.
    all: assert (Hd4 : journal_data w4 = s ++ z)
      by (apply holds_data, (gr_text s z w); eapply grew_trans; [exact H3|exact H4]).
    all: assert (H6 : grew s z w w5) by (eapply grew_trans; [exact H3|]; destruct H4 as (E4 & C4 & R4), H5 as (E5 & C5 & R5);
      rewrite ?with_files_id in *; split_and!; cbn in *; congruence).
    1: apply ends_ret; rewrite !with_files_id; split; [exact H6|by rewrite Hd4].
    all: apply ends_fail; exists z, []; (split; [by rewrite app_nil_r|by rewrite ?with_files_id]).
  - intros n w2 H2. assert (H3 : grew s (take n z) w (with_files (grown journal_path (take n z) w2) w2)).
    { destruct H2 as (E & _). apply (Hg (take n z)); try done; rewrite E; done. }
    set (w3 := with_files _ w2) in *. clearbody w3.
    apply ends_bind, ends_ret, ends_bind, ends_look, ends_bind, ends_try, ends_change; intros w4 H4; apply ends_fail;
      exists (take n z), (drop n z); (split; [by rewrite take_drop|]); rewrite ?with_files_id; by eapply grew_trans.
Qed.

(** ** A write *)

Definition with_plan (l : list (option nat)) (w : world) : world := MkWorld (wFiles w) (wClock w) (wRand w) l.

Lemma near_journal p w w' : p <> journal_path -> top p.1 <> journal_path -> near p w w' ->
  wFiles w' !! journal_path = wFiles w !! journal_path.
Proof. intros Hp Ht H. apply (ne_other _ _ _ H); [done|by right|done]. Qed.

Lemma appendChange_ends c0 s read w :
  holds w s -> tail_of s = [] -> let n := seq_of (text_records s) in 0 <= n -> n + 1 < 2 ^ 64 ->
  let c := numbered (n + 1) c0 in appendable c ->
  ends (appendChange (state_for s read) c0) w (fun r w' => exists z, grew s z w w'
    /\ (settled (s ++ z) = settled s \/ settled (s ++ z) = settled s ++ [c])
    /\ match r with
       | Ok (st, c') => st = state_for (s ++ z) read /\ c' = c /\ tail_of (s ++ z) = [] /\ text_records (s ++ z) = text_records s ++ [c]
       | Err _ => True
       end).
Proof.
  intros Hs Ht n Hn0 Hn c Hap. destruct (marshal_carried c (ap_carried _ Hap)) as [line Hm].
  pose proof (appendJournal_ends c line s _ w Hs Hm eq_refl) as Ha.
  destruct (appendJournal c w) as [r w1] eqn:Ea. apply (ends_elim _ _ _ _ _ Ha) in Ea as Hr. clear Ha.
  destruct r as [off|e].
  - destruct Hr as [Hg ->]. pose proof (text_records_append s c line Hap Hm) as Hr.
    destruct (lines_append s line) as [_ Htl]; [by apply (decodeRecord_marshal c line Hap Hm)|].
    pose proof (settled_cut s c line _ [] Hap Hm (eq_sym (app_nil_r _))) as Hset.
    set (z := terminator s ++ line ++ [newline]) in *. clearbody z.
    assert (Ht' : torn_ok s) by (unfold torn_ok; by rewrite Ht). specialize (Hr Ht').
    pose proof (appendChange_after c0 s z read w w1 Hs Hn0 Hn Ea (gr_text _ _ _ _ Hg) Htl Hr) as Ec.
    apply (ends_intro _ _ _ _ _ Ec). exists z. by split_and!.
  - destruct Hr as (y & k & Hz & Hg). pose proof (appendChange_err c0 s read w w1 e Hs Hn0 Hn Ea) as Ec.
    apply (ends_intro _ _ _ _ _ Ec). exists y. split_and!; [done| |done]. by apply (settled_cut s c line y k).
Qed.

(** Where the journal stands after a write that may have failed: what it
    held, and at most the record; the cursor still describes it. *)
Record committed (s : bytes) (c : Change) (w w' : world) (z : bytes) : Prop := {
  cm_text : holds w' (s ++ z);
  cm_records : settled (s ++ z) = settled s \/ settled (s ++ z) = settled s ++ [c];
  cm_cursor cu : blen (s ++ z) < 2 ^ 63 -> saved w' = Some cu -> describes (s ++ z) cu;
  cm_other q : q <> journal_path -> q <> top stateName -> no_tmp q.2 -> wFiles w' !! q = wFiles w !! q
}.

Lemma saved_same w w' : wFiles w' !! top stateName = wFiles w !! top stateName -> saved w' = saved w.
Proof. unfold saved, readRegular. by intros ->. Qed.

Lemma commit_ends c0 s read w :
  holds w s -> tail_of s = [] -> Forall appendable (text_records s) -> (forall cu, saved w = Some cu -> describes s cu) ->
  let n := seq_of (text_records s) in 0 <= n -> n + 1 < 2 ^ 64 ->
  let c := numbered (n + 1) c0 in appendable c ->
  ends (commit (state_for s read) c0) w (fun r w' => exists z, committed s c w w' z
    /\ match r with Ok c' => c' = c /\ tail_of (s ++ z) = [] /\ text_records (s ++ z) = text_records s ++ [c] | Err _ => True end).
Proof.
  intros Hs Ht Hall Hsv n Hn0 Hn c Hap. unfold commit. apply ends_bind.
  eapply ends_weaken; [by apply (appendChange_ends c0 s read w)|]. intros r w1 (z & [Hg Ho] & Hst & Hr).
  assert (Hsv1 : forall cu, saved w1 = Some cu -> describes (s ++ z) cu).
  { intros cu. rewrite (saved_same w w1) by by apply Ho. intros H. by apply describes_app, Hsv. }
  destruct r as [ [st c']|e]; [|exists z; split; [split; auto|done] ].
  destruct Hr as (-> & -> & Htl & Hrec). apply ends_bind. unfold saveState.
  eapply ends_weaken; [by apply writeAtomic_ends|]. intros r w2 H2.
  assert (Hnear : near (top stateName) w1 w2) by (destruct r; apply H2).
  assert (Hcm : committed s c w w2 z).
  { split; [|done| |].
    - eapply holds_same, Hg. by apply (near_journal (top stateName)).
    - intros cu Hroom Hcu. destruct r as [u|e].
      + destruct H2 as [_ H2]. erewrite saved_file in Hcu by (exact H2 || done). cbn [fData] in Hcu.
        change (MkCursor _ _ _ _) with (cursor_of (state_for (s ++ z) read)) in Hcu.
        rewrite unmarshal_marshal_cursor in Hcu.
        * injection Hcu as <-. by apply describes_whole.
        * apply state_for_carried.
          -- apply appendable_named. rewrite Hrec. apply Forall_app. split; [done|]. by constructor.
          -- rewrite Hrec, seq_of_app. cbn [last cSeq numbered]. fold n. lia.
          -- pose proof (whole_tail (s ++ z)) as E. rewrite Htl, blen_nil in E. lia.
      + rewrite (saved_same w1 w2) in Hcu by apply H2. by apply Hsv1.
    - intros q H1 H3 H4. rewrite (ne_other _ _ _ Hnear q) by (done || by left). by apply Ho. }
  destruct r as [u|e]; [apply ends_ret|]; exists z; split; try done.
Qed.

(** What a write of [c] leaves, whatever failed: the entry's file as it was,
    or [shown] in its place, the journal at most one record longer and that
    only once the file is changed, a cursor that describes the journal, and
    every other entry untouched. *)
Record write_left (shown : option object) (c : Change) (j : list Change) (w : world) (r : res ferror Change) (w' : world) : Prop := {
  wl_entry : let p := entryName (eScope (cEntry c)) (eName (cEntry c)) in
    wFiles w' !! p = wFiles w !! p /\ (exists e, r = Err e) /\ wFiles w' !! journal_path = wFiles w !! journal_path
    \/ wFiles w' !! p = shown;
  wl_journal : exists s z, holds w s /\ holds w' (s ++ z) /\ (settled (s ++ z) = j \/ settled (s ++ z) = j ++ [c])
    /\ (blen (s ++ z) < 2 ^ 63 -> forall cu, saved w' = Some cu -> describes (s ++ z) cu)
    /\ (forall c', r = Ok c' -> c' = c /\ tail_of (s ++ z) = [] /\ text_records (s ++ z) = j ++ [c]);
  wl_other scope name : ValidName scope = true -> ValidName name = true -> (scope, name) <> change_ref c ->
    wFiles w' !! entryName scope name = wFiles w !! entryName scope name
}.

(** A Put shows the entry whole, a Forget nothing. *)
Definition put_left (c : Change) (j : list Change) (w : world) : res ferror Change -> world -> Prop :=
  write_left (Some (OFile (MkFile (encode (cEntry c)) (wClock w) 1))) c j w.

Definition forget_left (c : Change) (j : list Change) (w : world) : res ferror Change -> world -> Prop :=
  write_left None c j w.

Lemma name_no_tmp_entry scope name : ValidName name = true -> no_tmp (entryName scope name).2.
Proof. intros H. by apply name_no_tmp. Qed.

(** A path a write of the entry touches neither before the journal, nor
    uses for a time. *)
Definition beside (scope name : bytes) (q : path) : Prop :=
  q <> entryName scope name /\ q <> (scope, indexName) /\ q <> top scope /\ no_tmp q.2.

Section Beside.
Context (scope name : bytes) (Hs : ValidName scope = true) (Hn : ValidName name = true).

Lemma beside_journal : beside scope name journal_path.
Proof using Hs Hn.
  split_and!; [| |by apply journal_not_top|done]; intros E; eapply own_journal; try (by symmetry); by constructor.
Qed.

Lemma beside_state : beside scope name (top stateName).
Proof using Hs Hn.
  split_and!; [intros E; by apply (entry_not_state scope name)| |apply own_top; [apply own_state|done]|done].
  by intros [=].
Qed.

Lemma beside_entry sc n :
  ValidName sc = true -> ValidName n = true -> (sc, n) <> (scope, name) -> beside scope name (entryName sc n).
Proof using Hs.
  intros Hsc Hn' Hne. split_and!; [by intros E%entryName_inj|by apply entry_not_index| |by apply name_no_tmp].
  apply own_top; [by constructor|done].
Qed.
End Beside.

Definition unwritten (scope name : bytes) (w w' : world) : Prop :=
  forall q, beside scope name q -> wFiles w' !! q = wFiles w !! q.

Lemma near_unwritten scope name p w w' :
  p = entryName scope name \/ p = (scope, indexName) -> near p w w' -> unwritten scope name w w'.
Proof.
  intros Hp Hn q (H1 & H2 & H3 & H4). apply (ne_other _ _ _ Hn); [|right|done]; by destruct Hp as [-> | ->].
Qed.

Lemma unwritten_trans scope name w w1 w2 : unwritten scope name w w1 -> unwritten scope name w1 w2 -> unwritten scope name w w2.
Proof. intros H1 H2 q Hq. by rewrite H2, H1. Qed.

(** The index after the entry's file. *)
Lemma reindex_ends scope name w : ValidName scope = true -> ValidName name = true ->
  ends (reindex scope) w (fun _ w' => unwritten scope name w w'
    /\ wFiles w' !! entryName scope name = wFiles w !! entryName scope name).
Proof.
  intros Hs Hn. pose proof (own_entry scope name Hs Hn) as Ho. pose proof (own_index scope Hs) as Hi.
  unfold reindex. apply ends_bind, ends_look. destruct (list_scope w scope) as [es|e]; [|done].
  eapply ends_weaken; [apply writeAtomic_ends; [by apply own_no_tmp|by apply own_self]|].
  intros r w' H. assert (Hn1 : near (scope, indexName) w w') by (destruct r; apply H).
  split; [by eapply near_unwritten; [right|]|].
  apply (ne_other _ _ _ Hn1); [by apply entry_not_index|right; by apply own_top|by apply own_no_tmp].
Qed.

(** The entry's file as it was, with an error, or [shown]. *)
Definition files_left (scope name : bytes) (shown : option object) (w : world) (r : res ferror unit) (w' : world) : Prop :=
  unwritten scope name w w'
  /\ (wFiles w' !! entryName scope name = wFiles w !! entryName scope name /\ (exists e, r = Err e)
      \/ wFiles w' !! entryName scope name = shown).

Lemma then_reindex scope name shown (m : M unit) w : ValidName scope = true -> ValidName name = true ->
  ends m w (files_left scope name shown w) -> ends (run! m in reindex scope) w (files_left scope name shown w).
Proof.
  intros Hs Hn Hm. apply ends_bind. eapply ends_weaken; [exact Hm|]. intros r w1 [H1 He].
  destruct r as [ [] |e]; [|done]. destruct He as [ [_ [e ?] ]|He]; [done|].
  eapply ends_weaken; [by apply (reindex_ends scope name)|]. intros r w2 [H2 E2].
  split; [by eapply unwritten_trans|]. right. by rewrite E2.
Qed.

(** The two files of a Put, and of a Forget. *)
Lemma entry_files_ends scope name data w : ValidName scope = true -> ValidName name = true ->
  ends (run! writeAtomic (entryName scope name) data in reindex scope) w
    (files_left scope name (Some (OFile (MkFile data (wClock w) 1))) w).
Proof.
  intros Hs Hn. pose proof (own_entry scope name Hs Hn) as Ho. apply then_reindex; [done..|].
  eapply ends_weaken; [apply writeAtomic_ends; [by apply own_no_tmp|by apply own_self]|].
  intros r w' H. assert (Hn1 : near (entryName scope name) w w') by (destruct r; apply H).
  split; [by eapply near_unwritten; [left|]|]. destruct r as [u|e]; [right; apply H|left; split; [apply H|eauto] ].
Qed.

Lemma forget_files_ends scope name w : ValidName scope = true -> ValidName name = true ->
  ends (run! Remove (entryName scope name) in reindex scope) w (files_left scope name None w).
Proof.
  intros Hs Hn. apply then_reindex; [done..|]. unfold Remove. apply ends_bind, ends_look.
  case_bool_decide; [|split; [by intros q _|left; eauto] ]. apply ends_change; intros w1 (E & _ & _).
  - split; [|right; apply lookup_delete_eq]. intros q (Hq & _). cbn. by rewrite lookup_delete_ne, E.
  - split; [by intros q _; rewrite E|left; split; [by rewrite E|eauto] ].
Qed.

Lemma ends_assoc {A B C} (m : M A) (n : M B) (k : B -> M C) w0 Q :
  ends (let! x := run! m in n in k x) w0 Q -> ends (run! m in let! x := n in k x) w0 Q.
Proof. unfold ends, bind. by destruct (m w0) as [ [a|e] w1]. Qed.

Lemma ends_let {A} (m : M A) w Q : ends m w Q -> let (r, w') := m w in Q r w'.
Proof. unfold ends. by destruct (m w). Qed.

Section Faults.
Context (max : Z) (w : world) (j : list Change) (now : Z) (session : bytes).
Context (Hw : synced max w j) (Hy : year_ok now = true) (Hz : now <> 0) (Hse : ValidString session = true).

(** The directory changed elsewhere than in the journal and the cursor, and
    then the record: what [commit] leaves of a synced directory. *)
Lemma commit_faults w2 scope name c0 c s read :
  ValidName scope = true -> ValidName name = true -> holds w s -> text_records s = j -> tail_of s = [] ->
  (forall q, beside scope name q -> wFiles w2 !! q = wFiles w !! q) ->
  numbered (next_seq j) c0 = c -> appendable c ->
  ends (commit (state_for s read) c0) w2 (fun r w' =>
    (exists s z, holds w s /\ holds w' (s ++ z) /\ (settled (s ++ z) = j \/ settled (s ++ z) = j ++ [c])
      /\ (blen (s ++ z) < 2 ^ 63 -> forall cu, saved w' = Some cu -> describes (s ++ z) cu)
      /\ (forall c', r = Ok c' -> c' = c /\ tail_of (s ++ z) = [] /\ text_records (s ++ z) = j ++ [c]))
    /\ (forall q, q <> journal_path -> q <> top stateName -> no_tmp q.2 -> wFiles w' !! q = wFiles w2 !! q)).
Proof using Hw.
  intros Hs Hn Hst Hj Ht Ho Hc Hap. pose proof (own_entry scope name Hs Hn) as Hoe. pose proof (own_index scope Hs) as Hoi.
  assert (Hs2 : holds w2 s).
  { eapply holds_same, Hst. by apply Ho, beside_journal. }
  assert (Hsv : saved w2 = saved w) by (apply saved_same, Ho; by apply beside_state).
  assert (Hseq : seq_of (text_records s) = blen j) by (rewrite Hj; apply (journal_wf_seq_of max), Hw).
  pose proof (blen_nonneg j). pose proof (journal_small _ _ _ Hw).
  assert (Hc' : numbered (seq_of (text_records s) + 1) c0 = c) by by rewrite Hseq.
  eapply ends_weaken.
  { apply (commit_ends c0 s read w2 Hs2 Ht); [rewrite Hj; apply Hw| | | |by rewrite Hc']; rewrite ?Hseq; try lia.
    intros cu Hcu. rewrite Hsv in Hcu. destruct (sy_text _ _ _ Hw) as (s' & Hs' & _ & _ & _ & _ & Hd).
    rewrite (holds_inj _ _ _ Hst Hs'). by apply Hd. }
  rewrite Hc'. intros r w' (z & [H1 H2 H3 H4] & Hr).
  assert (Hset : settled s = j) by by rewrite (settled_whole s Ht).
  split; [|exact H4]. exists s, z. rewrite Hset in H2. split_and!; [done..| |].
  - intros Hroom cu. by apply H3.
  - intros c' ->. by rewrite <- Hj.
Qed.

(** The files, then the record. *)
Lemma write_faults shown c s read scope name (m : M unit) (k : M Change) wl :
  ValidName scope = true -> ValidName name = true -> change_ref c = (scope, name) ->
  holds w s -> text_records s = j -> tail_of s = [] -> cSeq c = next_seq j -> appendable c ->
  wFiles wl = wFiles w -> ends m wl (files_left scope name shown wl) ->
  (forall w2, k w2 = commit (state_for s read) (numbered 0 c) w2) -> ends (run! m in k) wl (write_left shown c j w).
Proof using Hw.
  intros Hs Hn Href Hst Hj Ht Hc Hap Ewl Hm Hk. pose proof Href as [= Es En].
  apply ends_bind. eapply ends_weaken; [exact Hm|]. intros r w2 [Hu He]. unfold unwritten in Hu. rewrite Ewl in Hu, He.
  assert (Hoth : forall sc n, ValidName sc = true -> ValidName n = true -> (sc, n) <> change_ref c ->
    wFiles w2 !! entryName sc n = wFiles w !! entryName sc n).
  { intros sc n Hsc Hn2 Hne. apply Hu, beside_entry; try done. by rewrite <- Href. }
  destruct r as [ [] |err].
  - destruct He as [ [_ [x Hx] ]|He]; [done|]. unfold ends. rewrite Hk. fold (ends (commit (state_for s read) (numbered 0 c)) w2 (write_left shown c j w)).
    eapply ends_weaken; [apply (commit_faults w2 scope name (numbered 0 c) c s read); try done; rewrite <- Hc; by destruct c|]. intros r w' [Hjr Hrest].
    assert (Hself : forall sc n, ValidName sc = true -> ValidName n = true -> wFiles w' !! entryName sc n = wFiles w2 !! entryName sc n).
    { intros sc n Hsc Hn2. apply Hrest; [|by apply entry_not_state|by apply name_no_tmp].
      intros E. by eapply own_journal; [|exact E]; constructor. }
    split; [right; by rewrite Es, En, Hself|exact Hjr|]. intros sc n Hsc Hn2 Hne. rewrite Hself by done. by apply Hoth.
  - assert (Hjn : wFiles w2 !! journal_path = wFiles w !! journal_path) by by apply Hu, beside_journal.
    split; [rewrite Es, En; destruct He as [ [He _]|He]; [left; split_and!; eauto|by right]| |exact Hoth].
    exists s, []. rewrite app_nil_r. split_and!; [done|by eapply holds_same|left; by rewrite (settled_whole s Ht)|intros _ cu|done].
    rewrite (saved_same w w2) by by apply Hu, beside_state. intros Hcu.
    destruct (sy_text _ _ _ Hw) as (s' & Hs2 & _ & _ & _ & _ & Hd). rewrite (holds_inj _ _ _ Hst Hs2). by apply Hd.
Qed.

Lemma file_put_left e opts plan :
  opts_text opts ->
  let (r, w') := file_put max None now session e opts (with_plan plan w) in
  match spec_put max j now session e opts with
  | Err err => r = Err (FStore err) /\ w' = with_plan plan w
  | Ok c => put_left c j w r w'
  end.
Proof using Hw Hy Hz Hse.
  intros Hopts. set (wl := with_plan plan w). unfold file_put. rewrite guard_bind.
  destruct (CheckEntry e 0 None) as [err|] eqn:E0.
  { unfold spec_put. by rewrite (CheckEntry_unlimited e max _ err E0). }
  apply CheckEntry_None in E0 as He. destruct He as [Hs%ValidName_iff Hn%ValidName_iff _ _ _ _ _].
  erewrite bind_ok by done. erewrite bind_look by by apply (readEntry_synced max w j Hw). rewrite !guard_bind.
  destruct (spec_put max j now session e opts) as [c|err] eqn:Esp.
  2: { unfold spec_put in Esp. unfold entry_ref in Esp.
       destruct (CheckEntry e max _); [by simplify_eq|].
       destruct (PutOptions_Check _ _ _ _); [by simplify_eq|done]. }
  pose proof (spec_put_appendable _ _ _ _ _ _ _ (sy_app _ _ _ Hw) (journal_small _ _ _ Hw) Hy Hse Hopts Esp) as Hap.
  destruct (sy_text _ _ _ Hw) as (s & Hst & Hj & Ht & Hun & _ & _).
  destruct (synced_load _ _ _ s Hw Hst Hj) as [read Hload].
  unfold spec_put in Esp. unfold entry_ref in Esp. destruct (CheckEntry e max _); [done|].
  destruct (PutOptions_Check _ _ _ _); [done|]. injection Esp as Ec.
  assert (Hce : cEntry c = stamped now e) by by rewrite <- Ec.
  erewrite bind_look by exact Hload. change (eScope (stamped now e)) with (eScope e). change (eName (stamped now e)) with (eName e).
  apply (ends_let _ wl (put_left c j w)), ends_assoc. unfold put_left. rewrite Hce.
  eapply (write_faults _ c s read (eScope e) (eName e)); try done.
  - unfold change_ref. by rewrite Hce.
  - by rewrite <- Ec.
  - exact (entry_files_ends (eScope e) (eName e) (encode (stamped now e)) wl Hs Hn).
  - intros w2. erewrite bind_ok by by apply (noteOutside_synced max w w2 j). unfold held.
    rewrite (synced_held _ s read max w j) by done.
    destruct (put_chain (eScope e) (eName e) (ResolvePutOptions opts) (replay j !! (eScope e, eName e))) as [-> ->]. rewrite <- Ec.
    reflexivity.
Qed.

Lemma file_forget_left scope name plan :
  let (r, w') := file_forget max None now session scope name (with_plan plan w) in
  match spec_forget j now session scope name with
  | Err err => r = Err (FStore err) /\ w' = with_plan plan w
  | Ok c => forget_left c j w r w'
  end.
Proof using Hw Hy Hz Hse.
  set (wl := with_plan plan w). unfold file_forget. rewrite guard_bind.
  destruct (CheckRef scope name) as [err|] eqn:Er; [unfold spec_forget; by rewrite Er|].
  assert (Hv : ValidName scope = true /\ ValidName name = true).
  { unfold CheckRef, CheckScope, ValidScope in Er. by destruct (ValidName scope), (ValidName name). }
  destruct Hv as [Hs Hn]. erewrite bind_ok by done. erewrite bind_look by by apply (readEntry_synced max w j Hw).
  destruct (spec_forget j now session scope name) as [c|err] eqn:Esp; pose proof Esp as Ec; unfold spec_forget in Ec; rewrite Er in Ec;
    destruct (replay j !! (scope, name)) as [e|] eqn:Ee; try done.
  2: { by simplify_eq. }
  pose proof (spec_forget_appendable max w j now session Hw Hy Hse scope name c Esp) as Hap. injection Ec as Ec.
  destruct (sy_text _ _ _ Hw) as (s & Hst & Hj & Ht & _ & _ & _).
  destruct (synced_load _ _ _ s Hw Hst Hj) as [read Hload]. erewrite bind_look by exact Hload.
  destruct (live_file max j _ e (sy_wf _ _ _ Hw) (sy_app _ _ _ Hw) (sy_time _ _ _ Hw) Ee) as (_ & _ & _ & Hmh & _ & Href & _).
  apply (ends_let _ wl (forget_left c j w)), ends_assoc.
  eapply (write_faults None c s read scope name); try done.
  - rewrite <- Ec. exact Href.
  - by rewrite <- Ec.
  - exact (forget_files_ends scope name wl Hs Hn).
  - intros w2. rewrite <- Ee. erewrite bind_ok by by apply (noteOutside_synced max w w2 j).
    rewrite (synced_held _ s read max w j) by done. rewrite Ee. cbn [fmap option_fmap option_map].
    assert (Hag : agrees (state_of e) e = true) by (unfold agrees, state_of; cbn; by rewrite !bool_decide_eq_true_2).
    rewrite Hag. erewrite bind_ok by done. unfold held. rewrite (synced_held _ s read max w j) by done.
    rewrite Ee, <- Ec, <- Hmh. done.
Qed.

End Faults.

(** C8: On a directory in sync with a journal, every entry file showing what
    the journal holds, so that no one edited one by hand, and the journal
    whole and undamaged: a Put that fails, or crashes, at any system call,
    with any part of a write done, leaves the entry's file as it was, with no
    record, or whole; the journal, torn line and all, one record longer at
    most, that record the Put's own, and only once the file is in place; the
    cursor one that describes the journal; and every other entry as it was.
    It succeeds only with the file and the record in place.  The session and
    the options are text, and the time is one JSON writes. *)
Theorem file_put_faults max w j now session e opts plan :
  synced max w j -> year_ok now = true -> now <> 0 -> ValidString session = true -> opts_text opts ->
  let (r, w') := file_put max None now session e opts (with_plan plan w) in
  match spec_put max j now session e opts with
  | Err err => r = Err (FStore err) /\ w' = with_plan plan w
  | Ok c => put_left c j w r w'
  end.
Proof. intros. by apply file_put_left. Qed.

(** C9: On a directory in sync with a journal, as for Put, so that no one
    edited an entry file by hand: a Forget that fails, or crashes, at any
    system call leaves the entry's file as it was, with no record, or gone;
    the journal one record longer at most, that record the tombstone, and
    only once the file is gone; the cursor one that describes the journal;
    and every other entry as it was.  It succeeds only with the file gone
    and the tombstone in place. *)
Theorem file_forget_faults max w j now session scope name plan :
  synced max w j -> year_ok now = true -> now <> 0 -> ValidString session = true ->
  let (r, w') := file_forget max None now session scope name (with_plan plan w) in
  match spec_forget j now session scope name with
  | Err err => r = Err (FStore err) /\ w' = with_plan plan w
  | Ok c => forget_left c j w r w'
  end.
Proof. intros. by apply (file_forget_left max w j). Qed.

Definition demo_put (content : string) : M Change :=
  file_put 4096 None 7 (bs "s1") (MkEntry (bs "user") (bs "style") (bs content) None [] [] 0 false) [].

(** The journal's write fails after [n] bytes: the thirteenth call, after six
    for the file, five for the index and one to create the journal. *)
Definition journal_fails (n : nat) : list (option nat) := replicate 12 None ++ [Some n].

Lemma file_put_faults_witness :
  let (r, w') := demo_put "Short." (with_plan (journal_fails 40) empty_world) in
  r = Err (FIO journal_path) /\ blen (journal_data w') = 40
  /\ exists c, spec_put 4096 [] 7 (bs "s1") (MkEntry (bs "user") (bs "style") (bs "Short.") None [] [] 0 false) [] = Ok c
       /\ put_left c [] empty_world r w'.
Proof.
  assert (E : (demo_put "Short." (with_plan (journal_fails 40) empty_world)).1 = Err (FIO journal_path)
    /\ blen (journal_data (demo_put "Short." (with_plan (journal_fails 40) empty_world)).2) = 40) by by vm_compute.
  pose proof (file_put_faults 4096 empty_world [] 7 (bs "s1") (MkEntry (bs "user") (bs "style") (bs "Short.") None [] [] 0 false)
    [] (journal_fails 40) (empty_synced _ _ _) eq_refl ltac:(lia) eq_refl (conj eq_refl eq_refl)) as H.
  unfold demo_put in *. destruct (file_put _ _ _ _ _ _ _) as [r w'] eqn:Ef. cbn [fst snd] in E.
  split; [apply E|]. split; [apply E|]. eexists. split; [vm_compute; reflexivity|exact H].
Defined.

(** A Forget of the entry such a Put stored, cut off in the journal after 40
    bytes of the tombstone: the file is gone and the journal torn. *)
Definition stored_world : world := (demo_put "Short." (with_plan [] empty_world)).2.

Definition demo_forget : M Change := file_forget 4096 None 8 (bs "s2") (bs "user") (bs "style").

(** The seventh call, after the removal and the five for the index. *)
Definition tombstone_fails : list (option nat) := replicate 6 None ++ [Some 40%nat].

Lemma file_forget_faults_witness :
  exists j, (cSeq <$> j) = [1]
    /\ let (r, w') := demo_forget (with_plan tombstone_fails stored_world) in
       r = Err (FIO journal_path) /\ blen (journal_data w') = blen (journal_data stored_world) + 40
       /\ exists c, spec_forget j 8 (bs "s2") (bs "user") (bs "style") = Ok c /\ forget_left c j stored_world r w'.
Proof.
  set (put := spec_put 4096 [] 7 (bs "s1") (MkEntry (bs "user") (bs "style") (bs "Short.") None [] [] 0 false) []).
  assert (Hj : exists c, put = Ok c /\ cSeq c = 1) by (eexists; split; [vm_compute; reflexivity|done]).
  destruct Hj as (c & Hc & Hq). exists [c].
  assert (Hw : synced 4096 stored_world [c]).
  { assert (Hs : file_put 4096 None 7 (bs "s1") (MkEntry (bs "user") (bs "style") (bs "Short.") None [] [] 0 false) [] empty_world
      = demo_put "Short." (with_plan [] empty_world)) by reflexivity.
    destruct (file_put_synced 4096 empty_world [] 7 (bs "s1") (empty_synced _ _ _) eq_refl ltac:(lia) eq_refl
      (MkEntry (bs "user") (bs "style") (bs "Short.") None [] [] 0 false) [] (conj eq_refl eq_refl)) as (w' & E & H).
    rewrite Hs in E. fold put in E, H. rewrite Hc in H. unfold stored_world. rewrite E. cbn [snd].
    apply H. replace w' with stored_world by (unfold stored_world; by rewrite E). vm_compute. reflexivity. }
  split; [cbn; by rewrite Hq|].
  assert (E : (demo_forget (with_plan tombstone_fails stored_world)).1 = Err (FIO journal_path)
    /\ blen (journal_data (demo_forget (with_plan tombstone_fails stored_world)).2) = blen (journal_data stored_world) + 40)
    by by vm_compute.
  pose proof (file_forget_faults 4096 stored_world [c] 8 (bs "s2") (bs "user") (bs "style") tombstone_fails
    Hw eq_refl ltac:(lia) eq_refl) as H.
  unfold demo_forget in *. destruct (file_forget _ _ _ _ _ _ _) as [r w']. cbn [fst snd] in E.
  split; [apply E|]. split; [apply E|]. revert H.
  assert (Hf : exists d, spec_forget [c] 8 (bs "s2") (bs "user") (bs "style") = Ok d).
  { unfold put in Hc. vm_compute in Hc. injection Hc as <-. eexists. vm_compute. reflexivity. }
  destruct Hf as [d Hd]. rewrite Hd. intros H. by exists d.
Defined.

(** A write cut off just short of its newline leaves a whole record, which
    the next write terminates; that write numbers its own record from the
    complete lines before it, so that two records share a number. *)
Example lost_newline_repeats_number :
  let n := pred (length (journal_data (demo_put "Short." empty_world).2)) in
  let w1 := (demo_put "Short." (with_plan (journal_fails n) empty_world)).2 in
  let w2 := (demo_put "Long." (with_plan [] w1)).2 in
  (demo_put "Short." (with_plan (journal_fails n) empty_world)).1 = Err (FIO journal_path)
  /\ (cSeq <$> text_records (journal_data w2)) = [1; 1; 2]
  /\ (fun c => (eContent (cEntry c), cSource c)) <$> text_records (journal_data w2)
     = [(bs "Short.", []); (bs "Short.", SourceReconciled); (bs "Long.", [])].
Proof. vm_compute. split_and!; reflexivity. Qed.
