(* ===== verification/Reconcile.v ===== *)
(** * Reconciling a directory edited by hand

    [Reconcile] of filestore/filestore.go journals what a person changed in
    the entry files.  On a directory in which system calls succeed, with any
    entry files and any journal the store could have written, damaged lines
    and a torn tail included: the records it appends, what the journal holds
    for every name afterwards, and that a second run finds nothing and
    changes nothing. *)

From S2P Require Import Prelude GoStd GoTime Sha256 Memory Store Search Json JsonRead Codec Frontmatter Records Fsys FileJournal FileState FileStore FileLaws.

(** ** What a directory holds *)

(** The entry a name's file holds, if it is one. *)
Definition found (w : world) (scope name : bytes) : option Entry :=
  match readEntry w scope name with Ok o => o | Err _ => None end.

Lemma readEntry_calm w scope name : calm w -> ValidName scope = true -> readEntry w scope name = Ok (found w scope name).
Proof.
  intros Hw Hs. unfold found, readEntry. rewrite scopeIsDir_calm by done. cbn [res_bind].
  case_bool_decide; cbn [negb]; [|done]. by destruct (readRegular _ _).
Qed.

(** An entry found is the file's. *)
Lemma found_Some w scope name e : calm w -> ValidName scope = true -> found w scope name = Some e ->
  wFiles w !! top scope = Some ODir
  /\ exists f, wFiles w !! entryName scope name = Some (OFile f) /\ fLinks f <= 1
      /\ e = MkEntry scope name (dContent (decode (fData f))) (dMeta (decode (fData f))) (Hash (dContent (decode (fData f))))
               (MetaHash (dMeta (decode (fData f)))) (if dUpdated (decode (fData f)) =? 0 then fTime f else dUpdated (decode (fData f))) false.
Proof.
  intros Hw Hs. unfold found, readEntry. rewrite scopeIsDir_calm by done. cbn [res_bind].
  case_bool_decide as Hd; cbn [negb]; [|done]. unfold readRegular.
  destruct (wFiles w !! entryName scope name) as [[f| | |]|]; try done. cbn [regularAlone].
  destruct (Z.leb_spec (fLinks f) 1); [|done]. intros [= <-]. split; [done|]. by exists f.
Qed.

(** ** Listing *)

Lemma list_loop_calm w scope l : calm w -> ValidName scope = true ->
  list_loop w scope l = Ok (omap (fun no => name ← entry_of no.1 no.2; found w scope name) l).
Proof.
  intros Hw Hs. induction l as [|[n o] l IH]; [done|]. cbn [list_loop omap list_omap fst snd].
  destruct (entry_of n o) as [name|]; cbn [mbind option_bind]; [|done].
  rewrite readEntry_calm, IH by done. cbn. by destruct (found w scope name).
Qed.

Lemma list_scope_found w scope : calm w -> ValidName scope = true ->
  exists es, list_scope w scope = Ok es
    /\ forall e, e ∈ es <-> ValidName (eName e) = true /\ found w scope (eName e) = Some e.
Proof.
  intros Hw Hs. unfold list_scope. rewrite scopeIsDir_calm by done. cbn [res_bind].
  case_bool_decide as Hd; cbn [negb].
  - rewrite list_loop_calm by done. eexists. split; [done|]. intros e. rewrite sort_on_perm, list_elem_of_omap. split.
    + intros ([n o] & Hin & H). cbn [fst snd] in H. destruct (entry_of n o) as [name|] eqn:E; [|done]. cbn in H.
      apply entry_of_Some in E as [-> Hn]. destruct (found_Some _ _ _ _ Hw Hs H) as (_ & f & _ & _ & ->). done.
    + intros [Hn H]. destruct (found_Some _ _ _ _ Hw Hs H) as (_ & f & Hf & _ & _).
      exists (eName e ++ bs ".md", OFile f). split; [by apply ReadDir_elem|]. unfold entry_of. cbn [fst snd].
      rewrite CutSuffix_app. cbn. by rewrite Hn.
  - eexists. split; [done|]. intros e. split; [by intros ?%not_elem_of_nil|]. intros [_ H].
    by destruct (found_Some _ _ _ _ Hw Hs H) as (? & _).
Qed.

Lemma scopes_calm w : calm w -> exists ss, scopes w = Ok ss
  /\ forall scope, scope ∈ ss <-> ValidName scope = true /\ wFiles w !! top scope = Some ODir.
Proof.
  intros Hw. unfold scopes.
  assert (Hl : forall l, (forall n o, (n, o) ∈ l -> wFiles w !! top n = Some o) -> exists ss, scope_dirs l = Ok ss
    /\ forall scope, scope ∈ ss <-> ValidName scope = true /\ (scope, ODir) ∈ l).
  { induction l as [|[n o] l IH]; intros Hl.
    { exists []. split; [done|]. intros scope. rewrite !elem_of_nil. by split; [|intros [? []]]. }
    destruct IH as (ss & E & Hss); [intros n' o' ?; apply Hl; by right|]. cbn [scope_dirs].
    destruct (ValidName n) eqn:Hn; cbn [negb].
    - assert (Ho : o = ODir).
      { specialize (Hl n o ltac:(left)). destruct (ca_dirs w Hw n Hn) as [->|[?|?]]; [by apply ValidName_nonempty in Hn|congruence..]. }
      rewrite Ho, E. exists (n :: ss). split; [done|]. intros scope. rewrite !elem_of_cons, Hss. split.
      + intros [->|[? ?]]; auto.
      + intros [? [[= ->]|?]]; auto.
    - exists ss. split; [done|]. intros scope. rewrite Hss, elem_of_cons. split; [by intros [? ?]; auto|].
      intros [? [[= -> _]|?]]; [congruence|auto]. }
  destruct (Hl (ReadDir w [])) as (ss & E & Hss); [intros n o Hin; by apply ReadDir_elem in Hin|].
  exists ss. split; [done|]. intros scope. by rewrite Hss, ReadDir_elem.
Qed.

(** A scope's directory that is a link is refused, whatever else there is and
    whatever fails: nothing is read as empty behind it, and nothing written. *)
Lemma Reconcile_linked max lock now w scope :
  ValidName scope = true -> wFiles w !! top scope = Some OLink -> exists e, Reconcile max lock now w = (Err e, w).
Proof.
  intros Hs Hl. assert (H : exists e, scopes w = Err e).
  { assert (Hin : (scope, OLink) ∈ ReadDir w []) by by apply ReadDir_elem. unfold scopes. induction (ReadDir w []) as [|[n o] l IH].
    - by apply not_elem_of_nil in Hin.
    - cbn [scope_dirs]. apply elem_of_cons in Hin as [ [= <- <-]|Hin]; [rewrite Hs; cbn; by eexists|].
      destruct (IH Hin) as [e ->]. destruct (ValidName n), o; cbn; by eexists. }
  destruct H as [e He]. unfold Reconcile, bind, look, acquire, ret, fail. destruct lock as [err|]; [by eexists|].
  destruct (loadState w) as [st|err]; [|by eexists]. rewrite He. by eexists.
Qed.

(** ** Every entry of the directory, by key *)

Definition valid_ref (r : ref) : Prop := ValidName r.1 = true /\ ValidName r.2 = true.

Definition ref_key (r : ref) : bytes := key r.1 r.2.

Lemma ref_key_inj r r' : valid_ref r -> valid_ref r' -> ref_key r = ref_key r' -> r = r'.
Proof. destruct r, r'. intros [Hs _] [Hs' _] E. cbn [fst snd] in Hs, Hs'. unfold ref_key in E. cbn [fst snd] in E. by apply key_inj in E as [-> ->]. Qed.

Lemma split_ref_key r : valid_ref r -> split_key (ref_key r) = r.
Proof.
  destruct r as [scope name]. intros [Hs _]. cbn in Hs. unfold split_key, ref_key, key. cbn [fst snd bs String.list_ascii_of_string].
  change (["/"%char] ++ name) with ("/"%char :: name). rewrite Cut_app; [done|]. by apply (ValidName_no_byte scope "/"%char).
Qed.

(** A map from keys to entries found, and one that has them all. *)
Definition of_found (w : world) (live : gmap bytes Entry) : Prop :=
  forall k e, live !! k = Some e -> exists r, valid_ref r /\ k = ref_key r /\ found w r.1 r.2 = Some e.

Lemma found_valid w scope name e : calm w -> ValidName scope = true -> found w scope name = Some e ->
  eScope e = scope /\ eName e = name.
Proof. intros Hw Hs H. destruct (found_Some _ _ _ _ Hw Hs H) as (_ & f & _ & _ & ->). done. Qed.

Lemma insert_all_found w scope es live :
  ValidName scope = true ->
  (forall e, e ∈ es -> eScope e = scope /\ ValidName (eName e) = true /\ found w scope (eName e) = Some e) ->
  of_found w live ->
  let live' := foldl (fun live e => <[key (eScope e) (eName e) := e]> live) live es in
  of_found w live' /\ (forall k, is_Some (live !! k) -> is_Some (live' !! k))
  /\ forall e, e ∈ es -> is_Some (live' !! key scope (eName e)).
Proof.
  intros Hs Hes Hlive. cbn zeta. revert live Hlive. induction es as [|e es IH]; intros live Hlive.
  { split_and!; [done|done|]. by intros e ?%not_elem_of_nil. }
  cbn [foldl]. destruct (Hes e ltac:(left)) as (He & Hn & Hf).
  destruct (IH ltac:(intros; apply Hes; by right) (<[key (eScope e) (eName e) := e]> live)) as (H1 & H2 & H3).
  { intros k x. destruct (decide (key (eScope e) (eName e) = k)) as [<-|Hne].
    - rewrite lookup_insert_eq. intros [= <-]. exists (scope, eName e). unfold ref_key. cbn. by rewrite He.
    - rewrite lookup_insert_ne by done. apply Hlive. }
  assert (Hkeep : forall k, is_Some (live !! k) \/ k = key (eScope e) (eName e) -> is_Some (<[key (eScope e) (eName e) := e]> live !! k)).
  { intros k Hk. destruct (decide (key (eScope e) (eName e) = k)) as [<-|Hne]; [rewrite lookup_insert_eq; by eexists|].
    rewrite lookup_insert_ne by done. destruct Hk; [done|congruence]. }
  split_and!; [done| |].
  - intros k Hk. apply H2, Hkeep. by left.
  - intros x [->|Hx]%elem_of_cons; [|by apply H3]. apply H2, Hkeep. right. by rewrite He.
Qed.

Lemma live_entries_found w ss : calm w -> Forall (fun s => ValidName s = true) ss -> forall live, of_found w live ->
  exists live', live_entries w ss live = Ok live' /\ of_found w live' /\ (forall k, is_Some (live !! k) -> is_Some (live' !! k))
    /\ forall scope name e, scope ∈ ss -> ValidName name = true -> found w scope name = Some e -> is_Some (live' !! key scope name).
Proof.
  intros Hw. induction 1 as [|scope ss Hs Hss IH]; intros live Hlive.
  { exists live. split_and!; [done..|]. by intros ? ? ? ?%not_elem_of_nil. }
  cbn [live_entries]. destruct (list_scope_found w scope Hw Hs) as (es & -> & Hes). cbn [res_bind].
  destruct (insert_all_found w scope es live Hs) as (H1 & H2 & H3); [|done|].
  { intros e [Hn Hf]%Hes. destruct (found_valid _ _ _ _ Hw Hs Hf). done. }
  destruct (IH _ H1) as (live' & E & H4 & H5 & H6). exists live'. split_and!; [done..| |].
  - intros k Hk. by apply H5, H2.
  - intros sc name e [->|Hin]%elem_of_cons Hn Hf; [|by eapply H6].
    destruct (found_valid _ _ _ _ Hw Hs Hf) as [_ <-]. by apply H5, H3, Hes.
Qed.

(** What [Reconcile] reads of the directory. *)
Lemma directory_read w : calm w -> exists ss live, scopes w = Ok ss /\ live_entries w ss ∅ = Ok live /\ of_found w live
  /\ forall r, valid_ref r -> live !! ref_key r = found w r.1 r.2.
Proof.
  intros Hw. destruct (scopes_calm w Hw) as (ss & Ess & Hss).
  destruct (live_entries_found w ss Hw) with (live := ∅ : gmap bytes Entry) as (live & E & H1 & _ & H3).
  { apply Forall_forall. intros s Hin. by apply Hss. }
  { by intros k e ?%lookup_empty_Some. }
  exists ss, live. split_and!; [done..|]. intros r Hr.
  assert (Hsound : forall e, live !! ref_key r = Some e -> found w r.1 r.2 = Some e).
  { intros e He. destruct (H1 _ _ He) as (r' & Hr' & Ek & Hf). by apply ref_key_inj in Ek as ->. }
  destruct (live !! ref_key r) as [e|] eqn:El; [by rewrite (Hsound e)|].
  destruct (found w r.1 r.2) as [e|] eqn:Ef; [|done]. destruct Hr as [Hs Hn].
  destruct (H3 r.1 r.2 e) as [x Hx]; [|done..|].
  - apply Hss. split; [done|]. by destruct (found_Some _ _ _ _ Hw Hs Ef) as (? & _).
  - unfold ref_key in El. congruence.
Qed.

(** ** The same state *)

(** A file shows the state that is held: the same content and the same
    metadata, each by its hash. *)
Definition same_state (e cur : Entry) : Prop := eHash e = eHash cur /\ MetaHash (eMeta e) = MetaHash (eMeta cur).

#[global] Instance same_state_dec e cur : Decision (same_state e cur).
Proof. unfold same_state. apply _. Defined.

Definition held_as (known : option Entry) (cur : Entry) : Prop :=
  match known with Some e => same_state e cur | None => False end.

#[global] Instance held_as_dec known cur : Decision (held_as known cur).
Proof. destruct known; apply _. Defined.

(** It is what the cursor's states are compared by. *)
Lemma agrees_same e cur : agrees (state_of e) cur = bool_decide (same_state e cur).
Proof. unfold agrees, state_of, same_state. cbn [seHashOf seMetaOf]. by repeat case_bool_decide; naive_solver. Qed.

Lemma agrees_held known cur :
  match known with Some e => agrees (state_of e) cur | None => false end = bool_decide (held_as known cur).
Proof.
  destruct known as [e|]; [rewrite agrees_same; by apply bool_decide_ext|by rewrite bool_decide_eq_false_2 by auto].
Qed.

(** A name whose file a person changed: removed, or added or edited, in its
    content or its metadata, to something the store would take. *)
Definition changed_by_hand (max : Z) (w : world) (j : list Change) (r : ref) : Prop :=
  match found w r.1 r.2 with
  | None => replay j !! r <> None
  | Some cur => ~ held_as (replay j !! r) cur /\ CheckEntry cur max None = None
  end.

(** ** What is recorded for one name *)

(** The record of a state found in place of the one the journal [j] holds: a
    tombstone for a file removed, an entry for one added or edited that the
    store would take, and otherwise none. *)
Definition noted (max : Z) (w : world) (j : list Change) (now : Z) (r : ref) : option Change :=
  let known := replay j !! r in
  match found w r.1 r.2 with
  | None =>
      (fun e => MkChange 0 (MkEntry (eScope e) (eName e) (eContent e) (eMeta e) (eHash e) (MetaHash (eMeta e)) now true)
                  (eHash e) (eHash e) [] SourceReconciled now) <$> known
  | Some cur =>
      if match known with Some e => agrees (state_of e) cur | None => false end then None
      else match CheckEntry cur max None with
           | Some _ => None
           | None =>
               Some (MkChange 0 (MkEntry (eScope cur) (eName cur) (eContent cur) (eMeta cur) (eHash cur) (eMetaHash cur)
                       (match modTime w (entryName r.1 r.2) with Some t => t | None => eUpdated cur end) (eDeleted cur))
                       (have_hash known) (have_hash known) [] SourceReconciled now)
           end
  end.

Lemma last_for_live j r e : replay j !! r = Some e -> exists c, last_for j r = Some c /\ cEntry c = e.
Proof.
  rewrite replay_last. destruct (last_for j r) as [c|]; [|done]. cbn.
  destruct (eDeleted (cEntry c)); [done|]. intros [= <-]. by exists c.
Qed.

Lemma outside_noted max w s read now r :
  holds w s -> Forall appendable (text_records s) -> valid_ref r ->
  outside max w (state_for s read) r.1 r.2 (found w r.1 r.2) now = Ok (noted max w (text_records s) now r).
Proof.
  intros Hs Ha Hr. destruct r as [scope name]. destruct Hr as [Hv Hn]. cbn [fst snd] in *. unfold outside, noted. cbn [fst snd].
  cbn [stEntries state_for].
  rewrite (entries_replay (text_records s) scope name (appendable_scope _ Ha) Hv).
  destruct (found w scope name) as [cur|].
  - destruct (replay (text_records s) !! (scope, name)) as [e|]; cbn [fmap option_fmap option_map have_hash].
    + destruct (agrees (state_of e) cur); [done|]. by destruct (CheckEntry cur max None).
    + by destruct (CheckEntry cur max None).
  - destruct (replay (text_records s) !! (scope, name)) as [e|] eqn:Er; cbn [fmap option_fmap option_map]; [|done].
    unfold lastRecordFor. destruct (scanJournal_holds w [] s Hs eq_refl) as (l & E & Hl).
    change (blen (@nil ascii)) with 0 in E. cbn [app] in E. rewrite E. cbn [res_bind]. rewrite Hl.
    destruct (last_for_live _ _ _ Er) as (c & -> & <-). done.
Qed.

(** ** A journal the store may write on *)

Record journaled (w : world) (s : bytes) : Prop := {
  jo_calm : calm w;
  jo_holds : holds w s;
  jo_torn : torn_ok s;
  jo_app : Forall appendable (text_records s);
  jo_seq : 0 <= seq_of (text_records s);
  jo_times scope name f : ValidName scope = true -> ValidName name = true ->
    wFiles w !! entryName scope name = Some (OFile f) -> year_ok (fTime f) = true;
  jo_tree scope name f : ValidName scope = true -> ValidName name = true ->
    wFiles w !! entryName scope name = Some (OFile f) -> wFiles w !! top scope = Some ODir
}.

Lemma decode_meta_nonempty s : dMeta (decode s) <> Some ∅.
Proof.
  assert (Hl : forall l d, dMeta d <> Some ∅ -> dMeta (fold_left decode_line l d) <> Some ∅).
  { induction l as [|x l IH]; intros d Hd; [done|]. apply IH. unfold decode_line.
    destruct (Cut ":" x) as [[k v]|]; [|done]. repeat case_match; try done. cbn. intros [= E].
    by apply insert_non_empty in E. }
  unfold decode. repeat case_match; try done; by apply Hl.
Qed.

Lemma name_string n : ValidName n = true -> ValidString n = true.
Proof. apply name_text. Qed.

(** What is noted can be written as a line of the journal. *)
Lemma noted_appendable max w s now n r c :
  journaled w s -> valid_ref r -> year_ok now = true -> noted max w (text_records s) now r = Some c -> 0 < n < 2 ^ 64 ->
  appendable (numbered n c) /\ change_ref c = r.
Proof.
  intros Hw Hr Hy Hc Hn. destruct r as [scope name]. destruct Hr as [Hv Hname]. cbn [fst snd] in *.
  pose proof (jo_app _ _ Hw) as Ha. unfold noted in Hc. cbn [fst snd] in Hc.
  assert (Hk : ValidString (have_hash (replay (text_records s) !! (scope, name))) = true).
  { apply have_hash_text. by apply appendable_carried. }
  destruct (found w scope name) as [cur|] eqn:Ef.
  - destruct (match replay (text_records s) !! (scope, name) with Some e => agrees (state_of e) cur | None => false end); [done|].
    destruct (CheckEntry cur max None) eqn:Ec; [done|]. injection Hc as <-. apply CheckEntry_None in Ec as [_ _ _ Hu Hm _ _].
    destruct (found_Some _ _ _ _ (jo_calm _ _ Hw) Hv Ef) as (_ & f & Hf & _ & ->). cbn in Hu, Hm.
    pose proof (decode_meta_nonempty (fData f)) as Hne. unfold modTime. rewrite Hf. split; [|done].
    split; [|done|done|apply Hash_nonempty|cbn; lia].
    split; [cbn; lia| |exact Hk|exact Hk|done|done|exact Hy].
    split; [by apply name_string|by apply name_string|exact Hu| | | |].
    + split; [done|]. intros k v Hkv. destruct (Hm k v Hkv) as [Hkn _ _ _ Hvu]. split; [|done].
      by apply name_string, ValidName_iff.
    + apply Hash_text.
    + apply MetaHash_text.
    + exact (jo_times _ _ Hw scope name f Hv Hname Hf).
  - destruct (replay (text_records s) !! (scope, name)) as [e|] eqn:Er; [|done]. injection Hc as <-.
    destruct (replay_ref _ _ _ Er) as [Href _]. injection Href as Es En.
    destruct (last_for_live _ _ _ Er) as (d & Hd & <-). unfold last_for in Hd.
    apply last_Some_elem_of, list_elem_of_filter in Hd as [_ Hd].
    rewrite Forall_forall in Ha. destruct (Ha d Hd) as [[_ [] _ _ _ _ _] ? ? ? _].
    split; [|by unfold change_ref, entry_ref; cbn; rewrite Es, En].
    split; cbn; try done; [|lia]. split; cbn; try done; [lia|]. split; cbn; try done. apply MetaHash_text.
Qed.

(** ** The loop over the keys *)

Fixpoint number_from (n : Z) (l : list Change) : list Change :=
  match l with [] => [] | c :: l' => numbered (n + 1) c :: number_from (n + 1) l' end.

(** The same directory but for the journal. *)
Definition agree (w w' : world) : Prop := forall p, p <> journal_path -> wFiles w' !! p = wFiles w !! p.

Lemma agree_entry w w' scope name : agree w w' -> ValidName scope = true -> ValidName name = true ->
  wFiles w' !! entryName scope name = wFiles w !! entryName scope name.
Proof. intros Ha Hs Hn. apply Ha. by apply own_journal, own_entry. Qed.

Lemma found_same w w' scope name :
  wFiles w' !! top scope = wFiles w !! top scope ->
  wFiles w' !! entryName scope name = wFiles w !! entryName scope name -> found w' scope name = found w scope name.
Proof. intros Ht He. unfold found, readEntry, scopeIsDir, readRegular. by rewrite Ht, He. Qed.

Lemma noted_ext max w w' j j' now r :
  agree w w' -> valid_ref r -> replay j' !! r = replay j !! r -> noted max w' j' now r = noted max w j now r.
Proof.
  intros Ha [Hs Hn] Hj. destruct r as [scope name]. cbn [fst snd] in *. unfold noted, modTime. cbn [fst snd].
  pose proof (agree_entry _ _ _ _ Ha Hs Hn) as He.
  rewrite Hj, (found_same w w'), He; [done| |done]. apply Ha. intros E. by apply (journal_not_top scope Hs).
Qed.

Lemma appendChange_calm w s read c :
  journaled w s -> let n := seq_of (text_records s) in n + 1 < 2 ^ 64 -> appendable (numbered (n + 1) c) ->
  exists s' w', appendChange (state_for s read) c w = (Ok (state_for s' read, numbered (n + 1) c), w')
    /\ journaled w' s' /\ agree w w' /\ text_records s' = text_records s ++ [numbered (n + 1) c] /\ tail_of s' = [].
Proof.
  intros [Hw Hs Ht Ha Hq Hti Htr] n Hn Hap.
  destruct (appendChange_quiet _ c s read w (ca_quiet w Hw) Hs eq_refl Ht Hq Hn Hap) as (f & Hl & Htl & Hr & _ & E).
  fold n in Hr, E. set (w1 := with_files (<[journal_path := OFile f]> (wFiles w)) w) in *.
  assert (Hag : agree w w1) by (intros p Hp; cbn; by rewrite lookup_insert_ne).
  exists (fData f), w1. split_and!; [exact E| |exact Hag|exact Hr|exact Htl]. split.
  - pose proof (calm_insert journal_path f w (wRand w) Hw (or_intror eq_refl) (fun i => ex_intro _ i eq_refl)) as H.
    pose proof (ca_quiet w Hw) as Hqu. unfold w1, with_files. by rewrite Hqu.
  - eapply file_holds; [apply lookup_insert_eq|done].
  - unfold torn_ok. by rewrite Htl.
  - rewrite Hr. apply Forall_app. split; [done|]. by constructor.
  - rewrite Hr. unfold seq_of. rewrite last_snoc. cbn. lia.
  - intros scope name g Hsc Hna. rewrite (agree_entry _ _ _ _ Hag Hsc Hna). by apply Hti.
  - intros scope name g Hsc Hna. rewrite (agree_entry _ _ _ _ Hag Hsc Hna), (Hag (top scope)); [by apply Htr|].
    intros E'. by apply (journal_not_top scope).
Qed.

(** A record for another name leaves what a name's is. *)
Lemma replay_other j c r : change_ref c <> r -> replay (j ++ [c]) !! r = replay j !! r.
Proof. intros Hne. rewrite replay_snoc. unfold apply_change. by destruct (eDeleted _); rewrite ?lookup_delete_ne, ?lookup_insert_ne. Qed.

Lemma due_ext max w w' j j' now rs :
  agree w w' -> Forall valid_ref rs -> (forall r, r ∈ rs -> replay j' !! r = replay j !! r) ->
  omap (noted max w' j' now) rs = omap (noted max w j now) rs.
Proof.
  intros Ha Hv. induction Hv as [|r rs Hr _ IH]; intros Hj; [done|]. cbn [omap list_omap].
  rewrite (noted_ext max w w' j j' now r Ha Hr), IH; [done| |]; intros; apply Hj; by constructor.
Qed.

Section Loop.
Context (max now : Z) (live : gmap bytes Entry) (w0 : world).
Hypothesis Hlive : forall r, valid_ref r -> live !! ref_key r = found w0 r.1 r.2.
Hypothesis Hnow : year_ok now = true.

Lemma loop_records rs : NoDup rs -> Forall valid_ref rs -> forall w s read,
  agree w0 w -> journaled w s ->
  let due := omap (noted max w (text_records s) now) rs in
  seq_of (text_records s) + blen due < 2 ^ 64 ->
  exists s' w', reconcile_loop max now live (ref_key <$> rs) (state_for s read) w
      = (Ok (number_from (seq_of (text_records s)) due, None, state_for s' read), w')
    /\ journaled w' s' /\ agree w w' /\ text_records s' = text_records s ++ number_from (seq_of (text_records s)) due
    /\ match due with [] => s' = s /\ w' = w | _ :: _ => tail_of s' = [] end.
Proof using Hlive Hnow.
  induction rs as [|r rs IH]; intros Hnd Hv w s read Hag Hjo due Hseq.
  { exists s, w. cbn. rewrite app_nil_r. by split_and!. }
  apply NoDup_cons in Hnd as [Hr Hnd]. apply Forall_cons in Hv as [Hvr Hv].
  cbn [fmap list_fmap reconcile_loop]. rewrite split_ref_key, Hlive by done. destruct r as [scope name]. cbn [fst snd].
  assert (Hf : found w0 scope name = found w scope name).
  { destruct Hvr. symmetry. apply found_same; [apply Hag; intros E; by apply (journal_not_top scope)|by apply agree_entry]. }
  pose proof (outside_noted max w s read now (scope, name) (jo_holds _ _ Hjo) (jo_app _ _ Hjo) Hvr) as Ho.
  cbn [fst snd] in Ho. rewrite Hf, Ho.
  unfold due in *. cbn [omap list_omap] in *. destruct (noted max w (text_records s) now (scope, name)) as [c|] eqn:Ec; [|by apply IH].
  rewrite blen_cons in Hseq. pose proof (blen_nonneg (omap (noted max w (text_records s) now) rs)) as Hnn.
  pose proof (jo_seq _ _ Hjo) as Hq.
  destruct (noted_appendable max w s now (seq_of (text_records s) + 1) _ c Hjo Hvr Hnow Ec) as [Hap Href]; [lia|].
  destruct (appendChange_calm w s read c Hjo) as (s1 & w1 & E & Hjo1 & Hag1 & Hrec1 & Ht1); [lia|done|]. rewrite E.
  assert (Hdue : omap (noted max w1 (text_records s1) now) rs = omap (noted max w (text_records s) now) rs).
  { apply due_ext; [done..|]. intros r' Hr'. rewrite Hrec1, replay_other; [done|]. intros Er. subst r'.
    apply Hr. by rewrite <- Href. }
  assert (Hs1 : seq_of (text_records s1) = seq_of (text_records s) + 1) by (rewrite Hrec1; unfold seq_of; by rewrite last_snoc).
  destruct (IH Hnd Hv w1 s1 read) as (s' & w' & El & Hjo' & Hag' & Hrec' & Hend); [|done|rewrite Hdue, Hs1; lia|].
  { intros p Hp. by rewrite Hag1, Hag. }
  rewrite Hdue, Hs1 in El, Hrec'. rewrite Hdue in Hend. exists s', w'. split_and!.
  - unfold bind. by rewrite El.
  - done.
  - intros p Hp. by rewrite Hag', Hag1.
  - rewrite Hrec', Hrec1, <- app_assoc. done.
  - destruct (omap _ rs); [|done]. by destruct Hend as [-> _].
Qed.
End Loop.

(** ** The names it goes through *)

(** The directory's entries by key, as [Reconcile] collects them. *)
Definition directory (w : world) : gmap bytes Entry :=
  match (let? ss := scopes w in live_entries w ss ∅) with Ok live => live | Err _ => ∅ end.

Definition candidates (w : world) (j : list Change) : list bytes :=
  sort_bytes ((map_to_list (directory w)).*1
    ++ filter (fun k => directory w !! k = None) (map_to_list (entries_of j)).*1).

(** The records to be made, not yet numbered. *)
Definition due (max : Z) (w : world) (j : list Change) (now : Z) : list Change :=
  omap (noted max w j now) (split_key <$> candidates w j).

Lemma directory_found w : calm w ->
  (let? ss := scopes w in live_entries w ss ∅) = Ok (directory w) /\ of_found w (directory w)
  /\ forall r, valid_ref r -> directory w !! ref_key r = found w r.1 r.2.
Proof.
  intros Hw. destruct (directory_read w Hw) as (ss & live & E1 & E2 & H1 & H2).
  unfold directory. rewrite E1. cbn [res_bind]. by rewrite E2.
Qed.

Lemma entries_keys j k : Forall appendable j -> is_Some (entries_of j !! k) -> exists r, valid_ref r /\ k = ref_key r.
Proof.
  intros Hj. induction j as [|c j IH] using rev_ind; [intros [x Hx]; change (entries_of []) with (∅ : gmap bytes stateEntry) in Hx; by rewrite lookup_empty in Hx|].
  apply Forall_app in Hj as [Hj Hc]. rewrite Forall_singleton in Hc. destruct Hc as [_ Hs Hn _ _].
  unfold entries_of. rewrite foldl_app. cbn [foldl]. fold (entries_of j). unfold note_map. cbv zeta.
  set (k' := key (eScope (cEntry c)) (eName (cEntry c))).
  destruct (decide (k' = k)) as [<-|Hne].
  - intros _. by exists (entry_ref (cEntry c)).
  - destruct (eDeleted (cEntry c)); [rewrite lookup_delete_ne by done|rewrite lookup_insert_ne by done]; by apply IH.
Qed.

Lemma candidates_elem w j k : k ∈ candidates w j <-> is_Some (directory w !! k) \/ is_Some (entries_of j !! k).
Proof.
  unfold candidates. rewrite sort_bytes_perm, elem_of_app, list_elem_of_filter.
  assert (Hm : forall A (m : gmap bytes A) k, k ∈ (map_to_list m).*1 <-> is_Some (m !! k)).
  { intros A m x. rewrite list_elem_of_fmap. split.
    - intros ([y v] & -> & H%elem_of_map_to_list). by exists v.
    - intros [v H]. exists (x, v). split; [done|]. by apply elem_of_map_to_list. }
  rewrite !Hm. destruct (directory w !! k) as [e|]; split; naive_solver.
Qed.

Lemma candidates_NoDup w j : NoDup (candidates w j).
Proof.
  unfold candidates. rewrite sort_bytes_perm. apply NoDup_app. split_and!.
  - apply NoDup_fst_map_to_list.
  - intros k Hk [Hn _]%list_elem_of_filter. apply list_elem_of_fmap in Hk as ([x e] & -> & Hk%elem_of_map_to_list).
    cbn in Hn. congruence.
  - apply NoDup_filter, NoDup_fst_map_to_list.
Qed.

(** Each is a name's, once, in the order of the keys. *)
Lemma candidate_refs w j : calm w -> Forall appendable j ->
  let rs := split_key <$> candidates w j in
  candidates w j = ref_key <$> rs /\ Forall valid_ref rs /\ NoDup rs
  /\ forall r, valid_ref r -> r ∈ rs <-> is_Some (found w r.1 r.2) \/ is_Some (replay j !! r).
Proof.
  intros Hw Hj. cbn zeta. destruct (directory_found w Hw) as (_ & Hof & Hd).
  assert (Hk : Forall (fun k => exists r, valid_ref r /\ k = ref_key r) (candidates w j)).
  { apply Forall_forall. intros k [[e He]|He]%candidates_elem.
    - destruct (Hof _ _ He) as (r & Hr & -> & _). by exists r.
    - by apply (entries_keys j). }
  assert (Hl : forall l, Forall (fun k => exists r, valid_ref r /\ k = ref_key r) l ->
    l = ref_key <$> (split_key <$> l) /\ Forall valid_ref (split_key <$> l)).
  { induction 1 as [|k l (r & Hr & ->) _ [IH1 IH2]]; [done|]. rewrite !fmap_cons, split_ref_key by done.
    split; [by f_equal|by constructor]. }
  destruct (Hl _ Hk) as [E Hv]. split_and!; [done..| |].
  - apply (NoDup_fmap_1 ref_key). rewrite <- E. apply candidates_NoDup.
  - intros r Hr. destruct r as [scope name]. pose proof Hr as [Hs _]. cbn [fst snd] in *.
    assert (Hin : (scope, name) ∈ split_key <$> candidates w j <-> ref_key (scope, name) ∈ candidates w j).
    { split.
      - intros H. rewrite E. apply list_elem_of_fmap. by exists (scope, name).
      - intros H. apply list_elem_of_fmap. exists (ref_key (scope, name)). by rewrite split_ref_key. }
    rewrite Hin, candidates_elem, Hd by done. cbn [fst snd]. unfold ref_key. cbn [fst snd].
    rewrite (entries_replay j scope name (appendable_scope _ Hj) Hs), fmap_is_Some. done.
Qed.

(** ** The cursor and the indexes after the loop *)

(** What saving the cursor and writing indexes leave of a directory. *)
Record spared (w w' : world) : Prop := {
  sp_calm : calm w';
  sp_journal : wFiles w' !! journal_path = wFiles w !! journal_path;
  sp_entry scope name : ValidName scope = true -> ValidName name = true ->
    wFiles w' !! entryName scope name = wFiles w !! entryName scope name;
  sp_dir scope : ValidName scope = true -> wFiles w !! top scope = Some ODir -> wFiles w' !! top scope = Some ODir
}.

Lemma spared_refl w : calm w -> spared w w.
Proof. by split. Qed.

Lemma spared_trans w w1 w2 : spared w w1 -> spared w1 w2 -> spared w w2.
Proof.
  intros [H1 H2 H3 H4] [K1 K2 K3 K4]. split; [done|congruence| |by auto].
  intros scope name Hs Hn. by rewrite K3, H3.
Qed.

Lemma spared_journaled w w' s : spared w w' -> journaled w s -> journaled w' s.
Proof.
  intros [H1 H2 H3 H4] [K1 K2 K3 K4 K5 K6 K7]. split; try done.
  - by eapply holds_same.
  - intros scope name f Hs Hn. rewrite H3 by done. by apply K6.
  - intros scope name f Hs Hn. rewrite H3 by done. intros Hf. apply H4; [done|]. by eapply K7.
Qed.

(** An entry file is in a directory, so that a scope's directory made anew
    shows no entry. *)
Lemma spared_found w w' s r : spared w w' -> journaled w s -> valid_ref r -> found w' r.1 r.2 = found w r.1 r.2.
Proof.
  intros Hk Hj Hr. pose proof (spared_journaled _ _ _ Hk Hj) as Hj'. destruct r as [scope name]. destruct Hr as [Hs Hn].
  cbn [fst snd] in *. pose proof (sp_entry _ _ Hk scope name Hs Hn) as He.
  destruct (decide (wFiles w !! top scope = Some ODir)) as [Hd|Hd].
  - apply found_same; [|done]. by rewrite (sp_dir _ _ Hk scope Hs Hd).
  - destruct (found w scope name) as [e|] eqn:E.
    { by destruct (found_Some _ _ _ _ (jo_calm _ _ Hj) Hs E). }
    destruct (found w' scope name) as [e|] eqn:E'; [|done].
    destruct (found_Some _ _ _ _ (jo_calm _ _ Hj') Hs E') as (_ & f & Hf & _). rewrite He in Hf.
    by apply (jo_tree _ _ Hj) in Hf.
Qed.

Lemma written_spared p f w : calm (written p f w) -> own p ->
  p = top stateName \/ (exists scope, ValidName scope = true /\ p = (scope, indexName)) -> spared w (written p f w).
Proof.
  intros Hc Ho Hp. assert (Hp1 : p.1 <> [] -> ValidName p.1 = true) by by destruct Hp as [-> | (scope & Hs & ->)].
  split; [done| | |].
  - apply written_other; [intros E; by apply (own_journal p Ho)|].
    destruct Hp as [-> | (scope & Hs & ->)]; [done|by apply journal_not_top].
  - intros scope name Hs Hn. apply written_other.
    + destruct Hp as [-> | (sc & Hsc & ->)]; [by apply entry_not_state|by apply entry_not_index].
    + intros E. destruct (decide (p.1 = [])) as [E1|E1].
      * rewrite E1 in E. injection E as E _. subst. by apply ValidName_nonempty in Hs.
      * by apply (own_top _ p.1 (own_entry scope name Hs Hn) (Hp1 E1)).
  - intros scope Hs Hd. cbn. rewrite lookup_insert_ne by (by apply own_top).
    destruct (dir_made_cases p.1 (wFiles w) (top scope)) as [->|(_ & _ & _ & ->)]; done.
Qed.

Lemma reindex_spared w scope : calm w -> ValidName scope = true ->
  exists w', reindex scope w = (Ok tt, w') /\ spared w w' /\ wFiles w' !! top stateName = wFiles w !! top stateName.
Proof.
  intros Hw Hs. destruct (list_scope_calm w scope Hw Hs) as [es Hes]. unfold reindex. rewrite (bind_look _ _ _ _ Hes).
  destruct (writeAtomic_calm (scope, indexName) (index_text scope es) w Hw (own_index scope Hs)) as [E Hw'].
  eexists. split_and!; [exact E| |].
  - apply written_spared; [done|by apply own_index|right; by exists scope].
  - apply written_other; [intros E'; apply (f_equal fst) in E'; cbn in E'; subst; by apply ValidName_nonempty in Hs|].
    by apply (own_top _ _ own_state).
Qed.

Lemma reindex_all_spared ss : Forall (fun s => ValidName s = true) ss -> forall w, calm w ->
  exists w', reindex_all ss w = (Ok tt, w') /\ spared w w' /\ wFiles w' !! top stateName = wFiles w !! top stateName
    /\ (ss = [] -> w' = w).
Proof.
  induction 1 as [|scope ss Hs _ IH]; intros w Hw; [exists w; by split_and!; [|apply spared_refl|..]|].
  destruct (reindex_spared w scope Hw Hs) as (w1 & E1 & K1 & S1). destruct (IH w1 (sp_calm _ _ K1)) as (w2 & E2 & K2 & S2 & _).
  exists w2. cbn [reindex_all]. rewrite (bind_ok _ _ _ _ _ E1). split_and!; [done|by eapply spared_trans|congruence|done].
Qed.

(** A cursor describes the text it was made for, a torn tail included. *)
Lemma describes_state s read : describes s (cursor_of (state_for s read)).
Proof.
  assert (Hx : exists x, s = x ++ tail_of s /\ tail_of x = []).
  { exists (concat ((fun l => l ++ [newline]) <$> lines s)). split; [apply lines_text|].
    destruct (lines s) as [|l ls _] using rev_ind; [done|]. rewrite fmap_app, concat_app. cbn. rewrite app_nil_r, app_assoc.
    apply (tail_of_spec _ []), not_elem_of_nil. }
  destruct Hx as (x & E & Hx). pose proof (lines_none _ (tail_no_newline s)) as Hl. remember (tail_of s) as t eqn:Et.
  assert (Ht : text_records t = [] /\ whole t = 0) by (by rewrite text_records_lines, whole_zero, Hl).
  destruct Ht as [Ht1 Ht2]. exists x, t. cbn. rewrite E, whole_app, text_records_app, Ht1, Ht2, app_nil_r by done. split_and!; try done. lia.
Qed.

Lemma loadState_saved w s c :
  holds w s -> saved w = Some c -> curHead c = Hash (head_of s) -> describes s c -> loadState w = Ok (state_for s true).
Proof.
  intros Hs Hc Hh (x & y & -> & Hx & Ho & Hseq & He). unfold loadState, saved in *.
  destruct (readRegular _ _) as [f|]; [|done]. rewrite Hc, (headLine_holds _ _ Hs). cbn [res_bind of_cursor stHead stOff].
  rewrite bool_decide_eq_true_2 by done. cbn [negb]. rewrite Ho.
  destruct (scanJournal_holds w x y Hs Hx) as (l & -> & Hl). cbn [res_bind].
  rewrite whole_app by done. pose proof (whole_nonneg y). destruct (Z.ltb_spec (blen x + whole y) (blen x)); [lia|].
  rewrite catch_up_all, Hl. unfold of_cursor. cbn. rewrite Hseq, He, Hh. unfold state_for.
  rewrite whole_app, text_records_app, seq_of_app by done. unfold entries_of. by rewrite foldl_app.
Qed.

Lemma save_spared w s read : journaled w s -> exists w', saveState (state_for s read) w = (Ok tt, w') /\ spared w w'
  /\ (seq_of (text_records s) < 2 ^ 64 -> whole s < 2 ^ 63 -> saved w' = Some (cursor_of (state_for s read))).
Proof.
  intros Hj. pose proof (jo_calm _ _ Hj) as Hw. unfold saveState. fold (cursor_of (state_for s read)).
  destruct (writeAtomic_calm (top stateName) (marshal_cursor (cursor_of (state_for s read)) ++ [newline]) w Hw own_state) as [E Hw'].
  eexists. split_and!; [exact E|by apply written_spared; [|constructor|left]|]. intros Hq Hwh.
  erewrite saved_file by (try apply written_self; done). apply unmarshal_marshal_cursor, state_for_carried; [|split|done].
  - apply appendable_named, Hj.
  - apply Hj.
  - done.
Qed.

(** ** The records made *)

Lemma seq_of_numbered j l : seq_of (j ++ number_from (seq_of j) l) = seq_of j + blen l.
Proof.
  revert j. induction l as [|c l IH]; intros j; cbn [number_from]; [rewrite app_nil_r, blen_nil; lia|].
  assert (Hs : seq_of (j ++ [numbered (seq_of j + 1) c]) = seq_of j + 1) by (unfold seq_of; by rewrite last_snoc).
  rewrite (app_assoc j [_] _ : j ++ numbered (seq_of j + 1) c :: _ = (j ++ [_]) ++ _).
  rewrite <- Hs at 2. rewrite IH, Hs, blen_cons. lia.
Qed.

Lemma number_from_elem n l c : c ∈ number_from n l -> exists m d, n < m <= n + blen l /\ d ∈ l /\ c = numbered m d.
Proof.
  revert n. induction l as [|d l IH]; intros n; cbn [number_from]; [by intros ?%not_elem_of_nil|].
  rewrite blen_cons. pose proof (blen_nonneg l). intros [->|H']%elem_of_cons.
  - exists (n + 1), d. split_and!; [lia..|by left|done].
  - destruct (IH _ H') as (m & x & ? & ? & ->). exists m, x. split_and!; [lia..|by right|done].
Qed.

Lemma number_from_refs n l : change_ref <$> number_from n l = change_ref <$> l.
Proof. revert n. induction l as [|c l IH]; intros n; [done|]. cbn [number_from]. rewrite !fmap_cons. by f_equal. Qed.

(** A record noted for a name is that name's. *)
Lemma noted_ref max w s now r c : journaled w s -> valid_ref r -> noted max w (text_records s) now r = Some c -> change_ref c = r.
Proof.
  intros Hj Hr Hc. destruct r as [scope name]. destruct Hr as [Hs Hn]. unfold noted in Hc. cbn [fst snd] in *.
  destruct (found w scope name) as [cur|] eqn:Ef.
  - destruct (found_valid _ _ _ _ (jo_calm _ _ Hj) Hs Ef) as [E1 E2]. repeat case_match; try done; injection Hc as <-;
      unfold change_ref, entry_ref; cbn; by rewrite E1, E2.
  - destruct (replay (text_records s) !! (scope, name)) as [e|] eqn:Er; [|done]. injection Hc as <-.
    destruct (replay_ref _ _ _ Er) as [Href _]. exact Href.
Qed.

(** What the journal holds for a name after one record at most for each of
    some names. *)
Lemma replay_numbered (f : ref -> option Change) rs r : NoDup rs -> (forall r c, r ∈ rs -> f r = Some c -> change_ref c = r) ->
  forall n j, replay (j ++ number_from n (omap f rs)) !! r
    = if decide (r ∈ rs) then match f r with Some c => live_of (Some c) | None => replay j !! r end else replay j !! r.
Proof.
  intros Hnd. induction Hnd as [|r0 rs Hr0 Hnd IH]; intros Hf n j.
  { cbn. by rewrite app_nil_r. }
  assert (Hf' : forall r c, r ∈ rs -> f r = Some c -> change_ref c = r) by (intros; apply Hf; [by right|done]).
  cbn [omap list_omap]. destruct (f r0) as [c|] eqn:Ec.
  - cbn [number_from]. rewrite (app_assoc j [_] _ : j ++ numbered (n + 1) c :: _ = (j ++ [_]) ++ _), IH by done.
    assert (Hc : change_ref (numbered (n + 1) c) = r0) by (apply (Hf r0 c); [by left|done]).
    destruct (decide (r = r0)) as [->|Hne].
    + rewrite decide_False by done. rewrite decide_True by by left.
      rewrite Ec, (replay_last (j ++ _)), last_for_snoc. by rewrite decide_True.
    + assert (Hj : replay (j ++ [numbered (n + 1) c]) !! r = replay j !! r) by (apply replay_other; congruence).
      rewrite Hj. destruct (decide (r ∈ rs)) as [Hin|Hin].
      * by rewrite decide_True by by right.
      * rewrite decide_False; [done|]. by intros [?|?]%elem_of_cons.
  - rewrite IH by done. destruct (decide (r = r0)) as [->|Hne].
    + rewrite decide_False by done. by rewrite decide_True, Ec by by left.
    + destruct (decide (r ∈ rs)) as [Hin|Hin].
      * by rewrite decide_True by by right.
      * rewrite decide_False; [done|]. by intros [?|?]%elem_of_cons.
Qed.

(** ** A whole run *)

(** A journal whose cursor, if it is for this journal at all, was written
    for it. *)
Record tracked (w : world) (s : bytes) : Prop := {
  tr_journaled : journaled w s;
  tr_saved c : saved w = Some c -> curHead c = Hash (head_of s) -> describes s c
}.

Lemma due_refs max w s now : journaled w s ->
  let j := text_records s in
  Forall valid_ref (change_ref <$> due max w j now)
  /\ Forall (fun scope => ValidName scope = true) (touched (number_from (seq_of j) (due max w j now))).
Proof.
  intros Hj j. destruct (candidate_refs w j (jo_calm _ _ Hj) (jo_app _ _ Hj)) as (_ & Hv & _ & _).
  assert (H : Forall valid_ref (change_ref <$> due max w j now)).
  { apply Forall_fmap, Forall_forall. intros c Hc. unfold due in Hc. apply list_elem_of_omap in Hc as (r & Hr & Hc).
    rewrite Forall_forall in Hv. specialize (Hv r Hr). cbn. by rewrite (noted_ref _ _ _ _ _ _ Hj Hv Hc). }
  split; [done|]. apply Forall_forall. intros scope. unfold touched. rewrite elem_of_remove_dups, list_elem_of_fmap.
  intros (c & -> & Hc). apply (list_elem_of_fmap_2 change_ref) in Hc. rewrite number_from_refs in Hc.
  rewrite Forall_forall in H. by destruct (H _ Hc).
Qed.

(** The journal's loop, the cursor if it moved, the indexes. *)
Lemma Reconcile_calm w s read max now :
  journaled w s -> loadState w = Ok (state_for s read) -> year_ok now = true ->
  let j := text_records s in
  let ds := due max w j now in
  seq_of j + blen ds < 2 ^ 64 ->
  exists s' w1 w2 w', journaled w1 s' /\ agree w w1 /\ text_records s' = j ++ number_from (seq_of j) ds
    /\ (ds = [] -> s' = s /\ w1 = w)
    /\ (if negb read || negb (bool_decide (ds = [])) then saveState (state_for s' read) w1 = (Ok tt, w2) else w2 = w1)
    /\ spared w1 w2 /\ spared w2 w' /\ wFiles w' !! top stateName = wFiles w2 !! top stateName
    /\ (ds = [] -> w' = w2)
    /\ Reconcile max None now w = (Ok (number_from (seq_of j) ds, None), w').
Proof.
  intros Hj Hl Hy j ds Hseq. pose proof (jo_calm _ _ Hj) as Hw.
  destruct (directory_read w Hw) as (ss & live & Ess & Elive & _ & Hlive).
  assert (Ed : directory w = live) by (unfold directory; by rewrite Ess; cbn [res_bind]; rewrite Elive).
  destruct (candidate_refs w j Hw (jo_app _ _ Hj)) as (Ek & Hv & Hnd & _).
  destruct (loop_records max now live w Hlive Hy _ Hnd Hv w s read) as (s' & w1 & E1 & Hj1 & Hag & Hrec & Hend).
  { by intros p _. } { done. } { exact Hseq. }
  rewrite <- Ek in E1.
  change (omap (noted max w (text_records s) now) (split_key <$> candidates w j)) with ds in E1, Hrec, Hend.
  assert (Hd : ds = [] -> s' = s /\ w1 = w) by (intros E; by rewrite E in Hend).
  set (go := negb read || negb (bool_decide (ds = []))).
  assert (Hgo : negb (stRead (state_for s' read)) || negb (stSeq (state_for s' read) =? stSeq (state_for s read))
    || negb (stOff (state_for s' read) =? stOff (state_for s read)) = go).
  { unfold go. cbn. case_bool_decide as E; cbn [negb].
    - destruct (Hd E) as [-> _]. rewrite !Z.eqb_refl. by rewrite !orb_false_r.
    - rewrite Hrec. fold j. rewrite seq_of_numbered. destruct (Z.eqb_spec (seq_of j + blen ds) (seq_of j)); [|by destruct read].
      destruct ds; [done|]. rewrite blen_cons in *. pose proof (blen_nonneg ds). lia. }
  assert (Hsave : exists w2, (if go then try (saveState (state_for s' read)) else ret None) w1 = (Ok None, w2) /\ spared w1 w2
    /\ if go then saveState (state_for s' read) w1 = (Ok tt, w2) else w2 = w1).
  { destruct go; [|exists w1; split_and!; [done|apply spared_refl, Hj1|done]].
    destruct (save_spared w1 s' read Hj1) as (w2 & E2 & K2 & _). exists w2. by rewrite (try_ok _ _ _ _ E2). }
  destruct Hsave as (w2 & E2 & K2 & Hsv). destruct (due_refs max w s now Hj) as [_ Hto].
  destruct (reindex_all_spared _ Hto w2 (sp_calm _ _ K2)) as (w' & E3 & K3 & S3 & N3).
  exists s', w1, w2, w'. split_and!; try done; [intros E; apply N3; transitivity (touched (number_from (seq_of j) ds)); [done|by rewrite E]|].
  unfold Reconcile. cbn [acquire]. rewrite (bind_ok _ _ tt w w) by done. rewrite (bind_look _ _ _ _ Hl).
  rewrite (bind_look _ _ _ _ Ess), (bind_look _ _ _ _ Elive). cbv zeta. rewrite <- Ed.
  change (sort_bytes _) with (candidates w j). rewrite Ed, (bind_ok _ _ _ _ _ E1), Hgo, (bind_ok _ _ _ _ _ E2).
  rewrite (bind_ok _ _ None w2 w'); [done|]. by eapply try_ok.
Qed.

(** What the journal is to hold for a name: nothing without a file, what it
    held for a file that agrees with it or that the store would not take, and
    otherwise the file's entry, of the file's time. *)
Definition shown (max : Z) (w : world) (j : list Change) (scope name : bytes) : option Entry :=
  let known := replay j !! (scope, name) in
  match found w scope name with
  | None => None
  | Some cur =>
      if decide (held_as known cur) then known
      else match CheckEntry cur max None with
           | Some _ => known
           | None => Some (MkEntry scope name (eContent cur) (eMeta cur) (eHash cur) (eMetaHash cur)
                             (default 0 (modTime w (entryName scope name))) false)
           end
  end.

Lemma noted_shown max w s now r : journaled w s -> valid_ref r ->
  let j := text_records s in
  match noted max w j now r with Some c => live_of (Some c) | None => replay j !! r end = shown max w j r.1 r.2.
Proof.
  intros Hj Hr j. destruct r as [scope name]. destruct Hr as [Hs Hn]. cbn [fst snd] in *. unfold noted, shown. cbn [fst snd].
  fold j. destruct (found w scope name) as [cur|] eqn:Ef.
  - rewrite agrees_held. case_bool_decide; [by rewrite decide_True|rewrite decide_False by done].
    destruct (CheckEntry cur max None); [done|].
    destruct (found_Some _ _ _ _ (jo_calm _ _ Hj) Hs Ef) as (_ & f & Hf & _ & ->). unfold modTime. by rewrite Hf.
  - by destruct (replay j !! (scope, name)).
Qed.

Lemma replay_shown max w s now r : journaled w s -> valid_ref r ->
  let j := text_records s in
  replay (j ++ number_from (seq_of j) (due max w j now)) !! r = shown max w j r.1 r.2.
Proof.
  intros Hj Hr j. destruct (candidate_refs w j (jo_calm _ _ Hj) (jo_app _ _ Hj)) as (_ & Hv & Hnd & Hin).
  unfold due. rewrite replay_numbered; [|done|].
  2: { intros r' c Hr' Hc. rewrite Forall_forall in Hv. by apply (noted_ref _ _ _ _ _ _ Hj (Hv r' Hr') Hc). }
  pose proof (noted_shown max w s now r Hj Hr) as Hn. cbn zeta in Hn. fold j in Hn.
  case_decide as Hd; [done|]. rewrite <- Hn. unfold noted. rewrite (Hin r Hr) in Hd.
  destruct (found w r.1 r.2) as [x|]; [exfalso; apply Hd; left; by eexists|].
  by destruct (replay j !! r) as [x|]; [exfalso; apply Hd; right; by eexists|].
Qed.

(** After a run there is nothing to note, at any time. *)
Lemma shown_noted max w w' s s' now r :
  journaled w s -> journaled w' s' -> valid_ref r -> found w' r.1 r.2 = found w r.1 r.2 ->
  replay (text_records s') !! r = shown max w (text_records s) r.1 r.2 -> noted max w' (text_records s') now r = None.
Proof.
  intros Hj Hj' Hr Hf He. destruct r as [scope name]. destruct Hr as [Hs Hn]. cbn [fst snd] in *. unfold noted. cbn [fst snd].
  rewrite He, Hf. unfold shown. destruct (found w scope name) as [cur|] eqn:Ef; [|done].
  rewrite agrees_held. case_decide as Ha; [by rewrite bool_decide_eq_true_2|].
  destruct (CheckEntry cur max None) eqn:Ec; [by rewrite bool_decide_eq_false_2|]. by rewrite bool_decide_eq_true_2.
Qed.

Lemma shown_due max w w' s s' now :
  journaled w s -> journaled w' s' -> (forall r, valid_ref r -> found w' r.1 r.2 = found w r.1 r.2) ->
  (forall r, valid_ref r -> replay (text_records s') !! r = shown max w (text_records s) r.1 r.2) ->
  due max w' (text_records s') now = [].
Proof.
  intros Hj Hj' Hf He. unfold due.
  destruct (candidate_refs w' (text_records s') (jo_calm _ _ Hj') (jo_app _ _ Hj')) as (_ & Hv & _ & _).
  induction Hv as [|r rs Hr _ IH]; [done|]. cbn [omap list_omap]. rewrite (shown_noted max w w' s s'); auto.
Qed.

Lemma omap_sorted {A B} (R : A -> A -> Prop) (f : A -> option B) (g : B -> A) l :
  StronglySorted R l -> (forall a b, a ∈ l -> f a = Some b -> g b = a) -> StronglySorted R (g <$> omap f l).
Proof.
  induction 1 as [|a l Hl IH Ha]; intros Hg; [constructor|]. cbn [omap list_omap].
  assert (IH' : StronglySorted R (g <$> omap f l)) by (apply IH; intros; apply Hg; [by right|done]).
  destruct (f a) as [b|] eqn:E; [|done]. rewrite fmap_cons, (Hg a b) by (done || by left). constructor; [done|].
  apply Forall_fmap, Forall_forall. intros b' (a' & Hin & E')%list_elem_of_omap. cbn. rewrite (Hg a' b') by (done || by right).
  rewrite Forall_forall in Ha. by apply Ha.
Qed.

(** One record a name, in the order of the keys. *)
Definition key_before (r r' : ref) : Prop := bytes_compare (ref_key r) (ref_key r') = Lt.

Lemma due_sorted max w s now : journaled w s ->
  StronglySorted key_before (change_ref <$> due max w (text_records s) now).
Proof.
  intros Hj. destruct (candidate_refs w _ (jo_calm _ _ Hj) (jo_app _ _ Hj)) as (Ek & Hv & _ & _).
  unfold due. apply omap_sorted.
  2: { intros r c Hr Hc. rewrite Forall_forall in Hv. by apply (noted_ref _ _ _ _ _ _ Hj (Hv r Hr) Hc). }
  pose proof (candidates_NoDup w (text_records s)) as Hnd. pose proof (sort_bytes_sorted _ : StronglySorted bytes_le (candidates w (text_records s))) as Hs.
  rewrite Ek in Hnd, Hs. apply (sorted_strict ref_key); [|done]. clear Ek Hv Hnd. revert Hs.
  induction (split_key <$> candidates w (text_records s)) as [|r rs IH]; intros Hs; [constructor|].
  rewrite fmap_cons in Hs. apply StronglySorted_inv in Hs as [Hs Ha]. constructor; [by apply IH|].
  apply (proj1 (Forall_fmap ref_key _ _)) in Ha. exact Ha.
Qed.

(** A record is made for a name exactly when its file was changed. *)
Lemma noted_changed max w j now r : is_Some (noted max w j now r) <-> changed_by_hand max w j r.
Proof.
  unfold noted, changed_by_hand. destruct (found w r.1 r.2) as [cur|].
  - rewrite agrees_held. case_bool_decide as Hh; [by split; [intros []|intros []]|].
    destruct (CheckEntry cur max None); split; [by intros []|by intros []|done|by eexists].
  - rewrite fmap_is_Some. by rewrite not_eq_None_Some.
Qed.

Lemma due_changed max w s now r : journaled w s ->
  r ∈ change_ref <$> due max w (text_records s) now <-> valid_ref r /\ changed_by_hand max w (text_records s) r.
Proof.
  intros Hj. set (j := text_records s). destruct (candidate_refs w j (jo_calm _ _ Hj) (jo_app _ _ Hj)) as (_ & Hv & _ & Hin).
  rewrite Forall_forall in Hv. unfold due. rewrite list_elem_of_fmap. split.
  - intros (c & -> & (r' & Hr' & Hc)%list_elem_of_omap). rewrite (noted_ref _ _ _ _ _ _ Hj (Hv r' Hr') Hc).
    split; [by apply Hv|]. apply (noted_changed max w j now). by eexists.
  - intros [Hr Hch]. pose proof Hch as [c Hc]%(noted_changed max w j now). exists c.
    split; [by rewrite (noted_ref _ _ _ _ _ _ Hj Hr Hc)|]. apply list_elem_of_omap. exists r. split; [|done].
    apply Hin; [done|]. unfold changed_by_hand in Hch. destruct (found w r.1 r.2); [left; by eexists|right].
    by apply not_eq_None_Some.
Qed.

(** What a record says of itself. *)
Lemma noted_marks max w j now r c : noted max w j now r = Some c ->
  cSession c = [] /\ cSource c = SourceReconciled /\ cAt c = now /\ cPrev c = have_hash (replay j !! r) /\ cReplaced c = have_hash (replay j !! r).
Proof.
  unfold noted. destruct (found w r.1 r.2) as [cur|].
  - destruct (match replay j !! r with Some e => agrees (state_of e) cur | None => false end); [done|].
    destruct (CheckEntry cur max None); [done|]. by intros [= <-].
  - destruct (replay j !! r) as [e|]; [|done]. by intros [= <-].
Qed.

Lemma number_from_lookup n l i c : number_from n l !! i = Some c -> exists d, l !! i = Some d /\ c = numbered (n + 1 + Z.of_nat i) d.
Proof.
  revert n i. induction l as [|d l IH]; intros n [|i]; cbn [number_from]; try done.
  - cbn. intros [= <-]. exists d. split; [done|]. f_equal. lia.
  - cbn. intros H. apply IH in H as (x & ? & ->). exists x. split; [done|]. f_equal. lia.
Qed.

Lemma due_marks max w s now i c : journaled w s ->
  let j := text_records s in
  number_from (seq_of j) (due max w j now) !! i = Some c ->
  cSeq c = seq_of j + 1 + Z.of_nat i /\ cSession c = [] /\ cSource c = SourceReconciled /\ cAt c = now
  /\ cPrev c = have_hash (replay j !! change_ref c) /\ cReplaced c = have_hash (replay j !! change_ref c).
Proof.
  intros Hj j Hi. destruct (number_from_lookup _ _ _ _ Hi) as (d & Hd & ->). split; [done|].
  destruct (candidate_refs w j (jo_calm _ _ Hj) (jo_app _ _ Hj)) as (_ & Hv & _ & _).
  apply list_elem_of_lookup_2 in Hd. unfold due in Hd. apply list_elem_of_omap in Hd as (r & Hr & Hd).
  rewrite Forall_forall in Hv. pose proof (noted_ref _ _ _ _ _ _ Hj (Hv r Hr) Hd) as Href.
  change (change_ref (numbered (seq_of j + 1 + Z.of_nat i) d)) with (change_ref d). rewrite Href.
  by apply (noted_marks max w j now r d).
Qed.

Lemma agree_spared w w1 w2 s : journaled w s -> calm w1 -> agree w w1 -> spared w1 w2 ->
  (forall r, valid_ref r -> found w1 r.1 r.2 = found w r.1 r.2)
  /\ forall scope name, ValidName scope = true -> ValidName name = true ->
       wFiles w2 !! entryName scope name = wFiles w !! entryName scope name.
Proof.
  intros Hj Hc Ha Hk. split.
  - intros [scope name] [Hs Hn]. cbn [fst snd] in *. apply found_same; [apply Ha|by apply agree_entry].
    intros E. by apply (journal_not_top scope).
  - intros scope name Hs Hn. rewrite (sp_entry _ _ Hk) by done. by apply agree_entry.
Qed.

(** C11: On a directory in which no system call fails, whatever entry files a
    person left in it and whatever the journal holds beside them, [Reconcile]
    appends exactly one record for every name that was changed by hand, and
    none for any other: its file removed, or added or edited, in its content
    or in its metadata alone, to something the store would take.  They are in
    the order of the keys and numbered on from the journal's last, each
    marked as reconciled, of no session, now, built on and replacing the
    state the journal held.  Afterwards the journal holds for every name what
    its file shows: nothing where there is none, the file's entry with the
    file's time where it was added or edited, and what it held where the file
    shows that state or is nothing the store would take.  No entry file
    changes. *)
Theorem Reconcile_records max w s now :
  tracked w s -> year_ok now = true ->
  let j := text_records s in
  seq_of j + blen (due max w j now) < 2 ^ 64 ->
  exists changes w' s', Reconcile max None now w = (Ok (changes, None), w') /\ journaled w' s' /\ text_records s' = j ++ changes
    /\ StronglySorted key_before (change_ref <$> changes)
    /\ (forall r, r ∈ change_ref <$> changes <-> valid_ref r /\ changed_by_hand max w j r)
    /\ (forall i c, changes !! i = Some c ->
          cSeq c = seq_of j + 1 + Z.of_nat i /\ cSession c = [] /\ cSource c = SourceReconciled /\ cAt c = now
          /\ cPrev c = have_hash (replay j !! change_ref c) /\ cReplaced c = have_hash (replay j !! change_ref c))
    /\ forall scope name, ValidName scope = true -> ValidName name = true ->
         wFiles w' !! entryName scope name = wFiles w !! entryName scope name
         /\ replay (j ++ changes) !! (scope, name) = shown max w j scope name.
Proof.
  intros [Hj Hsv] Hy j Hseq. destruct (loadState_holds w s (jo_holds _ _ Hj) Hsv) as [read Hl].
  destruct (Reconcile_calm w s read max now Hj Hl Hy Hseq) as (s' & w1 & w2 & w' & Hj1 & Hag & Hrec & _ & _ & K1 & K2 & _ & _ & E).
  pose proof (spared_trans _ _ _ K1 K2) as K. fold j in E, Hrec.
  exists (number_from (seq_of j) (due max w j now)), w', s'. split_and!; [done|by eapply spared_journaled|done| | | |].
  - rewrite number_from_refs. by apply due_sorted.
  - intros r. rewrite number_from_refs. by apply due_changed.
  - intros i c. by apply due_marks.
  - intros scope name Hs Hn. split; [by eapply (agree_spared w w1 w' s); [..|exact Hs|exact Hn]; try done; apply Hj1|].
    by apply (replay_shown max w s now (scope, name)).
Qed.

(** A run that finds nothing changes nothing. *)
Lemma Reconcile_idle max w s now :
  journaled w s -> loadState w = Ok (state_for s true) -> year_ok now = true -> seq_of (text_records s) < 2 ^ 64 ->
  due max w (text_records s) now = [] -> Reconcile max None now w = (Ok ([], None), w).
Proof.
  intros Hj Hl Hy Hq Hd.
  destruct (Reconcile_calm w s true max now Hj Hl Hy) as (s' & w1 & w2 & w' & _ & _ & _ & H1 & H2 & _ & _ & _ & H3 & E).
  { rewrite Hd, blen_nil. lia. }
  rewrite Hd in *. destruct (H1 eq_refl) as [_ ->]. cbn in H2. by rewrite E, (H3 eq_refl), H2.
Qed.

(** C12: [Reconcile] settles: while the journal stays under the size an offset
    counts, a run that ends leaves a directory on which the next one, whenever
    it is, records nothing, reports no error and changes nothing, not the
    journal, not the cursor, not an index.  The journal may have been damaged
    or torn and the cursor stale or missing before the first. *)
Theorem Reconcile_settles max w s now changes w' now' :
  tracked w s -> year_ok now = true -> year_ok now' = true ->
  seq_of (text_records s) + blen (due max w (text_records s) now) < 2 ^ 64 ->
  Reconcile max None now w = (Ok (changes, None), w') -> blen (journal_data w') < 2 ^ 63 ->
  Reconcile max None now' w' = (Ok ([], None), w').
Proof.
  intros [Hj Hsv] Hy Hy' Hseq HR Hroom. destruct (loadState_holds w s (jo_holds _ _ Hj) Hsv) as [read Hl].
  destruct (Reconcile_calm w s read max now Hj Hl Hy Hseq) as (s' & w1 & w2 & w3 & Hj1 & Hag & Hrec & Hnone & Hsave & K1 & K2 & Hst & Hsame & E).
  rewrite HR in E. injection E as _ <-. set (j := text_records s) in *.
  pose proof (spared_trans _ _ _ K1 K2) as K. pose proof (spared_journaled _ _ _ K Hj1) as Hj'.
  assert (Hq : seq_of (text_records s') < 2 ^ 64) by (rewrite Hrec, seq_of_numbered; exact Hseq).
  apply (Reconcile_idle max w' s' now' Hj'); [|done..|].
  - destruct (negb read || negb (bool_decide (due max w j now = []))) eqn:Hgo.
    + destruct (save_spared w1 s' read Hj1) as (w2' & E2 & _ & Hsaved). rewrite Hsave in E2. injection E2 as <-.
      rewrite (holds_data _ _ (jo_holds _ _ Hj')) in Hroom. pose proof (whole_tail s'). pose proof (blen_nonneg (tail_of s')).
      apply (loadState_saved _ _ (cursor_of (state_for s' read)) (jo_holds _ _ Hj')); [|done|apply describes_state].
      unfold saved, readRegular in *. rewrite Hst. apply Hsaved; lia.
    + apply orb_false_iff in Hgo as [Hr%negb_false_iff Hd%negb_false_iff%bool_decide_eq_true]. subst.
      destruct (Hnone Hd) as [-> ->]. by rewrite (Hsame Hd).
  - apply (shown_due max w w' s s'); [done..| |].
    + intros r Hr. destruct (agree_spared w w1 w' s Hj (jo_calm _ _ Hj1) Hag K) as [Hf _].
      rewrite (spared_found w1 w' s' r K Hj1 Hr). by apply Hf.
    + intros r Hr. rewrite Hrec. by apply replay_shown.
Qed.

(** ** A directory edited by hand *)

(** A file put in its directory. *)
Definition with_file (p : path) (f : file) (w : world) : world :=
  MkWorld (<[p := OFile f]> (dir_made p.1 (wFiles w))) (wClock w) (wRand w) [].

Record tidy (w : world) : Prop := {
  ti_calm : calm w;
  ti_times scope name f : ValidName scope = true -> ValidName name = true ->
    wFiles w !! entryName scope name = Some (OFile f) -> year_ok (fTime f) = true;
  ti_tree scope name f : ValidName scope = true -> ValidName name = true ->
    wFiles w !! entryName scope name = Some (OFile f) -> wFiles w !! top scope = Some ODir
}.

Lemma tidy_insert p f w : tidy w -> own p \/ p = journal_path -> year_ok (fTime f) = true -> tidy (with_file p f w).
Proof.
  intros [Hc Ht Hr] Hp Hy.
  assert (Hc' : calm (with_file p f w)) by (apply calm_insert; [done..|]; intros i; by exists i).
  assert (Hold : forall q g, wFiles (with_file p f w) !! q = Some (OFile g) -> q = p /\ g = f \/ wFiles w !! q = Some (OFile g)).
  { intros q g. cbn. destruct (decide (q = p)) as [->|Hne]; [rewrite lookup_insert_eq; intros [= <-]; by left|].
    rewrite lookup_insert_ne by done. destruct (dir_made_cases p.1 (wFiles w) q) as [->|(_ & _ & _ & ->)]; [by right|done]. }
  split; [done| |].
  - intros scope name g Hs Hn [[_ ->]|H]%Hold; [done|by apply (Ht scope name g)].
  - intros scope name g Hs Hn H. assert (Hne : top scope <> p).
    { intros <-. destruct Hp as [Hp|Hp]; [by apply (own_top _ scope Hp Hs)|by apply (journal_not_top scope)]. }
    cbn. rewrite lookup_insert_ne by done. apply Hold in H as [[<- _]|H].
    + cbn. apply dir_made_top; [by apply ValidName_nonempty|by apply (ca_dirs w Hc)].
    + destruct (dir_made_cases p.1 (wFiles w) (top scope)) as [->|(_ & _ & _ & ->)]; [by apply (Hr scope name g)|done].
Qed.

Lemma empty_tidy rand clock : tidy (MkWorld ∅ clock rand []).
Proof. split; [apply empty_calm|intros ? ? ? _ _; cbn; by rewrite lookup_empty..]. Qed.

(** An entry with a description put on by hand. *)
Definition described : Entry :=
  MkEntry (bs "user") (bs "style") (bs "Short.") (Some {[ bs "description" := bs "By hand." ]}) [] [] 0 false.

(** The journal of two entries with damage between them and a torn line, and
    its cursor, behind by a record; a description put on the first entry's
    file and nothing else changed in it, the second's gone, and a file no
    entry is of. *)
Definition edited_world : world :=
  with_file (entryName (bs "user") (bs "extra")) (MkFile (bs "By hand.") 8 1)
    (with_file (entryName (bs "user") (bs "style")) (MkFile (encode described) 8 1)
      (with_file (top stateName) (MkFile (marshal_cursor demo_cursor) 5 1)
        (with_file journal_path (MkFile demo_text 5 1) (MkWorld ∅ 6 (fun n => [Z.of_nat n]) [])))).

Definition plain_record (n : Z) (scope name content : string) : Change :=
  MkChange n (MkEntry (bs scope) (bs name) (bs content) None (Hash (bs content)) [] 7 false) [] [] [] [] 7.

Lemma plain_appendable n scope name content :
  0 < n < 2 ^ 64 -> ValidName (bs scope) = true -> ValidName (bs name) = true -> ValidString (bs content) = true ->
  appendable (plain_record n scope name content).
Proof.
  intros Hn Hs Hna Hc. split; [|done|done|apply Hash_nonempty|cbn; lia]. split; [cbn; lia| |done..].
  split; cbn; try done; [by apply name_string..|apply Hash_text].
Qed.

Lemma edited_tracked : tracked edited_world demo_text.
Proof.
  assert (Ht : tidy edited_world).
  { apply tidy_insert; [|left; by constructor|done]. apply tidy_insert; [|left; by constructor|done].
    apply tidy_insert; [|left; constructor|done]. apply tidy_insert; [apply empty_tidy|by right|done]. }
  assert (Hs : saved edited_world = Some demo_cursor) by (vm_compute; reflexivity).
  split.
  - split; try apply Ht.
    + exists (Some demo_text). split; vm_compute; reflexivity.
    + vm_compute. reflexivity.
    + assert (text_records demo_text = [plain_record 1 "user" "style" "Short."; plain_record 2 "user" "tone" "Dry."]) as ->
        by (vm_compute; reflexivity).
      do 2 (apply Forall_cons_2; [apply plain_appendable; [lia|vm_compute; reflexivity..]|]). constructor.
    + vm_compute. done.
  - rewrite Hs. intros c [= <-] _. exists demo_first, (drop (length demo_first) demo_text).
    split_and!; vm_compute; reflexivity.
Qed.

Lemma Reconcile_records_witness :
  change_ref <$> due 4096 edited_world (text_records demo_text) 9
    = [(bs "user", bs "extra"); (bs "user", bs "style"); (bs "user", bs "tone")]
  /\ eHash <$> found edited_world (bs "user") (bs "style")
     = eHash <$> replay (text_records demo_text) !! (bs "user", bs "style")
  /\ exists changes w', Reconcile 4096 None 9 edited_world = (Ok (changes, None), w')
       /\ (forall r, r ∈ change_ref <$> changes <-> valid_ref r /\ changed_by_hand 4096 edited_world (text_records demo_text) r)
       /\ forall scope name, ValidName scope = true -> ValidName name = true ->
            replay (text_records demo_text ++ changes) !! (scope, name)
            = shown 4096 edited_world (text_records demo_text) scope name.
Proof.
  split; [vm_compute; reflexivity|]. split; [vm_compute; reflexivity|].
  destruct (Reconcile_records 4096 edited_world demo_text 9) as (changes & w' & s' & E & _ & _ & _ & Hx & _ & H).
  - apply edited_tracked.
  - reflexivity.
  - vm_compute. reflexivity.
  - exists changes, w'. split; [exact E|]. split; [exact Hx|]. intros scope name Hs Hn. apply (H scope name Hs Hn).
Defined.

(** A first run makes three records, a second none. *)
Definition edited_run : nat * bool :=
  match Reconcile 4096 None 9 edited_world with
  | (Ok (changes, None), w') => (length changes, bool_decide (blen (journal_data w') < 2 ^ 63))
  | _ => (O, false)
  end.

Lemma Reconcile_settles_witness :
  exists changes w', length changes = 3%nat /\ Reconcile 4096 None 9 edited_world = (Ok (changes, None), w')
    /\ Reconcile 4096 None 10 w' = (Ok ([], None), w').
Proof.
  assert (H : edited_run = (3%nat, true)) by (vm_compute; reflexivity). unfold edited_run in H.
  destruct (Reconcile 4096 None 9 edited_world) as [[[changes [e|]]|e] w'] eqn:E; try discriminate H.
  assert (Hl : length changes = 3%nat) by exact (f_equal fst H).
  assert (Hr : bool_decide (blen (journal_data w') < 2 ^ 63) = true) by exact (f_equal snd H).
  exists changes, w'. split; [exact Hl|]. split; [reflexivity|].
  apply (Reconcile_settles 4096 edited_world demo_text 9 changes w' 10).
  - apply edited_tracked.
  - reflexivity.
  - reflexivity.
  - vm_compute. reflexivity.
  - exact E.
  - by apply bool_decide_eq_true in Hr.
Defined.
