(* ===== verification/Recovery.v ===== *)
(** * Starting again after a crash

    An operation of the file store, on a directory in sync with its journal,
    that failed or crashed at a system call, any but the cut that loses a
    record's newline alone, and then a run of Reconcile: the composition of what FileFaults says is
    left with what Reconcile does to a directory.  The journal and the files
    agree again, and the operation happened for its entry or did not. *)

From S2P Require Import Prelude GoStd GoTime Sha256 Memory Store Search Json JsonRead Codec Frontmatter Records Fsys FileJournal FileState FileStore FileLaws FileFaults Reconcile.

(** What an operation that was to take the journal from [j] to [j'] leaves:
    the files show what the journal holds, but perhaps for the one entry it
    was to write, whose file can be ahead of the journal. *)
Definition aftermath (j j' : list Change) (r0 : ref) (w : world) : Prop :=
  exists s, holds w s /\ (settled s = j \/ settled s = j')
    /\ (blen s < 2 ^ 63 -> forall cu, saved w = Some cu -> describes s cu)
    /\ forall r, valid_ref r -> found w r.1 r.2 = replay (settled s) !! r
         \/ r = r0 /\ settled s = j /\ found w r.1 r.2 = replay j' !! r.

(** An entry, whatever its time. *)
Definition untimed (e : Entry) : Entry :=
  MkEntry (eScope e) (eName e) (eContent e) (eMeta e) (eHash e) (eMetaHash e) 0 (eDeleted e).

(** A file and what the journal holds for it: both none, or the same content
    and metadata. *)
Definition in_step (found held : option Entry) : Prop :=
  match found, held with
  | Some cur, Some e => same_state e cur
  | None, None => True
  | _, _ => False
  end.

(** ** A run of Reconcile over it *)

Lemma agrees_self e : agrees (state_of e) e = true.
Proof. rewrite agrees_same. by apply bool_decide_eq_true_2. Qed.

Lemma noted_none max w j now r : found w r.1 r.2 = replay j !! r -> noted max w j now r = None.
Proof.
  intros E. unfold noted. rewrite E. destruct (replay j !! r) as [e|]; [|done]. by rewrite agrees_self.
Qed.

Lemma omap_one {A B} `{EqDecision A} (f : A -> option B) (x : A) l :
  NoDup l -> (forall y, y ∈ l -> y <> x -> f y = None) -> blen (omap f l) <= 1.
Proof.
  assert (Hall : forall l, (forall y, y ∈ l -> f y = None) -> omap f l = []).
  { intros k. induction k as [|y k IH]; intros H; [done|]. cbn. rewrite (H y) by by left. apply IH. intros; apply H; by right. }
  induction 1 as [|y l Hy _ IH]; intros H; [by vm_compute|]. cbn [omap list_omap].
  destruct (decide (y = x)) as [->|Hne].
  - rewrite Hall; [destruct (f x); by vm_compute|]. intros z Hz. apply H; [by right|]. by intros ->.
  - rewrite (H y) by (done || by left). apply IH. intros; apply H; [by right|done].
Qed.

Lemma settled_torn s : torn_ok s -> settled s = text_records s.
Proof. unfold torn_ok, settled. intros ->. apply app_nil_r. Qed.

Lemma shown_cases max w j j' r0 r : journal_wf max j' -> Forall appendable j' -> Forall (fun c => cAt c <> 0) j' ->
  valid_ref r -> (forall e, found w r.1 r.2 = Some e -> is_Some (modTime w (entryName r.1 r.2))) ->
  found w r.1 r.2 = replay j !! r \/ r = r0 /\ found w r.1 r.2 = replay j' !! r ->
  let held := shown max w j r.1 r.2 in
  (held = replay j !! r \/ r = r0 /\ untimed <$> held = untimed <$> replay j' !! r) /\ in_step (found w r.1 r.2) held.
Proof.
  intros Hj Ha Ht Hr Hm H. cbn zeta. destruct r as [scope name]. cbn [fst snd] in *. unfold shown.
  destruct H as [E|[<- E] ]; rewrite E in *.
  - destruct (replay j !! (scope, name)) as [e|] eqn:Er; [|split; [by left|done] ].
    rewrite decide_True by done. by split; [left|].
  - destruct (replay j' !! (scope, name)) as [e|] eqn:Er; [|split; [by right|done] ].
    destruct (live_file max j' _ e Hj Ha Ht Er) as (_ & _ & Hh & Hmh & Hd & Href & Hc). injection Href as Es En.
    case_decide as Eg.
    { split; [by left|]. by destruct (replay j !! (scope, name)). }
    rewrite Hc. split; [right; split; [done|]|].
    + cbn. f_equal. unfold untimed. cbn. by rewrite Es, En, Hd.
    + by split.
Qed.

Lemma recovered max w j j' r0 now :
  tidy w -> aftermath j j' r0 w -> torn_ok (journal_data w) -> blen (journal_data w) < 2 ^ 63 ->
  (forall k, k = j \/ k = j' -> journal_wf max k /\ Forall appendable k /\ Forall (fun c => cAt c <> 0) k) ->
  year_ok now = true ->
  exists k changes w2 s2, (k = j \/ k = j') /\ Reconcile max None now w = (Ok (changes, None), w2)
    /\ journaled w2 s2 /\ text_records s2 = k ++ changes
    /\ forall r, valid_ref r -> let held := replay (text_records s2) !! r in
         (held = replay k !! r \/ r = r0 /\ untimed <$> held = untimed <$> replay j' !! r) /\ in_step (found w2 r.1 r.2) held.
Proof.
  intros [Hc Hti Htr] (s & Hs & Hk & Hcu & Hf) Htorn Hroom Hwf Hy. rewrite (holds_data _ _ Hs) in Htorn, Hroom.
  rewrite (settled_torn s Htorn) in *. set (k := text_records s) in *. destruct (Hwf k Hk) as (Hkw & Hka & Hkt).
  pose proof (journal_wf_seq_of _ _ Hkw) as Hq. pose proof (blen_nonneg k). pose proof (text_records_length s) as Hlen. fold k in Hlen.
  assert (Hj : journaled w s) by (split; try done; fold k; lia).
  destruct (loadState_holds w s Hs) as [read Hl]; [intros c Hsv _; by apply Hcu|].
  destruct (candidate_refs w k Hc Hka) as (_ & Hv & Hnd & _).
  assert (Hone : blen (due max w k now) <= 1).
  { apply (omap_one _ r0); [done|]. intros r Hr Hne. rewrite Forall_forall in Hv. apply noted_none.
    by destruct (Hf r (Hv r Hr)) as [E|(-> & _)]. }
  destruct (Reconcile_calm w s read max now Hj Hl Hy) as (s2 & w1 & w3 & w2 & Hj1 & Hag & Hrec & _ & _ & K1 & K2 & _ & _ & E).
  { fold k. lia. }
  pose proof (spared_trans _ _ _ K1 K2) as K. fold k in E, Hrec.
  exists k, (number_from (seq_of k) (due max w k now)), w2, s2. split_and!; [done|done|by eapply spared_journaled|done|].
  intros r Hr. cbn zeta. rewrite (spared_found w1 w2 s2 r K Hj1 Hr).
  destruct (agree_spared w w1 w2 s Hj (jo_calm _ _ Hj1) Hag K) as [-> _]; [|done].
  assert (Eh : replay (text_records s2) !! r = shown max w k r.1 r.2) by (rewrite Hrec; by apply (replay_shown max w s now r)).
  rewrite Eh. destruct (Hwf j') as (Hw' & Ha' & Ht'); [by right|].
  apply (shown_cases max w k j' r0); [done..| |].
  - intros e He. destruct r as [scope name]. destruct Hr as [Hsc Hn]. cbn [fst snd] in *.
    destruct (found_Some _ _ _ _ Hc Hsc He) as (_ & f & Hfile & _). unfold modTime. rewrite Hfile. by eexists.
  - destruct (Hf r Hr) as [?|(-> & _ & ?)]; auto.
Qed.

(** ** What an operation leaves *)

Section Operation.
Context (max : Z) (w : world) (j : list Change) (Hw : synced max w j).

(** A file as it was shows what the journal held. *)
Lemma found_as_was w1 scope name : tidy w1 -> ValidName scope = true -> ValidName name = true ->
  wFiles w1 !! entryName scope name = wFiles w !! entryName scope name -> found w1 scope name = replay j !! (scope, name).
Proof using Hw.
  intros [Hc _ Htr] Hs Hn E. unfold found.
  rewrite (readEntry_file max w1 j); [done|done|by apply Hw..|done|].
  pose proof (sy_entries _ _ _ Hw scope name Hs Hn) as He. unfold entry_file in *. rewrite E.
  destruct (replay j !! (scope, name)) as [e|]; [|done]. destruct He as (_ & f & Hf & Hr). split; [|by exists f].
  apply (Htr scope name f Hs Hn). by rewrite E.
Qed.

Lemma plan_holds l w0 s : holds (with_plan l w0) s <-> holds w0 s.
Proof using. split; by apply holds_same. Qed.

(** Refused, or a read: nothing. *)
Lemma nothing_aftermath w1 j' r0 : tidy w1 -> wFiles w1 = wFiles w -> aftermath j j' r0 w1.
Proof using Hw.
  intros Ht E. destruct (sy_text _ _ _ Hw) as (s & Hs & Hj & Htl & _ & _ & Hd). exists s.
  assert (Hk : settled s = j) by by rewrite (settled_whole s Htl). rewrite Hk. split_and!.
  - eapply holds_same, Hs. by rewrite E.
  - by left.
  - intros _ cu. rewrite (saved_same w w1) by by rewrite E. apply Hd.
  - intros [scope name] [Hsc Hn]. left. apply found_as_was; [done..|]. by rewrite E.
Qed.

(** The file and the record, in that order. *)
Lemma write_aftermath shown_ c r w' :
  write_left shown_ c j w r w' -> journal_wf max (j ++ [c]) -> Forall appendable (j ++ [c]) ->
  Forall (fun c => cAt c <> 0) (j ++ [c]) ->
  match live_of (Some c) with
  | Some e => exists t, shown_ = Some (OFile (MkFile (encode e) t 1))
  | None => shown_ = None
  end ->
  tidy (with_plan [] w') -> aftermath j (j ++ [c]) (change_ref c) (with_plan [] w').
Proof using Hw.
  intros [He (s & z & Hs & Hs' & Hk & Hcu & _) Ho] Hwf Ha Htime Hsh Ht. set (w1 := with_plan [] w') in *.
  exists (s ++ z). split_and!; [by apply plan_holds|done|exact Hcu|].
  intros [scope name] [Hsc Hn]. cbn [fst snd] in *. destruct (decide ((scope, name) = change_ref c)) as [Er|Hne].
  - pose proof Er as Er'. unfold change_ref, entry_ref in Er'. injection Er' as Es En. rewrite <- Es, <- En in He. cbn zeta in He.
    destruct He as [(He & _ & Hjn)|He].
    + left. rewrite (found_as_was w1) by done. destruct (sy_text _ _ _ Hw) as (s0 & Hs0 & Hj0 & Htl & _).
      assert (E0 : s ++ z = s0) by (apply (holds_inj w'); [done|by eapply holds_same]).
      by rewrite E0, (settled_whole s0 Htl), Hj0.
    + assert (Hf : found w1 scope name = replay (j ++ [c]) !! (scope, name)).
      { unfold found. rewrite (readEntry_file max w1 (j ++ [c])); [done|apply Ht|done..|].
        rewrite replay_last, last_for_snoc, decide_True by done. unfold entry_file. change (wFiles w1) with (wFiles w').
        rewrite He. destruct (live_of (Some c)) as [e|]; [|by rewrite Hsh]. destruct Hsh as [t ->]. split; [|by eexists].
        by apply (ti_tree _ Ht scope name _ Hsc Hn He). }
      destruct Hk as [Hk|Hk]; rewrite Hk; [right; by split_and!|by left].
  - left. rewrite (found_as_was w1); [|done..|by apply Ho]. destruct Hk as [-> | ->]; [done|].
    symmetry. apply replay_other. congruence.
Qed.

Lemma snoc_good c : change_wf max j c -> appendable c -> cAt c <> 0 ->
  journal_wf max (j ++ [c]) /\ Forall appendable (j ++ [c]) /\ Forall (fun c => cAt c <> 0) (j ++ [c]).
Proof using Hw.
  intros H1 H2 H3. split_and!; [apply journal_wf_snoc; [apply Hw|done]|..]; apply Forall_app; (split; [apply Hw|by constructor]).
Qed.
End Operation.

(** What is left, and that the journal it was to be is one. *)
Definition left_good (max : Z) (j j' : list Change) (w : world) : Prop :=
  exists r0, aftermath j j' r0 w /\ journal_wf max j' /\ Forall appendable j' /\ Forall (fun c => cAt c <> 0) j'.

Lemma nothing_good max w j w1 : synced max w j -> tidy w1 -> wFiles w1 = wFiles w -> left_good max j j w1.
Proof.
  intros Hw Ht E. exists ([], []). split; [by apply (nothing_aftermath max w)|]. split_and!; apply Hw.
Qed.

Lemma write_good max w j shown_ c r w' :
  synced max w j -> write_left shown_ c j w r w' -> change_wf max j c -> appendable c -> cAt c <> 0 ->
  match live_of (Some c) with
  | Some e => exists t, shown_ = Some (OFile (MkFile (encode e) t 1))
  | None => shown_ = None
  end ->
  tidy (with_plan [] w') -> left_good max j (j ++ [c]) (with_plan [] w').
Proof.
  intros Hw H Hwf Hap Hat Hsh Ht. destruct (snoc_good max w j Hw c Hwf Hap Hat) as (G1 & G2 & G3).
  exists (change_ref c). split; [|done]. by apply (write_aftermath max w j Hw shown_ c r).
Qed.

Section Writes.
Context (max : Z) (w : world) (j : list Change) (now : Z) (session : bytes).
Context (Hw : synced max w j) (Hy : year_ok now = true) (Hz : now <> 0) (Hse : ValidString session = true).

Lemma put_good e opts plan r w' :
  opts_text opts -> file_put max None now session e opts (with_plan plan w) = (r, w') -> tidy (with_plan [] w') ->
  left_good max j (appended j (spec_put max j now session e opts)) (with_plan [] w').
Proof using Hw Hy Hz Hse.
  intros Hop Ef Ht. pose proof (file_put_left max w j now session Hw Hy Hz Hse e opts plan Hop) as H. rewrite Ef in H.
  destruct (spec_put max j now session e opts) as [c|err] eqn:E; [|destruct H as [_ ->]; by apply (nothing_good max w)].
  pose proof (spec_put_appendable _ _ _ _ _ _ _ (sy_app _ _ _ Hw) (journal_small _ _ _ Hw) Hy Hse Hop E) as Hap.
  pose proof (spec_put_wf _ _ _ _ _ _ _ E) as Hwf.
  assert (Hc : cEntry c = stamped now e /\ cAt c = now).
  { unfold spec_put in E. destruct (CheckEntry _ _ _); [done|]. destruct (PutOptions_Check _ _ _ _); [done|]. by injection E as <-. }
  destruct Hc as [Hc Hat]. eapply (write_good max w j); [done|exact H|done|done|by rewrite Hat| |done].
  unfold live_of. rewrite Hc. cbn [eDeleted stamped]. by eexists.
Qed.

Lemma forget_good scope name plan r w' :
  file_forget max None now session scope name (with_plan plan w) = (r, w') -> tidy (with_plan [] w') ->
  left_good max j (appended j (spec_forget j now session scope name)) (with_plan [] w').
Proof using Hw Hy Hz Hse.
  intros Ef Ht. pose proof (file_forget_left max w j now session Hw Hy Hz Hse scope name plan) as H. rewrite Ef in H.
  destruct (spec_forget j now session scope name) as [c|err] eqn:E; [|destruct H as [_ ->]; by apply (nothing_good max w)].
  pose proof (spec_forget_appendable max w j now session Hw Hy Hse scope name c E) as Hap.
  pose proof (spec_forget_wf _ _ _ _ _ _ _ (sy_wf _ _ _ Hw) E) as Hwf.
  assert (Hc : eDeleted (cEntry c) = true /\ cAt c = now).
  { unfold spec_forget in E. destruct (CheckRef _ _); [done|]. destruct (replay j !! (scope, name)); [|done]. by injection E as <-. }
  destruct Hc as [Hc Hat]. eapply (write_good max w j); [done|exact H|done|done|by rewrite Hat| |done].
  unfold live_of. by rewrite Hc.
Qed.
End Writes.

Lemma op_good max w j o plan :
  synced max w j -> op_text o -> tidy (with_plan [] (file_do max (with_plan plan w) o).1) ->
  left_good max j (spJournal (do (MkSpec max j) o).1) (with_plan [] (file_do max (with_plan plan w) o).1).
Proof.
  intros Hw Ho. destruct o as [scope name|scope|now session e opts|now session scope name|after| |];
    cbn [file_do fst]; try (intros Ht; by apply (nothing_good max w)).
  - destruct Ho as (Hy & Hz & Hse & Hop). destruct (file_put _ _ _ _ _ _ (with_plan plan w)) as [r w'] eqn:E. cbn [fst].
    intros Ht. by apply (put_good max w j now session Hw Hy Hz Hse e opts plan r).
  - destruct Ho as (Hy & Hz & Hse). destruct (file_forget _ _ _ _ _ _ (with_plan plan w)) as [r w'] eqn:E. cbn [fst].
    intros Ht. by apply (forget_good max w j now session Hw Hy Hz Hse scope name plan r).
Qed.

(** C10: Recovery.  A store operation on a directory in sync with a journal,
    in which no one edited a file by hand, fails or crashes at a system call,
    any of them but one cut: the one that writes a record to the journal and
    loses its newline alone, after which the code repeats a number
    ([lost_newline_repeats_number]).  It leaves entry files in directories
    and of years that JSON writes, and a journal under the size an offset
    counts.  Then a run of Reconcile whose calls succeed ends without error,
    and afterwards the journal holds for every entry either what it held
    before the operation or what the operation was to make of it, its time
    apart, and the entry's file shows the same content and the same metadata.
    An operation concerns one entry, so it happened whole or not at all, and
    no other entry is lost or changed. *)
Theorem crash_recovered max w j o plan now :
  synced max w j -> op_text o ->
  let w1 := with_plan [] (file_do max (with_plan plan w) o).1 in
  let j' := spJournal (do (MkSpec max j) o).1 in
  tidy w1 -> torn_ok (journal_data w1) -> blen (journal_data w1) < 2 ^ 63 -> year_ok now = true ->
  exists changes w2 s2, Reconcile max None now w1 = (Ok (changes, None), w2) /\ journaled w2 s2
    /\ forall r, valid_ref r -> let held := replay (text_records s2) !! r in
         (held = replay j !! r \/ untimed <$> held = untimed <$> replay j' !! r) /\ in_step (found w2 r.1 r.2) held.
Proof.
  intros Hw Ho w1 j' Ht Htorn Hroom Hy. destruct (op_good max w j o plan Hw Ho Ht) as (r0 & Ha & Hj').
  destruct (recovered max w1 j j' r0 now Ht Ha Htorn Hroom) as (k & changes & w2 & s2 & Hk & E & Hjo & _ & Hheld); [|done|].
  { intros k [-> | ->]; [|done]. split_and!; apply Hw. }
  exists changes, w2, s2. split_and!; [done..|]. intros r Hr. destruct (Hheld r Hr) as [H Hin]. split; [|done].
  destruct Hk as [-> | ->], H as [-> |(_ & ->)]; auto.
Qed.

(** A Put cut off in the journal, 40 bytes into its record: the file is in
    place, the journal torn.  Reconcile ends the torn line and records the
    file. *)
Definition crash_op : op :=
  OPut 7 (bs "s1") (MkEntry (bs "user") (bs "style") (bs "Short.") None [] [] 0 false) [].

Definition crashed : world := with_plan [] (file_do 4096 (with_plan (journal_fails 40) empty_world) crash_op).1.

(** A directory of a journal, an index and an entry is tidy. *)
Lemma tidy_built w p q f g h : quiet w -> own p -> own q ->
  year_ok (fTime f) = true -> year_ok (fTime g) = true -> year_ok (fTime h) = true ->
  wFiles w = <[journal_path := OFile h]> (<[q := OFile g]> (dir_made q.1 (<[p := OFile f]> (dir_made p.1 ∅)))) -> tidy w.
Proof.
  destruct w as [m clock rand plan]. unfold quiet. cbn [wFiles wPlan]. intros -> Hp Hq Hf Hg Hh ->.
  apply (tidy_insert journal_path h (with_file q g (with_file p f (MkWorld ∅ clock rand [])))); [|by right|done].
  apply tidy_insert; [|by left|done]. apply tidy_insert; [apply empty_tidy|by left|done].
Qed.

Definition file_at (p : path) : file := match wFiles crashed !! p with Some (OFile f) => f | _ => MkFile [] 0 0 end.

Lemma crashed_tidy : tidy crashed.
Proof.
  apply (tidy_built crashed (entryName (bs "user") (bs "style")) (bs "user", indexName)
    (file_at (entryName (bs "user") (bs "style"))) (file_at (bs "user", indexName)) (file_at journal_path)).
  - reflexivity.
  - by constructor.
  - by constructor.
  - vm_compute. reflexivity.
  - vm_compute. reflexivity.
  - vm_compute. reflexivity.
  - apply (bool_decide_eq_true_1 _). vm_compute. reflexivity.
Qed.

(** What the run makes of it: a record at least, and the entry. *)
Definition recovered_run : list (Z * bytes) * option bytes :=
  match Reconcile 4096 None 9 crashed with
  | (Ok (changes, None), w2) =>
      ((fun c => (cSeq c, cSource c)) <$> changes, eContent <$> replay (text_records (journal_data w2)) !! (bs "user", bs "style"))
  | _ => ([], None)
  end.

Lemma crash_recovered_witness :
  blen (journal_data crashed) = 40 /\ recovered_run = ([(1, SourceReconciled)], Some (bs "Short."))
  /\ exists changes w2 s2, Reconcile 4096 None 9 crashed = (Ok (changes, None), w2) /\ journaled w2 s2
       /\ forall r, valid_ref r -> in_step (found w2 r.1 r.2) (replay (text_records s2) !! r).
Proof.
  split; [vm_compute; reflexivity|]. split; [vm_compute; reflexivity|].
  destruct (crash_recovered 4096 empty_world [] crash_op (journal_fails 40) 9) as (changes & w2 & s2 & E & Hj & H).
  - apply empty_synced.
  - vm_compute. split_and!; done.
  - exact crashed_tidy.
  - vm_compute. reflexivity.
  - vm_compute. reflexivity.
  - reflexivity.
  - exists changes, w2, s2. split; [exact E|]. split; [exact Hj|]. intros r Hr. apply (H r Hr).
Defined.

(** ** Reconcile when system calls fail *)

Lemma decodeRecord_scope line c : decodeRecord line = Some c -> ValidScope (eScope (cEntry c)) = true.
Proof.
  unfold decodeRecord. destruct (unmarshal_change line) as [d|]; cbn; [|done]. destruct (cSeq d =? 0); [done|].
  destruct (ValidScope (eScope (cEntry d))) eqn:E, (ValidName (eName (cEntry d))); cbn; try done.
  case_bool_decide; [done|]. by intros [= <-].
Qed.

Lemma text_records_valid s : Forall (fun c => ValidScope (eScope (cEntry c)) = true) (text_records s).
Proof.
  rewrite text_records_lines. apply Forall_concat, Forall_fmap, Forall_forall. intros line _. cbn. unfold line_record.
  case_bool_decide; [constructor|]. destruct (decodeRecord line) as [c|] eqn:E; [|constructor].
  apply Forall_singleton. by eapply decodeRecord_scope.
Qed.

(** The journal [s] at most grown, and the entry files of [w0]. *)
Definition sound (s : bytes) (w0 w : world) : Prop :=
  (exists z, holds w (s ++ z))
  /\ forall scope name, ValidName scope = true -> ValidName name = true ->
       wFiles w !! entryName scope name = wFiles w0 !! entryName scope name.

Lemma sound_near s w0 w w' p : sound s w0 w -> near p w w' ->
  p = top stateName \/ (exists scope, ValidName scope = true /\ p = (scope, indexName)) -> sound s w0 w'.
Proof.
  intros [[z Hz] He] Hn Hp. split.
  - exists z. eapply holds_same, Hz. apply (near_journal p); [..|exact Hn].
    + destruct Hp as [-> | (scope & Hs & ->)]; [done|]. intros E. by apply (own_journal _ (own_index scope Hs)).
    + destruct Hp as [-> | (scope & Hs & ->)]; [done|]. intros E. by apply (journal_not_top scope Hs).
  - intros scope name Hs Hna. rewrite <- He by done. apply (ne_other _ _ _ Hn); [..|by apply name_no_tmp].
    + destruct Hp as [-> | (sc & Hsc & ->)]; [by apply entry_not_state|by apply entry_not_index].
    + destruct Hp as [-> | (sc & Hsc & ->)]; [by left|right]. apply own_top; [by constructor|done].
Qed.

Lemma appendJournal_sound s w0 c w : sound s w0 w -> ends (appendJournal c) w (fun _ w' => sound s w0 w').
Proof.
  intros [[z Hz] He]. destruct (marshal_change c) as [line|] eqn:Em.
  2: { unfold appendJournal. rewrite Em. apply ends_fail. by split; [exists z|]. }
  eapply ends_weaken; [by apply (appendJournal_ends c line (s ++ z) _ w Hz Em eq_refl)|]. intros r w' Hr.
  assert (Hg : exists y, grew (s ++ z) y w w') by (destruct r; [destruct Hr as [Hr _]; by eexists|destruct Hr as (y & _ & _ & Hr); by exists y]).
  destruct Hg as (y & [Ht Ho]). split; [exists (z ++ y); by rewrite app_assoc|].
  intros scope name Hs Hn. rewrite Ho; [by apply He|]. by apply own_journal, own_entry.
Qed.

Lemma appendChange_sound s w0 st c w : sound s w0 w ->
  ends (appendChange st c) w (fun r w' => sound s w0 w' /\ forall st' c', r = Ok (st', c') -> cEntry c' = cEntry c).
Proof.
  intros Hw. unfold appendChange. apply ends_bind, ends_look. destruct (nextSeq w st) as [[st1 n]|e]; [|by split].
  apply ends_bind. eapply ends_weaken; [by apply appendJournal_sound|]. intros [off|e] w1 H1; [|by split].
  destruct (stOff st1 =? 0); [|apply ends_ret; split; [done|by intros ? ? [= _ <-] ] ].
  apply ends_bind, ends_look. destruct (headLine w1); [|by split].
  apply ends_ret; split; [done|by intros ? ? [= _ <-] ].
Qed.

(** What is recorded is in a scope that is a name. *)
Lemma outside_scope max w s z st scope name cur at_ c :
  holds w (s ++ z) -> (forall e, cur = Some e -> ValidScope (eScope e) = true) ->
  outside max w st scope name cur at_ = Ok (Some c) -> ValidScope (eScope (cEntry c)) = true.
Proof.
  intros Hh Hcur. unfold outside. destruct cur as [cur|].
  - specialize (Hcur cur eq_refl).
    destruct (match stEntries st !! key scope name with Some se => agrees se cur | None => false end); [done|].
    destruct (CheckEntry cur max None); [done|]. by intros [= <-].
  - destruct (stEntries st !! key scope name) as [known|]; [|done]. unfold lastRecordFor.
    destruct (scanJournal_holds w [] (s ++ z) Hh eq_refl) as (l & E & Hl). change (blen (@nil ascii)) with 0 in E. rewrite E.
    cbn [res_bind]. rewrite Hl. destruct (last_for _ _) as [d|] eqn:Ed; [|done]. intros [= <-]. cbn.
    unfold last_for in Ed. apply last_Some_elem_of, list_elem_of_filter in Ed as [_ Hd].
    pose proof (text_records_valid (s ++ z)) as Hv. rewrite Forall_forall in Hv. by apply Hv.
Qed.

Definition loop_post (s : bytes) (w0 : world) (r : res ferror (list Change * option ferror * journalState)) (w : world) : Prop :=
  sound s w0 w /\ match r with
                  | Ok (changes, _, _) => Forall (fun c => ValidScope (eScope (cEntry c)) = true) changes
                  | Err _ => True
                  end.

Lemma loop_sound max now live s w0 ks :
  (forall k e, live !! k = Some e -> ValidScope (eScope e) = true) -> forall st w, sound s w0 w ->
  ends (reconcile_loop max now live ks st) w (loop_post s w0).
Proof.
  intros Hlive. induction ks as [|k ks IH]; intros st w Hw; cbn [reconcile_loop]; [apply ends_ret; split; [done|constructor]|].
  destruct (split_key k) as [scope name]. unfold ends at 1. cbv beta.
  destruct (outside max w st scope name (live !! k) now) as [[c|]|e] eqn:Eo; [|by apply IH|split; [done|constructor] ].
  pose proof Hw as [[z Hz] _]. pose proof (outside_scope max w s z _ _ _ _ _ _ Hz (Hlive k) Eo) as Hc.
  pose proof (appendChange_sound s w0 st c w Hw) as Ha.
  destruct (appendChange st c w) as [[[st' rec]|e] w1] eqn:E; apply (ends_elim _ _ _ _ _ Ha) in E as [H1 Hr]; [|split; [done|constructor] ].
  specialize (Hr _ _ eq_refl). match goal with |- loop_post _ _ (?m ?w).1 _ => change (ends m w (loop_post s w0)) end.
  apply ends_bind. eapply ends_weaken; [by apply IH|]. intros [[[l err] st'']|e] w2 [H2 Hl]; [|by split].
  apply ends_ret. split; [done|]. constructor; [by rewrite Hr|done].
Qed.

Lemma list_loop_scope w scope l : forall es e, list_loop w scope l = Ok es -> e ∈ es -> eScope e = scope.
Proof.
  induction l as [|[n o] l IH]; intros es e; cbn [list_loop]; [intros [= <-]; by intros ?%not_elem_of_nil|].
  destruct (entry_of n o) as [name|]; [|by apply IH]. destruct (readEntry w scope name) as [r|err] eqn:Er; cbn [res_bind]; [|done].
  destruct (list_loop w scope l) as [es'|err]; cbn [res_bind]; [|done].
  destruct r as [x|]; intros [= <-]; [|by apply IH]. intros [->|He]%elem_of_cons; [|by apply (IH es')].
  unfold readEntry in Er. destruct (scopeIsDir w scope) as [b|]; cbn [res_bind] in Er; [|done]. destruct (negb b); [done|].
  destruct (readRegular _ _); [|done]. by injection Er as <-.
Qed.

Lemma live_entries_scope w ss : Forall (fun sc => ValidName sc = true) ss -> forall live live',
  (forall k e, live !! k = Some e -> ValidScope (eScope e) = true) -> live_entries w ss live = Ok live' ->
  forall k e, live' !! k = Some e -> ValidScope (eScope e) = true.
Proof.
  induction 1 as [|scope ss Hs _ IH]; intros live live' Hl; cbn [live_entries]; [by intros [= <-]|].
  destruct (list_scope w scope) as [es|err] eqn:E; cbn [res_bind]; [|done].
  assert (Hes : forall e, e ∈ es -> ValidScope (eScope e) = true).
  { intros e He. unfold list_scope in E. destruct (scopeIsDir w scope) as [b|]; cbn [res_bind] in E; [|done].
    destruct (negb b); [injection E as <-; by apply not_elem_of_nil in He|].
    destruct (list_loop _ _ _) as [l|] eqn:El; cbn [res_bind] in E; [|done]. injection E as <-.
    rewrite sort_on_perm in He. unfold ValidScope. by rewrite (list_loop_scope _ _ _ _ _ El He). }
  apply IH. clear E. revert live Hl. induction es as [|x es IHe]; intros live Hl; [done|]. cbn [foldl].
  apply IHe; [intros; apply Hes; by right|]. intros k e.
  destruct (decide (key (eScope x) (eName x) = k)) as [<-|Hne]; [rewrite lookup_insert_eq; intros [= <-]; apply Hes; by left|].
  rewrite lookup_insert_ne by done. apply Hl.
Qed.

Lemma scope_dirs_valid l : forall ss, scope_dirs l = Ok ss -> Forall (fun sc => ValidName sc = true) ss.
Proof.
  induction l as [|[n o] l IH]; intros ss; cbn [scope_dirs]; [by intros [= <-]|].
  destruct (ValidName n) eqn:En; cbn [negb]; [|apply IH]. destruct o; try apply IH; [|done].
  destruct (scope_dirs l) as [out|]; cbn [res_bind]; [|done]. intros [= <-]. constructor; [done|by apply IH].
Qed.

Lemma reindex_all_sound s w0 ss : Forall (fun sc => ValidName sc = true) ss -> forall w, sound s w0 w ->
  ends (reindex_all ss) w (fun _ w' => sound s w0 w').
Proof.
  induction 1 as [|scope ss Hs _ IH]; intros w Hw; cbn [reindex_all]; [by apply ends_ret|].
  pose proof (own_index scope Hs) as Hi. apply ends_bind. unfold reindex. apply ends_bind, ends_look.
  destruct (list_scope w scope) as [es|]; [|done].
  eapply ends_weaken; [apply writeAtomic_ends; [by apply own_no_tmp|by apply own_self]|]. intros r w1 H1.
  assert (Hn : near (scope, indexName) w w1) by (destruct r; apply H1).
  assert (H2 : sound s w0 w1) by (eapply sound_near; [exact Hw|exact Hn|right; by exists scope]).
  destruct r; [by apply IH|done].
Qed.

(** C13: Whatever system calls of a run of Reconcile fail, and wherever it
    crashes, on a directory in any state but a journal that is no file of the
    store's own: no entry file is touched, so a person's edits are safe from
    it, and the journal only grows at its end, so no record is lost. *)
Theorem Reconcile_faults max lock now w s plan :
  holds w s ->
  let w' := (Reconcile max lock now (with_plan plan w)).2 in
  (exists z, holds w' (s ++ z))
  /\ forall scope name, ValidName scope = true -> ValidName name = true ->
       wFiles w' !! entryName scope name = wFiles w !! entryName scope name.
Proof.
  intros Hs. assert (Hw : sound s w (with_plan plan w)).
  { split; [|done]. exists []. rewrite app_nil_r. by apply plan_holds. }
  change (ends (Reconcile max lock now) (with_plan plan w) (fun _ w' => sound s w w')).
  unfold Reconcile. apply ends_bind. destruct lock as [err|]; [by apply ends_fail|]. apply ends_ret.
  set (w1 := with_plan plan w) in *. apply ends_bind, ends_look. destruct (loadState w1) as [st|]; [|done].
  apply ends_bind, ends_look. destruct (scopes w1) as [ss|] eqn:Ess; [|done]. apply scope_dirs_valid in Ess.
  apply ends_bind, ends_look. destruct (live_entries w1 ss ∅) as [live|] eqn:El; [|done].
  pose proof (live_entries_scope w1 ss Ess ∅ live ltac:(by intros ? ? ?%lookup_empty_Some) El) as Hlive. cbv zeta.
  apply ends_bind. eapply ends_weaken; [by apply (loop_sound max now live s w)|].
  intros [[[changes [err|]] st']|e] w2 [H2 Hc]; [by apply ends_ret| |done].
  assert (Hto : Forall (fun sc => ValidName sc = true) (touched changes)).
  { apply Forall_forall. intros sc. unfold touched. rewrite elem_of_remove_dups, list_elem_of_fmap. intros (c & -> & Hin).
    rewrite Forall_forall in Hc. by apply Hc. }
  apply ends_bind. eapply (ends_weaken _ _ (fun _ w3 => sound s w w3)).
  { destruct (_ || _ || _); [|by apply ends_ret]. apply ends_try. unfold saveState.
    eapply ends_weaken; [by apply writeAtomic_ends|]. intros r w3 H3.
    eapply sound_near; [exact H2| |by left]. destruct r; apply H3. }
  intros [[e|]|e] w3 H3; [by apply ends_ret| |done]. apply ends_bind, ends_try.
  eapply ends_weaken; [by apply reindex_all_sound|]. intros r w4 H4. by destruct r.
Qed.

(** The first record cut off after 20 bytes. *)
Lemma Reconcile_faults_witness :
  let w' := (Reconcile 4096 None 9 (with_plan [Some 20%nat] edited_world)).2 in
  blen (journal_data w') = blen demo_text + 20 /\ exists z, holds w' (demo_text ++ z).
Proof.
  split; [vm_compute; reflexivity|]. apply (Reconcile_faults 4096 None 9 edited_world demo_text [Some 20%nat]).
  apply (jo_holds _ _ (tr_journaled _ _ edited_tracked)).
Defined.
