(* ===== verification/Lock.v ===== *)
(** * The store's lock between processes: filestore/lock.go

    A lock file created by one writer at a time, holding its process's
    identity; a lock whose process no longer runs is taken over by way of a
    second name for it.  Each writer is at a point of the code between two
    system calls, and a step is one call of one running writer: the calls of
    all the writers of all the processes interleave as they like, any of
    them can fail, a process can die at any point and another take its PID. *)

From S2P Require Import Prelude GoStd GoTime Sha256 Memory Store Json JsonRead Codec Frontmatter.

(** ** Identities *)

Record LockInfo := MkLockInfo { liPID : Z; liHost : bytes; liSince : Z }.

#[global] Instance LockInfo_eq_dec : EqDecision LockInfo.
Proof. solve_decision. Defined.

Definition lockName : bytes := bs ".lock".
Definition claimSuffix : bytes := bs ".taken-".

Definition lock_json (l : LockInfo) : json :=
  JObject ([member (bs "pid") (jnumber (liPID l))]
           ++ opt (nonempty (liHost l)) (member (bs "host") (jstring (liHost l)))
           ++ [member (bs "since") (jtime (liSince l))]).

Definition lock_fields : fields LockInfo :=
  [(bs "pid", fun v l => x ← decode_int 64 v (liPID l); Some (MkLockInfo x (liHost l) (liSince l)));
   (bs "host", fun v l => x ← decode_string v (liHost l); Some (MkLockInfo (liPID l) x (liSince l)));
   (bs "since", fun v l => x ← decode_time v (liSince l); Some (MkLockInfo (liPID l) (liHost l) x))].

(** What [createLock] writes: a line of JSON. *)
Definition lock_text (l : LockInfo) : bytes := render (lock_json l) ++ [newline].

(** What [readLock] makes of a file's contents. *)
Definition lock_read (data : bytes) : option LockInfo :=
  if bool_decide (data = []) then None
  else v ← json_parse data; decode_struct lock_fields v (MkLockInfo 0 [] 0).

(** [LockInfo.stale]: a process of this host that does not run. *)
Definition stale (host : bytes) (processAlive : Z -> bool) (l : LockInfo) : bool :=
  if bool_decide (liHost l = []) || negb (bool_decide (liHost l = host)) || (liPID l <=? 0) then false
  else negb (processAlive (liPID l)).

Definition same (l o : LockInfo) : bool :=
  (liPID l =? liPID o) && bool_decide (liHost l = liHost o) && (liSince l =? liSince o).

(** Time.UnixNano, an [int64]. *)
Definition UnixNano (t : Z) : Z := (t - Date (MkCivil 1970 1 1 0 0 0 0) + 2 ^ 63) mod 2 ^ 64 - 2 ^ 63.

Definition fingerprint (l : LockInfo) : bytes :=
  Sha256.hex (take 8 (Sha256.digest (liHost l ++ bs "|" ++ Itoa (liPID l) ++ bs "|" ++ Itoa (UnixNano (liSince l))))).

(** The name a taker of [l]'s lock claims. *)
Definition claim (l : LockInfo) : bytes := lockName ++ claimSuffix ++ fingerprint l.

Example lock_text_ex :
  lock_text (MkLockInfo 41 (bs "a") (Date (MkCivil 2026 9 20 10 0 3 500)))
  = q "{'pid':41,'host':'a','since':'2026-09-20T10:00:03.0000005Z'}" ++ [newline].
Proof. by vm_compute. Qed.

(** ** A writer *)

(** Where reading a lock file has got to: [readNoFollow]'s calls. *)
Inductive reading := RLstat | ROpen | RCheck (i : nat) | RData (i : nat).

(** Who reads it: [acquireFile], [takeover] of a dead holder's lock, or
    [releaseLock] of the writer's own. *)
Inductive reader := KAcquire | KTakeover (holder : LockInfo) | KRelease (i : nat) (mine : LockInfo).

(** The call a writer makes next.  A file it has made is given by [i]. *)
Inductive pc :=
| PIdle                                            (** not writing *)
| PCreate                                          (** createLock: OpenFile *)
| PStamp (i : nat)                                 (** its identity, with the time *)
| PWrite (i : nat) (mine : LockInfo) (rest : bytes)
| PClose (i : nat) (mine : LockInfo) (ok : bool)
| PUndo (i : nat) (mine : LockInfo)                (** the file removed: its write failed *)
| PHold (i : nat) (mine : LockInfo)                (** the lock is held *)
| PRead (r : reader) (at_ : reading)
| PLink (holder : LockInfo)                        (** takeover: Link *)
| PRemove (holder : LockInfo)                      (** the lock removed *)
| PUnclaim (holder : LockInfo) (gone : option bool) (** the claim removed; [None] for an error *)
| PDrop (i : nat) (mine : LockInfo)                (** releaseLock: Remove *)
| PWait.                                           (** the wait before the next look *)

(** How a call goes: it succeeds, fails, writes so many bytes, or gives a
    time. *)
Inductive answer := Good | Bad | Wrote (n : nat) | Time (t : Z).

(** The names of the directory, and what the files hold, removed ones too. *)
Record disk := MkDisk { dNames : gmap bytes nat; dData : gmap nat bytes }.

Inductive found := NotExist | Unreadable | Found (l : LockInfo).

Definition named (n : bytes) (f : option nat) (d : disk) : disk :=
  MkDisk (match f with Some i => <[n := i]> (dNames d) | None => delete n (dNames d) end) (dData d).

Section Writer.
Context (host : bytes) (pid : Z) (alive : Z -> bool).

(** What each does once it has read the file: [acquireFile] takes a stale
    lock over and waits for a live holder, [takeover] goes on when the claim
    names the lock of the holder it read, [releaseLock] removes its own. *)
Definition acquire_found (f : found) : pc :=
  match f with
  | NotExist => PCreate
  | Found h => if stale host alive h then PLink h else PWait
  | Unreadable => PWait
  end.

Definition takeover_found (h : LockInfo) (f : found) : pc :=
  match f with
  | Found again => if same again h then PRemove h else PUnclaim h (Some false)
  | _ => PUnclaim h (Some false)
  end.

Definition release_found (i : nat) (mine : LockInfo) (f : found) : pc :=
  match f with
  | Found l => if same l mine then PDrop i mine else PIdle
  | _ => PIdle
  end.

Definition read_done (r : reader) (f : found) : pc :=
  match r with
  | KAcquire => acquire_found f
  | KTakeover h => takeover_found h f
  | KRelease i mine => release_found i mine f
  end.

Definition read_name (r : reader) : bytes := match r with KTakeover h => claim h | _ => lockName end.

(** [readNoFollow]: the name, the file opened, the name again, the data. *)
Definition read_step (r : reader) (at_ : reading) (a : answer) (d : disk) : option pc :=
  match at_, a with
  | (RLstat | ROpen | RCheck _ | RData _), Bad => Some (read_done r Unreadable)
  | RLstat, Good => Some (match dNames d !! read_name r with Some _ => PRead r ROpen | None => read_done r NotExist end)
  | ROpen, Good => Some (match dNames d !! read_name r with Some i => PRead r (RCheck i) | None => read_done r NotExist end)
  | RCheck i, Good =>
      Some (if bool_decide (dNames d !! read_name r = Some i) then PRead r (RData i) else read_done r Unreadable)
  | RData i, Good =>
      Some (read_done r (match data ← dData d !! i; lock_read data with Some l => Found l | None => Unreadable end))
  | _, _ => None
  end.

(** [createLock]: the file made where there is none, stamped, written and
    closed, or removed; else the lock is read. *)
Definition create_next (p : pc) (a : answer) (d : disk) : option (pc * disk) :=
  match p, a with
  | PCreate, Good =>
      match dNames d !! lockName with
      | Some _ => Some (PRead KAcquire RLstat, d)
      | None => let i := fresh (dom (dData d)) in
                Some (PStamp i, named lockName (Some i) (MkDisk (dNames d) (<[i := []]> (dData d))))
      end
  | PCreate, Bad => Some (PIdle, d)
  | PStamp i, Time t =>
      let mine := MkLockInfo pid host t in
      Some (if year_ok t then PWrite i mine (lock_text mine) else PClose i mine false, d)
  | PWrite i mine rest, Wrote n =>
      let d' := MkDisk (dNames d) (<[i := default [] (dData d !! i) ++ take n rest]> (dData d)) in
      Some (if bool_decide (drop n rest = []) then PClose i mine true else PWrite i mine (drop n rest), d')
  | PWrite i mine _, Bad => Some (PClose i mine false, d)
  | PClose i mine ok, Good => Some (if ok then PHold i mine else PUndo i mine, d)
  | PClose i mine _, Bad => Some (PUndo i mine, d)
  | PUndo _ _, Good => Some (PIdle, named lockName None d)
  | PUndo _ _, Bad => Some (PIdle, d)
  | _, _ => None
  end.

(** [takeover]: the link, and once the claim is read the removal of the lock
    and of the claim. *)
Definition takeover_next (p : pc) (a : answer) (d : disk) : option (pc * disk) :=
  match p, a with
  | PLink h, Good =>
      match dNames d !! lockName, dNames d !! claim h with
      | None, _ => Some (PCreate, d)
      | Some _, Some _ => Some (PWait, d)
      | Some i, None => Some (PRead (KTakeover h) RLstat, named (claim h) (Some i) d)
      end
  | PLink h, Bad => Some (PIdle, d)
  | PRemove h, Good => Some (PUnclaim h (Some true), named lockName None d)
  | PRemove h, Bad => Some (PUnclaim h None, d)
  | PUnclaim h gone, (Good | Bad) =>
      Some (match gone with Some true => PCreate | Some false => PWait | None => PIdle end,
            match a with Good => named (claim h) None d | _ => d end)
  | _, _ => None
  end.

(** [releaseLock]. *)
Definition release_next (p : pc) (a : answer) (d : disk) : option (pc * disk) :=
  match p, a with
  | PHold i mine, Good => Some (PRead (KRelease i mine) RLstat, d)
  | PDrop _ _, Good => Some (PIdle, named lockName None d)
  | PDrop _ _, Bad => Some (PIdle, d)
  | _, _ => None
  end.

(** A writer's next call, answered; a wait ends in another look, or in
    [ErrLocked] or the context's error. *)
Definition next (p : pc) (a : answer) (d : disk) : option (pc * disk) :=
  match p with
  | PIdle => match a with Good => Some (PCreate, d) | _ => None end
  | PWait => match a with Good => Some (PCreate, d) | Bad => Some (PIdle, d) | _ => None end
  | PRead r at_ => p' ← read_step r at_ a d; Some (p', d)
  | PLink _ | PRemove _ | PUnclaim _ _ => takeover_next p a d
  | PHold _ _ | PDrop _ _ => release_next p a d
  | _ => create_next p a d
  end.
End Writer.

(** ** All of them *)

Record process := MkProcess { prHost : bytes; prPid : Z; prRuns : bool }.

Record sys := MkSys {
  sDisk : disk;
  sProcs : gmap nat process;
  sWriters : gmap nat (nat * pc);       (** each with its process *)
  sIssued : list (LockInfo * nat)       (** the identities stamped, and by which process *)
}.

Definition empty_sys : sys := MkSys (MkDisk ∅ ∅) ∅ ∅ [].

(** [processAlive] on a host: signal 0 finds a process there. *)
Definition processAlive (procs : gmap nat process) (host : bytes) (pid : Z) : bool :=
  existsb (fun kp : nat * process => prRuns kp.2 && bool_decide (prHost kp.2 = host) && (prPid kp.2 =? pid)) (map_to_list procs).

Definition runs (s : sys) (p : nat) : Prop := exists pr, sProcs s !! p = Some pr /\ prRuns pr = true.

(** The identity a call stamps. *)
Definition stamp (pr : process) (c : pc) (a : answer) : option LockInfo :=
  match c, a with PStamp _, Time t => Some (MkLockInfo (prPid pr) (prHost pr) t) | _, _ => None end.

(** A process starts under a PID that no running process of its host has, a
    host being what os.Hostname gives; it can die at any point.  Two stamps
    of one host and PID are of different instants. *)
Inductive step (s : sys) : sys -> Prop :=
| step_start p host pid :
    sProcs s !! p = None -> processAlive (sProcs s) host pid = false -> ValidString host = true -> 0 < pid < 2 ^ 63 ->
    step s (MkSys (sDisk s) (<[p := MkProcess host pid true]> (sProcs s)) (sWriters s) (sIssued s))
| step_die p pr :
    sProcs s !! p = Some pr ->
    step s (MkSys (sDisk s) (<[p := MkProcess (prHost pr) (prPid pr) false]> (sProcs s)) (sWriters s) (sIssued s))
| step_writer t p :
    sWriters s !! t = None -> runs s p ->
    step s (MkSys (sDisk s) (sProcs s) (<[t := (p, PIdle)]> (sWriters s)) (sIssued s))
| step_call t p pr c a c' d' :
    sWriters s !! t = Some (p, c) -> sProcs s !! p = Some pr -> prRuns pr = true ->
    next (prHost pr) (prPid pr) (processAlive (sProcs s) (prHost pr)) c a (sDisk s) = Some (c', d') ->
    (forall l, stamp pr c a = Some l -> forall p', (l, p') ∉ sIssued s) ->
    step s (MkSys d' (sProcs s) (<[t := (p, c')]> (sWriters s))
              (match stamp pr c a with Some l => (l, p) :: sIssued s | None => sIssued s end)).

Definition reachable (s : sys) : Prop := rtc step empty_sys s.

(** ** What a lock file is read as *)

Record lock_ok (l : LockInfo) : Prop := {
  lk_pid : 0 < liPID l < 2 ^ 63;
  lk_host : ValidString (liHost l) = true;
  lk_since : year_ok (liSince l) = true
}.

#[local] Opaque decode_member opt.

Lemma decode_lock l : lock_ok l -> decode_struct lock_fields (lock_json l) (MkLockInfo 0 [] 0) = Some l.
Proof.
  intros [Hp Hh Hs]. assert (Hp' : 0 <= liPID l < 2 ^ 63) by lia. destruct l as [pid host since].
  unfold lock_json, decode_struct. cbn [liPID liHost liSince] in *. rewrite !foldl_app. cbn [foldl].
  erewrite decode_member_field by reflexivity. cbv beta. rewrite decode_jnumber_int by done.
  cbn [mbind option_bind liPID liHost liSince].
  erewrite decode_opt_string; [|reflexivity|assumption|reflexivity|reflexivity]. cbn [liPID liHost liSince].
  erewrite decode_member_field by reflexivity. cbv beta. by rewrite decode_jtime.
Qed.

#[local] Transparent decode_member opt.

Lemma lock_writable d l : writable (S (S d)) (lock_json l).
Proof. constructor. members_writable; auto with mem. Qed.

Lemma parse_lock_text l : json_parse (lock_text l) = Some (lock_json l).
Proof. apply (json_parse_ws 2); [apply lock_writable|unfold maxNestingDepth; lia|by repeat constructor]. Qed.

Lemma lock_text_head l : exists s, lock_text l = "{"%char :: s.
Proof. unfold lock_text, lock_json. cbn [render]. unfold json_object. eexists. reflexivity. Qed.

Lemma lock_read_text l : lock_ok l -> lock_read (lock_text l) = Some l.
Proof.
  intros H. unfold lock_read. destruct (lock_text_head l) as [s E]. rewrite bool_decide_eq_false_2 by by rewrite E.
  rewrite parse_lock_text. cbn [mbind option_bind]. by apply decode_lock.
Qed.

(** A lock file being written: a beginning of its text. *)
Definition begins (d : bytes) (l : LockInfo) : Prop := (exists rest, d ++ rest = lock_text l) /\ (d = [] \/ lock_ok l).

(** It is read as its holder or not at all. *)
Lemma read_begins d l h : begins d l -> lock_read d = Some h -> h = l.
Proof.
  intros [ [rest E] Hd] H. unfold lock_read in H. case_bool_decide; [done|]. destruct Hd as [?|Hl]; [done|].
  destruct (json_parse d) as [v|] eqn:Ev; [|done]. cbn [mbind option_bind] in H.
  destruct d as [|c d]; [done|]. destruct (lock_text_head l) as [s Es].
  assert (c = "{"%char) as -> by (rewrite Es in E; by injection E).
  pose proof (parse_lock_text l) as Hj. rewrite <- E in Hj.
  destruct (json_parse_cut d rest _ v Ev Hj) as [-> _]. rewrite (decode_lock l Hl) in H. by injection H.
Qed.

(** ** The invariant *)

(** The lock file a writer made, with its identity once stamped. *)
Definition own (c : pc) : option (nat * option LockInfo) :=
  match c with
  | PStamp i => Some (i, None)
  | PWrite i l _ | PClose i l _ | PUndo i l | PHold i l | PRead (KRelease i l) _ | PDrop i l => Some (i, Some l)
  | _ => None
  end.

(** What is in it. *)
Definition content (c : pc) (d : bytes) : Prop :=
  match c with
  | PStamp _ => d = []
  | PWrite _ l rest => d ++ rest = lock_text l /\ lock_ok l
  | PClose _ l true | PHold _ l | PRead (KRelease _ l) _ | PDrop _ l => d = lock_text l /\ lock_ok l
  | PClose _ l false | PUndo _ l => begins d l
  | _ => True
  end.

(** The holder a writer takes for dead, the one whose claim it has, and the
    one whose lock it may yet remove. *)
Definition belief (c : pc) : option LockInfo :=
  match c with PLink h | PRead (KTakeover h) _ | PRemove h => Some h | _ => None end.
Definition claims (c : pc) : option LockInfo :=
  match c with PRead (KTakeover h) _ | PRemove h | PUnclaim h _ => Some h | _ => None end.
Definition taking (c : pc) : option LockInfo :=
  match c with PRead (KTakeover h) _ | PRemove h => Some h | _ => None end.

Definition reads (d : disk) (i : nat) (h : LockInfo) : Prop := exists x, dData d !! i = Some x /\ lock_read x = Some h.

(** How far the file the claim names has been looked at. *)
Definition looked (d : disk) (c : pc) (j : nat) : Prop :=
  match c with
  | PRead _ (RCheck i) | PRead _ (RData i) => i = j
  | PRemove h => reads d j h
  | _ => True
  end.

Abbreviation lock_of s := (dNames (sDisk s) !! lockName).

Record inv (s : sys) : Prop := {
  in_names n i : dNames (sDisk s) !! n = Some i -> is_Some (dData (sDisk s) !! i);
  in_wproc t p c : sWriters s !! t = Some (p, c) -> is_Some (sProcs s !! p);
  in_own t p c i o : sWriters s !! t = Some (p, c) -> own c = Some (i, o) ->
    exists d, dData (sDisk s) !! i = Some d /\ content c d;
  in_mine t p c i l : sWriters s !! t = Some (p, c) -> own c = Some (i, Some l) -> (l, p) ∈ sIssued s;
  in_inj t t' p p' c c' i o o' : sWriters s !! t = Some (p, c) -> sWriters s !! t' = Some (p', c') ->
    own c = Some (i, o) -> own c' = Some (i, o') -> t = t';
  in_lock t p c i o : sWriters s !! t = Some (p, c) -> runs s p -> own c = Some (i, o) -> lock_of s = Some i;
  in_data i h : reads (sDisk s) i h -> exists p, (h, p) ∈ sIssued s;
  in_unique l p p' : (l, p) ∈ sIssued s -> (l, p') ∈ sIssued s -> p = p';
  in_procs l p : (l, p) ∈ sIssued s -> exists pr, sProcs s !! p = Some pr /\ prHost pr = liHost l /\ prPid pr = liPID l;
  in_ok p pr : sProcs s !! p = Some pr -> ValidString (prHost pr) = true /\ 0 < prPid pr < 2 ^ 63;
  in_belief t p c h : sWriters s !! t = Some (p, c) -> belief c = Some h -> exists q, (h, q) ∈ sIssued s /\ ~ runs s q;
  in_claim t t' p p' c c' h h' : sWriters s !! t = Some (p, c) -> sWriters s !! t' = Some (p', c') ->
    claims c = Some h -> claims c' = Some h' -> claim h = claim h' -> t = t';
  in_named t p c h : sWriters s !! t = Some (p, c) -> claims c = Some h -> is_Some (dNames (sDisk s) !! claim h);
  in_taking t p c h : sWriters s !! t = Some (p, c) -> runs s p -> taking c = Some h ->
    exists j, dNames (sDisk s) !! claim h = Some j /\ looked (sDisk s) c j
      /\ (reads (sDisk s) j h -> lock_of s = Some j)
}.

Lemma empty_inv : inv empty_sys.
Proof. split; cbn; intros; try (by set_solver); destruct H as (? & ? & ?); set_solver. Qed.

(** The file of a writer is read as the writer or not at all. *)
Lemma content_begins c d i l : own c = Some (i, Some l) -> content c d -> begins d l.
Proof.
  assert (Hw : d = lock_text l /\ lock_ok l -> begins d l).
  { intros [E Hl]. split; [exists []; by rewrite app_nil_r|by right]. }
  destruct c as [| | |i' l' rest|i' l' ok|i' l'|i' l'|r a| | | |i' l'|]; try done; try (destruct r; try done);
    intros [= -> ->]; try exact Hw; cbn [content].
  - intros [E Hl]. split; [by exists rest|by right].
  - destruct ok; [exact Hw|done].
  - done.
Qed.

Lemma content_reads c d i o h : own c = Some (i, o) -> content c d -> lock_read d = Some h -> o = Some h.
Proof.
  intros Ho Hc Hr. destruct o as [l|].
  - by rewrite (read_begins d l h (content_begins c d i l Ho Hc) Hr).
  - destruct c as [| | | | | | |r a| | | | |]; try done; [|by destruct r]. cbn in Hc. by subst.
Qed.

(** A call of writer [t]. *)
Definition call (s : sys) (t p : nat) (c : pc) (d : disk) (issued : list (LockInfo * nat)) : sys :=
  MkSys d (sProcs s) (<[t := (p, c)]> (sWriters s)) issued.

(** The other writers, and the one that calls. *)
Ltac writers :=
  repeat match goal with
  | H : sWriters (call _ _ _ _ _ _) !! _ = Some _ |- _ => cbn [call sWriters] in H; apply lookup_insert_Some in H as [ [<- [= <- <-] ]|[? H] ]
  end; cbn [call sDisk sProcs sIssued] in *.

Section Calls.
Context (s : sys) (t p : nat) (c c' : pc) (Hi : inv s) (Hc : sWriters s !! t = Some (p, c)) (Hp : runs s p).

(** The file another running writer has is not read as a holder thought
    dead, so that what it names is nobody's. *)
Lemma taken_not_owned u q cu i o t2 p2 c2 h :
  sWriters s !! u = Some (q, cu) -> runs s q -> own cu = Some (i, o) ->
  sWriters s !! t2 = Some (p2, c2) -> belief c2 = Some h -> ~ reads (sDisk s) i h.
Proof using Hi.
  intros Hu Hq Ho H2 Hb (x & Hx & Hr). destruct (in_own s Hi u q cu i o Hu Ho) as (d & Hd & Hcd).
  assert (x = d) as -> by congruence. rewrite (content_reads cu d i o h Ho Hcd Hr) in Ho.
  pose proof (in_mine s Hi u q cu i h Hu Ho) as Hin. destruct (in_belief s Hi t2 p2 c2 h H2 Hb) as (q' & Hin' & Hn).
  by rewrite (in_unique s Hi h q' q Hin' Hin) in Hn.
Qed.

(** A call that changes nothing but where the writer is. *)
Lemma inv_move :
  (own c' = None \/ own c' = own c /\ forall d, content c d -> content c' d) ->
  (forall h, belief c' = Some h -> belief c = Some h \/ exists q, (h, q) ∈ sIssued s /\ ~ runs s q) ->
  (claims c' = None \/ claims c' = claims c) ->
  (forall h j, taking c' = Some h -> taking c = Some h
     /\ (dNames (sDisk s) !! claim h = Some j -> looked (sDisk s) c j -> looked (sDisk s) c' j)) ->
  inv (call s t p c' (sDisk s) (sIssued s)).
Proof using Hi Hc Hp.
  intros Ho Hb Hcl Ht. split.
  - apply Hi.
  - intros u q cu Hu. writers; [by eapply (in_wproc s Hi)|by eapply (in_wproc s Hi)].
  - intros u q cu i o Hu Hou. writers; [|by eapply (in_own s Hi)]. destruct Ho as [Ho|[Ho Hd] ]; [congruence|].
    rewrite Ho in Hou. destruct (in_own s Hi _ _ _ _ _ Hc Hou) as (d & H1 & H2). eauto.
  - intros u q cu i l Hu Hou. writers; [|by eapply (in_mine s Hi)]. destruct Ho as [Ho|[Ho _] ]; [congruence|].
    rewrite Ho in Hou. by eapply (in_mine s Hi).
  - intros u u' q q' cu cu' i o o' Hu Hu' Hou Hou'. destruct Ho as [Ho|[Ho _] ]; writers; try congruence;
      try (rewrite Ho in *); by eapply (in_inj s Hi).
  - intros u q cu i o Hu Hq Hou. writers; [|by eapply (in_lock s Hi)]. destruct Ho as [Ho|[Ho _] ]; [congruence|].
    rewrite Ho in Hou. by eapply (in_lock s Hi).
  - apply Hi.
  - apply Hi.
  - apply Hi.
  - apply Hi.
  - intros u q cu h Hu Hbu. writers; [|by eapply (in_belief s Hi)]. destruct (Hb h Hbu) as [H|H]; [by eapply (in_belief s Hi)|done].
  - intros u u' q q' cu cu' h h' Hu Hu' Hou Hou' E. destruct Hcl as [Hcl|Hcl]; writers; try congruence;
      try (rewrite Hcl in *); by eapply (in_claim s Hi).
  - intros u q cu h Hu Hcu. writers; [|by eapply (in_named s Hi)]. destruct Hcl as [Hcl|Hcl]; [congruence|].
    rewrite Hcl in Hcu. by eapply (in_named s Hi).
  - intros u q cu h Hu Hq Htu. writers; [|by eapply (in_taking s Hi)].
    destruct (in_taking s Hi t p c h Hc Hp) as (j & H1 & H2 & H3); [by apply (Ht h O)|].
    exists j. split_and!; [done| |done]. by apply (Ht h j).
Qed.

(** The lock is free: no running writer has it, and none is taking one over
    that could be read as the dead holder. *)
Lemma inv_create :
  lock_of s = None -> c = PCreate ->
  let i := fresh (dom (dData (sDisk s))) in
  inv (call s t p (PStamp i) (named lockName (Some i) (MkDisk (dNames (sDisk s)) (<[i := []]> (dData (sDisk s))))) (sIssued s)).
Proof using Hi Hc Hp.
  intros Hl -> i. assert (Hf : dData (sDisk s) !! i = None) by apply not_elem_of_dom, is_fresh.
  assert (Hne : forall u q cu j o, sWriters s !! u = Some (q, cu) -> own cu = Some (j, o) -> i <> j).
  { intros u q cu j o Hu Ho <-. destruct (in_own s Hi _ _ _ _ _ Hu Ho) as (d & Hd & _). congruence. }
  assert (Hnn : forall n j, dNames (sDisk s) !! n = Some j -> i <> j).
  { intros n j Hn <-. destruct (in_names s Hi n i Hn). congruence. }
  assert (Hcn : forall h, claim h <> lockName) by (intros h [=]).
  split; cbn [call sDisk sProcs sIssued named dNames dData]; try apply Hi.
  - intros n j [ [_ <-]|[_ Hj] ]%lookup_insert_Some; [rewrite lookup_insert_eq; eauto|].
    rewrite lookup_insert_ne by by eapply Hnn. by eapply (in_names s Hi).
  - intros u q cu Hu. writers; by eapply (in_wproc s Hi).
  - intros u q cu j o Hu Ho. writers; [injection Ho as <- <-; exists []; by rewrite lookup_insert_eq|].
    rewrite lookup_insert_ne by by eapply Hne. by eapply (in_own s Hi).
  - intros u q cu j l Hu Ho. writers; [done|by eapply (in_mine s Hi)].
  - intros u u' q q' cu cu' j o o' Hu Hu' Ho Ho'. writers; [done|..|by eapply (in_inj s Hi)].
    + injection Ho' as <- <-. by destruct (Hne _ _ _ _ _ Hu Ho).
    + injection Ho as <- <-. by destruct (Hne _ _ _ _ _ Hu' Ho').
  - intros u q cu j o Hu Hq Ho. writers; [injection Ho as <- <-; by rewrite lookup_insert_eq|].
    pose proof (in_lock s Hi _ _ _ _ _ Hu Hq Ho). congruence.
  - intros j h (x & Hx & Hr). cbn in Hx. apply lookup_insert_Some in Hx as [ [_ <-]|[_ Hx] ]; [done|].
    apply (in_data s Hi j h). by exists x.
  - intros u q cu h Hu Hb. writers; [done|by eapply (in_belief s Hi)].
  - intros u u' q q' cu cu' h h' Hu Hu' Hcu Hcu' E. writers; try done. by eapply (in_claim s Hi).
  - intros u q cu h Hu Hcu. writers; [done|]. rewrite lookup_insert_ne by done. by eapply (in_named s Hi).
  - intros u q cu h Hu Hq Htu. writers; [done|]. destruct (in_taking s Hi u q cu h Hu Hq Htu) as (j & H1 & H2 & H3).
    pose proof (Hnn _ _ H1) as Hij. exists j. rewrite lookup_insert_ne by done. split; [done|].
    assert (Hr : forall h, reads (MkDisk (<[lockName := i]> (dNames (sDisk s))) (<[i := []]> (dData (sDisk s)))) j h <-> reads (sDisk s) j h).
    { intros h'. unfold reads. cbn. by rewrite lookup_insert_ne. }
    split; [|rewrite Hr; intros Hj; by rewrite H3 in Hl].
    destruct cu as [| | | | | | |r [] | | | | |]; try done. cbn [looked] in *. by apply Hr.
Qed.

Lemma inv_stamp i l d :
  c = PStamp i -> own c' = Some (i, Some l) -> belief c' = None -> claims c' = None -> taking c' = None ->
  dData (sDisk s) !! i = Some d -> content c' d ->
  (forall q, (l, q) ∉ sIssued s) ->
  (exists pr, sProcs s !! p = Some pr /\ prHost pr = liHost l /\ prPid pr = liPID l) ->
  inv (call s t p c' (sDisk s) ((l, p) :: sIssued s)).
Proof using Hi Hc Hp.
  intros Ec Ho Hb Hcl Ht Hd Hcd Hnew Hpr. assert (Hown : own c = Some (i, None)) by by rewrite Ec.
  split; cbn [call sDisk sProcs sIssued]; try apply Hi.
  - intros u q cu Hu. writers; by eapply (in_wproc s Hi).
  - intros u q cu j o Hu Hou. writers; [|by eapply (in_own s Hi)]. rewrite Ho in Hou. injection Hou as <- <-. eauto.
  - intros u q cu j l' Hu Hou. apply elem_of_cons. writers; [left; rewrite Ho in Hou; by injection Hou as <- <-|right].
    by eapply (in_mine s Hi).
  - intros u u' q q' cu cu' j o o' Hu Hu' Hou Hou'. writers; [done|..|by eapply (in_inj s Hi)].
    all: rewrite Ho in *; simplify_eq; by eapply (in_inj s Hi).
  - intros u q cu j o Hu Hq Hou. writers; [|by eapply (in_lock s Hi)]. rewrite Ho in Hou. injection Hou as <- <-.
    by eapply (in_lock s Hi).
  - intros j h Hr. destruct (in_data s Hi j h Hr) as [q Hq]. exists q. apply elem_of_cons. by right.
  - intros l' q q' H1 H2. apply elem_of_cons in H1 as [E1|H1], H2 as [E2|H2]; simplify_eq; try done;
      [by destruct (Hnew q')|by destruct (Hnew q)|by eapply (in_unique s Hi)].
  - intros l' q H1. apply elem_of_cons in H1 as [E1|H1]; [by simplify_eq|by apply (in_procs s Hi)].
  - intros u q cu h Hu Hbu. writers; [congruence|]. destruct (in_belief s Hi u q cu h Hu Hbu) as (q' & H1 & H2).
    exists q'. split; [|done]. apply elem_of_cons. by right.
  - intros u u' q q' cu cu' h h' Hu Hu' Hcu Hcu' E. writers; try congruence. by eapply (in_claim s Hi).
  - intros u q cu h Hu Hcu. writers; [congruence|]. by eapply (in_named s Hi).
  - intros u q cu h Hu Hq Htu. writers; [congruence|]. by eapply (in_taking s Hi).
Qed.

(** A write to the writer's own file. *)
Lemma inv_write i l d d' :
  own c = Some (i, Some l) -> own c' = own c -> belief c' = None -> claims c' = None -> taking c' = None ->
  dData (sDisk s) !! i = Some d -> content c' d' ->
  inv (call s t p c' (MkDisk (dNames (sDisk s)) (<[i := d']> (dData (sDisk s)))) (sIssued s)).
Proof using Hi Hc Hp.
  intros Hown Ho Hb Hcl Ht Hd Hcd. set (disk' := MkDisk _ _).
  assert (Hrd : forall j h, reads disk' j h -> reads (sDisk s) j h \/ j = i /\ h = l).
  { intros j h (x & Hx & Hr). cbn in Hx. apply lookup_insert_Some in Hx as [ [<- <-]|[_ Hx] ]; [right|left; by exists x]. split; [done|].
    rewrite <- Ho in Hown. pose proof (content_reads c' d' i _ h Hown Hcd Hr). congruence. }
  assert (Hin : (l, p) ∈ sIssued s) by by eapply (in_mine s Hi).
  split; cbn [call sDisk sProcs sIssued disk' dNames dData]; try apply Hi.
  - intros n j Hn. destruct (in_names s Hi n j Hn) as [x Hx]. destruct (decide (i = j)) as [<-|];
      [rewrite lookup_insert_eq; eauto|by rewrite lookup_insert_ne].
  - intros u q cu Hu. writers; by eapply (in_wproc s Hi).
  - intros u q cu j o Hu Hou. writers.
    + rewrite Ho, Hown in Hou. injection Hou as <- <-. exists d'. by rewrite lookup_insert_eq.
    + rewrite lookup_insert_ne; [by eapply (in_own s Hi)|]. intros <-.
      by pose proof (in_inj s Hi _ _ _ _ _ _ _ _ _ Hc Hu Hown Hou).
  - intros u q cu j l' Hu Hou. writers; [|by eapply (in_mine s Hi)]. rewrite Ho in Hou. by eapply (in_mine s Hi).
  - intros u u' q q' cu cu' j o o' Hu Hu' Hou Hou'. writers; [done|..|by eapply (in_inj s Hi)].
    all: rewrite Ho in *; by eapply (in_inj s Hi).
  - intros u q cu j o Hu Hq Hou. writers; [|by eapply (in_lock s Hi)]. rewrite Ho in Hou. by eapply (in_lock s Hi).
  - intros j h Hr. destruct (Hrd j h Hr) as [H|[_ ->] ]; [by eapply (in_data s Hi)|eauto].
  - intros u q cu h Hu Hbu. writers; [congruence|by eapply (in_belief s Hi)].
  - intros u u' q q' cu cu' h h' Hu Hu' Hcu Hcu' E. writers; try congruence. by eapply (in_claim s Hi).
  - intros u q cu h Hu Hcu. writers; [congruence|]. by eapply (in_named s Hi).
  - intros u q cu h Hu Hq Htu. writers; [congruence|]. destruct (in_taking s Hi u q cu h Hu Hq Htu) as (j & H1 & H2 & H3).
    exists j. split_and!; [done| |].
    + destruct cu as [| | | | | | |r [] |h'|h'| | |]; try done. cbn [looked] in *. injection Htu as ->.
      destruct (decide (i = j)) as [<-|Hne].
      * by destruct (taken_not_owned t p c i _ u q (PRemove h) h Hc Hp Hown Hu eq_refl).
      * destruct H2 as (x & Hx & Hr). exists x. cbn. by rewrite lookup_insert_ne.
    + intros Hr. destruct (Hrd j h Hr) as [Hj|[-> ->] ]; [by apply H3|].
      assert (Hbu : belief cu = Some l) by by destruct cu as [| | | | | | |r a|h'|h'| | |].
      destruct (in_belief s Hi u q cu l Hu Hbu) as (q' & H4 & H5). by rewrite (in_unique s Hi l q' p H4 Hin) in H5.
Qed.

(** The lock removed, when no running writer but [t] has it, and no running
    taker counts on it. *)
Lemma inv_unlock :
  own c' = None -> belief c' = None -> taking c' = None -> (claims c' = None \/ claims c' = claims c) ->
  (forall u q cu i o, sWriters s !! u = Some (q, cu) -> runs s q -> own cu = Some (i, o) -> u = t) ->
  (forall u q cu h j, sWriters s !! u = Some (q, cu) -> runs s q -> taking cu = Some h -> lock_of s = Some j ->
     reads (sDisk s) j h -> u = t) ->
  inv (call s t p c' (named lockName None (sDisk s)) (sIssued s)).
Proof using Hi Hc Hp.
  intros Ho Hb Ht Hcl Honly Htaker. assert (Hcn : forall h, claim h <> lockName) by (intros h [=]).
  assert (Hcn' : forall h, lockName <> claim h) by (intros h [=]).
  split; cbn [call sDisk sProcs sIssued named dNames dData]; try apply Hi.
  - intros n i [_ Hn]%lookup_delete_Some. by eapply (in_names s Hi).
  - intros u q cu Hu. writers; by eapply (in_wproc s Hi).
  - intros u q cu i o Hu Hou. writers; [congruence|by eapply (in_own s Hi)].
  - intros u q cu i l Hu Hou. writers; [congruence|by eapply (in_mine s Hi)].
  - intros u u' q q' cu cu' i o o' Hu Hu' Hou Hou'. writers; try congruence. by eapply (in_inj s Hi).
  - intros u q cu i o Hu Hq Hou. writers; [congruence|]. by destruct (Honly _ _ _ _ _ Hu Hq Hou).
  - intros u q cu h Hu Hbu. writers; [congruence|by eapply (in_belief s Hi)].
  - intros u u' q q' cu cu' h h' Hu Hu' Hcu Hcu' E. destruct Hcl as [Hcl|Hcl]; writers; try congruence;
      try (rewrite Hcl in *); by eapply (in_claim s Hi).
  - intros u q cu h Hu Hcu. rewrite lookup_delete_ne by done. destruct Hcl as [Hcl|Hcl]; writers; try congruence;
      try (rewrite Hcl in *); by eapply (in_named s Hi).
  - intros u q cu h Hu Hq Htu. writers; [congruence|]. destruct (in_taking s Hi u q cu h Hu Hq Htu) as (j & H1 & H2 & H3).
    exists j. rewrite lookup_delete_ne by done. split_and!; [done|done|]. intros Hr.
    by destruct (Htaker _ _ _ _ _ Hu Hq Htu (H3 Hr) Hr).
Qed.

(** The lock claimed. *)
Lemma inv_link h i :
  c = PLink h -> lock_of s = Some i -> dNames (sDisk s) !! claim h = None ->
  inv (call s t p (PRead (KTakeover h) RLstat) (named (claim h) (Some i) (sDisk s)) (sIssued s)).
Proof using Hi Hc Hp.
  intros Ec Hl Hn. assert (Hcn : forall h, claim h <> lockName) by (intros h' [=]).
  assert (Hne : forall u q cu h', sWriters s !! u = Some (q, cu) -> claims cu = Some h' -> claim h <> claim h').
  { intros u q cu h' Hu Hcu E. destruct (in_named s Hi u q cu h' Hu Hcu) as [j Hj]. rewrite <- E in Hj. congruence. }
  split; cbn [call sDisk sProcs sIssued named dNames dData]; try apply Hi.
  - intros n j [ [_ <-]|[_ Hj] ]%lookup_insert_Some; by eapply (in_names s Hi).
  - intros u q cu Hu. writers; by eapply (in_wproc s Hi).
  - intros u q cu j o Hu Hou. writers; [done|by eapply (in_own s Hi)].
  - intros u q cu j l Hu Hou. writers; [done|by eapply (in_mine s Hi)].
  - intros u u' q q' cu cu' j o o' Hu Hu' Hou Hou'. writers; try done. by eapply (in_inj s Hi).
  - intros u q cu j o Hu Hq Hou. rewrite lookup_insert_ne by done. writers; [done|]. by eapply (in_lock s Hi).
  - intros u q cu h' Hu Hbu. writers; [|by eapply (in_belief s Hi)]. injection Hbu as <-.
    apply (in_belief s Hi t p c h Hc). by rewrite Ec.
  - intros u u' q q' cu cu' h1 h2 Hu Hu' Hcu Hcu' E. writers; [done|..|by eapply (in_claim s Hi)].
    + injection Hcu' as <-. by destruct (Hne _ _ _ _ Hu Hcu).
    + injection Hcu as <-. by destruct (Hne _ _ _ _ Hu' Hcu').
  - intros u q cu h' Hu Hcu. writers; [injection Hcu as <-; rewrite lookup_insert_eq; eauto|].
    rewrite lookup_insert_ne by by eapply Hne. by eapply (in_named s Hi).
  - intros u q cu h' Hu Hq Htu. rewrite lookup_insert_ne with (i := claim h) (j := lockName) by done. writers.
    + injection Htu as <-. exists i. rewrite lookup_insert_eq. by split_and!.
    + assert (Hcu : claims cu = Some h') by by destruct cu as [| | | | | | |r a|h1|h1| | |].
      rewrite lookup_insert_ne by by eapply Hne. by eapply (in_taking s Hi).
Qed.

(** A claim let go. *)
Lemma inv_unclaim h :
  claims c = Some h -> own c' = None -> belief c' = None -> claims c' = None -> taking c' = None ->
  inv (call s t p c' (named (claim h) None (sDisk s)) (sIssued s)).
Proof using Hi Hc Hp.
  intros Hcl Ho Hb Hcl' Ht. assert (Hcn : forall h, claim h <> lockName) by (intros h' [=]).
  assert (Hne : forall u q cu h', u <> t -> sWriters s !! u = Some (q, cu) -> claims cu = Some h' -> claim h <> claim h').
  { intros u q cu h' Hut Hu Hcu E. by pose proof (in_claim s Hi _ _ _ _ _ _ _ _ Hc Hu Hcl Hcu E). }
  split; cbn [call sDisk sProcs sIssued named dNames dData]; try apply Hi.
  - intros n j [_ Hn]%lookup_delete_Some. by eapply (in_names s Hi).
  - intros u q cu Hu. writers; by eapply (in_wproc s Hi).
  - intros u q cu j o Hu Hou. writers; [congruence|by eapply (in_own s Hi)].
  - intros u q cu j l Hu Hou. writers; [congruence|by eapply (in_mine s Hi)].
  - intros u u' q q' cu cu' j o o' Hu Hu' Hou Hou'. writers; try congruence. by eapply (in_inj s Hi).
  - intros u q cu j o Hu Hq Hou. rewrite lookup_delete_ne by done. writers; [congruence|]. by eapply (in_lock s Hi).
  - intros u q cu h' Hu Hbu. writers; [congruence|by eapply (in_belief s Hi)].
  - intros u u' q q' cu cu' h1 h2 Hu Hu' Hcu Hcu' E. writers; try congruence. by eapply (in_claim s Hi).
  - intros u q cu h' Hu Hcu. writers; [congruence|]. rewrite lookup_delete_ne by by eapply Hne. by eapply (in_named s Hi).
  - intros u q cu h' Hu Hq Htu. rewrite lookup_delete_ne with (i := claim h) (j := lockName) by done. writers; [congruence|].
    assert (Hcu : claims cu = Some h') by by destruct cu as [| | | | | | |r a|h1|h1| | |].
    rewrite lookup_delete_ne by by eapply Hne. by eapply (in_taking s Hi).
Qed.
End Calls.

Lemma same_spec l o : same l o = true <-> l = o.
Proof.
  unfold same. split.
  - intros H. bool_hyps. destruct l, o. cbn in *. by simplify_eq.
  - intros ->. by rewrite !Z.eqb_refl, bool_decide_eq_true_2.
Qed.

Lemma processAlive_runs s p pr :
  sProcs s !! p = Some pr -> prRuns pr = true -> processAlive (sProcs s) (prHost pr) (prPid pr) = true.
Proof.
  intros Hp Hr. apply existsb_exists. exists (p, pr). split.
  - by apply list_elem_of_In, elem_of_map_to_list.
  - cbn. by rewrite Hr, bool_decide_eq_true_2, Z.eqb_refl.
Qed.

(** A stale holder's process runs no more, and never will. *)
Lemma stale_dead s host h q :
  inv s -> stale host (processAlive (sProcs s) host) h = true -> (h, q) ∈ sIssued s -> ~ runs s q.
Proof.
  intros Hi Hst Hin (pr & Hpr & Hr). destruct (in_procs s Hi h q Hin) as (pr' & Hpr' & Hh & Hpid).
  assert (pr' = pr) as -> by congruence. pose proof (processAlive_runs s q pr Hpr Hr) as Ha.
  unfold stale in Hst. destruct (bool_decide (liHost h = [])); [done|]. cbn [orb] in Hst.
  destruct (bool_decide_reflect (liHost h = host)) as [E|]; [|done]. cbn [negb orb] in Hst.
  rewrite <- E, <- Hh, <- Hpid, Ha in Hst. by destruct (prPid pr <=? 0).
Qed.

Section Call.
Context (s : sys) (t p : nat) (pr : process) (Hi : inv s) (Hpr : sProcs s !! p = Some pr) (Hr : prRuns pr = true).

Abbreviation next_of := (next (prHost pr) (prPid pr) (processAlive (sProcs s) (prHost pr))).
Abbreviation read_done_of := (read_done (prHost pr) (processAlive (sProcs s) (prHost pr))).

Lemma runs_p : runs s p.
Proof using Hpr Hr. by exists pr. Qed.

(** The end of a read, of which a holder found is what the file holds. *)
Lemma inv_read_done r at_ f :
  sWriters s !! t = Some (p, PRead r at_) ->
  (forall h, f = Found h -> exists i, at_ = RData i /\ reads (sDisk s) i h) ->
  inv (call s t p (read_done_of r f) (sDisk s) (sIssued s)).
Proof using Hi Hpr Hr.
  intros Hc Hf. pose proof runs_p as Hp. destruct r as [|h|i mine].
  - assert (Hno : forall c', own c' = None -> belief c' = None -> claims c' = None -> taking c' = None ->
      inv (call s t p c' (sDisk s) (sIssued s))).
    { intros c' H1 H2 H3 H4. apply (inv_move s t p (PRead KAcquire at_)); try done; try (by left); intros; congruence. }
    destruct f as [| |h]; cbn [read_done acquire_found takeover_found release_found]; try (by apply Hno).
    destruct (stale _ _ h) eqn:Est; [|by apply Hno]. destruct (Hf h eq_refl) as (i & -> & Hrd).
    apply (inv_move s t p (PRead KAcquire (RData i))); try done; try (by left).
    intros h' [= <-]. right. destruct (in_data s Hi i h Hrd) as [q Hq]. exists q. split; [done|]. by eapply stale_dead.
  - assert (Hun : inv (call s t p (PUnclaim h (Some false)) (sDisk s) (sIssued s))).
    { apply (inv_move s t p (PRead (KTakeover h) at_)); try done; [by left|by right]. }
    destruct f as [| |h']; try exact Hun. cbn [read_done acquire_found takeover_found release_found]. destruct (same h' h) eqn:Es; [|exact Hun].
    apply same_spec in Es as ->. destruct (Hf h eq_refl) as (i & -> & Hrd).
    apply (inv_move s t p (PRead (KTakeover h) (RData i))); try done; [by left|auto|by right|].
    intros h' j [= <-]. split; [done|]. intros _ E. cbn in E. by subst.
  - assert (Hno : inv (call s t p PIdle (sDisk s) (sIssued s))).
    { apply (inv_move s t p (PRead (KRelease i mine) at_)); try done; by left. }
    destruct f as [| |h']; try exact Hno. cbn [read_done acquire_found takeover_found release_found]. destruct (same h' mine) eqn:Es; [|exact Hno].
    apply (inv_move s t p (PRead (KRelease i mine) at_)); try done; [by right|by left].
Qed.

(** On to the next call of a read. *)
Lemma inv_read_on r at_ at' :
  sWriters s !! t = Some (p, PRead r at_) ->
  (forall j, dNames (sDisk s) !! read_name r = Some j -> looked (sDisk s) (PRead r at_) j -> looked (sDisk s) (PRead r at') j) ->
  inv (call s t p (PRead r at') (sDisk s) (sIssued s)).
Proof using Hi Hpr Hr.
  intros Hc Hl. apply (inv_move s t p (PRead r at_)); try done; [apply runs_p|..].
  - right. by destruct r.
  - intros h Hh. left. by destruct r.
  - right. by destruct r.
  - intros h j Hh. destruct r as [|h'|]; try done. injection Hh as ->. split; [done|]. apply Hl.
Qed.

Lemma inv_read r at_ a c' :
  sWriters s !! t = Some (p, PRead r at_) ->
  read_step (prHost pr) (processAlive (sProcs s) (prHost pr)) r at_ a (sDisk s) = Some c' ->
  inv (call s t p c' (sDisk s) (sIssued s)).
Proof using Hi Hpr Hr.
  intros Hc. unfold read_step. destruct at_ as [| |i|i], a; try done; intros [= <-]; try (by eapply inv_read_done).
  - destruct (dNames (sDisk s) !! read_name r); [by eapply inv_read_on|by eapply inv_read_done].
  - destruct (dNames (sDisk s) !! read_name r) as [i|] eqn:E; [|by eapply inv_read_done].
    eapply inv_read_on; [done|]. intros j Hj _. cbn. congruence.
  - case_bool_decide; [|by eapply inv_read_done]. eapply inv_read_on; [done|]. intros j _ E. exact E.
  - eapply inv_read_done; [done|]. intros h Hf. exists i. split; [done|]. unfold reads.
    destruct (dData (sDisk s) !! i) as [x|]; [|done]. cbn [mbind option_bind] in Hf. exists x. split; [done|].
    destruct (lock_read x); by simplify_eq.
Qed.

(** Injection without computing. *)
Lemma Some_pair_inj {A B} (x x' : A) (y y' : B) : Some (x, y) = Some (x', y') -> x = x' /\ y = y'.
Proof using. by intros [= -> ->]. Qed.

(** The owner lets its lock go: it is no one else's, and no claim is. *)
Lemma inv_release c i l :
  sWriters s !! t = Some (p, c) -> own c = Some (i, Some l) ->
  inv (call s t p PIdle (named lockName None (sDisk s)) (sIssued s)).
Proof using Hi Hpr Hr.
  intros Hc Ho. pose proof runs_p as Hp. pose proof (in_lock s Hi _ _ _ _ _ Hc Hp Ho) as Hl.
  apply (inv_unlock s t p c); try done; [by left| |].
  - intros u q cu j o Hu Hq Hou. pose proof (in_lock s Hi _ _ _ _ _ Hu Hq Hou) as Hj.
    assert (j = i) as -> by congruence. by eapply (in_inj s Hi).
  - intros u q cu h j Hu Hq Ht Hj Hrd. assert (j = i) as -> by congruence.
    assert (Hb : belief cu = Some h) by by destruct cu as [| | | | | | |r a|h1|h1| | |].
    by destruct (taken_not_owned s Hi t p c i _ u q cu h Hc Hp Ho Hu Hb).
Qed.

(** The taker removes the dead holder's lock. *)
Lemma inv_take h :
  sWriters s !! t = Some (p, PRemove h) ->
  inv (call s t p (PUnclaim h (Some true)) (named lockName None (sDisk s)) (sIssued s)).
Proof using Hi Hpr Hr.
  intros Hc. pose proof runs_p as Hp. destruct (in_taking s Hi t p _ h Hc Hp eq_refl) as (j & _ & Hrd & Hl).
  specialize (Hl Hrd). apply (inv_unlock s t p (PRemove h)); try done; [by right| |].
  - intros u q cu i o Hu Hq Hou. pose proof (in_lock s Hi _ _ _ _ _ Hu Hq Hou) as Hj.
    assert (i = j) as -> by congruence. by destruct (taken_not_owned s Hi u q cu j o t p (PRemove h) h Hu Hq Hou Hc eq_refl).
  - intros u q cu h' i Hu Hq Ht Hj Hrd'. assert (i = j) as -> by congruence.
    assert (h' = h) as -> by (destruct Hrd as (x & ? & ?), Hrd' as (x' & ? & ?); congruence).
    assert (Hcl : claims cu = Some h) by by destruct cu as [| | | | | | |r a|h1|h1| | |].
    by eapply (in_claim s Hi u t q p cu (PRemove h) h h).
Qed.

Lemma inv_next c a c' d' :
  sWriters s !! t = Some (p, c) -> next_of c a (sDisk s) = Some (c', d') ->
  (forall l, stamp pr c a = Some l -> forall q, (l, q) ∉ sIssued s) ->
  inv (call s t p c' d' (match stamp pr c a with Some l => (l, p) :: sIssued s | None => sIssued s end)).
Proof using Hi Hpr Hr.
  intros Hc Hn Hs. pose proof runs_p as Hp. destruct (in_ok s Hi p pr Hpr) as [Hh Hpid].
  assert (Hfree : forall c1, own c1 = None -> belief c1 = None -> claims c1 = None -> taking c1 = None ->
    inv (call s t p c1 (sDisk s) (sIssued s))).
  { intros c1 H1 H2 H3 H4. apply (inv_move s t p c); try done; try (by left); intros; congruence. }
  destruct c as [| |i|i l rest|i l ok|i l|i l|r at_|h|h|h g|i l|]; cbn [stamp] in *.
  - destruct a; try done. injection Hn as <- <-. by apply Hfree.
  - destruct a; try done; cbn [next create_next takeover_next] in Hn; [|injection Hn as <- <-; by apply Hfree].
    destruct (lock_of s) eqn:El; injection Hn as <- <-; [by apply Hfree|]. by apply (inv_create s t p PCreate).
  - destruct a as [| | |tm]; try done. cbn [next create_next takeover_next] in Hn. apply Some_pair_inj in Hn as [<- <-]. set (l := MkLockInfo (prPid pr) (prHost pr) tm) in *.
    destruct (in_own s Hi t p _ i None Hc eq_refl) as (d & Hd & ->).
    apply (inv_stamp s t p (PStamp i) _ Hi Hc Hp i l []); try (by destruct (year_ok tm)); auto; [|by exists pr].
    destruct (year_ok tm) eqn:Ey; cbn [content]; [split; [done|split; [exact Hpid|exact Hh|exact Ey] ]|].
    split; [by exists (lock_text l)|by left].
  - destruct a as [| |n|]; try done.
    + injection Hn as <- <-. apply (inv_move s t p (PWrite i l rest)); try done; try (by left).
      right. split; [done|]. intros d [E Hl]. split; [by exists rest|by right].
    + destruct (in_own s Hi t p _ i _ Hc eq_refl) as (d & Hd & E & Hl). cbn [next create_next takeover_next] in Hn. rewrite Hd in Hn.
      apply Some_pair_inj in Hn as [<- <-]. apply (inv_write s t p (PWrite i l rest) _ Hi Hc Hp i l d); try done; try (by case_bool_decide).
      pose proof (take_drop n rest) as Etd.
      case_bool_decide as En; cbn [content]; (split; [rewrite <- E|done]).
      * f_equal. by rewrite En, app_nil_r in Etd.
      * by rewrite <- app_assoc, Etd.
  - assert (Hu : inv (call s t p (PUndo i l) (sDisk s) (sIssued s))).
    { apply (inv_move s t p (PClose i l ok)); try done; try (by left). right. split; [done|]. intros d Hd.
      by apply (content_begins (PClose i l ok) d i l). }
    destruct a; try done; injection Hn as <- <-; [|done]. destruct ok; [|done].
    apply (inv_move s t p (PClose i l true)); try done; try (by left). by right.
  - destruct a; try done; injection Hn as <- <-; [by eapply inv_release|by apply Hfree].
  - destruct a; try done. injection Hn as <- <-. apply (inv_move s t p (PHold i l)); try done; try (by left). by right.
  - cbn [next create_next takeover_next] in Hn. destruct (read_step _ _ r at_ a (sDisk s)) as [c1|] eqn:E; [|done]. injection Hn as <- <-.
    by eapply inv_read.
  - destruct a; try done; cbn [next create_next takeover_next] in Hn; [|injection Hn as <- <-; by apply Hfree].
    destruct (lock_of s) as [i|] eqn:El; [|injection Hn as <- <-; by apply Hfree].
    destruct (dNames (sDisk s) !! claim h) eqn:Ec; injection Hn as <- <-; [by apply Hfree|].
    by apply (inv_link s t p (PLink h)).
  - destruct a; try done; injection Hn as <- <-; [by apply inv_take|].
    apply (inv_move s t p (PRemove h)); try done; [by left|by right].
  - assert (Hg : forall c1, c1 = match g with Some true => PCreate | Some false => PWait | None => PIdle end ->
      own c1 = None /\ belief c1 = None /\ claims c1 = None /\ taking c1 = None) by (intros c1 ->; by destruct g as [ [] |]).
    destruct a; try done; injection Hn as <- <-; destruct (Hg _ eq_refl) as (H1 & H2 & H3 & H4); [|by apply Hfree].
    by apply (inv_unclaim s t p (PUnclaim h g)).
  - destruct a; try done; injection Hn as <- <-; [by eapply inv_release|by apply Hfree].
  - destruct a; try done; injection Hn as <- <-; by apply Hfree.
Qed.
End Call.

(** Processes that start and die: what ran and still does is the same. *)
Lemma inv_procs s procs :
  inv s -> (forall p, runs (MkSys (sDisk s) procs (sWriters s) (sIssued s)) p -> is_Some (sProcs s !! p) -> runs s p) ->
  (forall p pr, sProcs s !! p = Some pr -> exists pr', procs !! p = Some pr' /\ prHost pr' = prHost pr /\ prPid pr' = prPid pr) ->
  (forall p pr, procs !! p = Some pr -> ValidString (prHost pr) = true /\ 0 < prPid pr < 2 ^ 63) ->
  inv (MkSys (sDisk s) procs (sWriters s) (sIssued s)).
Proof.
  intros Hi Hr Hp Hok. split; cbn [sDisk sProcs sWriters sIssued]; try apply Hi; try done.
  - intros t p c Hc. destruct (in_wproc s Hi t p c Hc) as [pr H]. destruct (Hp p pr H) as (pr' & H' & _). eauto.
  - intros t p c i o Hc Hrun. by eapply (in_lock s Hi), Hr, (in_wproc s Hi).
  - intros l p Hin. destruct (in_procs s Hi l p Hin) as (pr & H1 & H2 & H3). destruct (Hp p pr H1) as (pr' & H4 & H5 & H6).
    exists pr'. by rewrite H5, H6.
  - intros t p c h Hc Hb. destruct (in_belief s Hi t p c h Hc Hb) as (q & H1 & H2). exists q. split; [done|]. intros Hq.
    apply H2, Hr; [done|]. destruct (in_procs s Hi h q H1) as (pr & ? & _). eauto.
  - intros t p c h Hc Hrun. by eapply (in_taking s Hi), Hr, (in_wproc s Hi).
Qed.

Lemma inv_step s s' : inv s -> step s s' -> inv s'.
Proof.
  intros Hi Hst. destruct Hst as [p host pid Hp Ha Hh Hpid|p pr Hp|t p Ht Hp|t p pr c a c' d' Hc Hpr Hr Hn Hf].
  - apply inv_procs; [done|..].
    + intros q (pr & Hq & Hr) [pr' Hq']. cbn in Hq. rewrite lookup_insert_ne in Hq by congruence. by exists pr.
    + intros q pr Hq. exists pr. by rewrite lookup_insert_ne by congruence.
    + intros q pr [ [<- <-]|[_ Hq] ]%lookup_insert_Some; [done|by apply (in_ok s Hi q)].
  - apply inv_procs; [done|..].
    + intros q (pr' & Hq & Hr) _. cbn in Hq. apply lookup_insert_Some in Hq as [ [<- <-]|[_ Hq] ]; [done|by exists pr'].
    + intros q pr' Hq. destruct (decide (p = q)) as [<-|]; [|exists pr'; by rewrite lookup_insert_ne].
      assert (pr' = pr) as -> by congruence. rewrite lookup_insert_eq. eexists. by split_and!.
    + intros q pr' [ [<- <-]|[_ Hq] ]%lookup_insert_Some; [exact (in_ok s Hi p pr Hp)|by eapply (in_ok s Hi)].
  - assert (Hcases : forall u q cu, <[t := (p, PIdle)]> (sWriters s) !! u = Some (q, cu) ->
      cu = PIdle /\ q = p \/ sWriters s !! u = Some (q, cu)).
    { intros u q cu [ [_ [= <- <-] ]|[_ H] ]%lookup_insert_Some; [by left|by right]. }
    split; cbn [sDisk sProcs sWriters sIssued]; try apply Hi.
    all: intros; repeat match goal with H : <[_ := (_, PIdle)]> _ !! _ = Some _ |- _ => apply Hcases in H as [ [-> ->]|H] end; try done;
      try (by eapply Hi; done).
    + destruct Hp as (pr & ? & _). eauto.
    + first [by eapply (in_inj s Hi)|by eapply (in_claim s Hi)].
  - by apply (inv_next s t p pr).
Qed.

Lemma reachable_inv s : reachable s -> inv s.
Proof. apply (rtc_ind_r inv); [apply empty_inv|]. intros x y _ Hst Hx. by eapply inv_step. Qed.

(** ** Looking at the lock, and breaking it *)

(** [LockHolder], [None] for a lock that cannot be read. *)
Definition LockHolder (d : disk) : option (option LockInfo) :=
  match dNames d !! lockName with
  | None => Some None
  | Some i => match data ← dData d !! i; lock_read data with Some l => Some (Some l) | None => None end
  end.

Definition BreakLock (d : disk) : disk :=
  MkDisk (filter (fun ni : bytes * nat => HasPrefix ni.1 (lockName ++ claimSuffix) = false) (delete lockName (dNames d))) (dData d).

(** ** Runs, as lists of events *)

Inductive event :=
| EStart (p : nat) (host : bytes) (pid : Z)
| EDie (p : nat)
| EWriter (t p : nat)
| ECall (t : nat) (a : answer).

Definition runsb (s : sys) (p : nat) : bool := match sProcs s !! p with Some pr => prRuns pr | None => false end.

Definition exec (e : event) (s : sys) : option sys :=
  match e with
  | EStart p host pid =>
      if bool_decide (sProcs s !! p = None) && negb (processAlive (sProcs s) host pid) && ValidString host
         && (0 <? pid) && (pid <? 2 ^ 63)
      then Some (MkSys (sDisk s) (<[p := MkProcess host pid true]> (sProcs s)) (sWriters s) (sIssued s)) else None
  | EDie p =>
      pr ← sProcs s !! p;
      Some (MkSys (sDisk s) (<[p := MkProcess (prHost pr) (prPid pr) false]> (sProcs s)) (sWriters s) (sIssued s))
  | EWriter t p =>
      if bool_decide (sWriters s !! t = None) && runsb s p
      then Some (MkSys (sDisk s) (sProcs s) (<[t := (p, PIdle)]> (sWriters s)) (sIssued s)) else None
  | ECall t a =>
      '(p, c) ← sWriters s !! t; pr ← sProcs s !! p;
      if prRuns pr then
        '(c', d') ← next (prHost pr) (prPid pr) (processAlive (sProcs s) (prHost pr)) c a (sDisk s);
        match stamp pr c a with
        | Some l => if bool_decide (l ∈ (sIssued s).*1) then None
                    else Some (MkSys d' (sProcs s) (<[t := (p, c')]> (sWriters s)) ((l, p) :: sIssued s))
        | None => Some (MkSys d' (sProcs s) (<[t := (p, c')]> (sWriters s)) (sIssued s))
        end
      else None
  end.

Fixpoint exec_all (es : list event) (s : sys) : option sys :=
  match es with
  | [] => Some s
  | e :: es' => s' ← exec e s; exec_all es' s'
  end.

Lemma exec_step e s s' : exec e s = Some s' -> step s s'.
Proof.
  destruct e as [p host pid|p|t p|t a]; cbn [exec].
  - destruct (_ && _) eqn:E; [|done]. intros [= <-]. apply andb_prop in E as [E E5].
    apply andb_prop in E as [E E4]. apply andb_prop in E as [E E3]. apply andb_prop in E as [E1 E2].
    apply bool_decide_eq_true_1 in E1. apply negb_true_iff in E2. by apply step_start; [..|lia].
  - destruct (sProcs s !! p) as [pr|] eqn:E; [|done]. cbn [mbind option_bind]. intros [= <-]. by apply step_die.
  - destruct (_ && _) eqn:E; [|done]. intros [= <-]. apply andb_prop in E as [E1 E2]. apply bool_decide_eq_true_1 in E1.
    apply step_writer; [done|]. unfold runsb in E2. destruct (sProcs s !! p) as [pr|] eqn:Ep; [|done]. by exists pr.
  - destruct (sWriters s !! t) as [ [p c] |] eqn:Ec; [|done]. cbn [mbind option_bind].
    destruct (sProcs s !! p) as [pr|] eqn:Ep; [|done]. cbn [mbind option_bind]. destruct (prRuns pr) eqn:Er; [|done].
    destruct (next _ _ _ c a (sDisk s)) as [ [c' d'] |] eqn:En; [|done]. cbn [mbind option_bind].
    pose proof (step_call s t p pr c a c' d' Ec Ep Er En) as Hst. destruct (stamp pr c a) as [l|].
    + case_bool_decide as Hl; [done|]. intros [= <-]. apply Hst. intros l' [= <-] q Hin. apply Hl.
      apply list_elem_of_fmap. by exists (l, q).
    + intros [= <-]. by apply Hst.
Qed.

Lemma exec_all_reachable es s : exec_all es empty_sys = Some s -> reachable s.
Proof.
  unfold reachable. generalize empty_sys. induction es as [|e es IH]; intros s0; cbn [exec_all]; [by intros [= ->]|].
  destruct (exec e s0) as [s1|] eqn:E; [|done]. cbn [mbind option_bind]. intros H.
  eapply rtc_l; [by eapply exec_step|by apply IH].
Qed.

(** ** What the lock promises *)

(** A writer that holds the lock, in a process that runs. *)
Definition holding (s : sys) (t : nat) (l : LockInfo) : Prop :=
  exists p i, sWriters s !! t = Some (p, PHold i l) /\ runs s p.

(** C7: Mutual exclusion: however the system calls of any number of writers
    in any number of processes on any hosts interleave, whichever of them
    fail, and whatever processes die and PIDs are reused, no two writers of
    running processes hold the lock at once, dead holders' locks being taken
    over all the while. *)
Theorem mutual_exclusion s t t' l l' : reachable s -> holding s t l -> holding s t' l' -> t = t'.
Proof.
  intros Hs (p & i & Ht & Hp) (p' & i' & Ht' & Hp'). apply reachable_inv in Hs as Hi.
  pose proof (in_lock s Hi _ _ _ _ _ Ht Hp eq_refl) as E. pose proof (in_lock s Hi _ _ _ _ _ Ht' Hp' eq_refl) as E'.
  assert (i' = i) as -> by congruence. by apply (in_inj s Hi _ _ _ _ _ _ i (Some l) (Some l') Ht Ht').
Qed.

(** C20: A running holder's lock is never removed or replaced: while it holds
    the lock, the lock file is the one it made, and names it whole to whoever
    looks. *)
Theorem holder_undisturbed s t l : reachable s -> holding s t l -> LockHolder (sDisk s) = Some (Some l).
Proof.
  intros Hs (p & i & Ht & Hp). apply reachable_inv in Hs as Hi. unfold LockHolder.
  rewrite (in_lock s Hi _ _ _ _ _ Ht Hp eq_refl). destruct (in_own s Hi _ _ _ _ _ Ht eq_refl) as (d & -> & -> & Hl).
  cbn [mbind option_bind]. by rewrite lock_read_text.
Qed.

(** A writer's calls when all goes well: the lock made, the lock read, a
    stale lock taken over. *)
Definition acquire_calls (t : nat) (now : Z) (n : nat) : list event :=
  ECall t <$> [Good; Time now; Wrote n; Good].
Definition read_calls (t : nat) : list event := ECall t <$> replicate 4 Good.
Definition found_stale (t : nat) : list event := [ECall t Good] ++ read_calls t ++ [ECall t Good] ++ read_calls t.
Definition take_calls (t : nat) : list event := [ECall t Good; ECall t Good].

(** Two processes of one host; a writer of the first takes the lock and
    dies; writer 11 of the second finds it so, up to removing it. *)
Definition demo_dead : list event :=
  [EStart 0 (bs "h") 41; EStart 1 (bs "h") 42; EWriter 10 0; EWriter 11 1; EWriter 12 1; ECall 10 Good]
  ++ acquire_calls 10 5 200 ++ [EDie 0; ECall 11 Good].
Definition demo_begin : list event := demo_dead ++ found_stale 11.
Definition demo_takeover : list event := demo_begin ++ take_calls 11 ++ acquire_calls 11 7 200.

Section Progress.
Context (s : sys) (t p : nat) (pr : process) (Hpr : sProcs s !! p = Some pr) (Hr : prRuns pr = true).

Abbreviation alive_of := (processAlive (sProcs s) (prHost pr)).

Lemma exec_call c c' d d' issued a :
  next (prHost pr) (prPid pr) alive_of c a d = Some (c', d') -> stamp pr c a = None ->
  exec (ECall t a) (call s t p c d issued) = Some (call s t p c' d' issued).
Proof using Hpr Hr.
  intros Hn Hs. unfold exec, call. cbn [sWriters sProcs sDisk sIssued]. rewrite lookup_insert_eq. cbn [mbind option_bind].
  rewrite Hpr. cbn [mbind option_bind]. rewrite Hr, Hn. cbn [mbind option_bind]. by rewrite Hs, insert_insert_eq.
Qed.

Lemma exec_stamp c c' d d' issued a l :
  next (prHost pr) (prPid pr) alive_of c a d = Some (c', d') -> stamp pr c a = Some l -> l ∉ issued.*1 ->
  exec (ECall t a) (call s t p c d issued) = Some (call s t p c' d' ((l, p) :: issued)).
Proof using Hpr Hr.
  intros Hn Hs Hl. unfold exec, call. cbn [sWriters sProcs sDisk sIssued]. rewrite lookup_insert_eq. cbn [mbind option_bind].
  rewrite Hpr. cbn [mbind option_bind]. rewrite Hr, Hn. cbn [mbind option_bind].
  by rewrite Hs, bool_decide_eq_false_2, insert_insert_eq.
Qed.

Lemma exec_calls_cons c c' d d' issued a es :
  next (prHost pr) (prPid pr) alive_of c a d = Some (c', d') -> stamp pr c a = None ->
  exec_all (ECall t a :: es) (call s t p c d issued) = exec_all es (call s t p c' d' issued).
Proof using Hpr Hr. intros Hn Hs. cbn [exec_all]. by rewrite (exec_call c c' d d') by done. Qed.

Lemma exec_read r d issued j h es :
  dNames d !! read_name r = Some j -> reads d j h ->
  exec_all (read_calls t ++ es) (call s t p (PRead r RLstat) d issued)
  = exec_all es (call s t p (read_done (prHost pr) alive_of r (Found h)) d issued).
Proof using Hpr Hr.
  intros Hn (x & Hx & Hrd). unfold read_calls. cbn [replicate fmap list_fmap app].
  rewrite (exec_calls_cons _ (PRead r ROpen) _ d); [|cbn [next read_step]; by rewrite Hn|done].
  rewrite (exec_calls_cons _ (PRead r (RCheck j)) _ d); [|cbn [next read_step]; by rewrite Hn|done].
  rewrite (exec_calls_cons _ (PRead r (RData j)) _ d);
    [|cbn [next read_step]; by rewrite bool_decide_eq_true_2|done].
  rewrite (exec_calls_cons _ (read_done (prHost pr) alive_of r (Found h)) _ d); [done| |done].
  cbn [next read_step]. rewrite Hx. cbn [mbind option_bind]. by rewrite Hrd.
Qed.

(** A free lock is made in four calls. *)
Lemma exec_acquire d issued now n :
  let mine := MkLockInfo (prPid pr) (prHost pr) now in
  dNames d !! lockName = None -> year_ok now = true -> (length (lock_text mine) <= n)%nat -> mine ∉ issued.*1 ->
  exists s', exec_all (acquire_calls t now n) (call s t p PCreate d issued) = Some s' /\ holding s' t mine.
Proof using Hpr Hr.
  intros mine Hn Hy Hl Hf. unfold acquire_calls. cbn [fmap list_fmap].
  set (i := fresh (dom (dData d))). set (d1 := named lockName (Some i) (MkDisk (dNames d) (<[i := []]> (dData d)))).
  rewrite (exec_calls_cons _ (PStamp i) _ d1); [|cbn [next create_next takeover_next]; by rewrite Hn|done].
  cbn [exec_all]. rewrite (exec_stamp _ (PWrite i mine (lock_text mine)) _ d1 _ _ mine);
    [cbn [mbind option_bind]|cbn [next create_next takeover_next]; by rewrite Hy|done|done].
  set (d2 := MkDisk (dNames d1) (<[i := default [] (dData d1 !! i) ++ take n (lock_text mine)]> (dData d1))).
  erewrite (exec_call _ (PClose i mine true) _ d2); [cbn [mbind option_bind]| |done].
  2: { cbn [next create_next takeover_next]. rewrite bool_decide_eq_true_2 by by apply drop_ge. done. }
  erewrite (exec_call _ (PHold i mine) _ d2); [cbn [mbind option_bind]|done|done].
  eexists. split; [done|]. exists p, i. cbn. rewrite lookup_insert_eq. split; [done|]. by exists pr.
Qed.
End Progress.

(** C19: A dead holder's lock is taken over: a running writer that finds the
    lock of a process of its host that no longer runs, not claimed by another,
    holds the lock itself after sixteen calls that succeed, whatever the state
    the writers and the directory were left in. *)
Theorem takeover_acquires s t p pr h j now n :
  let mine := MkLockInfo (prPid pr) (prHost pr) now in
  sWriters s !! t = Some (p, PCreate) -> sProcs s !! p = Some pr -> prRuns pr = true ->
  dNames (sDisk s) !! lockName = Some j -> reads (sDisk s) j h ->
  stale (prHost pr) (processAlive (sProcs s) (prHost pr)) h = true -> dNames (sDisk s) !! claim h = None ->
  year_ok now = true -> (length (lock_text mine) <= n)%nat -> mine ∉ (sIssued s).*1 ->
  exists s', exec_all (found_stale t ++ take_calls t ++ acquire_calls t now n) s = Some s' /\ holding s' t mine.
Proof.
  intros mine Ht Hpr Hr Hl Hrd Hst Hcl Hy Hn Hf. assert (Hcn : claim h <> lockName) by (intros [=]).
  assert (Es : s = call s t p PCreate (sDisk s) (sIssued s)).
  { unfold call. rewrite insert_id by done. by destruct s. }
  set (d1 := named (claim h) (Some j) (sDisk s)). set (d2 := named (claim h) None (named lockName None d1)).
  assert (E : exec_all (found_stale t ++ take_calls t ++ acquire_calls t now n) s
              = exec_all (acquire_calls t now n) (call s t p PCreate d2 (sIssued s))).
  { rewrite Es at 1. unfold found_stale, take_calls. rewrite <- !app_assoc. cbn [app].
    rewrite (exec_calls_cons s t p pr Hpr Hr _ (PRead KAcquire RLstat) _ (sDisk s)); [|cbn [next create_next takeover_next]; by rewrite Hl|done].
    rewrite (exec_read s t p pr Hpr Hr KAcquire _ _ j h) by done. cbn [read_done acquire_found takeover_found release_found]. rewrite Hst.
    rewrite (exec_calls_cons s t p pr Hpr Hr _ (PRead (KTakeover h) RLstat) _ d1); [|cbn [next create_next takeover_next]; by rewrite Hl, Hcl|done].
    rewrite (exec_read s t p pr Hpr Hr (KTakeover h) _ _ j h); [|cbn; by rewrite lookup_insert_eq|done].
    cbn [read_done acquire_found takeover_found release_found]. rewrite (proj2 (same_spec h h) eq_refl).
    rewrite (exec_calls_cons s t p pr Hpr Hr _ (PUnclaim h (Some true)) _ (named lockName None d1)) by done.
    by rewrite (exec_calls_cons s t p pr Hpr Hr _ PCreate _ d2) by done. }
  rewrite E. apply (exec_acquire s t p pr Hpr Hr); try done. cbn. rewrite lookup_delete_ne by done. apply lookup_delete_eq.
Qed.

Definition holdingb (s : sys) (t : nat) (l : LockInfo) : bool :=
  match sWriters s !! t with Some (p, PHold _ l') => bool_decide (l' = l) && runsb s p | _ => false end.

Lemma holdingb_spec s t l : holdingb s t l = true -> holding s t l.
Proof.
  unfold holdingb, holding, runs, runsb. destruct (sWriters s !! t) as [ [p c] |]; [|done]. destruct c; try done.
  intros [E%bool_decide_eq_true_1 Hr]%andb_prop. destruct (sProcs s !! p) as [pr|] eqn:Ep; [|done]. subst. eauto 6.
Qed.

(** The state a run ends in, with what it has been found to be. *)
Lemma exec_all_end (P : sys -> bool) es s :
  match exec_all es s with Some s' => P s' | None => false end = true -> exists s', exec_all es s = Some s' /\ P s' = true.
Proof. destruct (exec_all es s) as [s'|]; [eauto|done]. Qed.

Lemma demo_takeover_holds : exists s, reachable s /\ holding s 11 (MkLockInfo 42 (bs "h") 7).
Proof.
  destruct (exec_all_end (fun s => holdingb s 11 (MkLockInfo 42 (bs "h") 7)) demo_takeover empty_sys) as (s & Hs & Hh).
  - by vm_compute.
  - exists s. split; [by eapply exec_all_reachable|by apply holdingb_spec].
Qed.

Lemma mutual_exclusion_witness :
  exists s, reachable s /\ holding s 11 (MkLockInfo 42 (bs "h") 7)
    /\ forall t l, holding s t l -> t = 11%nat.
Proof.
  destruct demo_takeover_holds as (s & Hr & Hh). exists s. split; [exact Hr|]. split; [exact Hh|].
  intros t l Ht. exact (mutual_exclusion s t 11 _ _ Hr Ht Hh).
Defined.

Lemma holder_undisturbed_witness :
  exists s, reachable s /\ holding s 11 (MkLockInfo 42 (bs "h") 7)
    /\ LockHolder (sDisk s) = Some (Some (MkLockInfo 42 (bs "h") 7)).
Proof.
  destruct demo_takeover_holds as (s & Hr & Hh). exists s. split; [exact Hr|]. split; [exact Hh|].
  exact (holder_undisturbed s 11 _ Hr Hh).
Defined.

Definition demo_found : sys := default empty_sys (exec_all demo_dead empty_sys).

Lemma takeover_acquires_witness :
  sWriters demo_found !! 11%nat = Some (1%nat, PCreate)
  /\ LockHolder (sDisk demo_found) = Some (Some (MkLockInfo 41 (bs "h") 5))
  /\ exists s', exec_all (found_stale 11 ++ take_calls 11 ++ acquire_calls 11 7 200) demo_found = Some s'
       /\ holding s' 11 (MkLockInfo 42 (bs "h") 7).
Proof.
  split; [vm_compute; reflexivity|]. split; [vm_compute; reflexivity|].
  assert (Hrd : reads (sDisk demo_found) 0 (MkLockInfo 41 (bs "h") 5)) 
    by (exists (lock_text (MkLockInfo 41 (bs "h") 5)); split; vm_compute; reflexivity).
  assert (Hlen : (length (lock_text (MkLockInfo 42 (bs "h") 7)) <= 200)%nat) by (apply Nat.leb_le; vm_compute; reflexivity).
  assert (Hnew : MkLockInfo 42 (bs "h") 7 ∉ (sIssued demo_found).*1)
    by (apply (bool_decide_eq_false_1 _); vm_compute; reflexivity).
  refine (takeover_acquires demo_found 11 1 (MkProcess (bs "h") 42 true) (MkLockInfo 41 (bs "h") 5) 0 7 200
            _ _ _ _ Hrd _ _ _ Hlen Hnew); vm_compute; reflexivity.
Defined.

Definition broken (s : sys) : sys := MkSys (BreakLock (sDisk s)) (sProcs s) (sWriters s) (sIssued s).

(** BreakLock while a takeover of the same dead holder's lock is under way:
    the taker, past its proof, removes the lock that a writer has made since,
    and two writers hold the lock. *)
Example BreakLock_races_with_takeover :
  exists s1 s2, reachable s1 /\ LockHolder (sDisk s1) = Some (Some (MkLockInfo 41 (bs "h") 5)) /\ runsb s1 0 = false
    /\ exec_all ([ECall 12 Good] ++ acquire_calls 12 6 200 ++ take_calls 11 ++ acquire_calls 11 7 200) (broken s1) = Some s2
    /\ holding s2 11 (MkLockInfo 42 (bs "h") 7) /\ holding s2 12 (MkLockInfo 42 (bs "h") 6).
Proof.
  set (es := [ECall 12 Good] ++ acquire_calls 12 6 200 ++ take_calls 11 ++ acquire_calls 11 7 200).
  set (both s := holdingb s 11 (MkLockInfo 42 (bs "h") 7) && holdingb s 12 (MkLockInfo 42 (bs "h") 6)).
  destruct (exec_all_end (fun s => bool_decide (LockHolder (sDisk s) = Some (Some (MkLockInfo 41 (bs "h") 5)))
      && negb (runsb s 0) && match exec_all es (broken s) with Some s' => both s' | None => false end)
    demo_begin empty_sys) as (s1 & Hs1 & H1); [by vm_compute|].
  apply andb_prop in H1 as [H1 H2]. apply andb_prop in H1 as [Hh%bool_decide_eq_true_1 Hr%negb_true_iff].
  apply exec_all_end in H2 as (s2 & Hs2 & [H11 H12]%andb_prop). exists s1, s2.
  split_and!; [by eapply exec_all_reachable|done..|by apply holdingb_spec|by apply holdingb_spec].
Qed.
