(* ===== verification/Sql.v ===== *)
(** * A database and its statements

    The SQLite database a store writes to: named tables with their columns
    and rows, and indexes.  A statement reads or changes it, or fails, as the
    world's plan has it; a transaction is given the database as it was when
    it fails, and a commit that reports a failure may or may not have taken
    effect.  The statements themselves are with the code that makes them. *)

From S2P Require Import Prelude GoStd Sha256 Memory Store.

(** ** Tables *)

(** A row of memory_entries less its primary key, (scope, name). *)
Record entry_row := MkEntryRow { erContent : bytes; erMeta : bytes; erHash : bytes; erUpdated : bytes }.
(** A row of memory_journal less its primary key, seq. *)
Record journal_row := MkJournalRow { jrScope : bytes; jrName : bytes; jrLine : bytes }.
Record fts_row := MkFtsRow { frScope : bytes; frName : bytes; frMeta : bytes; frContent : bytes }.

(** The rows of a table of this store's, or what another program keeps. *)
Inductive rows :=
| Entries (m : gmap ref entry_row)
| JournalRows (m : gmap Z journal_row)
| Fts (l : list fts_row)
| Foreign.

Record table := MkTable { tColumns : list bytes; tRows : rows }.

(** An index is named with its table. *)
Record database := MkDatabase { dbTables : gmap bytes table; dbIndexes : gmap bytes bytes }.

Definition empty_database : database := MkDatabase ∅ ∅.

(** ** Faults *)

(** A statement that fails: busy or otherwise, a query after so many rows, a
    change with its effect if the number is not zero. *)
Record fault := MkFault { flBusy : bool; flAfter : nat }.

Record world := MkWorld {
  wDb : database;
  wPlan : list (option fault)  (** how the next statements go *)
}.

Definition with_db (db : database) (w : world) : world := MkWorld db (wPlan w).

(** How the next statement goes. *)
Definition fate (w : world) : option fault * world :=
  match wPlan w with
  | [] => (None, w)
  | f :: l => (f, MkWorld (wDb w) l)
  end.

Inductive serror :=
| SStore (e : error)                  (** one of the contract's *)
| SDatabase (busy : bool)             (** a statement that failed *)
| SMeta (scope name : bytes)          (** a row whose metadata does not decode *)
| SUpdated (scope name : bytes)       (** a row whose time does not parse *)
| SEncode                             (** a time json.Marshal refuses *)
| SRecord (seq : Z)                   (** a journal row that does not decode *)
| SForeign (table : bytes).           (** another program's table *)

(** ** Programs of statements *)

Definition T (A : Type) : Type := world -> res serror A * world.

Definition ret {A} (a : A) : T A := fun w => (Ok a, w).
Definition fail {A} (e : serror) : T A := fun w => (Err e, w).
Definition bind {A B} (m : T A) (k : A -> T B) : T B := fun w =>
  match m w with
  | (Ok a, w') => k a w'
  | (Err e, w') => (Err e, w')
  end.

Declare Scope sql_scope.
Delimit Scope sql_scope with sql.
Notation "'let!' x := m 'in' k" := (bind m (fun x => k))
  (at level 10, x pattern, m at level 100, k at level 200) : sql_scope.
Notation "'run!' m 'in' k" := (bind m (fun _ => k))
  (at level 10, m at level 100, k at level 200) : sql_scope.
#[global] Open Scope sql_scope.

Definition of_res {A} (r : res serror A) : T A := match r with Ok a => ret a | Err e => fail e end.
Definition guard (e : option error) : T unit := match e with Some err => fail (SStore err) | None => ret tt end.

(** A change, [None] where the engine refuses it: no such table, or a key
    that is taken. *)
Definition exec (f : database -> option database) : T unit := fun w =>
  let (o, w1) := fate w in
  match f (wDb w1), o with
  | Some db, None => (Ok tt, with_db db w1)
  | Some db, Some x => (Err (SDatabase (flBusy x)), if (flAfter x =? 0)%nat then w1 else with_db db w1)
  | None, _ => (Err (SDatabase false), w1)
  end.

(** The rows of a query read to its end or to the failure that ends it. *)
Definition query {R} (f : database -> option (list R)) : T (list R * option serror) := fun w =>
  let (o, w1) := fate w in
  match f (wDb w1), o with
  | Some l, None => (Ok (l, None), w1)
  | Some l, Some x => (Ok (take (flAfter x) l, Some (SDatabase (flBusy x))), w1)
  | None, _ => (Ok ([], Some (SDatabase false)), w1)
  end.

(** [QueryRow] and its [Scan]: the first row, [None] for [sql.ErrNoRows]. *)
Definition query_row {R} (f : database -> option (list R)) : T (option R) :=
  let! (l, e) := query f in
  match l, e with
  | r :: _, _ => ret (Some r)
  | [], Some e => fail e
  | [], None => ret None
  end.

(** An immediate transaction on the writer's one connection: [Begin], the
    statements of [m], [Commit]; whatever fails on the way is rolled back. *)
Definition in_tx {A} (m : T A) : T A := fun w =>
  let (o, w1) := fate w in
  match o with
  | Some x => (Err (SDatabase (flBusy x)), w1)
  | None =>
      match m w1 with
      | (Err e, w2) => (Err e, with_db (wDb w) w2)
      | (Ok a, w2) =>
          let (o, w3) := fate w2 in
          match o with
          | None => (Ok a, w3)
          | Some x => (Err (SDatabase (flBusy x)), if (flAfter x =? 0)%nat then with_db (wDb w) w3 else w3)
          end
      end
  end.

(** ** The tables of the store *)

Definition entries_name : bytes := bs "memory_entries".
Definition journal_name : bytes := bs "memory_journal".
Definition fts_name : bytes := bs "memory_entries_fts".

Definition entry_rows (db : database) : option (gmap ref entry_row) :=
  t ← dbTables db !! entries_name; match tRows t with Entries m => Some m | _ => None end.
Definition journal_rows (db : database) : option (gmap Z journal_row) :=
  t ← dbTables db !! journal_name; match tRows t with JournalRows m => Some m | _ => None end.
Definition fts_rows (db : database) : option (list fts_row) :=
  t ← dbTables db !! fts_name; match tRows t with Fts l => Some l | _ => None end.

(** The database with other rows in a table that is there. *)
Definition set_rows (name : bytes) (r : rows) (db : database) : database :=
  MkDatabase (alter (fun t => MkTable (tColumns t) r) name (dbTables db)) (dbIndexes db).
