(* ===== verification/Sqlite.v ===== *)
(** * The SQLite store: sqlite/sqlite.go

    Its operations as programs of statements on a database.  Put and Forget
    are each one immediate transaction; the reads go through a pool of
    readers, each one statement of its own.  What FTS5 matches and how it
    ranks are parameters of the search. *)

From S2P Require Import Prelude GoStd GoTime Sha256 Memory Store Search Json JsonRead Codec Sql.

(** ** Rows and entries *)

Definition stamp (t : Z) : bytes := Format_RFC3339Nano t.

(** json.Unmarshal into a nil map. *)
Definition unmarshal_meta (text : bytes) : option (option (gmap bytes bytes)) :=
  v ← json_parse text; decode_map [] decode_string v None.

Definition meta_column (m : option (gmap bytes bytes)) : bytes :=
  match m with None => bs "{}" | Some m => render (jmap jstring m) end.

Definition buildEntry (scope name : bytes) (r : entry_row) : res serror Entry :=
  let? meta := (if bool_decide (erMeta r = [] \/ erMeta r = bs "{}") then Ok None
                else match unmarshal_meta (erMeta r) with Some m => Ok m | None => Err (SMeta scope name) end) in
  match Parse_RFC3339Nano (erUpdated r) with
  | None => Err (SUpdated scope name)
  | Some t => Ok (MkEntry scope name (erContent r) meta (erHash r) (MetaHash meta) t false)
  end.

(** SELECT ... FROM memory_entries WHERE scope = ? AND name = ? *)
Definition selectEntry (scope name : bytes) (db : database) : option (list entry_row) :=
  m ← entry_rows db; Some (match m !! (scope, name) with Some r => [r] | None => [] end).

(** [get]: nil for none. *)
Definition get (scope name : bytes) : T (option Entry) :=
  let! r := query_row (selectEntry scope name) in
  match r with
  | None => ret None
  | Some r => let! e := of_res (buildEntry scope name r) in ret (Some e)
  end.

Definition sqlite_get (scope name : bytes) : T Entry :=
  run! guard (CheckRef scope name) in
  let! e := get scope name in
  match e with None => fail (SStore (ErrNotFound scope name)) | Some e => ret e end.

(** SELECT ... FROM memory_entries WHERE scope = ? ORDER BY name *)
Definition selectScope (scope : bytes) (db : database) : option (list (bytes * entry_row)) :=
  m ← entry_rows db;
  Some (sort_on fst ((fun x => (x.1.2, x.2)) <$>
    map_to_list (filter (fun x : ref * entry_row => x.1.1 = scope) m))).

Fixpoint build_loop (scope : bytes) (l : list (bytes * entry_row)) : res serror (list Entry) :=
  match l with
  | [] => Ok []
  | (name, r) :: l' => let? e := buildEntry scope name r in let? es := build_loop scope l' in Ok (e :: es)
  end.

Definition sqlite_list (scope : bytes) : T (list Entry) :=
  run! guard (CheckScope scope) in
  let! (l, err) := query (selectScope scope) in
  let! out := of_res (build_loop scope l) in
  match err with Some e => fail e | None => ret out end.

(** ** Writing *)

(** INSERT INTO memory_entries ... ON CONFLICT (scope, name) DO UPDATE *)
Definition upsertEntry (scope name : bytes) (r : entry_row) (db : database) : option database :=
  m ← entry_rows db; Some (set_rows entries_name (Entries (<[(scope, name) := r]> m)) db).

(** DELETE FROM memory_entries WHERE scope = ? AND name = ? *)
Definition deleteEntry (scope name : bytes) (db : database) : option database :=
  m ← entry_rows db; Some (set_rows entries_name (Entries (delete (scope, name) m)) db).

(** DELETE FROM memory_entries_fts WHERE scope = ? AND name = ? *)
Definition deleteFts (scope name : bytes) (db : database) : option database :=
  l ← fts_rows db;
  Some (set_rows fts_name (Fts (filter (fun r => ~ (frScope r = scope /\ frName r = name)) l)) db).

(** INSERT INTO memory_entries_fts *)
Definition insertFts (r : fts_row) (db : database) : option database :=
  l ← fts_rows db; Some (set_rows fts_name (Fts (l ++ [r])) db).

(** The row indexed for an entry: its metadata's values in order. *)
Definition indexed (e : Entry) : fts_row :=
  MkFtsRow (eScope e) (eName e) (Join [newline] (sort_bytes (meta_values e))) (eContent e).

Definition reindex (scope name : bytes) (e : option Entry) : T unit :=
  run! exec (deleteFts scope name) in
  match e with
  | None => ret tt
  | Some e => exec (insertFts (indexed e))
  end.

(** Go's conversions between int64 and uint64. *)
Definition to_uint64 (x : Z) : Z := x mod 2 ^ 64.
Definition to_int64 (x : Z) : Z := (x + 2 ^ 63) mod 2 ^ 64 - 2 ^ 63.

(** SELECT MAX(seq) FROM memory_journal: one row, NULL for no record. *)
Definition selectMax (db : database) : option (list (option Z)) :=
  m ← journal_rows db;
  Some [match (map_to_list m).*1 with [] => None | n :: l => Some (foldl Z.max n l) end].

(** The [Int64] of the [sql.NullInt64] scanned. *)
Definition scan_max (r : option (option Z)) : Z := default 0 (default None r).

(** INSERT INTO memory_journal: a seq that is taken is refused. *)
Definition insertJournal (seq : Z) (r : journal_row) (db : database) : option database :=
  m ← journal_rows db;
  match m !! seq with
  | Some _ => None
  | None => Some (set_rows journal_name (JournalRows (<[seq := r]> m)) db)
  end.

(** [c] with its number. *)
Definition numbered (n : Z) (c : Change) : Change :=
  MkChange n (cEntry c) (cPrev c) (cReplaced c) (cSession c) (cSource c) (cAt c).

Definition record (c : Change) : T Change :=
  let! last := query_row selectMax in
  let c := numbered (to_uint64 (to_uint64 (scan_max last) + 1)) c in
  match marshal_change c with
  | None => fail SEncode
  | Some line =>
      run! exec (insertJournal (to_int64 (cSeq c)) (MkJournalRow (eScope (cEntry c)) (eName (cEntry c)) line)) in
      ret c
  end.

Definition sqlite_put (max now : Z) (session : bytes) (e : Entry) (opts : list PutOption) : T Change :=
  let o := ResolvePutOptions opts in
  run! guard (CheckEntry e 0 None) in
  in_tx (
    let! stored := get (eScope e) (eName e) in
    run! guard (CheckEntry e max stored) in
    run! guard (PutOptions_Check o (eScope e) (eName e) stored) in
    let e := stamped now e in
    run! exec (upsertEntry (eScope e) (eName e)
                 (MkEntryRow (eContent e) (meta_column (eMeta e)) (eHash e) (stamp now))) in
    run! reindex (eScope e) (eName e) (Some e) in
    let replaced := match stored with Some s => eHash s | None => [] end in
    record (MkChange 0 e (BaseFor o stored) replaced session [] now)).

Definition sqlite_forget (now : Z) (session scope name : bytes) : T Change :=
  run! guard (CheckRef scope name) in
  in_tx (
    let! stored := get scope name in
    match stored with
    | None => fail (SStore (ErrNotFound scope name))
    | Some s =>
        run! exec (deleteEntry scope name) in
        run! reindex scope name None in
        let e := MkEntry (eScope s) (eName s) (eContent s) (eMeta s) (eHash s) (eMetaHash s) now true in
        record (MkChange 0 e (eHash s) (eHash s) session [] now)
    end).

(** ** The journal *)

(** SELECT seq, line FROM memory_journal WHERE seq > ? ORDER BY seq *)
Definition by_seq (x y : Z * journal_row) : Prop := x.1 <= y.1.
#[global] Instance by_seq_dec x y : Decision (by_seq x y) := Z_le_dec _ _.

Definition selectAfter (after : Z) (db : database) : option (list (Z * journal_row)) :=
  m ← journal_rows db;
  Some (merge_sort by_seq (map_to_list (filter (fun x : Z * journal_row => after < x.1) m))).

(** A row as a caller sees it, or the error yielded in its place. *)
Definition yielded (x : Z * journal_row) : res serror Change :=
  match unmarshal_change (jrLine x.2) with
  | None => Err (SRecord x.1)
  | Some c => Ok (numbered (to_uint64 x.1) c)
  end.

(** What ranging over [Journal] to its end yields. *)
Definition sqlite_journal (after : Z) : T (list (res serror Change)) :=
  let! (l, err) := query (selectAfter (to_int64 after)) in
  ret ((yielded <$> l) ++ match err with Some e => [Err e] | None => [] end).

Definition sqlite_last_seq : T Z :=
  let! last := query_row selectMax in ret (to_uint64 (scan_max last)).

(** ** Searching *)

(** [strings.ReplaceAll] of a double quote by two. *)
Definition double_quotes (w : bytes) : bytes := concat ((fun c => if Ascii.eqb c quote then [quote; quote] else [c]) <$> w).

(** A word as an FTS5 string matched as a prefix. *)
Definition prefix_string (w : bytes) : bytes := quote :: double_quotes w ++ quote :: bs " *".

Definition match_expression (any : bool) (words : list bytes) : bytes :=
  Join (if any then bs " OR " else bs " AND ") (prefix_string <$> words).

(** The loop's [keep], over entries in turn: the result so far, and whether
    it is full. *)
Fixpoint keep_loop (o : SearchOptions) (limit : Z) (out es : list Entry) : list Entry * bool :=
  match es with
  | [] => (out, false)
  | e :: es' =>
      let out := if Keep o e then out ++ [e] else out in
      if (0 <? limit) && (limit <=? blen out) then (out, true) else keep_loop o limit out es'
  end.

Fixpoint list_loop (o : SearchOptions) (limit : Z) (out : list Entry) (scopes : list bytes) : T (list Entry) :=
  match scopes with
  | [] => ret out
  | scope :: scopes' =>
      let! es := sqlite_list scope in
      let (out, full) := keep_loop o limit out es in
      if full : bool then ret out else list_loop o limit out scopes'
  end.

(** The rows of the index's answer, built and kept in turn. *)
Fixpoint hits_loop (o : SearchOptions) (limit : Z) (out : list Entry) (l : list (ref * entry_row))
    : res serror (list Entry * bool) :=
  match l with
  | [] => Ok (out, false)
  | (r, row) :: l' =>
      let? e := buildEntry r.1 r.2 row in
      let (out, full) := keep_loop o limit out [e] in
      if full : bool then Ok (out, true) else hits_loop o limit out l'
  end.

Definition filtered (o : SearchOptions) : bool :=
  match soMeta o with Some _ => true | None => negb (IsZero (soUpdatedAfter o)) || negb (IsZero (soUpdatedBefore o)) end.

Section Search.
(** What an FTS5 expression matches, [None] for one that does not parse, and
    how it ranks the rows of a table. *)
Context (fts_match : bytes -> option (fts_row -> bool)).
Context (fts_rank : bytes -> list fts_row -> fts_row -> Z).

(** ORDER BY f.rank, e.scope, e.name *)
Definition before (rank : fts_row -> Z) (x y : fts_row * entry_row) : Prop :=
  rank x.1 < rank y.1
  \/ rank x.1 = rank y.1 /\ (frScope x.1 <> frScope y.1 /\ bytes_le (frScope x.1) (frScope y.1)
       \/ frScope x.1 = frScope y.1 /\ bytes_le (frName x.1) (frName y.1)).

#[global] Instance before_dec rank x y : Decision (before rank x y).
Proof. unfold before. apply _. Defined.

(** SELECT ... FROM memory_entries_fts f JOIN memory_entries e ON ... WHERE
    memory_entries_fts MATCH ? AND f.scope IN (...) ORDER BY ... [LIMIT ?] *)
Definition selectMatch (expr : bytes) (scopes : list bytes) (limit : option Z) (db : database)
    : option (list (ref * entry_row)) :=
  m ← entry_rows db; l ← fts_rows db; holds ← fts_match expr;
  let found := filter (fun f => holds f = true /\ frScope f ∈ scopes) l in
  let joined := omap (fun f => r ← m !! (frScope f, frName f); Some (f, r)) found in
  let sorted := (fun x => ((frScope x.1, frName x.1), x.2)) <$> merge_sort (before (fts_rank expr l)) joined in
  Some (match limit with Some n => take (Z.to_nat n) sorted | None => sorted end).

Definition sqlite_search_with (scopes : list bytes) (query_ : bytes) (limit : Z) (o : SearchOptions) : T (list Entry) :=
  run! guard (check_scopes scopes) in
  run! guard (SearchOptions_Check o AllSearchOptions) in
  match scopes with
  | [] => ret []
  | _ =>
      match Fields query_ with
      | [] => list_loop o limit [] scopes
      | words =>
          let! (l, err) := query (selectMatch (match_expression (soAny o) words) scopes
            (if (0 <? limit) && negb (filtered o) then Some limit else None)) in
          let! (out, full) := of_res (hits_loop o limit [] l) in
          match err with
          | Some e => if full : bool then ret out else fail e
          | None => ret out
          end
      end
  end.

Definition sqlite_search (scopes : list bytes) (query_ : bytes) (limit : Z) : T (list Entry) :=
  sqlite_search_with scopes query_ limit (MkSearchOptions false None 0 0).
End Search.
