(* ===== verification/SqliteOpen.v ===== *)
(** * Opening a database: Open, applySchema and migrate (sqlite/sqlite.go)

    Open applies the schema in one transaction, renaming the tables an
    earlier release wrote, and refuses a database whose tables of the
    store's names are another program's; busy, it tries again for a while. *)

From S2P Require Import Prelude GoStd Sha256 Memory Store Sql.

(** ** The schema *)

(** [tables]: each table's name, its name in an earlier release, its columns. *)
Definition tables : list (bytes * bytes * list bytes) :=
  [(entries_name, bs "entries", [bs "scope"; bs "name"; bs "content"; bs "meta"; bs "hash"; bs "updated"]);
   (journal_name, bs "journal", [bs "seq"; bs "scope"; bs "name"; bs "line"]);
   (fts_name, bs "entries_fts", [bs "scope"; bs "name"; bs "meta"; bs "content"])].

Definition columns_of (name : bytes) : list bytes :=
  default [] ((fun t : bytes * bytes * list bytes => t.2) <$> List.find (fun t => bool_decide (t.1.1 = name)) tables).

(** CREATE TABLE IF NOT EXISTS *)
Definition create_table (name : bytes) (r : rows) (db : database) : database :=
  match dbTables db !! name with
  | Some _ => db
  | None => MkDatabase (<[name := MkTable (columns_of name) r]> (dbTables db)) (dbIndexes db)
  end.

Definition index_name : bytes := bs "memory_journal_entry".

(** CREATE INDEX IF NOT EXISTS ... ON memory_journal(scope, name, seq), which
    needs the columns. *)
Definition create_index (db : database) : option database :=
  match dbIndexes db !! index_name with
  | Some _ => Some db
  | None =>
      t ← dbTables db !! journal_name;
      if forallb (fun c => bool_decide (c ∈ tColumns t)) [bs "scope"; bs "name"; bs "seq"]
      then Some (MkDatabase (dbTables db) (<[index_name := journal_name]> (dbIndexes db))) else None
  end.

Definition schema (db : database) : option database :=
  let db := create_table entries_name (Entries ∅) db in
  let db := create_table journal_name (JournalRows ∅) db in
  db ← create_index db; Some (create_table fts_name (Fts []) db).

(** ** Migrating *)

(** SELECT name FROM pragma_table_info(?) ORDER BY cid: no rows for no table. *)
Definition selectColumns (name : bytes) (db : database) : option (list bytes) :=
  Some (match dbTables db !! name with Some t => tColumns t | None => [] end).

Definition columns (name : bytes) : T (list bytes) :=
  let! (cols, err) := query (selectColumns name) in
  match err with Some e => fail e | None => ret cols end.

(** ALTER TABLE ... RENAME TO: the table's indexes follow it. *)
Definition rename_table (legacy name : bytes) (db : database) : option database :=
  t ← dbTables db !! legacy;
  match dbTables db !! name with
  | Some _ => None
  | None => Some (MkDatabase (<[name := t]> (delete legacy (dbTables db)))
                    ((fun tbl => if decide (tbl = legacy) then name else tbl) <$> dbIndexes db))
  end.

Definition legacy_index : bytes := bs "journal_entry".

(** SELECT COUNT(...) FROM sqlite_schema WHERE type = 'index' AND ... *)
Definition countIndex (db : database) : option (list Z) :=
  Some [if bool_decide (dbIndexes db !! legacy_index = Some journal_name) then 1 else 0].

Definition drop_index (db : database) : option database :=
  match dbIndexes db !! legacy_index with
  | None => None
  | Some _ => Some (MkDatabase (dbTables db) (delete legacy_index (dbIndexes db)))
  end.

(** Whether every prefixed table is missing and every legacy one is there. *)
Fixpoint legacy_only (l : list (bytes * bytes * list bytes)) : T bool :=
  match l with
  | [] => ret true
  | (name, legacy, want) :: l' =>
      let! cols := columns name in
      if negb (bool_decide (cols = [])) then ret false
      else let! cols := columns legacy in
           if negb (bool_decide (cols = want)) then ret false else legacy_only l'
  end.

Fixpoint rename_all (l : list (bytes * bytes * list bytes)) : T unit :=
  match l with
  | [] => ret tt
  | (name, legacy, _) :: l' => run! exec (rename_table legacy name) in rename_all l'
  end.

Definition migrate : T unit :=
  let! b := legacy_only tables in
  if negb b then ret tt
  else
    run! rename_all tables in
    let! n := query_row countIndex in
    if 0 <? default 0 n then exec drop_index else ret tt.

(** ** Applying the schema *)

Fixpoint check_tables (l : list (bytes * bytes * list bytes)) : T unit :=
  match l with
  | [] => ret tt
  | (name, _, want) :: l' =>
      let! cols := columns name in
      if bool_decide (cols = want) then check_tables l' else fail (SForeign name)
  end.

Definition applySchemaOnce : T unit :=
  in_tx (run! migrate in run! exec schema in check_tables tables).

Definition isBusy (e : serror) : bool := match e with SDatabase b => b | _ => false end.

(** In milliseconds. *)
Definition busyTimeout : Z := 5000.

(** The retries, given what each reading of the clock says; [None] when the
    fuel runs out. *)
Fixpoint apply_loop (fuel : nat) (clock : nat -> Z) (i : nat) (deadline pause : Z) (w : world)
    : option (res serror unit * world) :=
  let (r, w') := applySchemaOnce w in
  match r with
  | Ok _ => Some (r, w')
  | Err e =>
      if negb (isBusy e) || (deadline <? clock i + pause) then Some (r, w')
      else match fuel with
           | O => None
           | S fuel' => apply_loop fuel' clock (S i) deadline (Z.min (2 * pause) 50) w'
           end
  end.

Definition applySchema (clock : nat -> Z) (w : world) : option (res serror unit * world) :=
  apply_loop 104 clock 1 (clock O + busyTimeout) 1 w.

(** ** Opening *)

Record sqlite_store := MkSqliteStore { sqPath : bytes; sqMax : Z; sqNow : Z -> Z }.

Definition Option : Type := sqlite_store -> sqlite_store.

Definition WithMaxEntryBytes (n : Z) : Option := fun s => MkSqliteStore (sqPath s) n (sqNow s).
Definition WithClock (now : Z -> Z) : Option := fun s => MkSqliteStore (sqPath s) (sqMax s) now.

(** [url.QueryEscape], and [Values.Encode] of one key's values in turn. *)
Definition query_byte (c : ascii) : bytes :=
  if bin 48 57 c || bin 65 90 c || bin 97 122 c || bool_decide (c ∈ bs "-_.~") then [c]
  else if Ascii.eqb c " " then bs "+"
  else let d n := ascii_of_N (if (n <? 10)%N then 48 + n else 55 + n) in
       ["%"%char; d (bv c / 16)%N; d (bv c mod 16)%N].

Definition QueryEscape (s : bytes) : bytes := concat (query_byte <$> s).

Definition Encode (key : bytes) (values : list bytes) : bytes :=
  Join (bs "&") ((fun v => QueryEscape key ++ bs "=" ++ QueryEscape v) <$> values).

Definition pragmas : list bytes :=
  [bs "busy_timeout(" ++ Itoa busyTimeout ++ bs ")"; bs "journal_mode(WAL)"; bs "synchronous(NORMAL)"].

Definition dsn (path : bytes) : bytes := bs "file:" ++ path ++ bs "?" ++ Encode (bs "_pragma") pragmas.

Example dsn_ex : dsn (bs "m.db")
  = bs "file:m.db?_pragma=busy_timeout%285000%29&_pragma=journal_mode%28WAL%29&_pragma=synchronous%28NORMAL%29".
Proof. by vm_compute. Qed.

(** [sql.Open] is database/sql's, given by what it answers for a source;
    [None] when the attempts at the schema run out of fuel. *)
Definition sqlite_Open (sql_Open : bytes -> option serror) (path : bytes) (opts : list Option) (clock : nat -> Z) (w : world)
    : option (res serror sqlite_store * world) :=
  let s := foldl (fun s opt => opt s) (MkSqliteStore path DefaultMaxEntryBytes (fun t => t)) opts in
  match sql_Open (dsn path ++ bs "&_txlock=immediate") with
  | Some err => Some (Err err, w)
  | None =>
      match sql_Open (dsn path) with
      | Some err => Some (Err err, w)
      | None =>
          match applySchema clock w with
          | None => None
          | Some (Err err, w') => Some (Err err, w')
          | Some (Ok _, w') => Some (Ok s, w')
          end
      end
  end.
