(* ===== verification/SqliteLaws.v ===== *)
(** * The SQLite store implements the contract

    A database that keeps a journal: a row of memory_journal for each record
    with its JSON line, a row of memory_entries for each entry the journal
    leaves live, and a row of the index for each of those.  An operation
    answers as the specification does, or with a database error and then the
    database keeps the journal it kept before or the one after, whichever
    statements fail. *)

From S2P Require Import Prelude GoStd GoTime Sha256 Memory Store Search Json JsonRead Codec Records Sql Sqlite SqliteOpen.

(** ** What a program of statements does *)

Definition dberr {A} (x : res serror A) : Prop := exists b, x = Err (SDatabase b).

(** Inside a transaction: the result and the database, or a database error,
    after which the transaction is rolled back. *)
Definition does {A} (m : T A) (db : database) (r : res serror A) (db' : database) : Prop :=
  (forall plan, (m (MkWorld db plan)).1 = r /\ wDb (m (MkWorld db plan)).2 = db' \/ dberr (m (MkWorld db plan)).1)
  /\ m (MkWorld db []) = (r, MkWorld db' []).

(** Of its own: a database error leaves what was or what was to be. *)
Definition performs {A} (m : T A) (db : database) (r : res serror A) (db' : database) : Prop :=
  (forall plan, (m (MkWorld db plan)).1 = r /\ wDb (m (MkWorld db plan)).2 = db'
     \/ dberr (m (MkWorld db plan)).1 /\ (wDb (m (MkWorld db plan)).2 = db \/ wDb (m (MkWorld db plan)).2 = db'))
  /\ m (MkWorld db []) = (r, MkWorld db' []).

Lemma performs_does {A} (m : T A) db r db' : performs m db r db' -> does m db r db'.
Proof. intros [H E]. split; [|done]. intros plan. destruct (H plan) as [?|[? _]]; auto. Qed.

Lemma ret_performs {A} (a : A) db : performs (ret a) db (Ok a) db.
Proof. split; [|done]. intros plan. by left. Qed.

Lemma fail_performs {A} (e : serror) db : performs (fail (A:=A) e) db (Err e) db.
Proof. split; [|done]. intros plan. by left. Qed.

Lemma bind_world {A B} (m : T A) (k : A -> T B) w :
  bind m k w = match (m w).1 with Ok a => k a (m w).2 | Err e => (Err e, (m w).2) end.
Proof. unfold bind. destruct (m w) as [[a|e] w']; done. Qed.

Lemma world_eta w : w = MkWorld (wDb w) (wPlan w).
Proof. by destruct w. Qed.

Lemma bind_does {A B} (m : T A) (k : A -> T B) db db1 db2 a r :
  does m db (Ok a) db1 -> does (k a) db1 r db2 -> does (bind m k) db r db2.
Proof.
  intros [Hm Em] [Hk Ek]. split; [|by rewrite bind_world, Em].
  intros plan. rewrite bind_world. destruct (Hm plan) as [[-> Hd]|[b ->]]; [|by right; exists b].
  rewrite (world_eta (m _).2), Hd. apply Hk.
Qed.

Lemma bind_does_err {A B} (m : T A) (k : A -> T B) db db1 e :
  does m db (Err e) db1 -> does (bind m k) db (Err e) db1.
Proof.
  intros [Hm Em]. split; [|by rewrite bind_world, Em].
  intros plan. rewrite bind_world. destruct (Hm plan) as [[-> Hd]|[b ->]]; [by left|by right; exists b].
Qed.

(** A read and what is made of its answer. *)
Lemma bind_reads {A B} (m : T A) (k : A -> T B) db db2 a r :
  performs m db (Ok a) db -> performs (k a) db r db2 -> performs (bind m k) db r db2.
Proof.
  intros [Hm Em] [Hk Ek]. split; [|by rewrite bind_world, Em].
  intros plan. rewrite bind_world. destruct (Hm plan) as [[-> Hd]|[[b ->] Hd]].
  - rewrite (world_eta (m _).2), Hd. apply Hk.
  - right. split; [by exists b|]. left. by destruct Hd.
Qed.

Lemma bind_reads_err {A B} (m : T A) (k : A -> T B) db e :
  performs m db (Err e) db -> performs (bind m k) db (Err e) db.
Proof.
  intros [Hm Em]. split; [|by rewrite bind_world, Em].
  intros plan. rewrite bind_world. destruct (Hm plan) as [[-> Hd]|[[b ->] Hd]]; [by left|].
  right. split; [by exists b|done].
Qed.

Lemma guard_reads {B} e (k : unit -> T B) db r db' :
  match e with Some err => r = Err (SStore err) /\ db' = db | None => performs (k tt) db r db' end ->
  performs (bind (guard e) k) db r db'.
Proof.
  destruct e as [err|]; [intros [-> ->]|intros H].
  - apply bind_reads_err, fail_performs.
  - eapply bind_reads; [apply ret_performs|done].
Qed.

Lemma guard_does {B} e (k : unit -> T B) db r db' :
  match e with Some err => r = Err (SStore err) /\ db' = db | None => does (k tt) db r db' end ->
  does (bind (guard e) k) db r db'.
Proof.
  destruct e as [err|]; [intros [-> ->]|intros H].
  - apply bind_does_err, performs_does, fail_performs.
  - eapply bind_does; [apply performs_does, ret_performs|done].
Qed.

Lemma exec_does f db db' : f db = Some db' -> does (exec f) db (Ok tt) db'.
Proof.
  intros Hf. split; unfold exec, fate; cbn; [|by rewrite Hf].
  intros [|[x|] plan]; cbn; rewrite Hf; [by left| |by left]. right. by eexists.
Qed.

Lemma query_row_performs {R} (f : database -> option (list R)) db l :
  f db = Some l -> performs (query_row f) db (Ok (head l)) db.
Proof.
  intros Hf. split; unfold query_row, bind, query, fate; cbn; [|rewrite Hf; by destruct l].
  intros [|[x|] plan]; cbn; rewrite Hf; [by left; destruct l| |by left; destruct l].
  destruct (take (flAfter x) l) as [|r l'] eqn:E; cbn; [right; split; [by eexists|by left]|].
  left. destruct (flAfter x), l; by simplify_eq/=.
Qed.

(** A query that is read to its end, or the failure reported after some rows. *)
Lemma query_all {R B} (f : database -> option (list R)) (k : list R * option serror -> T B) db l r :
  f db = Some l ->
  performs (k (l, None)) db r db ->
  (forall n b, performs (k (take n l, Some (SDatabase b))) db r db
    \/ forall plan, dberr (k (take n l, Some (SDatabase b)) (MkWorld db plan)).1
         /\ wDb (k (take n l, Some (SDatabase b)) (MkWorld db plan)).2 = db) ->
  performs (bind (query f) k) db r db.
Proof.
  intros Hf [H0 E0] Hn. split; [|by unfold bind, query, fate; cbn; rewrite Hf].
  intros plan. rewrite bind_world. unfold query, fate.
  destruct plan as [|[x|] plan]; cbn [wPlan wDb]; rewrite Hf; cbn [fst snd]; [apply H0| |apply H0].
  destruct (Hn (flAfter x) (flBusy x)) as [[H _]|H]; [apply H|].
  right. destruct (H plan) as [? ->]. auto.
Qed.

(** A transaction takes effect whole or not at all. *)
Lemma in_tx_performs {A} (m : T A) db a db' :
  does m db (Ok a) db' -> performs (in_tx m) db (Ok a) db'.
Proof.
  intros [Hm Em]. split; [|by unfold in_tx, fate; cbn; rewrite Em].
  intros plan. unfold in_tx, fate. cbn [wPlan wDb].
  assert (Hr : forall p, let '(r, w') := match m (MkWorld db p) with
      | (Err e, w2) => (Err e, with_db db w2)
      | (Ok a, w2) =>
          let (o, w3) := match wPlan w2 with [] => (None, w2) | f :: l => (f, MkWorld (wDb w2) l) end in
          match o with
          | None => (Ok a, w3)
          | Some x => (Err (SDatabase (flBusy x)), if (flAfter x =? 0)%nat then with_db db w3 else w3)
          end end in r = Ok a /\ wDb w' = db' \/ dberr r /\ (wDb w' = db \/ wDb w' = db')).
  { intros p. destruct (m (MkWorld db p)) as [r w2] eqn:E. pose proof (Hm p) as H. rewrite E in H. cbn in H.
    destruct H as [[-> Hd]|[b ->]]; [|by right; split; [eexists|left]].
    destruct (wPlan w2) as [|[x|] l]; cbn; [by left| |by left].
    right. split; [by eexists|]. destruct (flAfter x =? 0)%nat; [by left|by right]. }
  destruct plan as [|[x|] p]; cbn.
  - specialize (Hr []). cbn in Hr. by destruct (m (MkWorld db [])) as [[?|?] ?]; [case_match; case_match|].
  - right. split; [by eexists|by left].
  - specialize (Hr p). cbn in Hr. by destruct (m (MkWorld db p)) as [[?|?] ?]; [case_match; case_match|].
Qed.

Lemma in_tx_fails {A} (m : T A) db e db' :
  does m db (Err e) db' -> performs (in_tx m) db (Err e) db.
Proof.
  intros [Hm Em]. split; [|by unfold in_tx, fate; cbn; rewrite Em].
  intros plan. unfold in_tx, fate. cbn [wPlan wDb].
  assert (Hr : forall p, exists e' w2, m (MkWorld db p) = (Err e', w2) /\ (e' = e \/ exists b, e' = SDatabase b)).
  { intros p. pose proof (Hm p) as H. destruct (m (MkWorld db p)) as [r w2]. cbn in H.
    destruct H as [[-> _]|[b ->]]; do 2 eexists; split; eauto. }
  destruct plan as [|[x|] p]; cbn.
  - destruct (Hr []) as (e' & w2 & -> & [->|[b ->]]); cbn; [by left|right; split; [by eexists|by left]].
  - right. split; [by eexists|by left].
  - destruct (Hr p) as (e' & w2 & -> & [->|[b ->]]); cbn; [by left|right; split; [by eexists|by left]].
Qed.

(** ** The tables *)

Lemma set_rows_tables name r db n :
  dbTables (set_rows name r db) !! n
  = if decide (name = n) then (fun t => MkTable (tColumns t) r) <$> dbTables db !! n else dbTables db !! n.
Proof. unfold set_rows. cbn. case_decide as H; [subst; apply lookup_alter_eq|by apply lookup_alter_ne]. Qed.

(** What reads one table after a write to one of the three. *)
Ltac tables_cases :=
  unfold entry_rows, journal_rows, fts_rows; rewrite !set_rows_tables;
  repeat match goal with |- context [decide (?x = ?y)] => destruct (decide (x = y)) as [?|?]; try done end.

Lemma set_entries m db : is_Some (entry_rows db) ->
  entry_rows (set_rows entries_name (Entries m) db) = Some m
  /\ journal_rows (set_rows entries_name (Entries m) db) = journal_rows db
  /\ fts_rows (set_rows entries_name (Entries m) db) = fts_rows db.
Proof.
  intros [? H]. revert H. tables_cases. by destruct (dbTables db !! entries_name).
Qed.

Lemma set_journal m db : is_Some (journal_rows db) ->
  entry_rows (set_rows journal_name (JournalRows m) db) = entry_rows db
  /\ journal_rows (set_rows journal_name (JournalRows m) db) = Some m
  /\ fts_rows (set_rows journal_name (JournalRows m) db) = fts_rows db.
Proof.
  intros [? H]. revert H. tables_cases. by destruct (dbTables db !! journal_name).
Qed.

Lemma set_fts l db : is_Some (fts_rows db) ->
  entry_rows (set_rows fts_name (Fts l) db) = entry_rows db
  /\ journal_rows (set_rows fts_name (Fts l) db) = journal_rows db
  /\ fts_rows (set_rows fts_name (Fts l) db) = Some l.
Proof.
  intros [? H]. revert H. tables_cases. by destruct (dbTables db !! fts_name).
Qed.

(** The store's tables have the columns the schema gives them. *)
Definition laid_out (db : database) : Prop :=
  Forall (fun t : bytes * bytes * list bytes => tColumns <$> dbTables db !! t.1.1 = Some t.2) tables
  /\ is_Some (dbIndexes db !! index_name).

Lemma laid_out_set name r db : laid_out db -> laid_out (set_rows name r db).
Proof.
  intros [H Hi]. split; [|done]. eapply Forall_impl; [exact H|]. intros t Ht. cbn beta in *.
  rewrite set_rows_tables. case_decide; [|done]. by rewrite <- option_fmap_compose.
Qed.

(** ** Rows *)

Definition entry_cell (e : Entry) : entry_row :=
  MkEntryRow (eContent e) (meta_column (eMeta e)) (eHash e) (stamp (eUpdated e)).

Definition line_of (c : Change) : bytes := default [] (marshal_change c).
Definition journal_cell (c : Change) : journal_row :=
  MkJournalRow (eScope (cEntry c)) (eName (cEntry c)) (line_of c).

Definition journal_table (j : list Change) : gmap Z journal_row :=
  foldl (fun m c => <[cSeq c := journal_cell c]> m) ∅ j.

Record keeps (max : Z) (db : database) (j : list Change) : Prop := {
  ke_laid : laid_out db;
  ke_entries : entry_rows db = Some (entry_cell <$> replay j);
  ke_journal : journal_rows db = Some (journal_table j);
  ke_fts : exists l, fts_rows db = Some l /\ l ≡ₚ indexed <$> (map_to_list (replay j)).*2;
  ke_wf : journal_wf max j;
  ke_carried : Forall change_carried j
}.

Lemma unmarshal_meta_render m :
  map_Forall (fun k v => ValidString k = true /\ ValidString v = true) m ->
  unmarshal_meta (render (jmap jstring m)) = Some (Some m).
Proof.
  intros Hm. unfold unmarshal_meta. rewrite (json_parse_render 1 (jmap jstring m)).
  - cbn [mbind option_bind]. apply decode_jmap; [|done]. intros k v Hk. destruct (Hm k v Hk).
    split; [done|]. by apply decode_jstring.
  - auto with mem.
  - unfold maxNestingDepth. lia.
Qed.

Lemma unmarshal_braces : unmarshal_meta (bs "{}") = Some (Some ∅).
Proof. by vm_compute. Qed.

(** A row written for an entry builds the entry. *)
Lemma buildEntry_cell e :
  entry_carried e -> eMetaHash e = MetaHash (eMeta e) -> eDeleted e = false ->
  buildEntry (eScope e) (eName e) (entry_cell e) = Ok e.
Proof.
  intros [_ _ _ [Hne Hm] _ _ Hy] Hmh Hd. unfold buildEntry, entry_cell. cbn [erContent erMeta erHash erUpdated].
  assert (Hmeta : (if bool_decide (meta_column (eMeta e) = [] \/ meta_column (eMeta e) = bs "{}") then Ok None
      else match unmarshal_meta (meta_column (eMeta e)) with Some m => Ok m | None => Err (SMeta (eScope e) (eName e)) end)
      = Ok (eMeta e)).
  { destruct (eMeta e) as [m|]; [|done]. cbn [meta_column meta_map default] in *.
    pose proof (unmarshal_meta_render m Hm) as Hu. rewrite Hu. case_bool_decide as E; [|done].
    destruct E as [E|E]; rewrite E in Hu; [by vm_compute in Hu|]. rewrite unmarshal_braces in Hu.
    apply (inj Some) in Hu. congruence. }
  rewrite Hmeta. cbn [res_bind]. unfold stamp. rewrite Parse_Format by by apply year_ok_bounds.
  destruct e. cbn in *. by subst.
Qed.

Section Reads.
Context (max : Z) (db : database) (j : list Change) (Hk : keeps max db j).

Lemma buildEntry_live r e : replay j !! r = Some e -> buildEntry r.1 r.2 (entry_cell e) = Ok e.
Proof using Hk.
  intros Hr. destruct (live_wf _ _ _ _ (ke_wf _ _ _ Hk) Hr) as (_ & Hm & _ & <- & Hd).
  apply buildEntry_cell; [|done..]. by apply (replay_carried _ _ _ (ke_carried _ _ _ Hk) Hr).
Qed.

Lemma get_performs scope name : performs (get scope name) db (Ok (replay j !! (scope, name))) db.
Proof using Hk.
  unfold get. eapply bind_reads.
  - apply query_row_performs. unfold selectEntry. rewrite (ke_entries _ _ _ Hk). cbn. reflexivity.
  - rewrite lookup_fmap. destruct (replay j !! (scope, name)) as [e|] eqn:E; cbn; [|apply ret_performs].
    rewrite (buildEntry_live _ _ E : buildEntry scope name _ = _). eapply bind_reads; apply ret_performs.
Qed.

Lemma sqlite_get_performs scope name :
  performs (sqlite_get scope name) db
    (match spec_get j scope name with Ok e => Ok e | Err e => Err (SStore e) end) db.
Proof using Hk.
  unfold sqlite_get, spec_get. apply guard_reads. destruct (CheckRef scope name); [done|].
  eapply bind_reads; [apply get_performs|]. destruct (replay j !! _); [apply ret_performs|apply fail_performs].
Qed.

(** The rows of a scope are those of its live entries, by name. *)
Lemma selectScope_live scope :
  selectScope scope db = Some ((fun e => (eName e, entry_cell e)) <$> live_in (replay j) scope).
Proof using Hk.
  unfold selectScope. rewrite (ke_entries _ _ _ Hk). cbn. f_equal. unfold live_in.
  set (P := fun x : ref * entry_row => x.1.1 = scope).
  set (l := map_to_list (filter (fun re : ref * Entry => re.1.1 = scope) (replay j))).
  assert (Hf : filter P (entry_cell <$> replay j) = entry_cell <$> filter (fun re : ref * Entry => re.1.1 = scope) (replay j)).
  { apply map_eq. intros r. apply option_eq. intros c. rewrite map_lookup_filter_Some, !lookup_fmap_Some.
    setoid_rewrite map_lookup_filter_Some. unfold P. cbn. naive_solver. }
  rewrite Hf, map_to_list_fmap. fold l.
  assert (Hl : (fun x : ref * entry_row => (x.1.2, x.2)) <$> (prod_map id entry_cell <$> l)
               = (fun e => (eName e, entry_cell e)) <$> l.*2).
  { rewrite <- !list_fmap_compose. apply list_fmap_ext. intros i [[s n] e] Hi%list_elem_of_lookup_2. cbn.
    apply elem_of_map_to_list, map_lookup_filter_Some in Hi as [Hi _]. by apply replay_ref in Hi as [[= _ ->] _]. }
  rewrite Hl. symmetry. apply (sort_on_unique fst).
  - rewrite <- list_fmap_compose. change (NoDup (eName <$> l.*2)). by apply live_names_NoDup, replay_keyed.
  - eapply StronglySorted_fmap; [|apply sort_on_sorted]. by intros ? ?.
  - by rewrite sort_on_perm.
Qed.
Lemma build_live scope es :
  Forall (fun e => replay j !! (scope, eName e) = Some e) es ->
  build_loop scope ((fun e => (eName e, entry_cell e)) <$> es) = Ok es.
Proof using Hk.
  induction 1 as [|e es Hr _ IH]; [done|]. cbn. rewrite (buildEntry_live _ _ Hr : buildEntry scope (eName e) _ = _).
  cbn. by rewrite IH.
Qed.

Lemma live_in_live scope : Forall (fun e => replay j !! (scope, eName e) = Some e) (live_in (replay j) scope).
Proof using. apply Forall_forall. intros e. apply live_in_elem, replay_keyed. Qed.

Lemma sqlite_list_performs scope :
  performs (sqlite_list scope) db
    (match spec_list j scope with Ok es => Ok es | Err e => Err (SStore e) end) db.
Proof using Hk.
  unfold sqlite_list, spec_list. apply guard_reads. destruct (CheckScope scope); [done|].
  eapply query_all; [apply selectScope_live| |].
  - rewrite build_live by apply live_in_live. eapply bind_reads; apply ret_performs.
  - intros n b. right. intros plan. rewrite <- fmap_take, build_live by apply Forall_take, live_in_live.
    cbn. split; [by eexists|done].
Qed.
End Reads.

(** ** The journal *)

(** Records numbered from 1, as those of a journal are. *)
Definition counted (j : list Change) : Prop := forall i c, j !! i = Some c -> cSeq c = Z.of_nat i + 1.

Lemma counted_snoc j c : counted (j ++ [c]) -> counted j /\ cSeq c = blen j + 1.
Proof.
  intros H. split.
  - intros i d Hi. apply H. by apply lookup_app_l_Some.
  - unfold blen. apply H. by apply list_lookup_middle.
Qed.

Lemma journal_table_snoc j c : journal_table (j ++ [c]) = <[cSeq c := journal_cell c]> (journal_table j).
Proof. unfold journal_table. by rewrite foldl_app. Qed.

Lemma journal_table_lookup j n :
  counted j -> journal_table j !! n = (if 0 <? n then journal_cell <$> j !! Z.to_nat (n - 1) else None).
Proof.
  induction j as [|c j IH] using rev_ind; intros Hj.
  { rewrite lookup_nil. by destruct (0 <? n). }
  apply counted_snoc in Hj as [Hj Hc]. pose proof (blen_nonneg j). rewrite journal_table_snoc, Hc.
  destruct (decide (n = blen j + 1)) as [->|Hn].
  - rewrite lookup_insert_eq. destruct (Z.ltb_spec 0 (blen j + 1)); [|lia].
    unfold blen. rewrite list_lookup_middle by lia. done.
  - rewrite lookup_insert_ne by done. rewrite IH by done. destruct (Z.ltb_spec 0 n); [|done]. f_equal.
    destruct (decide (n < blen j + 1)) as [Hl|Hl]; unfold blen in *.
    + by rewrite lookup_app_l by lia.
    + rewrite !lookup_ge_None_2; [done|rewrite length_app; cbn; lia|lia].
Qed.

Lemma journal_table_elem j n r :
  counted j -> journal_table j !! n = Some r <-> exists c, c ∈ j /\ cSeq c = n /\ journal_cell c = r.
Proof.
  intros Hj. rewrite journal_table_lookup by done. split.
  - destruct (Z.ltb_spec 0 n); [|done]. intros (c & Hc & ->)%fmap_Some. exists c.
    split_and!; [by eapply list_elem_of_lookup_2|apply Hj in Hc; lia|done].
  - intros (c & [i Hi]%list_elem_of_lookup & <- & <-). pose proof (Hj i c Hi) as ->.
    destruct (Z.ltb_spec 0 (Z.of_nat i + 1)); [|lia].
    replace (Z.to_nat (Z.of_nat i + 1 - 1)) with i by lia. by rewrite Hi.
Qed.

Lemma foldl_max l : forall n, n <= foldl Z.max n l /\ Forall (fun x => x <= foldl Z.max n l) l
  /\ (foldl Z.max n l = n \/ foldl Z.max n l ∈ l).
Proof.
  induction l as [|x l IH]; intros n; cbn; [split_and!; [lia|constructor|by left]|].
  destruct (IH (Z.max n x)) as (H1 & H2 & H3). split_and!; [lia|constructor; [lia|done]|].
  rewrite elem_of_cons. destruct H3; [|auto]. destruct (Z.max_spec n x) as [[? E]|[? E]]; rewrite E in *; auto.
Qed.

(** The largest number is the count. *)
Lemma selectMax_journal db j : counted j -> journal_rows db = Some (journal_table j) ->
  exists n, selectMax db = Some [n] /\ default 0 n = blen j.
Proof.
  intros Hj Hr. unfold selectMax. rewrite Hr. cbn. eexists. split; [done|].
  assert (Hin : forall x, x ∈ (map_to_list (journal_table j)).*1 <-> exists c, c ∈ j /\ cSeq c = x).
  { intros x. rewrite list_elem_of_fmap. split.
    - intros ([n r] & -> & H%elem_of_map_to_list). apply journal_table_elem in H as (c & ? & ? & _); eauto.
    - intros (c & Hc & <-). exists (cSeq c, journal_cell c). split; [done|].
      apply elem_of_map_to_list, journal_table_elem; eauto. }
  assert (Hlast : forall c, c ∈ j -> cSeq c <= blen j).
  { intros c [i Hi]%list_elem_of_lookup. rewrite (Hj i c Hi). apply lookup_lt_Some in Hi. unfold blen. lia. }
  destruct (last j) as [c|] eqn:El.
  - apply last_Some in El as [j' ->]. apply counted_snoc in Hj as [_ Hc].
    assert (Hm : cSeq c ∈ (map_to_list (journal_table (j' ++ [c]))).*1) by (apply Hin; exists c; split; [set_solver|done]).
    destruct ((map_to_list _).*1) as [|n l] eqn:E; [by apply elem_of_nil in Hm|]. cbn.
    destruct (foldl_max l n) as (H1 & H2 & H3). rewrite blen_app in *. cbn in *.
    assert (foldl Z.max n l <= blen j' + 1).
    { assert (foldl Z.max n l ∈ n :: l) as (d & Hd & <-)%Hin by (rewrite elem_of_cons; destruct H3; auto).
      apply (Hlast d Hd). }
    assert (cSeq c <= foldl Z.max n l).
    { apply elem_of_cons in Hm as [->|Hm]; [done|]. rewrite Forall_forall in H2. by apply H2. }
    change (blen [c]) with 1. lia.
  - apply last_None in El as ->. done.
Qed.

(** The rows past a number, in order, are those of the records past it. *)
Lemma selectAfter_journal db j after : counted j -> journal_rows db = Some (journal_table j) ->
  selectAfter after db = Some ((fun c => (cSeq c, journal_cell c)) <$> filter (fun c => after < cSeq c) j).
Proof.
  intros Hj Hr. unfold selectAfter. rewrite Hr. cbn. f_equal.
  set (P := fun x : Z * journal_row => after < x.1).
  assert (Hnd : NoDup j).
  { apply NoDup_alt. intros i k c Hi Hk. pose proof (Hj i c Hi). pose proof (Hj k c Hk). lia. }
  assert (Hin : forall x, x ∈ map_to_list (filter P (journal_table j)) <->
      x ∈ (fun c => (cSeq c, journal_cell c)) <$> filter (fun c => after < cSeq c) j).
  { intros [n r]. rewrite elem_of_map_to_list, map_lookup_filter_Some, journal_table_elem, list_elem_of_fmap by done.
    setoid_rewrite list_elem_of_filter. unfold P. cbn. split.
    - intros [(c & Hc & <- & <-) Ha]. eauto.
    - intros (c & [= -> ->] & ? & ?). eauto. }
  apply (StronglySorted_unique_strong by_seq).
  - intros [n r] [n' r'] Hx Hy H1 H2. unfold by_seq in *. cbn in *. assert (n = n') as -> by lia. f_equal.
    rewrite (merge_sort_Permutation by_seq), elem_of_map_to_list, map_lookup_filter_Some in Hx.
    rewrite <- Hin, elem_of_map_to_list, map_lookup_filter_Some in Hy. naive_solver congruence.
  - apply StronglySorted_merge_sort; [intros x y z; unfold by_seq; lia|intros x y; unfold by_seq; lia].
  - clear Hin Hnd P Hr. revert Hj. induction j as [|c j IH] using rev_ind; intros Hj; [constructor|].
    assert (Hsnoc := counted_snoc _ _ Hj). destruct Hsnoc as [Hj' Hc]. rewrite filter_app, fmap_app.
    assert (Hle : Forall (fun x => by_seq x (cSeq c, journal_cell c))
        ((fun c => (cSeq c, journal_cell c)) <$> filter (fun c => after < cSeq c) j)).
    { apply Forall_fmap, Forall_forall. intros d [_ [i Hi]%list_elem_of_lookup]%list_elem_of_filter.
      unfold by_seq. cbn. rewrite Hc, (Hj' i d Hi). apply lookup_lt_Some in Hi. unfold blen. lia. }
    apply StronglySorted_app_2; [|by apply IH|].
    + intros x y Hx Hy. rewrite Forall_forall in Hle. apply list_elem_of_fmap in Hy as (d & -> & Hd).
      apply list_elem_of_filter in Hd as [_ ->%list_elem_of_singleton]. by apply Hle.
    + rewrite filter_cons, filter_nil. case_decide; cbn; repeat constructor.
  - rewrite merge_sort_Permutation. apply NoDup_Permutation; [apply NoDup_map_to_list| |done].
    apply NoDup_fmap_2_strong; [|by apply NoDup_filter].
    intros c d [_ [i Hi]%list_elem_of_lookup]%list_elem_of_filter [_ [k Hk]%list_elem_of_lookup]%list_elem_of_filter E%(f_equal fst).
    cbn [fst] in E.
    rewrite (Hj i c Hi), (Hj k d Hk) in E. assert (i = k) as -> by lia. congruence.
Qed.

Lemma keeps_counted max db j : keeps max db j -> counted j.
Proof. intros Hk i c Hi. by apply (journal_wf_seq _ _ _ _ (ke_wf _ _ _ Hk)). Qed.

Lemma to_uint64_small n : 0 <= n < 2 ^ 64 -> to_uint64 n = n.
Proof. apply Z.mod_small. Qed.

Lemma to_int64_small n : 0 <= n < 2 ^ 63 -> to_int64 n = n.
Proof. intros H. unfold to_int64. rewrite Z.mod_small; lia. Qed.

(** A row read back is its record. *)
Lemma yielded_cell c : change_carried c -> yielded (cSeq c, journal_cell c) = Ok c.
Proof.
  intros Hc. unfold yielded. cbn [fst snd jrLine journal_cell]. unfold line_of.
  destruct (marshal_carried c Hc) as [line Hl]. rewrite Hl. change (default [] (Some line)) with line.
  destruct (unmarshal_marshal_change c line Hc Hl) as [_ ->]. rewrite to_uint64_small by apply Hc. by destruct c.
Qed.

Lemma last_seq_performs max db j : keeps max db j -> blen j < 2 ^ 63 -> performs sqlite_last_seq db (Ok (blen j)) db.
Proof.
  intros Hk Hj. destruct (selectMax_journal db j) as (n & Hs & Hn); [by eapply keeps_counted|apply Hk|].
  unfold sqlite_last_seq. eapply bind_reads; [by apply query_row_performs|]. cbn [head]. unfold scan_max.
  change (default None (Some n)) with n. rewrite Hn. pose proof (blen_nonneg j).
  rewrite to_uint64_small by lia. apply ret_performs.
Qed.

(** ** Writing *)

(** A database with these rows in its tables. *)
Record shape (db : database) (m : gmap ref entry_row) (jm : gmap Z journal_row) (l : list fts_row) : Prop := {
  sh_laid : laid_out db;
  sh_entries : entry_rows db = Some m;
  sh_journal : journal_rows db = Some jm;
  sh_fts : fts_rows db = Some l
}.

Lemma entries_does f g db m jm l :
  shape db m jm l ->
  (forall db, f db = (m ← entry_rows db; Some (set_rows entries_name (Entries (g m)) db))) ->
  exists db', does (exec f) db (Ok tt) db' /\ shape db' (g m) jm l.
Proof.
  intros [Hl He Hj Hf] Hg. exists (set_rows entries_name (Entries (g m)) db). split; [apply exec_does; by rewrite Hg, He|].
  destruct (set_entries (g m) db) as (E1 & E2 & E3); [by rewrite He|].
  split; [by apply laid_out_set|congruence..].
Qed.

Lemma fts_does f g db m jm l :
  shape db m jm l ->
  (forall db, f db = (l ← fts_rows db; Some (set_rows fts_name (Fts (g l)) db))) ->
  exists db', does (exec f) db (Ok tt) db' /\ shape db' m jm (g l).
Proof.
  intros [Hl He Hj Hf] Hg. exists (set_rows fts_name (Fts (g l)) db). split; [apply exec_does; by rewrite Hg, Hf|].
  destruct (set_fts (g l) db) as (E1 & E2 & E3); [by rewrite Hf|].
  split; [by apply laid_out_set|congruence..].
Qed.

Definition without (scope name : bytes) (l : list fts_row) : list fts_row :=
  filter (fun r => ~ (frScope r = scope /\ frName r = name)) l.

Lemma reindex_does db m jm l scope name e :
  shape db m jm l ->
  exists db', does (reindex scope name e) db (Ok tt) db'
    /\ shape db' m jm (without scope name l ++ match e with Some e => [indexed e] | None => [] end).
Proof.
  intros H. unfold reindex.
  destruct (fts_does (deleteFts scope name) (without scope name) db m jm l H) as (db1 & H1 & S1); [done|].
  destruct e as [e|].
  - destruct (fts_does (insertFts (indexed e)) (fun l => l ++ [indexed e]) db1 m jm _ S1) as (db2 & H2 & S2); [done|].
    exists db2. split; [by eapply bind_does|done].
  - exists db1. rewrite app_nil_r. split; [|done]. eapply bind_does; [done|]. apply performs_does, ret_performs.
Qed.

(** The end of a write: the record is numbered and its row inserted. *)
Lemma record_does db m j l c0 c :
  shape db m (journal_table j) l -> counted j -> blen j + 1 < 2 ^ 63 ->
  c = numbered (blen j + 1) c0 -> change_carried c ->
  exists db', does (record c0) db (Ok c) db' /\ shape db' m (journal_table (j ++ [c])) l.
Proof.
  intros Hs Hcount Hj -> Hc. pose proof (blen_nonneg j).
  destruct (selectMax_journal db j Hcount (sh_journal _ _ _ _ Hs)) as (n & Hm & Hn).
  exists (set_rows journal_name (JournalRows (journal_table (j ++ [numbered (blen j + 1) c0]))) db). split.
  - unfold record. eapply bind_does; [by apply performs_does, query_row_performs|]. cbn [head].
    unfold scan_max. change (default None (Some n)) with n. rewrite Hn, (to_uint64_small (blen j)), to_uint64_small by lia.
    cbv zeta. destruct (marshal_carried _ Hc) as [line Hl]. rewrite Hl.
    eapply bind_does; [|apply performs_does, ret_performs]. apply exec_does. unfold insertJournal.
    rewrite (sh_journal _ _ _ _ Hs). cbn [mbind option_bind]. rewrite to_int64_small by (cbn; lia). cbn [cSeq numbered].
    rewrite journal_table_lookup by done. destruct (Z.ltb_spec 0 (blen j + 1)); [|lia].
    rewrite lookup_ge_None_2 by (unfold blen; lia). cbn [fmap option_fmap option_map]. do 3 f_equal.
    rewrite journal_table_snoc. cbn [cSeq numbered]. f_equal. unfold journal_cell, line_of. by rewrite Hl.
  - destruct Hs as [Hl He Hjr Hf].
    destruct (set_journal (journal_table (j ++ [numbered (blen j + 1) c0])) db) as (E1 & E2 & E3); [by rewrite Hjr|].
    split; [by apply laid_out_set|congruence..].
Qed.

(** The index less an entry's row, when it holds the rows of a map. *)
Lemma fts_delete (m : gmap ref Entry) l scope name :
  (forall r e, m !! r = Some e -> entry_ref e = r) -> l ≡ₚ indexed <$> (map_to_list m).*2 ->
  without scope name l ≡ₚ indexed <$> (map_to_list (delete (scope, name) m)).*2.
Proof.
  unfold without.
  intros Hm ->. set (P := fun r => ~ (frScope r = scope /\ frName r = name)).
  assert (Hall : forall m' : gmap ref Entry, (forall r e, m' !! r = Some e -> entry_ref e = r /\ r <> (scope, name)) ->
      filter P (indexed <$> (map_to_list m').*2) = indexed <$> (map_to_list m').*2).
  { intros m' H. apply filter_all. apply Forall_fmap, Forall_fmap, Forall_forall. intros [r e] He%elem_of_map_to_list.
    destruct (H r e He) as [<- Hne]. unfold P. cbn. intros [<- <-]. by apply Hne. }
  destruct (m !! (scope, name)) as [e|] eqn:E.
  - rewrite <- (insert_delete_id m _ _ E) at 1. rewrite map_to_list_insert by apply lookup_delete_eq. cbn [fmap list_fmap snd].
    rewrite filter_cons_False. 2: { unfold P. cbn. pose proof (Hm _ _ E) as [= -> ->]. tauto. }
    rewrite Hall; [done|]. intros r e' [Hne H]%lookup_delete_Some. split; [by apply Hm|done].
  - rewrite delete_id by done. rewrite Hall; [done|]. intros r e' H. split; [by apply Hm|congruence].
Qed.

Lemma keeps_shape max db j : keeps max db j ->
  exists l, shape db (entry_cell <$> replay j) (journal_table j) l /\ l ≡ₚ indexed <$> (map_to_list (replay j)).*2.
Proof. intros [? ? ? (l & ? & ?) _ _]. exists l. by split. Qed.

Lemma keeps_append max db db' j c l :
  keeps max db j -> shape db' (entry_cell <$> apply_change (replay j) c) (journal_table (j ++ [c])) l ->
  l ≡ₚ indexed <$> (map_to_list (apply_change (replay j) c)).*2 ->
  change_wf max j c -> change_carried c -> keeps max db' (j ++ [c]).
Proof.
  intros Hk [Hl He Hj Hf] Hp Hwf Hc. split; [done|by rewrite replay_snoc|done|rewrite replay_snoc; eauto| |].
  - apply journal_wf_snoc; [apply Hk|done].
  - apply Forall_app. split; [apply Hk|by constructor].
Qed.

(** A transaction of one of the contract's writes. *)
Definition commits (m : T Change) (max : Z) (db : database) (j : list Change) (r : res error Change) : Prop :=
  exists db', performs m db (match r with Ok c => Ok c | Err e => Err (SStore e) end) db'
    /\ match r with Ok c => keeps max db' (j ++ [c]) | Err _ => db' = db end.

Section Put.
Context (max : Z) (db : database) (j : list Change) (now : Z) (session : bytes).
Context (Hk : keeps max db j) (Hj : blen j + 1 < 2 ^ 63) (Hy : year_ok now = true) (Hse : ValidString session = true).

Lemma put_commits e opts : opts_text opts ->
  commits (sqlite_put max now session e opts) max db j (spec_put max j now session e opts).
Proof using Hk Hj Hy Hse.
  intros Ho. unfold commits, sqlite_put. destruct (CheckEntry e 0 None) as [err|] eqn:E0.
  { exists db. unfold spec_put. rewrite (CheckEntry_unlimited e max _ err E0). split; [|done]. by apply guard_reads. }
  destruct (spec_put max j now session e opts) as [c|err] eqn:Esp.
  2: { exists db. split; [|done]. apply guard_reads. eapply in_tx_fails.
       eapply bind_does; [eapply performs_does, get_performs, Hk|]. unfold spec_put, entry_ref in Esp.
       apply guard_does. destruct (CheckEntry e max _); [by simplify_eq|].
       apply guard_does. destruct (PutOptions_Check _ _ _ _); by simplify_eq. }
  pose proof (spec_put_carried _ _ _ (ke_carried _ _ _ Hk) ltac:(lia) Hy Hse _ _ _ _ Ho Esp) as Hc.
  pose proof (spec_put_wf _ _ _ _ _ _ _ Esp) as Hwf.
  unfold spec_put, entry_ref in Esp. destruct (CheckEntry e max _) eqn:E1; [done|].
  destruct (PutOptions_Check _ _ _ _) eqn:E2; [done|]. injection Esp as Ec.
  destruct (keeps_shape _ _ _ Hk) as (l & S0 & Hp). set (e' := stamped now e) in *.
  destruct (entries_does (upsertEntry (eScope e') (eName e') (entry_cell e')) (insert (eScope e', eName e') (entry_cell e')) _ _ _ _ S0)
    as (db1 & H1 & S1); [done|].
  destruct (reindex_does _ _ _ _ (eScope e') (eName e') (Some e') S1) as (db2 & H2 & S2).
  destruct (record_does _ _ _ _ (MkChange 0 e' (BaseFor (ResolvePutOptions opts) (replay j !! (eScope e, eName e)))
    (have_hash (replay j !! (eScope e, eName e))) session [] now) c S2) as (db3 & H3 & S3); [by eapply keeps_counted|done|by rewrite <- Ec|done|].
  exists db3. split.
  - apply guard_reads. apply in_tx_performs.
    eapply bind_does; [eapply performs_does, get_performs, Hk|].
    apply guard_does. rewrite E1. apply guard_does. rewrite E2. cbv zeta.
    eapply bind_does; [exact H1|]. eapply bind_does; [exact H2|exact H3].
  - assert (Happ : apply_change (replay j) c = <[(eScope e', eName e') := e']> (replay j)) by by rewrite <- Ec.
    eapply keeps_append; [done| | |done|done]; rewrite Happ.
    + rewrite fmap_insert. exact S3.
    + rewrite <- insert_delete_eq, map_to_list_insert by apply lookup_delete_eq. cbn [fmap list_fmap snd].
      rewrite Permutation_app_comm. cbn. f_equiv. apply fts_delete; [|done]. intros r x Hx. by apply replay_keyed in Hx.
Qed.

Lemma forget_commits scope name :
  commits (sqlite_forget now session scope name) max db j (spec_forget j now session scope name).
Proof using Hk Hj Hy Hse.
  unfold commits, sqlite_forget. destruct (CheckRef scope name) as [err|] eqn:Er.
  { exists db. unfold spec_forget. rewrite Er. split; [|done]. by apply guard_reads. }
  destruct (spec_forget j now session scope name) as [c|err] eqn:Esp.
  2: { exists db. split; [|done]. apply guard_reads. eapply in_tx_fails.
       eapply bind_does; [eapply performs_does, get_performs, Hk|]. unfold spec_forget in Esp. rewrite Er in Esp.
       destruct (replay j !! (scope, name)); simplify_eq. apply performs_does, fail_performs. }
  pose proof (spec_forget_carried _ _ _ (ke_carried _ _ _ Hk) ltac:(lia) Hy Hse _ _ _ Esp) as Hc.
  pose proof (spec_forget_wf _ _ _ _ _ _ _ (ke_wf _ _ _ Hk) Esp) as Hwf.
  unfold spec_forget in Esp. rewrite Er in Esp. destruct (replay j !! (scope, name)) as [s|] eqn:Es; [|done]. injection Esp as Ec.
  destruct (keeps_shape _ _ _ Hk) as (l & S0 & Hp).
  destruct (entries_does (deleteEntry scope name) (delete (scope, name)) _ _ _ _ S0) as (db1 & H1 & S1); [done|].
  destruct (reindex_does _ _ _ _ scope name None S1) as (db2 & H2 & S2).
  destruct (record_does _ _ _ _ (MkChange 0 (tombstone now s) (eHash s) (eHash s) session [] now) c S2) as (db3 & H3 & S3);
    [by eapply keeps_counted|done|by rewrite <- Ec|done|].
  exists db3. split.
  - apply guard_reads. apply in_tx_performs.
    eapply bind_does; [eapply performs_does, get_performs, Hk|]. rewrite Es.
    eapply bind_does; [exact H1|]. eapply bind_does; [exact H2|exact H3].
  - destruct (replay_ref _ _ _ Es) as [Href _]. unfold entry_ref in Href. injection Href as E1 E2.
    assert (Happ : apply_change (replay j) c = delete (scope, name) (replay j)).
    { rewrite <- Ec. unfold apply_change, change_ref, entry_ref. cbn. by rewrite E1, E2. }
    eapply keeps_append; [done| | |done|done]; rewrite Happ.
    + rewrite fmap_delete. exact S3.
    + rewrite app_nil_r. apply fts_delete; [|done]. intros r x Hx. by apply replay_keyed in Hx.
Qed.
End Put.

(** ** Any operation *)

Inductive sobs :=
| SGet (r : res serror Entry)
| SList (r : res serror (list Entry))
| SWrite (r : res serror Change)
| SJournal (r : res serror (list (res serror Change)))
| SNumber (r : res serror Z).

Definition answer {A} (f : res serror A -> sobs) (m : T A) (w : world) : world * sobs :=
  let (r, w') := m w in (w', f r).

Definition sqlite_do (max : Z) (w : world) (o : op) : world * sobs :=
  match o with
  | OGet scope name => answer SGet (sqlite_get scope name) w
  | OList scope => answer SList (sqlite_list scope) w
  | OPut now session e opts => answer SWrite (sqlite_put max now session e opts) w
  | OForget now session scope name => answer SWrite (sqlite_forget now session scope name) w
  | OJournal after => answer SJournal (sqlite_journal after) w
  | OLastSeq => answer SNumber sqlite_last_seq w
  | OMaxEntryBytes => (w, SNumber (Ok max))
  end.

Fixpoint sqlite_run (max : Z) (w : world) (ops : list op) : world * list sobs :=
  match ops with
  | [] => (w, [])
  | o :: ops' => let (w1, r) := sqlite_do max w o in let (w2, rs) := sqlite_run max w1 ops' in (w2, r :: rs)
  end.

Definition sql_lift {A} (r : res error A) : res serror A := match r with Ok a => Ok a | Err e => Err (SStore e) end.

(** An answer of the specification, as the store gives it. *)
Definition sql_journal (l : list (res jerror Change)) : list (res serror Change) :=
  (fun r => match r with Ok c => Ok c | Err (Damaged n) => Err (SRecord n) end) <$> l.

Definition sql_obs (o : obs) : sobs :=
  match o with
  | RGet r => SGet (sql_lift r)
  | RList r => SList (sql_lift r)
  | RWrite r => SWrite (sql_lift r)
  | RJournal l => SJournal (Ok (sql_journal l))
  | RNumber n => SNumber (Ok n)
  end.

(** An answer that reports a database error in the place of [o]: a reading
    of the journal yields the records up to it first. *)
Definition broken (o : obs) (x : sobs) : Prop :=
  match o, x with
  | RGet _, SGet r => dberr r
  | RList _, SList r => dberr r
  | RWrite _, SWrite r => dberr r
  | RNumber _, SNumber r => dberr r
  | RJournal l, SJournal r => exists n b, r = Ok (take n (sql_journal l) ++ [Err (SDatabase b)])
  | _, _ => False
  end.

(** What JSON and the tables can carry: times of years 0 to 9999, text that
    is UTF-8, and numbers an int64 holds. *)
Definition op_carried (o : op) : Prop :=
  match o with
  | OPut now session _ opts => year_ok now = true /\ ValidString session = true /\ opts_text opts
  | OForget now session _ _ => year_ok now = true /\ ValidString session = true
  | OJournal after => 0 <= after < 2 ^ 63
  | _ => True
  end.

Lemma journal_reads max db j after plan :
  keeps max db j -> 0 <= after < 2 ^ 63 ->
  let l := sql_journal (Ok <$> filter (fun c => after < cSeq c) j) in
  let w := sqlite_journal after (MkWorld db plan) in
  wDb w.2 = db /\ (w.1 = Ok l \/ exists n b, w.1 = Ok (take n l ++ [Err (SDatabase b)]))
  /\ (plan = [] -> w = (Ok l, MkWorld db [])).
Proof.
  intros Hk Ha. cbv zeta. unfold sqlite_journal, bind, query, fate. cbn [wDb wPlan].
  rewrite to_int64_small by done.
  assert (Hs : selectAfter after db = Some ((fun c => (cSeq c, journal_cell c)) <$> filter (fun c => after < cSeq c) j))
    by (apply selectAfter_journal; [by eapply keeps_counted|apply Hk]).
  assert (Hy : yielded <$> ((fun c => (cSeq c, journal_cell c)) <$> filter (fun c => after < cSeq c) j)
      = sql_journal (Ok <$> filter (fun c => after < cSeq c) j)).
  { unfold sql_journal. rewrite <- !list_fmap_compose. apply list_fmap_ext.
    intros i c [_ Hc]%list_elem_of_lookup_2%list_elem_of_filter. cbn. apply yielded_cell.
    pose proof (ke_carried _ _ _ Hk) as Hall. rewrite Forall_forall in Hall. by apply Hall. }
  destruct plan as [|[x|] plan]; cbn [wDb wPlan]; rewrite Hs; cbn [ret fst snd wDb].
  - rewrite Hy, app_nil_r. auto.
  - rewrite fmap_take, Hy. split_and!; [done|right; by do 2 eexists|done].
  - rewrite Hy, app_nil_r. split_and!; [done|by left|done].
Qed.

(** One operation: the answer of the specification and its journal, or a
    database error and one of the two journals. *)
Definition stepped (max : Z) (j : list Change) (o : op) (x : sobs) (j' : list Change) : Prop :=
  let s := do (MkSpec max j) o in
  x = sql_obs s.2 /\ j' = spJournal s.1
  \/ broken s.2 x /\ (j' = j \/ j' = spJournal s.1).

Definition conforms (max : Z) (db : database) (j : list Change) (o : op) (plan : list (option fault)) : Prop :=
  let w := sqlite_do max (MkWorld db plan) o in
  let s := do (MkSpec max j) o in
  exists j', keeps max (wDb w.1) j' /\ stepped max j o w.2 j'
    /\ (plan = [] -> w.2 = sql_obs s.2 /\ j' = spJournal s.1 /\ wPlan w.1 = []).

Section Conforms.
Context (max : Z) (db : database) (j : list Change) (plan : list (option fault)) (Hk : keeps max db j).

Lemma read_conforms {A} (f : res serror A -> sobs) (m : T A) x0 o o0 :
  performs m db x0 db -> sql_obs o0 = f x0 -> (forall x, dberr x -> broken o0 (f x)) ->
  do (MkSpec max j) o = (MkSpec max j, o0) ->
  sqlite_do max (MkWorld db plan) o = answer f m (MkWorld db plan) -> conforms max db j o plan.
Proof using Hk.
  intros [Hm Em] Hx Hb Hd Hs. unfold conforms, stepped. rewrite Hd, Hs. cbn [fst snd spJournal]. exists j.
  unfold answer. specialize (Hm plan). destruct (m (MkWorld db plan)) as [x w'] eqn:E. cbn in *. rewrite Hx. split_and!.
  - destruct Hm as [[_ ->]|[_ [->| ->] ] ]; done.
  - destruct Hm as [[-> _]|[He _]]; auto.
  - intros ->. rewrite Em in E. by injection E as <- <-.
Qed.

Lemma write_conforms m o r :
  commits m max db j r -> do (MkSpec max j) o = (MkSpec max (appended j r), RWrite r) ->
  sqlite_do max (MkWorld db plan) o = answer SWrite m (MkWorld db plan) -> conforms max db j o plan.
Proof using Hk.
  intros (db' & [Hm Em] & Hdb') Hd Hs. unfold conforms, stepped. rewrite Hd, Hs. cbn [fst snd spJournal].
  assert (Hk' : keeps max db' (appended j r)) by (destruct r; [done|by rewrite Hdb']).
  unfold answer. specialize (Hm plan). destruct (m (MkWorld db plan)) as [x w'] eqn:E. cbn in Hm |- *.
  destruct Hm as [[-> ->]|[He Hw]].
  - exists (appended j r). split_and!; [done|by left|]. intros ->. rewrite Em in E. by inversion E.
  - assert (Hne : plan <> []).
    { intros ->. rewrite Em in E. injection E as <- <-. destruct He as [b He]. destruct r; simplify_eq. }
    destruct Hw as [->| ->]; [exists j|exists (appended j r)]; (split_and!; [done|right; auto|done]).
Qed.

Lemma journal_conforms after : 0 <= after < 2 ^ 63 -> conforms max db j (OJournal after) plan.
Proof using Hk.
  intros Ha. unfold conforms, stepped. cbn [do fst snd spJournal sqlite_do]. exists j.
  destruct (journal_reads max db j after plan Hk Ha) as (H1 & H2 & H3). unfold answer.
  destruct (sqlite_journal after _) as [x w']. cbn in *. split_and!.
  - by rewrite H1.
  - destruct H2 as [->|(n & b & ->)]; [by left|right]. split; [by exists n, b|by left].
  - intros Hp. specialize (H3 Hp). by injection H3 as -> ->.
Qed.

Lemma op_conforms o : op_carried o -> blen j + 1 < 2 ^ 63 -> conforms max db j o plan.
Proof using Hk.
  intros Ho Hj. destruct o as [scope name|scope|now session e opts|now session scope name|after| |].
  - eapply (read_conforms SGet _ _ _ (RGet (spec_get j scope name))); [by eapply sqlite_get_performs|done..].
  - eapply (read_conforms SList _ _ _ (RList (spec_list j scope))); [by eapply sqlite_list_performs|done..].
  - destruct Ho as (? & ? & ?). eapply write_conforms; [by apply put_commits|done..].
  - destruct Ho as (? & ?). eapply write_conforms; [by apply forget_commits|done..].
  - by apply journal_conforms.
  - eapply (read_conforms SNumber _ _ _ (RNumber (blen j))); [eapply last_seq_performs; [done|lia]|done..].
  - exists j. split_and!; [done|by left|done].
Qed.
End Conforms.

(** The journals a sequence of operations goes through, each answered as the
    specification answers or with a database error. *)
Fixpoint steps (max : Z) (j : list Change) (ops : list op) (xs : list sobs) (j' : list Change) : Prop :=
  match ops, xs with
  | [], [] => j' = j
  | o :: ops, x :: xs => exists j1, stepped max j o x j1 /\ steps max j1 ops xs j'
  | _, _ => False
  end.

Lemma spec_grows max j o : blen (spJournal (do (MkSpec max j) o).1) <= blen j + 1.
Proof.
  assert (Ha : forall r, blen (appended j r) <= blen j + 1).
  { intros [c|e]; cbn; [rewrite blen_app; by unfold blen|lia]. }
  destruct o; cbn; try lia; apply Ha.
Qed.

Lemma stepped_grows max j o x j' : stepped max j o x j' -> blen j' <= blen j + 1.
Proof. pose proof (spec_grows max j o). intros [[_ ->]|[_ [->| ->] ] ]; lia. Qed.

Lemma run_keeps max db j ops :
  keeps max db j -> Forall op_carried ops -> blen j + blen ops < 2 ^ 63 ->
  (sqlite_run max (MkWorld db []) ops).2 = sql_obs <$> (run (MkSpec max j) ops).2
  /\ keeps max (wDb (sqlite_run max (MkWorld db []) ops).1) (spJournal (run (MkSpec max j) ops).1).
Proof.
  intros Hk Hops. revert db j Hk. induction Hops as [|o ops Ho _ IH]; intros db j Hk Hroom; [done|].
  rewrite blen_cons in Hroom. pose proof (blen_nonneg ops). pose proof (spec_grows max j o) as Hg.
  destruct (op_conforms max db j [] Hk o Ho ltac:(lia)) as (j' & Hk' & _ & Hc). destruct (Hc eq_refl) as (Hx & -> & Hp).
  assert (Hm : spMax (do (MkSpec max j) o).1 = max) by by destruct o.
  cbn [sqlite_run run]. destruct (sqlite_do max _ o) as [[db1 p1] x]. destruct (do (MkSpec max j) o) as [[m1 j1] r].
  cbn in *. subst. destruct (IH db1 j1 Hk' ltac:(lia)) as [E Hk2].
  destruct (sqlite_run max _ ops) as [w2 rs]. destruct (run (MkSpec max j1) ops) as [s2 rs2]. cbn in *. by rewrite E.
Qed.

(** C3: The SQLite store implements the contract: on a database that keeps a
    journal, any sequence of operations whose statements succeed is answered
    as the specification over the journal alone answers it, errors included,
    through the rows of the tables, their JSON and the index; and the
    database keeps the specification's journal. *)
Theorem Sqlite_refines max db j ops :
  keeps max db j -> Forall op_carried ops -> blen j + blen ops < 2 ^ 63 ->
  (sqlite_run max (MkWorld db []) ops).2 = sql_obs <$> (run (MkSpec max j) ops).2
  /\ keeps max (wDb (sqlite_run max (MkWorld db []) ops).1) (spJournal (run (MkSpec max j) ops).1).
Proof.
  apply run_keeps.
Qed.

(** C4: Whichever statements and commits of whichever operations fail, busy
    or in any other way, with or without their effect, each operation is
    answered as the specification answers it or with a database error, a
    reading of the journal after records it holds; and after it the database
    keeps a journal, with its entries and its index in step: the one before
    the operation or the specification's after it. *)
Theorem Sqlite_atomic max db j ops plan :
  keeps max db j -> Forall op_carried ops -> blen j + blen ops < 2 ^ 63 ->
  exists j', steps max j ops (sqlite_run max (MkWorld db plan) ops).2 j'
    /\ keeps max (wDb (sqlite_run max (MkWorld db plan) ops).1) j'.
Proof.
  intros Hk Hops. revert db j plan Hk. induction Hops as [|o ops Ho _ IH]; intros db j plan Hk Hroom; [by exists j|].
  rewrite blen_cons in Hroom. pose proof (blen_nonneg ops).
  destruct (op_conforms max db j plan Hk o Ho ltac:(lia)) as (j1 & Hk1 & Hst & _). pose proof (stepped_grows _ _ _ _ _ Hst).
  cbn [sqlite_run]. destruct (sqlite_do max _ o) as [[db1 p1] x]. cbn in Hk1, Hst.
  destruct (IH db1 j1 p1 Hk1 ltac:(lia)) as (j' & Hs & Hk').
  destruct (sqlite_run max _ ops) as [w2 rs]. cbn in *. eauto.
Qed.

(** A database opened new, and operations on it. *)
Definition start : database := default empty_database (schema empty_database).

Lemma start_keeps max : keeps max start [].
Proof.
  split; [|by vm_compute..| |by intros i c ?|constructor].
  - split; [repeat constructor|by eexists].
  - exists []. split; [by vm_compute|]. change (replay []) with (∅ : gmap ref Entry). by rewrite map_to_list_empty.
Qed.

Definition sqlite_demo_ops : list op :=
  [OPut 1 (bs "s1") (MkEntry (bs "user") (bs "style") (bs "Short answers.") (Some {[ bs "type" := bs "taste" ]}) [] [] 0 false) [];
   OPut 2 (bs "s2") (MkEntry (bs "user") (bs "tone") (bs "Dry.") None [] [] 0 false) [IfHash (bs "x")];
   OPut 3 (bs "s1") (MkEntry (bs "user") (bs "style") (bs "Long answers.") None [] [] 0 false) [BasedOn []];
   OForget 4 [] (bs "user") (bs "style");
   OGet (bs "user") (bs "style"); OJournal 1; OLastSeq].

Lemma demo_carried : Forall op_carried sqlite_demo_ops.
Proof. repeat constructor; vm_compute; split_and?; done. Qed.

Lemma Sqlite_refines_witness :
  (sqlite_run 4096 (MkWorld start []) sqlite_demo_ops).2 = sql_obs <$> (run (MkSpec 4096 []) sqlite_demo_ops).2
  /\ blen (spJournal (run (MkSpec 4096 []) sqlite_demo_ops).1) = 3.
Proof.
  split; [|by vm_compute]. apply (Sqlite_refines 4096 start []); [apply start_keeps|apply demo_carried|by vm_compute].
Defined.

(** The second statement of the first Put fails, and the second Put's commit
    is reported failed though it took effect. *)
Definition sqlite_demo_plan : list (option fault) :=
  [None; None; Some (MkFault true 0); None; None; None; None; None; None; None; Some (MkFault false 1)].

Lemma Sqlite_atomic_witness :
  exists j', steps 4096 [] sqlite_demo_ops (sqlite_run 4096 (MkWorld start sqlite_demo_plan) sqlite_demo_ops).2 j'
    /\ keeps 4096 (wDb (sqlite_run 4096 (MkWorld start sqlite_demo_plan) sqlite_demo_ops).1) j'.
Proof.
  apply (Sqlite_atomic 4096 start [] sqlite_demo_ops sqlite_demo_plan); [apply start_keeps|apply demo_carried|by vm_compute].
Defined.

Definition puts_only : list op := take 1 sqlite_demo_ops ++ [OPut 2 (bs "s2") (MkEntry (bs "user") (bs "tone") (bs "Dry.") None [] [] 0 false) []].

Example sqlite_demo_faults :
  let r := sqlite_run 4096 (MkWorld start sqlite_demo_plan) puts_only in
  bool_decide ((fun x => match x with SWrite (Err (SDatabase b)) => Some b | _ => None end) <$> r.2 = [Some true; Some false])
  && bool_decide ((size <$> entry_rows (wDb r.1), size <$> journal_rows (wDb r.1), length <$> fts_rows (wDb r.1)) = (Some 1%nat, Some 1%nat, Some 1%nat))
  = true.
Proof. by vm_compute. Qed.

(** A cursor past the range of an int64 is read as a negative one, and every
    record is past that: the contract's answer is none. *)
Example Journal_cursor_wraps :
  let w := (sqlite_run 4096 (MkWorld start []) sqlite_demo_ops).1 in
  match (sqlite_journal (2 ^ 64 - 1) w).1 with Ok l => length l | Err _ => 0%nat end = 3%nat
  /\ Journal (run (MkSpec 4096 []) sqlite_demo_ops).1 (2 ^ 64 - 1) = [].
Proof. by vm_compute. Qed.
