(* ===== verification/SqliteSchema.v ===== *)
(** * What opening a database does

    A database that keeps a journal, under the names of this release or of
    an earlier one, keeps it once opened; a bare one keeps the empty journal;
    one with another program's table of the store's names is refused.  In
    each case other tables are left alone, and a failure leaves the database
    as it was or opened. *)

From S2P Require Import Prelude GoStd GoTime Sha256 Memory Store Search Json JsonRead Codec Records Sql Sqlite SqliteOpen SqliteLaws.

(** ** The transaction as a function *)

Definition cols (name : bytes) (db : database) : list bytes :=
  match dbTables db !! name with Some t => tColumns t | None => [] end.

(** Only an earlier release's tables. *)
Definition earlier (db : database) : bool :=
  forallb (fun t : bytes * bytes * list bytes =>
    bool_decide (cols t.1.1 db = []) && bool_decide (cols t.1.2 db = t.2)) tables.

Definition renamed (l : list (bytes * bytes * list bytes)) (db : database) : option database :=
  foldl (fun o t => db ← o; rename_table t.1.2 t.1.1 db) (Some db) l.

Definition migrated (db : database) : option database :=
  if earlier db then
    db ← renamed tables db;
    if bool_decide (dbIndexes db !! legacy_index = Some journal_name) then drop_index db else Some db
  else Some db.

Definition conforming (db : database) : bool :=
  forallb (fun t : bytes * bytes * list bytes => bool_decide (cols t.1.1 db = t.2)) tables.

Definition opened (db : database) : option database :=
  db ← migrated db; db ← schema db; if conforming db then Some db else None.

Lemma exec_refused f db : f db = None -> does (exec f) db (Err (SDatabase false)) db.
Proof.
  intros Hf. split; unfold exec, fate; cbn; [|by rewrite Hf].
  intros [|[x|] plan]; cbn; rewrite Hf; by left.
Qed.

Lemma columns_performs name db : performs (columns name) db (Ok (cols name db)) db.
Proof.
  unfold columns. split.
  - intros plan. unfold bind, query, fate. destruct plan as [|[x|] plan]; cbn; [by left| |by left].
    right. split; [by eexists|by left].
  - done.
Qed.

Lemma legacy_only_performs db l :
  performs (legacy_only l) db
    (Ok (forallb (fun t : bytes * bytes * list bytes =>
           bool_decide (cols t.1.1 db = []) && bool_decide (cols t.1.2 db = t.2)) l)) db.
Proof.
  induction l as [|[ [name legacy] want] l IH]; [apply ret_performs|]. cbn [legacy_only forallb fst snd].
  eapply bind_reads; [apply columns_performs|]. case_bool_decide; cbn [negb andb]; [|apply ret_performs].
  eapply bind_reads; [apply columns_performs|]. case_bool_decide; cbn [negb andb]; [done|apply ret_performs].
Qed.

Lemma renamed_None l : foldl (fun o (t : bytes * bytes * list bytes) => db ← o; rename_table t.1.2 t.1.1 db) None l = None.
Proof. by induction l. Qed.

(** What a step inside the transaction does, or that the engine refuses it. *)
Definition does_opt (m : T unit) (db : database) (o : option database) : Prop :=
  match o with
  | Some db' => does m db (Ok tt) db'
  | None => exists e db', does m db (Err e) db'
  end.

Lemma exec_does_opt f db : does_opt (exec f) db (f db).
Proof. unfold does_opt. destruct (f db) eqn:E; [by apply exec_does|]. do 2 eexists. by apply exec_refused. Qed.

Lemma bind_does_opt m k db o o2 :
  does_opt m db o -> (forall db', o = Some db' -> does_opt (k tt) db' (o2 db')) -> does_opt (bind m k) db (db ← o; o2 db).
Proof.
  destruct o as [db1|]; cbn; intros Hm Hk.
  - specialize (Hk db1 eq_refl). unfold does_opt in *. destruct (o2 db1).
    + by eapply bind_does.
    + destruct Hk as (e & db' & Hk). exists e, db'. by eapply bind_does.
  - destruct Hm as (e & db' & Hm). exists e, db'. by apply bind_does_err.
Qed.

Lemma rename_all_does l : forall db, does_opt (rename_all l) db (renamed l db).
Proof.
  induction l as [|[ [name legacy] want] l IH]; intros db; [apply performs_does, ret_performs|].
  cbn [rename_all]. assert (E : renamed ((name, legacy, want) :: l) db = (db ← rename_table legacy name db; renamed l db)).
  { unfold renamed. cbn. destruct (rename_table legacy name db); [done|apply renamed_None]. }
  rewrite E. apply (bind_does_opt _ _ _ _ (renamed l)); [apply exec_does_opt|]. intros db' _. apply IH.
Qed.

Lemma migrate_does db : does_opt migrate db (migrated db).
Proof.
  unfold migrate, migrated, does_opt, earlier.
  pose proof (legacy_only_performs db tables) as Hl.
  destruct (forallb _ tables) eqn:E.
  - assert (Hb : does_opt (run! rename_all tables in let! n := query_row countIndex in if 0 <? default 0 n then exec drop_index else ret tt) db
        (db ← renamed tables db; if bool_decide (dbIndexes db !! legacy_index = Some journal_name) then drop_index db else Some db)).
    { apply (bind_does_opt _ _ _ _ (fun db => if bool_decide (dbIndexes db !! legacy_index = Some journal_name) then drop_index db else Some db));
        [apply rename_all_does|]. intros db' _. unfold does_opt.
      assert (Hc := query_row_performs countIndex db' _ eq_refl). cbn [head] in Hc.
      case_bool_decide.
      - pose proof (exec_does_opt drop_index db') as Hd. unfold does_opt in Hd. destruct (drop_index db').
        + by eapply bind_does; [apply performs_does, Hc|].
        + destruct Hd as (e & db2 & Hd). exists e, db2. by eapply bind_does; [apply performs_does, Hc|].
      - eapply bind_does; [apply performs_does, Hc|]. apply performs_does, ret_performs. }
    unfold does_opt in Hb. destruct (db ← renamed tables db; _) as [db'|].
    + by eapply bind_does; [apply performs_does, Hl|].
    + destruct Hb as (e & db' & Hb). exists e, db'. by eapply bind_does; [apply performs_does, Hl|].
  - eapply bind_does; [apply performs_does, Hl|]. apply performs_does, ret_performs.
Qed.

Lemma check_tables_does db l :
  does_opt (check_tables l) db
    (if forallb (fun t : bytes * bytes * list bytes => bool_decide (cols t.1.1 db = t.2)) l then Some db else None).
Proof.
  induction l as [|[ [name legacy] want] l IH]; [apply performs_does, ret_performs|]. cbn [check_tables forallb fst snd].
  unfold does_opt in *. case_bool_decide as Hc; cbn [andb].
  - destruct (forallb _ l).
    + eapply bind_does; [apply performs_does, columns_performs|]. by rewrite bool_decide_eq_true_2.
    + destruct IH as (e & db' & IH). exists e, db'. eapply bind_does; [apply performs_does, columns_performs|].
      by rewrite bool_decide_eq_true_2.
  - exists (SForeign name), db. eapply bind_does; [apply performs_does, columns_performs|].
    rewrite bool_decide_eq_false_2 by done. apply performs_does, fail_performs.
Qed.

Lemma applySchemaOnce_performs db :
  match opened db with
  | Some db' => performs applySchemaOnce db (Ok tt) db'
  | None => exists e, performs applySchemaOnce db (Err e) db
  end.
Proof.
  assert (H : does_opt (run! migrate in run! exec schema in check_tables tables) db (opened db)).
  { unfold opened. apply (bind_does_opt _ _ _ _ (fun db => db ← schema db; if conforming db then Some db else None)); [apply migrate_does|].
    intros db1 _. apply (bind_does_opt _ _ _ _ (fun db => if conforming db then Some db else None)); [apply exec_does_opt|].
    intros db2 _. apply check_tables_does. }
  unfold does_opt in H. destruct (opened db).
  - by apply in_tx_performs.
  - destruct H as (e & db' & H). exists e. by eapply in_tx_fails.
Qed.

(** ** What it makes of a database *)

#[local] Arguments bs _ : simpl never.
#[local] Arguments entries_name : simpl never.
#[local] Arguments journal_name : simpl never.
#[local] Arguments fts_name : simpl never.
#[local] Arguments index_name : simpl never.
#[local] Arguments legacy_index : simpl never.
#[local] Arguments columns_of _ : simpl never.
#[local] Arguments cols _ _ : simpl never.

(** The three tables, one by one. *)
Lemma tables_Forall (P : bytes -> bytes -> list bytes -> Prop) :
  Forall (fun t : bytes * bytes * list bytes => P t.1.1 t.1.2 t.2) tables
  <-> P entries_name (bs "entries") (columns_of entries_name)
      /\ P journal_name (bs "journal") (columns_of journal_name)
      /\ P fts_name (bs "entries_fts") (columns_of fts_name).
Proof. unfold tables. rewrite !Forall_cons, Forall_nil. cbn. tauto. Qed.

(** A table of the schema's, there with its columns, and one that is not. *)
Definition there (name : bytes) (db : database) : Prop :=
  tColumns <$> dbTables db !! name = Some (columns_of name).

Lemma there_cols name db : there name db -> is_Some (dbTables db !! name) /\ cols name db = columns_of name.
Proof. intros (t & E & Ht)%fmap_Some. unfold cols. rewrite E. eauto. Qed.

Lemma laid_out_there db :
  laid_out db <-> there entries_name db /\ there journal_name db /\ there fts_name db /\ is_Some (dbIndexes db !! index_name).
Proof.
  unfold laid_out. rewrite (tables_Forall (fun n _ c => tColumns <$> dbTables db !! n = Some c)). unfold there. tauto.
Qed.

Lemma conforming_true db : laid_out db -> conforming db = true.
Proof.
  intros (H1 & H2 & H3 & _)%laid_out_there. unfold conforming.
  apply forallb_forall. intros t Ht%list_elem_of_In. apply bool_decide_eq_true_2. revert t Ht. apply Forall_forall.
  apply (tables_Forall (fun n _ c => cols n db = c)). split_and!; by apply there_cols.
Qed.

Lemma create_table_there name r db : there name db -> create_table name r db = db.
Proof. intros H. unfold create_table. by destruct (there_cols _ _ H) as [ [t ->] _]. Qed.

Lemma schema_there db : laid_out db -> schema db = Some db.
Proof.
  intros (H1 & H2 & H3 & [i Hi])%laid_out_there.
  unfold schema. cbv zeta. rewrite (create_table_there entries_name), (create_table_there journal_name) by done.
  unfold create_index. rewrite Hi. cbn. by rewrite create_table_there.
Qed.

Lemma columns_nonempty name : name ∈ [entries_name; journal_name; fts_name] -> columns_of name <> [].
Proof. rewrite !elem_of_cons. by intros [->|[->|[->|?%not_elem_of_nil] ] ]. Qed.

Lemma earlier_cases db : earlier db = true ->
  (cols entries_name db = [] /\ cols (bs "entries") db = columns_of entries_name)
  /\ (cols journal_name db = [] /\ cols (bs "journal") db = columns_of journal_name)
  /\ (cols fts_name db = [] /\ cols (bs "entries_fts") db = columns_of fts_name).
Proof.
  intros H. apply (tables_Forall (fun n l c => cols n db = [] /\ cols l db = c)). apply Forall_forall.
  intros t Ht. unfold earlier in H. rewrite forallb_forall in H. specialize (H t (proj1 (list_elem_of_In _ _) Ht)).
  apply andb_true_iff in H as [H1%bool_decide_eq_true_1 H2%bool_decide_eq_true_1]. done.
Qed.

(** A database opened before is opened as it is. *)
Lemma opened_there db : laid_out db -> opened db = Some db.
Proof.
  intros Hl. unfold opened, migrated. destruct (earlier db) eqn:E.
  - apply earlier_cases in E as [ [E _] _]. pose proof Hl as (H1 & _)%laid_out_there.
    rewrite (proj2 (there_cols _ _ H1)) in E. by apply columns_nonempty in E; [|set_solver].
  - cbn [mbind option_bind]. rewrite schema_there by done. cbn [mbind option_bind]. by rewrite conforming_true.
Qed.

(** A database whose tables are made, whatever else it has. *)
Lemma create_table_new name r db :
  dbTables db !! name = None ->
  create_table name r db = MkDatabase (<[name := MkTable (columns_of name) r]> (dbTables db)) (dbIndexes db).
Proof. intros H. unfold create_table. by rewrite H. Qed.

Definition indexed_by (db : database) : gmap bytes bytes :=
  match dbIndexes db !! index_name with Some _ => dbIndexes db | None => <[index_name := journal_name]> (dbIndexes db) end.

Lemma create_index_there db : there journal_name db -> create_index db = Some (MkDatabase (dbTables db) (indexed_by db)).
Proof.
  intros (t & E & Ht)%fmap_Some. unfold create_index, indexed_by. destruct (dbIndexes db !! index_name); [by destruct db|].
  rewrite E. cbn. rewrite <- Ht. done.
Qed.

Lemma indexed_by_there db : is_Some (indexed_by db !! index_name).
Proof. unfold indexed_by. destruct (dbIndexes db !! index_name) eqn:E; [by rewrite E|]. by rewrite lookup_insert_eq. Qed.

Definition fresh (db : database) : database :=
  MkDatabase
    (<[fts_name := MkTable (columns_of fts_name) (Fts [])]>
      (<[journal_name := MkTable (columns_of journal_name) (JournalRows ∅)]>
        (<[entries_name := MkTable (columns_of entries_name) (Entries ∅)]> (dbTables db))))
    (indexed_by db).

(** None of the store's tables, and not all of an earlier release's. *)
Definition bare (db : database) : Prop :=
  (dbTables db !! entries_name = None /\ dbTables db !! journal_name = None /\ dbTables db !! fts_name = None)
  /\ earlier db = false.

Lemma fresh_laid_out db : laid_out (fresh db).
Proof.
  apply laid_out_there. unfold there, fresh. cbn. split_and!.
  - by rewrite !lookup_insert_ne, lookup_insert_eq by done.
  - by rewrite lookup_insert_ne, lookup_insert_eq by done.
  - by rewrite lookup_insert_eq.
  - apply indexed_by_there.
Qed.

Lemma opened_bare db : bare db -> opened db = Some (fresh db).
Proof.
  intros [(H1 & H2 & H3) E]. unfold opened, migrated. rewrite E. cbn [mbind option_bind]. unfold schema. cbv zeta.
  rewrite (create_table_new entries_name) by done.
  rewrite (create_table_new journal_name) by (cbn; by rewrite lookup_insert_ne by done).
  rewrite create_index_there by (unfold there; cbn; by rewrite lookup_insert_eq).
  cbn [mbind option_bind]. rewrite create_table_new by (cbn; by rewrite !lookup_insert_ne by done).
  change (Some (MkDatabase ?t ?i)) with (Some (fresh db)). cbn [mbind option_bind].
  by rewrite conforming_true by apply fresh_laid_out.
Qed.

(** ** An earlier release's tables *)

Record kept_earlier (max : Z) (db : database) (j : list Change) : Prop := {
  kl_absent : dbTables db !! entries_name = None /\ dbTables db !! journal_name = None /\ dbTables db !! fts_name = None;
  kl_entries : dbTables db !! bs "entries" = Some (MkTable (columns_of entries_name) (Entries (entry_cell <$> replay j)));
  kl_journal : dbTables db !! bs "journal" = Some (MkTable (columns_of journal_name) (JournalRows (journal_table j)));
  kl_fts : exists l, dbTables db !! bs "entries_fts" = Some (MkTable (columns_of fts_name) (Fts l))
             /\ l ≡ₚ indexed <$> (map_to_list (replay j)).*2;
  kl_wf : journal_wf max j;
  kl_carried : Forall change_carried j
}.

Lemma kept_earlier_is max db j : kept_earlier max db j -> earlier db = true.
Proof.
  intros [(H1 & H2 & H3) He Hj (l & Hf & _) _ _]. apply forallb_forall. intros t Ht%list_elem_of_In.
  apply andb_true_iff. enough (H : cols t.1.1 db = [] /\ cols t.1.2 db = t.2) by (by rewrite !bool_decide_eq_true).
  revert t Ht. apply Forall_forall. apply (tables_Forall (fun n l c => cols n db = [] /\ cols l db = c)).
  unfold cols. rewrite H1, H2, H3, He, Hj, Hf. done.
Qed.

(** The tables after the three renames. *)
Definition moved (t1 t2 t3 : table) (m : gmap bytes table) : gmap bytes table :=
  <[fts_name := t3]> (delete (bs "entries_fts")
    (<[journal_name := t2]> (delete (bs "journal") (<[entries_name := t1]> (delete (bs "entries") m))))).

Lemma rename_table_there legacy name t db :
  dbTables db !! legacy = Some t -> dbTables db !! name = None ->
  exists i, rename_table legacy name db = Some (MkDatabase (<[name := t]> (delete legacy (dbTables db))) i).
Proof. intros H1 H2. unfold rename_table. rewrite H1. cbn. rewrite H2. eauto. Qed.

Lemma renamed_moved db t1 t2 t3 :
  dbTables db !! entries_name = None -> dbTables db !! journal_name = None -> dbTables db !! fts_name = None ->
  dbTables db !! bs "entries" = Some t1 -> dbTables db !! bs "journal" = Some t2 -> dbTables db !! bs "entries_fts" = Some t3 ->
  exists i, renamed tables db = Some (MkDatabase (moved t1 t2 t3 (dbTables db)) i).
Proof.
  intros H1 H2 H3 E1 E2 E3. unfold renamed, tables. cbn [foldl fst snd mbind option_bind].
  destruct (rename_table_there (bs "entries") entries_name t1 db E1 H1) as [i1 ->]. cbn [mbind option_bind].
  destruct (rename_table_there (bs "journal") journal_name t2 (MkDatabase (<[entries_name := t1]> (delete (bs "entries") (dbTables db))) i1)) as [i2 ->].
  { cbn. by rewrite lookup_insert_ne, lookup_delete_ne by done. }
  { cbn. by rewrite lookup_insert_ne, lookup_delete_ne by done. }
  cbn [mbind option_bind dbTables].
  destruct (rename_table_there (bs "entries_fts") fts_name t3 (MkDatabase (<[journal_name := t2]> (delete (bs "journal")
    (<[entries_name := t1]> (delete (bs "entries") (dbTables db))))) i2)) as [i3 ->].
  { cbn. by rewrite lookup_insert_ne, lookup_delete_ne, lookup_insert_ne, lookup_delete_ne by done. }
  { cbn. by rewrite lookup_insert_ne, lookup_delete_ne, lookup_insert_ne, lookup_delete_ne by done. }
  by exists i3.
Qed.

Lemma moved_lookup t1 t2 t3 m :
  moved t1 t2 t3 m !! entries_name = Some t1 /\ moved t1 t2 t3 m !! journal_name = Some t2 /\ moved t1 t2 t3 m !! fts_name = Some t3.
Proof.
  unfold moved. split_and!.
  - by rewrite lookup_insert_ne, lookup_delete_ne, lookup_insert_ne, lookup_delete_ne, lookup_insert_eq by done.
  - by rewrite lookup_insert_ne, lookup_delete_ne, lookup_insert_eq by done.
  - by rewrite lookup_insert_eq.
Qed.

Lemma opened_earlier max db j : kept_earlier max db j ->
  exists t1 t2 t3 i, opened db = Some (MkDatabase (moved t1 t2 t3 (dbTables db)) i)
    /\ keeps max (MkDatabase (moved t1 t2 t3 (dbTables db)) i) j.
Proof.
  intros Hk. pose proof (kept_earlier_is _ _ _ Hk) as He. destruct Hk as [(H1 & H2 & H3) E1 E2 (l & E3 & Hl) Hwf Hc].
  destruct (renamed_moved db _ _ _ H1 H2 H3 E1 E2 E3) as [i Hr].
  set (t1 := MkTable (columns_of entries_name) _) in *. set (t2 := MkTable (columns_of journal_name) _) in *.
  set (t3 := MkTable (columns_of fts_name) _) in *. set (m := moved t1 t2 t3 (dbTables db)) in *.
  destruct (moved_lookup t1 t2 t3 (dbTables db)) as (L1 & L2 & L3). fold m in L1, L2, L3.
  assert (Hthere : forall i, there entries_name (MkDatabase m i) /\ there journal_name (MkDatabase m i) /\ there fts_name (MkDatabase m i)).
  { intros i'. unfold there. cbn [dbTables]. by rewrite L1, L2, L3. }
  assert (exists i2, migrated db = Some (MkDatabase m i2)) as [i2 Hm].
  { unfold migrated. rewrite He, Hr. cbn [mbind option_bind]. unfold drop_index. case_bool_decide as Hi; [rewrite Hi|]; cbn; eauto. }
  destruct (Hthere i2) as (T1 & T2 & T3).
  set (i3 := indexed_by (MkDatabase m i2)). exists t1, t2, t3, i3. fold m.
  destruct (Hthere i3) as (U1 & U2 & U3).
  assert (Hlaid : laid_out (MkDatabase m i3)) by (apply laid_out_there; split_and!; try done; apply indexed_by_there).
  split.
  - unfold opened. rewrite Hm. cbn [mbind option_bind]. unfold schema. cbv zeta.
    rewrite (create_table_there entries_name), (create_table_there journal_name), create_index_there by done.
    cbn [mbind option_bind dbTables]. fold i3. rewrite create_table_there by done. by rewrite conforming_true.
  - split; [done|unfold entry_rows; cbn [dbTables]; by rewrite L1|unfold journal_rows; cbn [dbTables]; by rewrite L2| |done|done].
    exists l. unfold fts_rows. cbn [dbTables]. rewrite L3. done.
Qed.

Lemma fresh_keeps max db : keeps max (fresh db) [].
Proof.
  split; [apply fresh_laid_out| | | |by intros i c ?|constructor].
  - unfold entry_rows, fresh. cbn [dbTables]. by rewrite !lookup_insert_ne, lookup_insert_eq by done.
  - unfold journal_rows, fresh. cbn [dbTables]. by rewrite lookup_insert_ne, lookup_insert_eq by done.
  - exists []. unfold fts_rows, fresh. cbn [dbTables]. rewrite lookup_insert_eq. done.
Qed.

(** ** Opening *)

(** Another program's table under one of the store's names. *)
Definition taken (db : database) : Prop :=
  exists name t, name ∈ [entries_name; journal_name; fts_name]
    /\ dbTables db !! name = Some t /\ tColumns t <> columns_of name /\ tColumns t <> [].

Lemma opened_taken db : taken db -> opened db = None.
Proof.
  intros (name & t & Hn & Ht & Hc & Hne).
  assert (He : earlier db = false).
  { destruct (earlier db) eqn:E; [|done]. apply earlier_cases in E as ([E1 _] & [E2 _] & [E3 _]).
    rewrite !elem_of_cons in Hn. unfold cols in *. destruct Hn as [->|[->|[->|?%not_elem_of_nil] ] ]; try done; by rewrite Ht in *. }
  unfold opened, migrated. rewrite He. cbn [mbind option_bind].
  destruct (schema db) as [db2|] eqn:Es; [|done]. cbn [mbind option_bind].
  assert (Hkeep : forall n r d, dbTables d !! name = Some t -> dbTables (create_table n r d) !! name = Some t).
  { intros n r d Hd. unfold create_table. destruct (dbTables d !! n) eqn:E; [done|]. cbn.
    rewrite lookup_insert_ne; [done|]. intros ->. congruence. }
  assert (H2 : dbTables db2 !! name = Some t).
  { unfold schema in Es. cbv zeta in Es.
    set (d1 := create_table journal_name (JournalRows ∅) (create_table entries_name (Entries ∅) db)) in *.
    assert (Hd : dbTables d1 !! name = Some t) by by apply Hkeep, Hkeep.
    assert (Hi : forall d, create_index d1 = Some d -> dbTables d = dbTables d1).
    { intros d. unfold create_index. destruct (dbIndexes d1 !! index_name); [congruence|].
      destruct (dbTables d1 !! journal_name); [|done]. cbn [mbind option_bind]. case_match; [|done]. by intros [= <-]. }
    destruct (create_index d1) as [d2|]; [|done]. cbn [mbind option_bind] in Es. injection Es as <-.
    apply Hkeep. by rewrite (Hi d2 eq_refl). }
  destruct (conforming db2) eqn:Econ; [|done]. unfold conforming in Econ. rewrite forallb_forall in Econ. exfalso.
  assert (Hcols : Forall (fun t : bytes * bytes * list bytes => cols t.1.1 db2 = t.2) tables).
  { apply Forall_forall. intros x Hx. by apply (bool_decide_eq_true_1 _), Econ, list_elem_of_In. }
  apply (tables_Forall (fun n _ c => cols n db2 = c)) in Hcols as (C1 & C2 & C3).
  rewrite !elem_of_cons in Hn. unfold cols in *.
  destruct Hn as [->|[->|[->|?%not_elem_of_nil] ] ]; try done; rewrite H2 in *; congruence.
Qed.

(** C21: Opening a database, whichever statements fail: one that keeps a
    journal, under this release's names or an earlier one's, or a bare one,
    whose journal is empty, keeps it when Open succeeds, is as it was or
    opened when Open fails, and is opened when no statement fails; one with
    another program's table of the store's names is refused and unchanged. *)
Theorem Open_keeps max db j plan :
  let w := applySchemaOnce (MkWorld db plan) in
  (keeps max db j \/ kept_earlier max db j \/ bare db /\ j = [] ->
     (w.1 = Ok tt -> keeps max (wDb w.2) j)
     /\ (wDb w.2 = db \/ keeps max (wDb w.2) j)
     /\ (plan = [] -> w.1 = Ok tt))
  /\ (taken db -> wDb w.2 = db /\ w.1 <> Ok tt).
Proof.
  cbv zeta. pose proof (applySchemaOnce_performs db) as H. split.
  - intros Hcase.
    assert (exists db', opened db = Some db' /\ keeps max db' j) as (db' & Ho & Hk).
    { destruct Hcase as [Hk|[Hk|[Hb ->] ] ].
      - exists db. split; [apply opened_there, Hk|done].
      - destruct (opened_earlier _ _ _ Hk) as (t1 & t2 & t3 & i & ? & ?). eauto.
      - exists (fresh db). split; [by apply opened_bare|apply fresh_keeps]. }
    rewrite Ho in H. destruct H as [Hp E]. specialize (Hp plan). destruct (applySchemaOnce _) as [r w'] eqn:Ew. cbn [fst snd] in *.
    split_and!.
    + intros ->. destruct Hp as [[_ ->]|[[b ?] _] ]; done.
    + destruct Hp as [[_ ->]|[_ [->| ->] ] ]; auto.
    + intros ->. rewrite E in Ew. by injection Ew as <- <-.
  - intros Ht. rewrite (opened_taken db Ht) in H. destruct H as (e & Hp & _). specialize (Hp plan).
    destruct (applySchemaOnce _) as [r w']. cbn [fst snd] in *. destruct Hp as [[-> ->]|[[b ->] [->| ->] ] ]; done.
Qed.

(** ** Retrying *)

(** The pause before the attempt after [n] others. *)
Fixpoint pause_after (n : nat) : Z := match n with O => 1 | S n' => Z.min (2 * pause_after n') 50 end.

(** How long [n] pauses take. *)
Fixpoint paused (n : nat) : Z := match n with O => 0 | S n' => paused n' + pause_after n' end.

(** A clock that goes forward, and by a pause at least between the end of an
    attempt and the end of the one after it. *)
Definition clock_ok (clock : nat -> Z) : Prop :=
  clock O <= clock 1%nat /\ forall n, clock (S n) + pause_after n <= clock (S (S n)).

Lemma clock_paused clock n : clock_ok clock -> clock O + paused n <= clock (S n).
Proof. intros [H0 H]. induction n as [|n IH]; cbn [paused]; [lia|]. specialize (H n). lia. Qed.

Lemma apply_loop_ends clock : clock_ok clock ->
  forall n k w, (k + n = 104)%nat ->
  is_Some (apply_loop n clock (S k) (clock O + busyTimeout) (pause_after k) w).
Proof.
  intros Hc. assert (H104 : paused 104 + pause_after 104 = 5013) by by vm_compute.
  induction n as [|n IH]; intros k w Hk; cbn [apply_loop]; destruct (applySchemaOnce w) as [[?|e] w']; eauto.
  - assert (k = 104%nat) as -> by lia. pose proof (clock_paused clock 104 Hc).
    destruct (Z.ltb_spec (clock O + busyTimeout) (clock 105%nat + pause_after 104)); [rewrite orb_true_r; eauto|].
    unfold busyTimeout in *. lia.
  - destruct (negb (isBusy e) || _); [eauto|]. apply (IH (S k)). lia.
Qed.

(** C23: applySchema ends, whatever its attempts meet, within 105 of them:
    the pauses between them grow to fifty milliseconds and together pass the
    busy timeout; and what it ends with is an attempt's result, the last of
    attempts that were all found busy before it. *)
Theorem applySchema_ends clock w :
  clock_ok clock ->
  exists r w' n w0, applySchema clock w = Some (r, w') /\ (n <= 104)%nat
    /\ w0 = Nat.iter n (fun w => (applySchemaOnce w).2) w /\ applySchemaOnce w0 = (r, w')
    /\ (forall k, (k < n)%nat -> exists e, (applySchemaOnce (Nat.iter k (fun w => (applySchemaOnce w).2) w)).1 = Err e /\ isBusy e = true).
Proof.
  intros Hc. destruct (apply_loop_ends clock Hc 104 0 w eq_refl) as [ [r w'] Hr].
  assert (Hgen : forall fuel i d p w r w', apply_loop fuel clock i d p w = Some (r, w') ->
    exists n, (n <= fuel)%nat /\ applySchemaOnce (Nat.iter n (fun w => (applySchemaOnce w).2) w) = (r, w')
      /\ forall k, (k < n)%nat -> exists e, (applySchemaOnce (Nat.iter k (fun w => (applySchemaOnce w).2) w)).1 = Err e /\ isBusy e = true).
  { clear. induction fuel as [|fuel IH]; intros i d p w r w'; cbn [apply_loop]; destruct (applySchemaOnce w) as [x w1] eqn:E.
    - intros H. exists O. split_and!; [lia| |intros k ?; lia]. cbn [Nat.iter nat_rect]. rewrite E.
      destruct x as [|e]; [congruence|]. by destruct (negb (isBusy e) || _); simplify_eq.
    - destruct x as [[]|e]; [intros [= <- <-]; exists O; split_and!; [lia|done|intros k ?; lia]|].
      destruct (negb (isBusy e) || _) eqn:Eb; [intros [= <- <-]; exists O; split_and!; [lia|done|intros k ?; lia]|].
      intros (n & Hn & Ha & Hk)%IH. exists (S n). rewrite Nat.iter_succ_r, E. cbn [snd]. split_and!; [lia|done|].
      intros [|k] Hlt; [exists e; cbn [Nat.iter nat_rect]; rewrite E; split; [done|]|].
      + by destruct (isBusy e).
      + rewrite Nat.iter_succ_r, E. cbn [snd]. apply Hk. lia. }
  destruct (Hgen _ _ _ _ _ _ _ Hr) as (n & Hn & Ha & Hk). unfold applySchema. eauto 10.
Qed.

(** A database an earlier release left, with its index and another table. *)
Definition left_db : database :=
  MkDatabase
    (<[bs "entries" := MkTable (columns_of entries_name) (Entries ∅)]>
      (<[bs "journal" := MkTable (columns_of journal_name) (JournalRows ∅)]>
        (<[bs "entries_fts" := MkTable (columns_of fts_name) (Fts [])]>
          {[ bs "sessions" := MkTable [bs "id"] Foreign ]})))
    {[ legacy_index := bs "journal" ]}.

Lemma left_db_kept max : kept_earlier max left_db [].
Proof.
  split; [by vm_compute..| |by intros i c ?|constructor].
  exists []. split; [by vm_compute|]. change (replay []) with (∅ : gmap ref Entry). by rewrite map_to_list_empty.
Qed.

Lemma Open_keeps_witness :
  keeps 4096 (wDb (applySchemaOnce (MkWorld left_db [])).2) []
  /\ dbIndexes (wDb (applySchemaOnce (MkWorld left_db [])).2) !! legacy_index = None.
Proof.
  split; [|by vm_compute].
  apply (proj1 (Open_keeps 4096 left_db [] [])); [right; left; apply left_db_kept|].
  apply (proj1 (Open_keeps 4096 left_db [] [])); [right; left; apply left_db_kept|done].
Defined.

(** Each attempt a millisecond after the pause. *)
Definition slow_clock (n : nat) : Z := paused n + Z.of_nat n.

Lemma applySchema_ends_witness :
  exists r w' n w0, applySchema slow_clock (MkWorld left_db [Some (MkFault true 0)]) = Some (r, w') /\ (n <= 104)%nat
    /\ w0 = Nat.iter n (fun w => (applySchemaOnce w).2) (MkWorld left_db [Some (MkFault true 0)]) /\ applySchemaOnce w0 = (r, w')
    /\ (forall k, (k < n)%nat -> exists e,
          (applySchemaOnce (Nat.iter k (fun w => (applySchemaOnce w).2) (MkWorld left_db [Some (MkFault true 0)]))).1 = Err e /\ isBusy e = true).
Proof.
  apply (applySchema_ends slow_clock). split; [done|]. intros n. unfold slow_clock. cbn [paused].
  enough (pause_after n <= pause_after (S n)) by lia. induction n as [|n IH]; [done|]. cbn [pause_after] in *. lia.
Defined.
