(* ===== verification/SqliteSearch.v ===== *)
(** * Searching a database through its index

    What SearchWith of the SQLite store returns on a database that keeps a
    journal: with no words the live entries of the scopes in order, with
    words those the index matches, in the order of its rank, in either case filtered and then
    cut.  FTS5 is given by what its documentation says of an expression of
    quoted prefixes joined by AND or OR. *)

From S2P Require Import Prelude GoStd GoTime Sha256 Memory Store Search Json JsonRead Codec Records Sql Sqlite SqliteOpen SqliteLaws SqliteSchema.

(** ** The loops *)

Definition kept (o : SearchOptions) (es : list Entry) : list Entry := filter (fun e => Keep o e = true) es.

Lemma kept_app o l k : kept o (l ++ k) = kept o l ++ kept o k.
Proof. apply filter_app. Qed.

Lemma capped_app {A} limit (l k : list A) : 0 < limit <= blen l -> capped limit (l ++ k) = capped limit l.
Proof.
  intros H. unfold capped. destruct (Z.ltb_spec 0 limit); [|lia]. unfold blen in *. rewrite take_app_le; [done|lia].
Qed.

Lemma capped_short {A} limit (l : list A) : limit <= 0 \/ blen l <= limit -> capped limit l = l.
Proof.
  intros H. unfold capped. destruct (Z.ltb_spec 0 limit); [|done]. unfold blen in *. apply take_ge. lia.
Qed.

(** The loop keeps the filtered entries up to the limit, and says when it
    has reached it. *)
Lemma keep_loop_spec o limit es : forall out,
  limit <= 0 \/ blen out < limit ->
  keep_loop o limit out es
  = (capped limit (out ++ kept o es), (0 <? limit) && (limit <=? blen (out ++ kept o es))).
Proof.
  induction es as [|e es IH]; intros out Hout; cbn [keep_loop].
  - unfold kept. rewrite filter_nil, app_nil_r, capped_short by lia. f_equal. lia.
  - set (out1 := if Keep o e then out ++ [e] else out).
    assert (E : out ++ kept o (e :: es) = out1 ++ kept o es).
    { unfold out1, kept. rewrite filter_cons. destruct (Keep o e); [|done]. rewrite decide_True by done. by rewrite <- app_assoc. }
    assert (Hb : blen out1 <= blen out + 1).
    { unfold out1. destruct (Keep o e); [rewrite blen_app; by unfold blen|lia]. }
    rewrite E. pose proof (blen_nonneg (kept o es)). destruct (_ && _) eqn:Ef.
    + apply andb_true_iff in Ef as [H1%Z.ltb_lt H2%Z.leb_le]. rewrite capped_app, capped_short by lia. f_equal.
      rewrite blen_app. lia.
    + rewrite IH; [done|]. destruct (Z.ltb_spec 0 limit), (Z.leb_spec limit (blen out1)); try done; lia.
Qed.

(** A loop that has reached the limit is done with what comes after. *)
Lemma keep_loop_full o limit l k out :
  limit <= 0 \/ blen out < limit -> (keep_loop o limit out l).2 = true ->
  keep_loop o limit out (l ++ k) = keep_loop o limit out l.
Proof.
  intros Hout. rewrite !keep_loop_spec by done. cbn [snd]. intros Ef. rewrite Ef.
  apply andb_true_iff in Ef as [H1%Z.ltb_lt H2%Z.leb_le]. rewrite kept_app, app_assoc, capped_app by lia. f_equal.
  rewrite blen_app. pose proof (blen_nonneg (kept o k)). lia.
Qed.

Lemma Keep_unfiltered o e : filtered o = false -> Keep o e = true.
Proof.
  unfold filtered, Keep. destruct (soMeta o); [done|]. intros [H1%negb_false_iff H2%negb_false_iff]%orb_false_iff.
  rewrite H1, H2. cbn. by rewrite map_to_list_empty.
Qed.

Lemma kept_unfiltered o es : filtered o = false -> kept o es = es.
Proof. intros H. apply filter_all, Forall_true. intros e. by apply Keep_unfiltered. Qed.

Section Search.
Context (max : Z) (db : database) (j : list Change) (Hk : keeps max db j).
Context (o : SearchOptions) (limit : Z).

(** ** With no words *)

Lemma list_loop_performs scopes : Forall (fun s => CheckScope s = None) scopes ->
  forall out, limit <= 0 \/ blen out < limit ->
  performs (list_loop o limit out scopes) db
    (Ok (capped limit (out ++ kept o (concat (live_in (replay j) <$> scopes))))) db.
Proof using Hk.
  induction 1 as [|s scopes Hs _ IH]; intros out Hout; cbn [list_loop fmap list_fmap concat].
  - unfold kept. rewrite filter_nil, app_nil_r, capped_short by lia. apply ret_performs.
  - eapply bind_reads.
    { pose proof (sqlite_list_performs max db j Hk s) as Hl. unfold spec_list in Hl. rewrite Hs in Hl. exact Hl. }
    rewrite keep_loop_spec by done. rewrite kept_app, app_assoc. destruct (_ && _) eqn:Ef.
    + apply andb_true_iff in Ef as [H1%Z.ltb_lt H2%Z.leb_le]. rewrite (capped_app limit (out ++ _)) by lia. apply ret_performs.
    + pose proof (blen_nonneg (out ++ kept o (live_in (replay j) s))).
      assert (Hs2 : limit <= 0 \/ blen (out ++ kept o (live_in (replay j) s)) < limit).
      { destruct (Z.ltb_spec 0 limit), (Z.leb_spec limit (blen (out ++ kept o (live_in (replay j) s)))); try done; lia. }
      rewrite (capped_short limit (out ++ kept o (live_in (replay j) s))) by lia. by apply IH.
Qed.

(** ** With words *)

Definition hit_row (e : Entry) : ref * entry_row := (entry_ref e, entry_cell e).

Lemma hits_loop_live es : Forall (fun e => replay j !! entry_ref e = Some e) es -> forall out,
  hits_loop o limit out (hit_row <$> es) = Ok (keep_loop o limit out es).
Proof using Hk.
  induction 1 as [|e es He _ IH]; intros out; [done|]. cbn [fmap list_fmap hits_loop hit_row].
  rewrite (buildEntry_live max db j Hk _ _ He). cbn [res_bind keep_loop].
  destruct (_ && _); [done|]. apply IH.
Qed.

Context (fts_match : bytes -> option (fts_row -> bool)) (fts_rank : bytes -> list fts_row -> fts_row -> Z).

(** The best rank first, which in FTS5 is the least; those of one rank in the
    order of their scopes, and in one scope of their names. *)
Definition ranked (rank : fts_row -> Z) (x y : Entry) : Prop :=
  rank (indexed x) < rank (indexed y)
  \/ rank (indexed x) = rank (indexed y)
     /\ (bytes_compare (eScope x) (eScope y) = Lt
         \/ eScope x = eScope y /\ bytes_compare (eName x) (eName y) = Lt).

(** What the index finds for a predicate of its rows: all the entries it
    holds of and no other, each before those that rank after it.  There is
    one such list, [found_unique]. *)
Definition found (rank : fts_row -> Z) (holds : fts_row -> bool) (scopes : list bytes) (es : list Entry) : Prop :=
  (forall e, e ∈ es <-> replay j !! entry_ref e = Some e /\ holds (indexed e) = true /\ eScope e ∈ scopes)
  /\ StronglySorted (ranked rank) es.

Lemma bytes_lt_irrefl x : bytes_compare x x <> Lt.
Proof using. by rewrite (proj2 (bytes_compare_Eq x x) eq_refl). Qed.

Lemma ranked_irrefl rank x : ~ ranked rank x x.
Proof using.
  intros [?|[_ [H|[_ H] ] ] ]; [lia|..]; by apply bytes_lt_irrefl in H.
Qed.

Lemma bytes_lt_asym x y : bytes_compare x y = Lt -> bytes_compare y x <> Lt.
Proof using. rewrite (bytes_compare_antisym x y). by destruct (bytes_compare x y). Qed.

Lemma ranked_asym rank x y : ranked rank x y -> ~ ranked rank y x.
Proof using.
  intros [?|[E [H|[Es H] ] ] ] [?|[E' [H'|[Es' H'] ] ] ]; try lia.
  - by apply (bytes_lt_asym _ _ H).
  - rewrite Es' in H. by apply bytes_lt_irrefl in H.
  - rewrite Es in H'. by apply bytes_lt_irrefl in H'.
  - by apply (bytes_lt_asym _ _ H).
Qed.

(** Two lists of the same elements, both sorted, are the same. *)
Lemma sorted_same rank (l : list Entry) : forall l', StronglySorted (ranked rank) l -> StronglySorted (ranked rank) l' ->
  (forall e, e ∈ l <-> e ∈ l') -> l = l'.
Proof using.
  induction l as [|x l IH]; intros l' Hl Hl' H.
  { destruct l' as [|y l']; [done|]. assert (Hy : y ∈ []) by (apply H; left). by apply not_elem_of_nil in Hy. }
  apply StronglySorted_inv in Hl as [Hl Hx]. rewrite Forall_forall in Hx.
  destruct l' as [|y l']; [assert (Hy : x ∈ []) by (apply H; left); by apply not_elem_of_nil in Hy|].
  apply StronglySorted_inv in Hl' as [Hl' Hy]. rewrite Forall_forall in Hy.
  assert (x = y) as <-.
  { assert (H1 : x ∈ y :: l') by (apply H; left). assert (H2 : y ∈ x :: l) by (apply H; left).
    apply elem_of_cons in H1 as [?|H1]; [done|]. apply elem_of_cons in H2 as [?|H2]; [done|].
    by destruct (ranked_asym rank x y (Hx y H2)); apply Hy. }
  f_equal. apply IH; [done..|]. intros e.
  assert (Hne : forall k : list Entry, (forall z, z ∈ k -> ranked rank x z) -> e ∈ k -> e <> x).
  { intros k Hz Hin ->. by apply (ranked_irrefl rank x), Hz. }
  specialize (H e). rewrite !elem_of_cons in H. split; intros Hin.
  - destruct H as [[->|?] _]; [by right|by destruct (Hne l Hx Hin)|done].
  - destruct H as [_ [->|?] ]; [by right|by destruct (Hne l' Hy Hin)|done].
Qed.

Lemma found_unique rank holds scopes es es' : found rank holds scopes es -> found rank holds scopes es' -> es = es'.
Proof using. intros [H1 H2] [H1' H2']. apply (sorted_same rank); [done..|]. intros e. by rewrite H1, H1'. Qed.

(** The order of the statement is that one, on entries with names of their own. *)
Lemma before_ranked rank x y : before rank (indexed x, entry_cell x) (indexed y, entry_cell y) ->
  entry_ref x <> entry_ref y -> ranked rank x y.
Proof using.
  assert (Hlt : forall a b : bytes, a <> b -> bytes_le a b -> bytes_compare a b = Lt).
  { intros a b Hne Hle. unfold bytes_le in Hle. destruct (bytes_compare a b) eqn:E; [by apply bytes_compare_Eq in E|done..]. }
  intros [H|(E & [ [N L]|[S L] ])] Hr; [by left|right..]; (split; [done|]); cbn in *.
  - left. by apply Hlt.
  - right. split; [done|]. apply Hlt; [|done]. intros En. apply Hr. unfold entry_ref. by rewrite S, En.
Qed.

Lemma before_total rank : Total (before rank).
Proof.
  intros x y. unfold before. destruct (Z.lt_total (rank x.1) (rank y.1)) as [?|[E|?] ]; [auto| |auto].
  rewrite E. destruct (decide (frScope x.1 = frScope y.1)) as [Es|Hne].
  - rewrite Es. destruct (total bytes_le (frName x.1) (frName y.1)); auto 8.
  - destruct (total bytes_le (frScope x.1) (frScope y.1)); auto 8.
Qed.

Lemma before_trans rank : Transitive (before rank).
Proof.
  intros x y z. unfold before.
  assert (Hs : forall a b c : bytes, a <> b -> bytes_le a b -> b <> c -> bytes_le b c -> a <> c /\ bytes_le a c).
  { intros a b c Hab H1 Hbc H2. split; [|by etrans]. intros ->. apply Hab. by apply (anti_symm bytes_le). }
  intros [H1|(E1 & [ [N1 L1]|[S1 L1] ])] [H2|(E2 & [ [N2 L2]|[S2 L2] ])]; try (left; lia); right; (split; [lia|]).
  - left. by eapply Hs.
  - left. by rewrite <- S2.
  - left. by rewrite S1.
  - right. split; [congruence|by etrans].
Qed.

(** The rows of the index answered are those of the entries it finds. *)
Lemma selectMatch_found expr holds scopes :
  fts_match expr = Some holds ->
  exists rows es, fts_rows db = Some rows /\ found (fts_rank expr rows) holds scopes es /\ forall n,
    selectMatch fts_match fts_rank expr scopes n db
    = Some (match n with Some n => take (Z.to_nat n) (hit_row <$> es) | None => hit_row <$> es end).
Proof using Hk.
  intros Hm. destruct (ke_fts _ _ _ Hk) as (l & Hl & Hp).
  set (vals := filter (fun e => holds (indexed e) = true /\ eScope e ∈ scopes) (map_to_list (replay j)).*2).
  assert (Hval : forall e, e ∈ (map_to_list (replay j)).*2 <-> replay j !! entry_ref e = Some e).
  { intros e. rewrite list_elem_of_fmap. split.
    - intros ([r e'] & -> & H%elem_of_map_to_list). destruct (replay_ref _ _ _ H) as [Hr _]. cbn. by rewrite Hr.
    - intros H. exists (entry_ref e, e). by rewrite elem_of_map_to_list. }
  assert (Hnd : NoDup (map_to_list (replay j)).*2).
  { apply NoDup_fmap_2_strong; [|apply NoDup_map_to_list].
    intros [r e] [r' e'] H%elem_of_map_to_list H'%elem_of_map_to_list E. cbn in E. subst e'.
    destruct (replay_ref _ _ _ H) as [<- _]. by destruct (replay_ref _ _ _ H') as [<- _]. }
  set (pair := fun e => (indexed e, entry_cell e)).
  set (joined := omap (fun f => r ← (entry_cell <$> replay j) !! (frScope f, frName f); Some (f, r))
    (filter (fun f => holds f = true /\ frScope f ∈ scopes) l)).
  assert (Hj : joined ≡ₚ pair <$> vals).
  { unfold joined. rewrite Hp. unfold vals. clear - Hval.
    assert (Hsub : Forall (fun e => replay j !! entry_ref e = Some e) (map_to_list (replay j)).*2)
      by (apply Forall_forall; intros e; apply Hval).
    clear Hval. induction Hsub as [|e es He _ IH]; [done|]. cbn [fmap list_fmap].
    rewrite !filter_cons. cbn [frScope indexed]. destruct (decide _) as [Hd|Hd]; [|exact IH]. cbn [omap list_omap frScope frName indexed].
    rewrite lookup_fmap. change (replay j !! (eScope e, eName e)) with (replay j !! entry_ref e). rewrite He. cbn. by rewrite IH. }
  assert (Hsort : merge_sort (before (fts_rank expr l)) joined ≡ₚ map pair vals) by (rewrite merge_sort_Permutation; exact Hj).
  apply Permutation_map_inv in Hsort as (es & Es & Hes).
  exists l, es. split; [done|]. split; [split|].
  - intros e. rewrite <- Hes. unfold vals. rewrite list_elem_of_filter, Hval. tauto.
  - assert (Hnd' : NoDup es) by (rewrite <- Hes; by apply NoDup_filter).
    assert (Hlive : forall e, e ∈ es -> replay j !! entry_ref e = Some e).
    { intros e He. apply Hval. rewrite <- Hes in He. by apply list_elem_of_filter in He as [_ ?]. }
    pose proof (before_trans (fts_rank expr l)). pose proof (before_total (fts_rank expr l)).
    pose proof (StronglySorted_merge_sort (before (fts_rank expr l)) joined) as Hs.
    rewrite Es in Hs. clear - Hs Hnd' Hlive. induction Hnd' as [|e es He Hnd IH]; [constructor|].
    cbn in Hs. apply StronglySorted_inv in Hs as [Hs Hf]. change (map pair es) with (pair <$> es) in Hf.
    rewrite Forall_fmap, Forall_forall in Hf. constructor; [apply IH; [intros; apply Hlive; by right|done]|].
    apply Forall_forall. intros x Hx. apply before_ranked; [by apply Hf|]. intros Er. apply He.
    pose proof (Hlive e ltac:(left)) as H1. rewrite Er, (Hlive x ltac:(by right)) in H1. by injection H1 as ->.
  - intros n. unfold selectMatch. rewrite (ke_entries _ _ _ Hk), Hl, Hm. cbn [mbind option_bind]. fold joined. rewrite Es.
    f_equal. assert (E : (fun x : fts_row * entry_row => (frScope x.1, frName x.1, x.2)) <$> map pair es = hit_row <$> es).
    { clear. induction es as [|e es IH]; [done|]. cbn. f_equal. apply IH. }
    by rewrite E.
Qed.

(** What is documented of an expression of quoted prefixes: a row holds it
    when a token of its name, metadata or content starts with each of them,
    or, under OR, with one. *)
Context (starts : bytes -> fts_row -> bool).
Hypothesis fts_prefixes : forall any words,
  words <> [] -> Forall (fun w => w <> [] /\ ascii_of_N 0 ∉ w) words ->
  exists holds, fts_match (match_expression any words) = Some holds
    /\ forall r, holds r = if any then existsb (fun w => starts w r) words else forallb (fun w => starts w r) words.

Lemma found_ext rank h h' scopes es : (forall r, h r = h' r) -> found rank h scopes es -> found rank h' scopes es.
Proof using. intros E [H1 H2]. split; [|done]. intros e. by rewrite H1, E. Qed.

(** The rows read before a failure: the loop is full, or reports it. *)
Lemma hits_performs expr holds scopes rank es :
  found rank holds scopes es ->
  (forall n, selectMatch fts_match fts_rank expr scopes n db
     = Some (match n with Some n => take (Z.to_nat n) (hit_row <$> es) | None => hit_row <$> es end)) ->
  performs (let! (l, err) := query (selectMatch fts_match fts_rank expr scopes
              (if (0 <? limit) && negb (filtered o) then Some limit else None)) in
            let! (out, full) := of_res (hits_loop o limit [] l) in
            match err with Some e => if full : bool then ret out else fail e | None => ret out end) db
    (Ok (capped limit (kept o es))) db.
Proof using Hk.
  intros [Hes _] Hsel.
  set (n := if (0 <? limit) && negb (filtered o) then Some limit else None).
  set (es1 := match n with Some n => take (Z.to_nat n) es | None => es end).
  assert (Hrows : selectMatch fts_match fts_rank expr scopes n db = Some (hit_row <$> es1)).
  { rewrite Hsel. unfold es1. destruct n; [by rewrite fmap_take|done]. }
  assert (Hcap : capped limit (kept o es1) = capped limit (kept o es)).
  { unfold es1, n. destruct (Z.ltb_spec 0 limit); cbn [andb]; [|done]. destruct (filtered o) eqn:Ef; cbn [negb]; [done|].
    rewrite !kept_unfiltered by done. unfold capped. destruct (Z.ltb_spec 0 limit); [|lia]. by rewrite take_take, Nat.min_id. }
  assert (Hlive : Forall (fun e => replay j !! entry_ref e = Some e) es1).
  { apply Forall_forall. intros e He. apply Hes. unfold es1 in He. destruct n; [by apply elem_of_take in He as (i & Hi & _);
      eapply list_elem_of_lookup_2|done]. }
  assert (H0 : limit <= 0 \/ blen (@nil Entry) < limit) by (change (blen (@nil Entry)) with 0; lia).
  eapply query_all; [exact Hrows| |].
  - rewrite hits_loop_live by done. rewrite keep_loop_spec by done. eapply bind_reads; [apply ret_performs|].
    cbn [app]. rewrite Hcap. apply ret_performs.
  - intros k b. rewrite <- fmap_take, hits_loop_live by by apply Forall_take.
    destruct (keep_loop o limit [] (take k es1)) as [out full] eqn:Ek. destruct full; [left|right].
    + pose proof (keep_loop_full o limit (take k es1) (drop k es1) [] H0) as Hf. rewrite Ek in Hf. specialize (Hf eq_refl).
      rewrite take_drop, keep_loop_spec in Hf by done. cbn [app] in Hf. injection Hf as Hout _. rewrite <- Hcap, Hout.
      eapply bind_reads; apply ret_performs.
    + intros plan. cbn. split; [by eexists|done].
Qed.

Lemma checks_None scopes : check_scopes scopes = None -> Forall (fun s => CheckScope s = None) scopes.
Proof.
  induction scopes as [|s scopes IH]; [constructor|]. cbn. destruct (CheckScope s) eqn:E; [done|]. intros H. constructor; auto.
Qed.

Definition plain_words (q : bytes) : Prop := Forall (fun w => w <> [] /\ ascii_of_N 0 ∉ w) (Fields q).

Lemma search_performs scopes q :
  plain_words q -> check_scopes scopes = None -> SearchOptions_Check o AllSearchOptions = None ->
  exists es, performs (sqlite_search_with fts_match fts_rank scopes q limit o) db (Ok (capped limit (kept o es))) db
    /\ match Fields q with
       | [] => es = concat (live_in (replay j) <$> scopes)
       | words => exists rows, fts_rows db = Some rows /\ found (fts_rank (match_expression (soAny o) words) rows) (fun r =>
           if soAny o then existsb (fun w => starts w r) words else forallb (fun w => starts w r) words) scopes es
       end.
Proof using Hk fts_prefixes.
  intros Hq Hs Ho. unfold sqlite_search_with. rewrite Hs, Ho. unfold plain_words in Hq.
  destruct (Fields q) as [|w ws] eqn:Ew.
  - exists (concat (live_in (replay j) <$> scopes)). split; [|done]. apply guard_reads, guard_reads.
    destruct scopes as [|s scopes]; [cbn; unfold capped; rewrite take_nil; destruct (0 <? limit); apply ret_performs|].
    apply list_loop_performs; [by apply checks_None|]. change (blen (@nil Entry)) with 0. lia.
  - rewrite <- Ew in *. destruct (fts_prefixes (soAny o) (Fields q) ltac:(by rewrite Ew) Hq) as (holds & Hm & Hh).
    destruct (selectMatch_found _ _ scopes Hm) as (rows & es & Hrows & Hf & Hsel).
    exists es. split; [|exists rows; split; [done|by eapply found_ext] ]. apply guard_reads, guard_reads.
    destruct scopes as [|s scopes'] eqn:Es; [|by eapply hits_performs].
    destruct Hf as [Hf _]. destruct es as [|e es].
    + unfold capped, kept. rewrite filter_nil, take_nil. destruct (0 <? limit); apply ret_performs.
    + exfalso. assert (He : e ∈ e :: es) by set_solver. apply Hf in He as (_ & _ & ?%not_elem_of_nil). done.
Qed.
End Search.

(** C22: A search of the SQLite store, on a database that keeps a journal: an
    invalid scope or option is refused; with no words it returns the live
    entries of the scopes in order; with words, every live entry of the
    scopes whose indexed text has a token starting with each of them, or
    under Any with one, and no other, once each, in the order of the rank the
    index gives their rows for the expression, the least and best first, then
    of scope, then of name, which is one list and no other; filtered by the
    options and only then cut to the limit, so that what the limit keeps are
    the best.
    A query that fails is a database error, never part of an answer. *)
Theorem Sqlite_search max db j o limit fts_match fts_rank starts scopes q plan
  (Hk : keeps max db j)
  (fts_prefixes : forall any words,
     words <> [] -> Forall (fun w => w <> [] /\ ascii_of_N 0 ∉ w) words ->
     exists holds, fts_match (match_expression any words) = Some holds
       /\ forall r, holds r = if any then existsb (fun w => starts w r) words else forallb (fun w => starts w r) words)
  (Hq : plain_words q) :
  let w := sqlite_search_with fts_match fts_rank scopes q limit o (MkWorld db plan) in
  wDb w.2 = db /\
  match check_scopes scopes, SearchOptions_Check o AllSearchOptions with
  | Some e, _ | None, Some e => w.1 = Err (SStore e)
  | None, None =>
      exists es, (w.1 = Ok (capped limit (kept o es)) \/ dberr w.1 /\ plan <> [])
        /\ match Fields q with
           | [] => es = concat (live_in (replay j) <$> scopes)
           | words => exists rows, fts_rows db = Some rows /\ found j (fts_rank (match_expression (soAny o) words) rows) (fun r =>
               if soAny o then existsb (fun w => starts w r) words else forallb (fun w => starts w r) words) scopes es
           end
  end.
Proof.
  cbv zeta. destruct (check_scopes scopes) as [e|] eqn:Es; [by unfold sqlite_search_with; rewrite Es|].
  destruct (SearchOptions_Check o AllSearchOptions) as [e|] eqn:Eo; [by unfold sqlite_search_with; rewrite Es, Eo|].
  destruct (search_performs max db j Hk o limit fts_match fts_rank starts fts_prefixes scopes q Hq Es Eo) as (es & [Hp E] & Hes).
  specialize (Hp plan). destruct (sqlite_search_with _ _ _ _ _ _ (MkWorld db plan)) as [r w'] eqn:Ew. cbn in *. split.
  - destruct Hp as [[_ ->]|[_ [->| ->] ] ]; done.
  - exists es. split; [|done]. destruct Hp as [[-> _]|[Hb _]]; [by left|right]. split; [done|].
    intros ->. rewrite E in Ew. injection Ew as <- <-. by destruct Hb.
Qed.

(** ** An index for the witness

    A reading of expressions of quoted prefixes, and rows split into words
    at white space. *)

Module Index.

Fixpoint fts_string (s : bytes) : option (bytes * bytes) :=
  match s with
  | [] => None
  | c :: s' =>
      if Ascii.eqb c quote then
        match s' with
        | d :: s'' => if Ascii.eqb d quote then wr ← fts_string s''; Some (quote :: wr.1, wr.2) else Some ([], s')
        | [] => Some ([], [])
        end
      else wr ← fts_string s'; Some (c :: wr.1, wr.2)
  end.

Definition strip (p s : bytes) : option bytes := if HasPrefix s p then Some (drop (length p) s) else None.

Fixpoint fts_expr (fuel : nat) (sep s : bytes) : option (list bytes) :=
  match fuel with
  | O => None
  | S fuel' =>
      s ← strip [quote] s; wr ← fts_string s; r ← strip (bs " *") wr.2;
      match r with
      | [] => Some [wr.1]
      | _ => r ← strip sep r; ws ← fts_expr fuel' sep r; Some (wr.1 :: ws)
      end
  end.

Definition starts (w : bytes) (r : fts_row) : bool :=
  existsb (fun tok => HasPrefix tok w) (Fields (Join (bs " ") [frName r; frMeta r; frContent r])).

Definition fts_match (s : bytes) : option (fts_row -> bool) :=
  match fts_expr (length s) (bs " AND ") s with
  | Some ws => Some (fun r => forallb (fun w => starts w r) ws)
  | None => ws ← fts_expr (length s) (bs " OR ") s; Some (fun r => existsb (fun w => starts w r) ws)
  end.

Lemma fts_string_doubled w r : head r <> Some quote -> fts_string (double_quotes w ++ quote :: r) = Some (w, r).
Proof.
  intros Hr. induction w as [|c w IH]; unfold double_quotes in *; cbn [fmap list_fmap concat app].
  - cbn [fts_string]. rewrite (proj2 (Ascii.eqb_eq _ _) eq_refl). destruct r as [|d r]; [done|].
    destruct (Ascii.eqb_spec d quote) as [->|]; [by destruct Hr|done].
  - destruct (Ascii.eqb_spec c quote) as [->|Hc]; cbn [app fts_string].
    + rewrite (proj2 (Ascii.eqb_eq _ _) eq_refl), IH. done.
    + rewrite (proj2 (Ascii.eqb_neq _ _) Hc), IH. done.
Qed.

Lemma strip_app p s : strip p (p ++ s) = Some s.
Proof. unfold strip. rewrite HasPrefix_app. by rewrite drop_app_length. Qed.

Lemma fts_expr_join sep any ws fuel :
  sep = (if any : bool then bs " OR " else bs " AND ") -> ws <> [] -> (length ws <= fuel)%nat ->
  fts_expr fuel sep (match_expression any ws) = Some ws.
Proof.
  intros Hsep. unfold match_expression. rewrite <- Hsep. revert fuel. induction ws as [|w ws IH]; intros fuel Hne Hf; [done|].
  destruct fuel as [|fuel]; [cbn in Hf; lia|]. cbn [fts_expr fmap list_fmap].
  assert (E : forall rest, strip [quote] (prefix_string w ++ rest) = Some (double_quotes w ++ quote :: bs " *" ++ rest)).
  { intros rest. unfold prefix_string. change (quote :: ?x) with ([quote] ++ x). rewrite <- app_assoc, strip_app.
    f_equal. by rewrite <- !app_assoc. }
  destruct ws as [|w' ws].
  - cbn [fmap list_fmap Join]. rewrite <- (app_nil_r (prefix_string w)), E. cbn [mbind option_bind]. rewrite fts_string_doubled by done.
    cbn [mbind option_bind snd fst]. by rewrite strip_app.
  - rewrite Join_cons by done. rewrite E. cbn [mbind option_bind]. rewrite fts_string_doubled by done.
    cbn [mbind option_bind snd fst]. rewrite strip_app. cbn [mbind option_bind]. assert (Hs : exists c t, sep = c :: t) by (rewrite Hsep; destruct any; eexists _, _; reflexivity).
    destruct Hs as (c & t & Hct). rewrite Hct at 1. cbn [app]. rewrite strip_app. cbn [mbind option_bind].
    rewrite IH; [done|done|]. cbn in Hf |- *. lia.
Qed.

Lemma fts_expr_wrong w w' ws fuel : fts_expr fuel (bs " AND ") (match_expression true (w :: w' :: ws)) = None.
Proof.
  destruct fuel as [|fuel]; [done|]. unfold match_expression. cbn [fts_expr fmap list_fmap Join].
  unfold prefix_string at 1. change (quote :: ?x) with ([quote] ++ x). rewrite <- !app_assoc, strip_app. cbn [mbind option_bind].
  rewrite <- ?app_assoc. cbn [app]. rewrite fts_string_doubled by done. cbn [mbind option_bind snd fst].
  change (?a :: ?b :: ?x) with (bs " *" ++ x). rewrite strip_app. done.
Qed.

Lemma expression_length any ws : (length ws <= length (match_expression any ws))%nat.
Proof.
  unfold match_expression. induction ws as [|w ws IH]; [done|]. destruct ws as [|w' ws]; cbn [fmap list_fmap Join] in *.
  - unfold prefix_string. cbn. lia.
  - rewrite !length_app. unfold prefix_string at 1. cbn [length] in *. lia.
Qed.

Lemma index_prefixes any words :
  words <> [] -> Forall (fun w => w <> [] /\ ascii_of_N 0 ∉ w) words ->
  exists holds, fts_match (match_expression any words) = Some holds
    /\ forall r, holds r = if any then existsb (fun w => starts w r) words else forallb (fun w => starts w r) words.
Proof.
  intros Hne _. unfold fts_match. pose proof (expression_length any words). destruct any.
  - destruct words as [|w [|w' ws] ]; [done| |].
    + assert (E : match_expression true [w] = match_expression false [w]) by done. rewrite E in *.
      rewrite (fts_expr_join (bs " AND ") false) by done. eexists. split; [done|]. intros r. cbn. by destruct (starts w r).
    + rewrite fts_expr_wrong. rewrite (fts_expr_join (bs " OR ") true) by done. cbn. eexists. split; [done|done].
  - rewrite (fts_expr_join (bs " AND ") false) by done. eexists. split; [done|done].
Qed.
End Index.

(** Two entries, the second by name holding a word more often. *)
Definition search_ops : list op :=
  [OPut 1 (bs "s1") (MkEntry (bs "user") (bs "a-note") (bs "Short answers.") None [] [] 0 false) [];
   OPut 2 (bs "s2") (MkEntry (bs "user") (bs "b-note") (bs "Short answers to Short answers.") None [] [] 0 false) []].

Definition search_db : database := wDb (sqlite_run 4096 (MkWorld start []) search_ops).1.

Lemma search_db_keeps : keeps 4096 search_db (spJournal (run (MkSpec 4096 []) search_ops).1).
Proof.
  apply (run_keeps 4096 start []); [apply start_keeps| |by vm_compute].
  repeat constructor; vm_compute; split_and?; done.
Qed.

(** The more tokens that start with a word of the expression, the better. *)
Definition count_rank (expr : bytes) (l : list fts_row) (r : fts_row) : Z :=
  let words := default [] (Index.fts_expr (length expr) (bs " AND ") expr) in
  - blen (filter (fun tok => existsb (HasPrefix tok) words = true) (Fields (frContent r))).

Definition search_opts : SearchOptions := MkSearchOptions false None 0 0.

Lemma search_words : plain_words (bs "Short ans").
Proof.
  unfold plain_words. assert (E : Fields (bs "Short ans") = [bs "Short"; bs "ans"]) by by vm_compute. rewrite E.
  assert (H : Forall (fun w => w <> [] /\ forallb (fun c => negb (Ascii.eqb c (ascii_of_N 0))) w = true) [bs "Short"; bs "ans"])
    by by repeat constructor.
  eapply Forall_impl; [exact H|]. intros w [Hw Hz]. split; [done|]. rewrite forallb_forall in Hz.
  intros Hin%list_elem_of_In%Hz. by vm_compute in Hin.
Qed.

Lemma search_checks : check_scopes [bs "user"] = None /\ SearchOptions_Check search_opts AllSearchOptions = None.
Proof. by vm_compute. Qed.

(** Two entries match, and the limit of one keeps the second by name. *)
Lemma Sqlite_search_witness :
  let w := sqlite_search_with Index.fts_match count_rank [bs "user"] (bs "Short ans") 1 search_opts (MkWorld search_db []) in
  wDb w.2 = search_db
  /\ (exists es, w.1 = Ok (capped 1 (kept search_opts es)))
  /\ match w.1 with Ok es => bool_decide (eName <$> es = [bs "b-note"]) | Err _ => false end = true.
Proof.
  cbv zeta.
  destruct (Sqlite_search 4096 search_db _ search_opts 1 Index.fts_match count_rank Index.starts [bs "user"] (bs "Short ans") []
    search_db_keeps Index.index_prefixes search_words) as [Hdb H].
  destruct search_checks as [E1 E2]. rewrite E1, E2 in H. destruct H as (es & [E|[_ Hne] ] & _); [|by destruct Hne].
  split; [exact Hdb|]. split; [by exists es|]. by vm_compute.
Defined.
