(* ===== verification/Storetest.v ===== *)
(** * The conformance suite: storetest/storetest.go

    Each test is a program that calls a store's methods and checks what they
    return: [Verify] is a [t.Errorf] unless, [Need] a [t.Fatal] unless, [Sub]
    a [t.Run].  The suite is run on any store with the interface; what it
    counts is the failures.  What it does to returned maps and records, to
    see that the store keeps copies, has no effect on values and is left out,
    as is the wording of one error; the concurrent test is in its own file. *)

From S2P Require Import Prelude GoStd Sha256 Memory Store MemStore Contract LostUpdate Search.

(** ** Tests *)

(** A call of a store's method, with the type of what it returns. *)
Inductive ask : Type -> Type :=
| AMax : ask Z
| AGet (scope name : bytes) : ask (res error Entry)
| AList (scope : bytes) : ask (res error (list Entry))
| APut (session : bytes) (e : Entry) (opts : list PutOption) : ask (res error Change)
| AForget (session scope name : bytes) : ask (res error Change)
| AJournal (after : N) : ask (list (res jerror Change))
| ALastSeq : ask Z
| ASearch (scopes : list bytes) (query : bytes) (limit : Z) : ask (res error (list Entry))
| ASearchWith (scopes : list bytes) (query : bytes) (limit : Z) (o : SearchOptions) : ask (res error (list Entry))
| ASupport : ask (list bytes).

Inductive test : Type :=
| Done
| Ask {X : Type} (a : ask X) (k : X -> test)
| Verify (b : bool) (k : test)
| Need (b : bool) (k : test)
| Sub (t k : test)
| Fresh (k : test)    (** the rest on another new store *)
| Again (k : test).   (** the rest through a second handle on the storage *)

Notation "'ask!' x := a 'in' k" := (Ask a (fun x => k))
  (at level 10, x pattern, a at level 100, k at level 200) : go_scope.
Notation "'check!' b 'in' k" := (Verify b k) (at level 10, b at level 100, k at level 200) : go_scope.
Notation "'need!' b 'in' k" := (Need b k) (at level 10, b at level 100, k at level 200) : go_scope.

(** The end of a test on the spot. *)
Definition Fatal : test := Need false Done.

(** A loop over a table. *)
Definition each {A} (l : list A) (f : A -> test -> test) (k : test) : test := foldr f k l.

(** [errors.Is] of an error returned. *)
Definition errors_is {A} (r : res error A) (s : sentinel) : bool :=
  match r with
  | Err e => match wraps e, s with
             | SNotFound, SNotFound | SInvalid, SInvalid | STooLarge, STooLarge
             | SConflict, SConflict | SUnsupported, SUnsupported | SBudget, SBudget => true
             | _, _ => false
             end
  | Ok _ => false
  end.

Definition is_ok {A} (r : res error A) : bool := match r with Ok _ => true | Err _ => false end.

(** [errors.As] for the two errors with fields. *)
Definition as_size {A} (r : res error A) : option SizeError :=
  match r with Err (ErrTooLarge e) => Some e | _ => None end.
Definition as_conflict {A} (r : res error A) : option ConflictError :=
  match r with Err (ErrConflict e) => Some e | _ => None end.

(** The value of a call that must succeed, where failing ends the test, or
    where its nil result would. *)
Definition must {A} (r : res error A) (k : A -> test) : test := match r with Ok a => k a | Err _ => Fatal end.
Definition must_some {A} (o : option A) (k : A -> test) : test := match o with Some a => k a | None => Fatal end.

Notation "'must!' x := a 'in' k" := (Ask a (fun r => must r (fun x => k)))
  (at level 10, x pattern, a at level 100, k at level 200) : go_scope.

(** ** Helpers *)

Fixpoint records (l : list (res jerror Change)) : option (list Change) :=
  match l with
  | [] => Some []
  | Ok c :: l' => (fun cs => c :: cs) <$> records l'
  | Err _ :: _ => None
  end.

(** [collect]: a record that cannot be read ends the test. *)
Definition collect (after : N) (k : list Change -> test) : test :=
  ask! l := AJournal after in must_some (records l) k.

Definition count (after : N) (k : Z -> test) : test := collect after (fun l => k (blen l)).

Definition names (es : list Entry) : bytes := Join (bs ",") (eName <$> es).
Definition keys (es : list Entry) : list bytes := (fun e => eScope e ++ bs "/" ++ eName e) <$> es.

Definition occurrences (l : list bytes) (s : bytes) : nat := length (filter (fun x => x = s) l).
Definition sameSet (a b : list bytes) : bool :=
  (blen a =? blen b) && forallb (fun s => (occurrences a s =? occurrences b s)%nat) (a ++ b).

(** An empty meta is none. *)
Definition sameEntry (a b : Entry) : bool :=
  bool_decide (eScope a = eScope b) && bool_decide (eName a = eName b) && bool_decide (eContent a = eContent b)
  && (bool_decide (meta_map (eMeta a) = ∅) && bool_decide (meta_map (eMeta b) = ∅) || bool_decide (eMeta a = eMeta b)).

Definition Repeat (c : ascii) (n : Z) : bytes := replicate (Z.to_nat n) c.

(** An entry literal, and one with metadata. *)
Definition ent (scope name : string) (content : bytes) : Entry := MkEntry (bs scope) (bs name) content None [] [] 0 false.
Definition with_meta (m : list (bytes * bytes)) (e : Entry) : Entry :=
  MkEntry (eScope e) (eName e) (eContent e) (Some (list_to_map m)) (eHash e) (eMetaHash e) (eUpdated e) (eDeleted e).
Definition with_content (content : bytes) (e : Entry) : Entry :=
  MkEntry (eScope e) (eName e) content (eMeta e) (eHash e) (eMetaHash e) (eUpdated e) (eDeleted e).
Definition m1 (k v : string) : list (bytes * bytes) := [(bs k, bs v)].
Definition m2 (k v k' v' : string) : list (bytes * bytes) := [(bs k, bs v); (bs k', bs v')].

(** A newline, and "süß ✓ 日本". *)
Definition nl : bytes := [ascii_of_N 10].
Definition odd_text : bytes := bs "  ---" ++ nl ++ bs "name: not-meta" ++ nl ++ bs "---" ++ nl ++ bs "süß ✓ 日本".

Definition user : bytes := bs "user".
Definition project : bytes := bs "project".

(** ** The tests *)

Definition invalid_entries : list Entry :=
  [ent "" "a" (bs "x"); ent "User" "a" (bs "x"); ent "../etc" "a" (bs "x"); ent "user" "" (bs "x");
   ent "user" "a b" (bs "x"); ent "user" "a--b" (bs "x"); ent "user" "-a" (bs "x"); ent "user" "a.md" (bs "x");
   MkEntry user (Repeat "a" (MaxNameBytes + 1)) (bs "x") None [] [] 0 false;
   ent "user" "a" []; ent "user" "a" (bs "x" ++ [ascii_of_N 255]);
   with_meta (m1 "Type" "y") (ent "user" "a" (bs "x")); with_meta (m1 "name" "y") (ent "user" "a" (bs "x"));
   with_meta [(bs "description", bs "a" ++ nl ++ bs "b")] (ent "user" "a" (bs "x"));
   with_meta (m1 "description" " a ") (ent "user" "a" (bs "x"));
   with_meta [(bs "description", Repeat "d" MaxMetaBytes)] (ent "user" "a" (bs "x"))].

Definition testValidation : test :=
  each invalid_entries (fun e k => Sub (ask! r := APut [] e [] in check! errors_is r SInvalid in Done) k)
    (ask! r := AList user in
     check! (match r with Ok [] => true | _ => false end) in
     ask! l := AJournal 0 in
     check! bool_decide (l = []) in Done).

Definition style_meta : list (bytes * bytes) := m2 "description" "How to answer" "type" "feedback".

Definition testPutGetList : test :=
  ask! r := AGet user (bs "missing") in
  check! errors_is r SNotFound in
  ask! r := AList (bs "nowhere") in
  check! (match r with Ok [] => true | _ => false end) in
  let style := with_meta style_meta (ent "user" "style" (bs "Short answers." ++ nl)) in
  must! _ := APut [] style [] in
  let odd := ent "user" "odd" odd_text in
  must! _ := APut [] odd [] in
  must! _ := APut [] (ent "project" "build" (bs "make check")) [] in
  must! got := AGet user (bs "style") in
  check! (bool_decide (eHash got = Hash (eContent style)) && negb (IsZero (eUpdated got)) && negb (eDeleted got)) in
  check! sameEntry got style in
  must! got := AGet user (bs "odd") in
  check! (bool_decide (eContent got = eContent odd) && bool_decide (eMeta got = None)) in
  must! es := AList user in
  check! bool_decide (names es = bs "odd,style") in
  each es (fun e k => check! (bool_decide (eHash e = Hash (eContent e)) && negb (IsZero (eUpdated e)) && bool_decide (eScope e = user)) in k)
  (ask! r := AList project in
   check! (match r with Ok es => bool_decide (names es = bs "build") | Err _ => false end) in
   let style := with_meta (m1 "type" "feedback") (with_content (bs "Long answers." ++ nl) style) in
   must! _ := APut [] style [] in
   must! got := AGet user (bs "style") in
   check! (sameEntry got style && bool_decide (Description got = [])) in
   must! again := AGet user (bs "style") in
   check! bool_decide (meta_get (eMeta again) (bs "type") = bs "feedback") in
   must! _ := APut [] (with_meta [] (ent "user" "bare" (bs "x"))) [] in
   must! bare := AGet user (bs "bare") in
   check! bool_decide (eMeta bare = None) in Done).

Definition testInvalidReads : test :=
  must! _ := APut [] (ent "user" "a" (bs "x")) [] in
  each [bs ""; bs "User"; bs "../etc"; bs "user/a"; bs "a--b"] (fun scope k =>
    ask! r := AList scope in check! errors_is r SInvalid in
    ask! r := AGet scope (bs "a") in check! errors_is r SInvalid in
    ask! r := AForget [] scope (bs "a") in check! errors_is r SInvalid in
    ask! r := ASearch [user; scope] (bs "x") 0 in check! errors_is r SInvalid in k)
  (each [bs ""; bs "A"; bs "../a"; bs "a.md"; bs "-a"] (fun name k =>
    ask! r := AGet user name in check! errors_is r SInvalid in
    ask! r := AForget [] user name in check! errors_is r SInvalid in k)
  (count 0 (fun n => check! (n =? 1) in Done))).

Definition testBounds : test :=
  ask! limit := AMax in
  need! (256 <=? limit) in
  must! _ := APut [] (ent "user" "at" (Repeat "a" limit)) [] in
  ask! r := APut [] (ent "user" "over" (Repeat "b" (limit + 1))) [] in
  check! negb (is_ok r) in
  need! errors_is r STooLarge in
  must_some (as_size r) (fun se =>
    check! ((seSize se =? limit + 1) && (seLimit se =? limit) && (seStored se =? -1)
            && bool_decide (seScope se = user) && bool_decide (seName se = bs "over")) in
    ask! r := AGet user (bs "over") in
    check! errors_is r SNotFound in
    must! _ := APut [] (ent "user" "small" (bs "ten bytes!")) [] in
    ask! r := APut [] (ent "user" "small" (Repeat "c" (limit + 7))) [] in
    must_some (as_size r) (fun se =>
      check! ((seStored se =? 10) && (seSize se =? limit + 7)) in
      ask! r := AGet user (bs "small") in
      check! (match r with Ok got => bool_decide (eContent got = bs "ten bytes!") | Err _ => false end) in
      check! ContainsStr (SizeError_Error se) (bs "holds 10 bytes now") in
      count 0 (fun n => check! (n =? 2) in Done))).

Definition testIfHash : test :=
  let e := ent "user" "profile" (bs "Chris.") in
  must! _ := APut [] e [IfHash []] in
  let h1 := Hash (eContent e) in
  ask! r := APut [] e [IfHash []] in
  need! errors_is r SConflict in
  must_some (as_conflict r) (fun ce =>
    check! (bool_decide (ceWant ce = []) && bool_decide (ceHave ce = h1)) in
    let e := with_content (bs "Chris. Prefers Go.") e in
    ask! r := APut [] e [IfHash (Hash (bs "stale"))] in
    must_some (as_conflict r) (fun ce =>
      need! (bool_decide (ceHave ce = h1) && bool_decide (ceWant ce = Hash (bs "stale"))) in
      must! got := AGet user (bs "profile") in
      check! bool_decide (eContent got = bs "Chris.") in
      must! _ := APut [] e [IfHash h1] in
      let h2 := Hash (eContent e) in
      must! _ := AForget [] user (bs "profile") in
      ask! r := APut [] e [IfHash h2] in
      must_some (as_conflict r) (fun ce =>
        need! (bool_decide (ceHave ce = []) && bool_decide (ceWant ce = h2)) in
        must! _ := APut [] e [IfHash []] in
        ask! r := APut [] (ent "user" "Bad" (bs "x")) [IfHash []] in
        check! errors_is r SInvalid in
        count 0 (fun n => check! (n =? 4) in Done)))).

Definition testMetaHash : test :=
  let meta := style_meta in
  let mh := MetaHash (Some (list_to_map meta)) in
  let style content m := with_meta m (ent "user" "style" content) in
  must! rec := APut [] (style (bs "Short.") meta) [IfHash []; IfMetaHash []] in
  check! bool_decide (eMetaHash (cEntry rec) = mh) in
  must! _ := APut [] (ent "user" "bare" (bs "x")) [] in
  must! got := AGet user (bs "style") in
  check! bool_decide (eMetaHash got = mh) in
  ask! r := AList user in
  each (match r with Ok es => es | Err _ => [] end)
    (fun e k => check! bool_decide (eMetaHash e = MetaHash (eMeta e)) in k)
  (let edited := m2 "description" "How to answer, briefly" "type" "feedback" in
   let eh := MetaHash (Some (list_to_map edited)) in
   must! _ := APut [] (style (bs "Short.") edited) [] in
   ask! r := APut [] (style (bs "Shorter.") meta) [IfHash (eHash got); IfMetaHash (eMetaHash got)] in
   must_some (as_conflict r) (fun ce =>
     need! (ceMeta ce && bool_decide (ceWant ce = mh) && bool_decide (ceHave ce = eh)) in
     must! now := AGet user (bs "style") in
     check! (bool_decide (eContent now = bs "Short.") && bool_decide (Description now = bs "How to answer, briefly")) in
     must! rec := APut [] (style (bs "Shorter.") edited) [IfHash (eHash got); IfMetaHash eh] in
     check! (bool_decide (cPrev rec = eHash got) && bool_decide (eMetaHash (cEntry rec) = eh)) in
     must! tomb := AForget [] user (bs "style") in
     check! bool_decide (eMetaHash (cEntry tomb) = eh) in
     ask! r := APut [] (ent "user" "style" (bs "Back.")) [IfMetaHash mh] in
     check! (match as_conflict r with Some ce => ceMeta ce && bool_decide (ceHave ce = []) | None => false end) in Done)).

Definition testForget : test :=
  ask! r := AForget [] user (bs "missing") in
  check! errors_is r SNotFound in
  let tz := bs "Europe/London" in
  let e := with_meta (m1 "description" "Timezone") (ent "user" "tz" tz) in
  must! _ := APut [] e [] in
  must! _ := APut [] (ent "user" "keep" (bs "kept")) [] in
  must! tombRec := AForget (bs "sess-f") user (bs "tz") in
  check! (eDeleted (cEntry tombRec) && (cSeq tombRec =? 3) && bool_decide (cSession tombRec = bs "sess-f")) in
  ask! r := AGet user (bs "tz") in
  check! errors_is r SNotFound in
  ask! r := AList user in
  check! (match r with Ok es => bool_decide (names es = bs "keep") | Err _ => false end) in
  ask! r := AForget [] user (bs "tz") in
  check! errors_is r SNotFound in
  ask! r := ASearch [user] (bs "London") 0 in
  check! (match r with Ok (_ :: _) => false | _ => true end) in
  collect 0 (fun changes =>
    need! (blen changes =? 3) in
    must_some (changes !! 2%nat) (fun tomb =>
      check! (eDeleted (cEntry tomb) && bool_decide (eContent (cEntry tomb) = tz) && bool_decide (eHash (cEntry tomb) = Hash tz)
              && bool_decide (cPrev tomb = eHash (cEntry tomb)) && bool_decide (cReplaced tomb = eHash (cEntry tomb))
              && bool_decide (cSession tomb = bs "sess-f") && bool_decide (Description (cEntry tomb) = bs "Timezone")
              && negb (IsZero (eUpdated (cEntry tomb)))) in
      must! _ := APut [] e [] in
      collect 3 (fun changes =>
        check! (match changes with
                | [c] => bool_decide (cPrev c = []) && bool_decide (cReplaced c = []) && negb (eDeleted (cEntry c))
                | _ => false
                end) in Done))).

(** The methods of time.Time, on the zero point of the model's times. *)
Section Times.
Context (Before Equal : Z -> Z -> bool).

(** The fields of two records both tests compare. *)
Definition same_record (r c : Change) : bool :=
  (cSeq r =? cSeq c) && bool_decide (cPrev r = cPrev c) && bool_decide (cSession r = cSession c)
  && Equal (cAt r) (cAt c) && sameEntry (cEntry r) (cEntry c)
  && bool_decide (eHash (cEntry r) = eHash (cEntry c)) && bool_decide (eDeleted (cEntry r) = eDeleted (cEntry c)).

(** The steps: the session, the entry and the base its record must have. *)
Definition journal_steps : list (bytes * Entry * bytes) :=
  [(bs "sess-a", ent "user" "one" (bs "1"), []);
   (bs "sess-b", ent "user" "two" (bs "2"), []);
   (bs "sess-b", ent "user" "one" (bs "1b"), Hash (bs "1"));
   ([], ent "project" "one" (bs "p1"), []);
   (bs "sess-a", with_meta (m1 "k" "v") (ent "user" "one" (bs "1c")), Hash (bs "1b"))].

(** The loop of Puts, with the records they returned. *)
Fixpoint put_steps (l : list (bytes * Entry * bytes)) (returned : list Change) (k : list Change -> test) : test :=
  match l with
  | [] => k returned
  | (session, e, _) :: l' => must! rec := APut session e [] in put_steps l' (returned ++ [rec]) k
  end.

(** What is checked of the record at an index. *)
Definition check_step (changes : list Change) (i : nat) (c : Change) (s : bytes * Entry * bytes) (k : test) : test :=
  let '(session, e, prev) := s in
  check! (cSeq c =? Z.of_nat i + 1) in
  check! (bool_decide (eScope (cEntry c) = eScope e) && bool_decide (eName (cEntry c) = eName e)
          && bool_decide (eContent (cEntry c) = eContent e) && bool_decide (eMeta (cEntry c) = eMeta e)) in
  check! (bool_decide (eHash (cEntry c) = Hash (eContent e)) && negb (eDeleted (cEntry c)) && negb (IsZero (eUpdated (cEntry c)))) in
  check! bool_decide (cPrev c = prev) in
  check! bool_decide (cReplaced c = prev) in
  check! bool_decide (cSession c = session) in
  check! negb (IsZero (cAt c)) in
  check! bool_decide (cSource c = []) in
  check! (match i with
          | O => true
          | S p => match changes !! p with Some before => negb (Before (cAt c) (cAt before)) | None => false end
          end) in k.

Definition testJournal : test :=
  ask! l := AJournal 0 in
  check! bool_decide (l = []) in
  put_steps journal_steps [] (fun returned =>
    collect 0 (fun changes =>
      need! (blen returned =? blen changes) in
      each (zip returned changes) (fun rc k => check! (same_record rc.1 rc.2 && bool_decide (cReplaced rc.1 = cReplaced rc.2)) in k)
      (need! (blen changes =? blen journal_steps) in
       each (zip (seq 0 (length changes)) (zip changes journal_steps)) (fun x k => check_step changes x.1 x.2.1 x.2.2 k)
       (must! got := AGet user (bs "one") in
        must_some (changes !! 4%nat) (fun c =>
          check! Equal (eUpdated got) (eUpdated (cEntry c)) in
          each [0; 1; 3; 4; 5; 6; 100]%N (fun after k =>
            collect after (fun got =>
              let want := if Z.of_N after <? blen journal_steps then blen journal_steps - Z.of_N after else 0 in
              check! (blen got =? want) in
              check! (match got with c :: _ => cSeq c =? Z.of_N after + 1 | [] => true end) in k))
          (collect 0 (fun again =>
             check! (match again with c :: _ => bool_decide (eContent (cEntry c) = bs "1") | [] => false end) in Done))))))).

(** What the test goes on with after [agentmemory.LostUpdates]: the updates,
    unless there is an error, which is fatal or fails the check.  The call
    reads the store's journal, and reports an error when there is damage. *)
Definition as_lost (l : list LostUpdate * list jerror) : option (list LostUpdate) :=
  match l.2 with [] => Some l.1 | _ :: _ => None end.

Definition lost_updates (after : N) (k : option (list LostUpdate) -> test) : test :=
  ask! l := AJournal after in k (as_lost (LostUpdates_events l (Z.of_N after))).

Definition testLostUpdates : test :=
  must! _ := APut [] (ent "user" "profile" (bs "Chris.")) [] in
  must! read := AGet user (bs "profile") in
  let slack := with_content (bs "Chris. Lives in Bristol.") read in
  must! _ := APut (bs "slack") slack [BasedOn (eHash read)] in
  let telegram := with_content (bs "Chris. Prefers Go.") read in
  must! _ := APut (bs "telegram") telegram [BasedOn (eHash read)] in
  lost_updates 0 (fun lost =>
    match lost with
    | Some [got] =>
        let over := Hash (eContent slack) in
        check! ((cSeq (luChange got) =? 3) && bool_decide (cSession (luChange got) = bs "telegram")
                && bool_decide (cPrev (luChange got) = eHash read) && bool_decide (cReplaced (luChange got) = over)
                && bool_decide (luOver got = over)) in
        lost_updates 2 (fun from2 =>
          check! (match from2 with
                  | Some [g] => (cSeq (luChange g) =? 3) && negb (luBreak g) && bool_decide (luOver g = over)
                  | _ => false
                  end) in
          lost_updates 3 (fun from3 =>
            check! (match from3 with Some [] => true | _ => false end) in
            Fresh (
              let e content := ent "user" "profile" content in
              must! _ := APut [] (e (bs "one")) [IfHash []] in
              must! _ := APut [] (e (bs "two")) [IfHash (Hash (bs "one"))] in
              must! _ := APut [] (e (bs "three")) [BasedOn (Hash (bs "two"))] in
              must! _ := APut [] (e (bs "four")) [] in
              must! _ := AForget [] user (bs "profile") in
              must! _ := APut [] (e (bs "again")) [] in
              lost_updates 0 (fun clean =>
                check! (match clean with Some [] => true | _ => false end) in
                must! _ := APut [] (e (bs "again")) [BasedOn (Hash (bs "by hand"))] in
                lost_updates 0 (fun outside => must_some outside (fun outside =>
                  check! (match outside with
                          | [g] => bool_decide (cPrev (luChange g) = Hash (bs "by hand")) && bool_decide (luOver g = Hash (bs "again"))
                                   && bool_decide (cReplaced (luChange g) = Hash (bs "again"))
                          | _ => false
                          end) in Done))))))
    | _ => Fatal
    end).

(** Whether the store is a [LastSeqer]. *)
Section Answers.
Context (answers : bool).

(** [agentmemory.LastSeq], which asks a store that is one, and reads the
    journal of any other. *)
Definition last_seq (k : option Z -> test) : test :=
  if answers then ask! n := ALastSeq in k (Some n)
  else ask! l := AJournal 0 in k (match LastSeq_fallback l with (n, []) => Some n | _ => None end).

(** The closure [check]. *)
Definition check_last (want : N) (k : test) : test :=
  (if answers then fun k => ask! n := ALastSeq in check! (n =? Z.of_N want) in k else id)
  (last_seq (fun n =>
   check! (match n with Some n => n =? Z.of_N want | None => false end) in
   count want (fun n => check! (n =? 0) in k))).

Definition testLastSeq : test :=
  check_last 0
  (each [bs "n0"; bs "n1"; bs "n2"] (fun name k => must! _ := APut [] (MkEntry user name (bs "c") None [] [] 0 false) [] in k)
  (check_last 3
  (must! _ := AForget [] user (bs "n0") in
   check_last 4
   (ask! r := APut [] (ent "user" "n1" (bs "x")) [IfHash []] in
    need! errors_is r SConflict in
    check_last 4 Done)))).
End Answers.

Definition testPersistence : test :=
  let puts :=
    [with_meta style_meta (ent "user" "style" (bs "Short answers." ++ nl)); ent "user" "gone" (bs "to be forgotten");
     ent "user" "odd" odd_text; ent "project" "build" (bs "make check")] in
  each puts (fun e k => must! _ := APut (bs "sess-p") e [] in k)
  (must! _ := AForget (bs "sess-p") user (bs "gone") in
   collect 0 (fun before =>
     must! style := AGet user (bs "style") in
     ask! max := AMax in
     Again (
       ask! max' := AMax in
       check! (max' =? max) in
       must! again := AGet user (bs "style") in
       check! (sameEntry again style && bool_decide (eHash again = eHash style) && Equal (eUpdated again) (eUpdated style)) in
       ask! r := AGet user (bs "odd") in
       check! (match r with Ok odd => bool_decide (eContent odd = odd_text) | Err _ => false end) in
       ask! r := AGet user (bs "gone") in
       check! errors_is r SNotFound in
       ask! r := AList user in
       check! (match r with Ok es => bool_decide (names es = bs "odd,style") | Err _ => false end) in
       collect 0 (fun after =>
         need! (blen after =? blen before) in
         each (zip before after) (fun ba k =>
           check! (same_record ba.1 ba.2 && Equal (eUpdated (cEntry ba.1)) (eUpdated (cEntry ba.2))) in k)
         (must! _ := APut [] (ent "user" "more" (bs "more")) [] in
          collect (Z.to_N (blen before)) (fun more =>
            check! (match more with [c] => cSeq c =? blen before + 1 | _ => false end) in
            ask! r := AGet user (bs "more") in
            check! is_ok r in
            Again (
              ask! r := ASearch [user] (bs "more") 0 in
              check! (match r with Ok [_] => true | _ => false end) in Done))))))).
End Times.

(** ** Searching *)

Definition search_puts (tool taste build : list (bytes * bytes)) : list Entry :=
  [with_meta tool (ent "user" "editor" (bs "Uses Neovim with a dark theme."));
   with_meta taste (ent "user" "language" (bs "Prefers Go over Python for tools."));
   ent "user" "timezone" (bs "Europe/London");
   (match build with [] => id | _ => with_meta build end)
     (ent "project" "build" (bs "Run make check before a commit; the Go toolchain is 1.25."))].

Definition put_all (l : list Entry) (k : test) : test := each l (fun e k => must! _ := APut [] e [] in k) k.

Definition both : list bytes := [user; project].

(** The scopes, the query, the limit, and what is wanted in any order. *)
Definition search_cases : list (list bytes * bytes * Z * list bytes) :=
  [([user], bs "neovim", 0, [bs "user/editor"]); ([user], bs "NEOVIM", 0, [bs "user/editor"]);
   (both, bs "Go", 0, [bs "user/language"; bs "project/build"]); ([user], bs "Go", 0, [bs "user/language"]);
   (both, bs "Go Python", 0, [bs "user/language"]); ([user], bs "timezone", 0, [bs "user/timezone"]);
   ([user], bs "preference", 0, [bs "user/editor"; bs "user/language"]); (both, bs "rust", 0, []);
   ([bs "nowhere"], bs "go", 0, []); (both, bs "Go", 1, [])].

Definition testSearch : test :=
  put_all (search_puts (m1 "description" "Editor preference") (m1 "description" "Language preference") []
           ++ [ent "hidden" "secret" (bs "Go is also mentioned here.")])
  (each search_cases (fun tt k =>
     let '(scopes, query, limit, want) := tt in
     Sub (must! got := ASearch scopes query limit in
          if 0 <? limit then check! (blen got =? limit) in Done
          else check! sameSet (keys got) want in
               each got (fun e k => check! (negb (bool_decide (eHash e = [])) && negb (IsZero (eUpdated e)) && negb (eDeleted e)) in k) Done) k)
  Done).

Definition any_opts : SearchOptions := MkSearchOptions true None 0 0.
Definition meta_opts (m : list (bytes * bytes)) : SearchOptions := MkSearchOptions false (Some (list_to_map m)) 0 0.

(** The option a case needs, the query, the options, what is wanted and
    whether in order; [t0] is when the editor was written. *)
Definition option_cases (t0 : Z) : list (bytes * bytes * SearchOptions * list bytes * bool) :=
  [(SearchAny, bs "neovim rust", any_opts, [bs "user/editor"], false);
   (SearchAny, bs "python go", any_opts, [bs "user/language"; bs "project/build"], true);
   (SearchAny, bs "rust", any_opts, [], false);
   (SearchMeta, [], meta_opts (m1 "type" "tool"), [bs "user/editor"; bs "project/build"], false);
   (SearchMeta, bs "go", meta_opts (m1 "type" "tool"), [bs "project/build"], false);
   (SearchMeta, [], meta_opts (m2 "type" "tool" "description" "Editor preference"), [bs "user/editor"], false);
   (SearchMeta, [], meta_opts (m1 "type" "too"), [], false);
   (SearchUpdatedAfter, bs "neovim", MkSearchOptions false None t0 0, [], false);
   (SearchUpdatedAfter, bs "neovim", MkSearchOptions false None (t0 - 1) 0, [bs "user/editor"], false);
   (SearchUpdatedBefore, bs "neovim", MkSearchOptions false None 0 t0, [], false);
   (SearchUpdatedBefore, bs "neovim", MkSearchOptions false None 0 (t0 + 1), [bs "user/editor"], false)].

Definition contains (l : list bytes) (s : bytes) : bool := existsb (fun x => bool_decide (x = s)) l.

(** The entries of the second search test. *)
Definition option_puts : list Entry :=
  search_puts (m2 "description" "Editor preference" "type" "tool") (m2 "description" "Language preference" "type" "taste")
    (m1 "type" "tool").

(** The body of its table's loop. *)
Definition check_case (supported : list bytes) (tt : bytes * bytes * SearchOptions * list bytes * bool) : test :=
  let '(option, query, o, want, order) := tt in
  ask! r := ASearchWith both query 0 o in
  if negb (contains supported option) then check! errors_is r SUnsupported in Done
  else must r (fun got =>
    check! (negb order || bool_decide (keys got = want)) in
    check! sameSet (keys got) want in Done).

(** What follows the loop. *)
Definition search_tail (supported : list bytes) : test :=
  (if contains supported SearchMeta
   then fun k => ask! r := ASearchWith both [] 0 (meta_opts (m1 "Type" "tool")) in check! errors_is r SInvalid in k
   else id)
  (ask! r := ASearchWith both (bs "go") 0 (MkSearchOptions false None 0 0) in
   check! (match r with Ok got => sameSet (keys got) [bs "user/language"; bs "project/build"] | Err _ => false end) in
   ask! r := ASearchWith both (bs "go") 1 (MkSearchOptions (contains supported SearchAny) None 0 0) in
   check! (match r with Ok got => blen got =? 1 | Err _ => false end) in Done).

Definition testSearchOptions : test :=
  put_all option_puts
  (ask! supported := ASupport in
   each supported (fun n k => check! contains AllSearchOptions n in k)
   (must! editor := AGet user (bs "editor") in
    each (option_cases (eUpdated editor)) (fun tt k => Sub (check_case supported tt) k) (search_tail supported))).

(** ** Running the suite *)

(** The tests of [Run] but for testConcurrent, of a store that is a
    [LastSeqer] or not, and that can be reopened. *)
Definition suite (Before Equal : Z -> Z -> bool) (answers : bool) : list test :=
  [testValidation; testPutGetList; testInvalidReads; testBounds; testIfHash; testMetaHash; testForget;
   testJournal Before Equal; testLostUpdates; testLastSeq answers; testSearch; testSearchOptions; testPersistence Equal].

Section Exec.
Context {S : Type} `{Store S} (search_of : S -> Searchable) (supported : list bytes).
Context (new : S) (clock : nat -> Z).

Definition reply {X} (a : ask X) (i : nat) (s : S) : S * nat * X :=
  match a with
  | AMax => (s, i, MaxEntryBytes s)
  | AGet scope name => (s, i, Get s scope name)
  | AList scope => (s, i, List_ s scope)
  | APut session e opts => let (s', r) := Put s (clock i) session e opts in (s', Datatypes.S i, r)
  | AForget session scope name => let (s', r) := Forget s (clock i) session scope name in (s', Datatypes.S i, r)
  | AJournal after => (s, i, Journal s (Z.of_N after))
  | ALastSeq => (s, i, LastSeq s)
  | ASearch scopes query limit => (s, i, plain (search_of s) scopes query limit)
  | ASearchWith scopes query limit o => (s, i, SearchWith (search_of s) scopes query limit o)
  | ASupport => (s, i, supported)
  end.

(** The store after a test, the time, how many checks failed, and whether it
    was stopped; the time is the number of writes made. *)
Fixpoint exec (t : test) (i : nat) (s : S) : S * nat * nat * bool :=
  match t with
  | Done => (s, i, O, false)
  | Ask a k => let '(s, i, x) := reply a i s in exec (k x) i s
  | Verify b k => let '(s, i, n, st) := exec k i s in (s, i, (if b then n else Datatypes.S n), st)
  | Need b k => if b then exec k i s else (s, i, 1%nat, true)
  | Sub t k =>
      let '(s, i, n, _) := exec t i s in
      let '(s, i, n', st) := exec k i s in (s, i, (n + n')%nat, st)
  | Fresh k => exec k i new
  | Again k => exec k i s
  end.

Definition failures (t : test) : nat := (exec t O new).1.2.
End Exec.
