(* ===== verification/StoretestLaws.v ===== *)
(** * A store of the interface passes the suite

    The suite, but for its concurrent test, is run on the specification by
    computation, and two stores whose calls answer alike fail the same
    checks, so a store with the laws of [StoreLaws], the reference search, a
    bound of at least 256 bytes and times that never go back passes it. *)

From S2P Require Import Prelude GoStd Sha256 Memory Store MemStore Contract LostUpdate Search Storetest.

(** ** The reference search *)

Definition plain_opts : SearchOptions := MkSearchOptions false None 0 0.

Definition ref_search_with (lower_rune : bytes -> bytes) (j : list Change) (scopes : list bytes) (query : bytes)
    (limit : Z) (o : SearchOptions) : res error (list Entry) :=
  check? check_scopes scopes in
  check? SearchOptions_Check o AllSearchOptions in
  Ok (Search.Filter lower_rune o (concat (live_in (replay j) <$> scopes)) query limit).

Definition ref_search (lower_rune : bytes -> bytes) (j : list Change) : Searchable :=
  MkSearchable (fun scopes query limit => ref_search_with lower_rune j scopes query limit plain_opts)
    (Some (ref_search_with lower_rune j)).

(** Two case tables that agree. *)
Section Tables.
Context (f g : bytes -> bytes) (Hfg : forall r, f r = g r).

Lemma lower_loop_ext n s : lower_loop f n s = lower_loop g n s.
Proof using Hfg.
  revert s. induction n as [|n IH]; intros s; cbn; [done|]. destruct s as [|c s]; [done|]. rewrite IH. f_equal.
  unfold lower_one. rewrite !Hfg. repeat case_match; by rewrite ?Hfg.
Qed.

Lemma ToLower_ext s : ToLower f s = ToLower g s.
Proof using Hfg. apply lower_loop_ext. Qed.

Lemma matchCount_ext e words : matchCount f e words = matchCount g e words.
Proof using Hfg. unfold matchCount, matchCount_in. by rewrite ToLower_ext. Qed.

Lemma filter_loop_ext o words limit es n : filter_loop f o words limit es n = filter_loop g o words limit es n.
Proof using Hfg.
  revert n. induction es as [|e es IH]; intros n; cbn; [done|]. by rewrite matchCount_ext, !IH.
Qed.

Lemma ref_search_with_ext j scopes query limit o :
  ref_search_with f j scopes query limit o = ref_search_with g j scopes query limit o.
Proof using Hfg. unfold ref_search_with, Search.Filter, queryWords. by rewrite ToLower_ext, filter_loop_ext. Qed.
End Tables.

(** The runes beyond ASCII the suite stores, none of which has another
    lower case. *)
Definition suite_runes : list bytes := [bs "ü"; bs "ß"; bs "✓"; bs "日"; bs "本"].

(** A table that has these without being asked. *)
Definition known_runes (lower_rune : bytes -> bytes) (r : bytes) : bytes :=
  if decide (r ∈ suite_runes) then r else lower_rune r.

Lemma known_runes_same lower_rune r :
  Forall (fun r => lower_rune r = r) suite_runes -> known_runes lower_rune r = lower_rune r.
Proof. rewrite Forall_forall. intros Hr. unfold known_runes. case_decide; [|done]. symmetry. auto. Qed.

(** ** Checks that hold *)

Lemma exec_verify {S} `{Store S} search_of supported (new : S) clock b k i s : b = true ->
  exec search_of supported new clock (Verify b k) i s = exec search_of supported new clock k i s.
Proof. intros ->. cbn [exec]. by destruct (exec _ _ _ _ k i s) as [[[??]?]?]. Qed.

(** ** Two stores whose calls answer alike *)

Section Simulation.
Context {S T : Type} `{Store S, Store T} (search_s : S -> Searchable) (search_t : T -> Searchable).
Context (supported : list bytes) (clock_s clock_t : nat -> Z) (R : S -> T -> Prop).

Definition alike (s : S) (t : T) : Prop :=
  forall X (a : ask X) i,
    let '(s', n, x) := reply search_s supported clock_s a i s in
    let '(t', m, y) := reply search_t supported clock_t a i t in
    R s' t' /\ n = m /\ x = y.

Hypothesis calls_alike : forall s t, R s t -> alike s t.

Lemma exec_alike new_s new_t (p : test) : R new_s new_t -> forall i s t, R s t ->
  let '(s', n, f, st) := exec search_s supported new_s clock_s p i s in
  let '(t', m, g, st') := exec search_t supported new_t clock_t p i t in
  R s' t' /\ n = m /\ f = g /\ st = st'.
Proof using calls_alike.
  intros Hnew. induction p as [|X a k IH|b k IH|b k IH|p IHp k IH|k IH|k IH]; intros i s t Hst; cbn [exec]; [done| | | | |by apply IH..].
  - pose proof (calls_alike s t Hst X a i) as Ha.
    destruct (reply _ _ clock_s a i s) as [[s' n] x], (reply _ _ clock_t a i t) as [[t' m] y].
    destruct Ha as (Hr & -> & ->). by apply IH.
  - specialize (IH i s t Hst). destruct (exec _ _ new_s _ _ _ _) as [[[??]?]?], (exec _ _ new_t _ _ _ _) as [[[??]?]?].
    naive_solver.
  - destruct b; [by apply IH|done].
  - specialize (IHp i s t Hst). destruct (exec _ _ new_s _ p _ _) as [[[s1 n1]?]?], (exec _ _ new_t _ p _ _) as [[[t1 m1]?]?].
    destruct IHp as (Hr & -> & -> & ->). specialize (IH m1 s1 t1 Hr).
    destruct (exec _ _ new_s _ _ _ _) as [[[??]?]?], (exec _ _ new_t _ _ _ _) as [[[??]?]?]. naive_solver.
Qed.

Lemma failures_alike new_s new_t p :
  R new_s new_t -> failures search_s supported new_s clock_s p = failures search_t supported new_t clock_t p.
Proof using calls_alike.
  intros Hr. unfold failures. pose proof (exec_alike new_s new_t p Hr 0%nat new_s new_t Hr) as E.
  destruct (exec _ _ new_s _ _ _ _) as [[[??]?]?], (exec _ _ new_t _ _ _ _) as [[[??]?]?]. naive_solver.
Qed.
End Simulation.

(** ** The specification to compute with *)

(** [Spec], deciding a bound nobody knows by one everybody does: content of
    at most 256 bytes is within any bound a suite can be run with. *)
Record Fit := MkFit { fitMax : Z; fitJournal : list Change }.

Definition fit_put (max : Z) (j : list Change) (now : Z) (session : bytes) (e : Entry) (opts : list PutOption)
    : res error Change :=
  if Size e <=? 256 then spec_put 256 j now session e opts else spec_put max j now session e opts.

#[export] Instance Fit_store : Store Fit := {
  MaxEntryBytes := fitMax;
  Get f := spec_get (fitJournal f);
  List_ f := spec_list (fitJournal f);
  Put f now session e opts :=
    let r := fit_put (fitMax f) (fitJournal f) now session e opts in
    (MkFit (fitMax f) (appended (fitJournal f) r), r);
  Forget f now session scope name :=
    let r := spec_forget (fitJournal f) now session scope name in
    (MkFit (fitMax f) (appended (fitJournal f) r), r);
  Journal f after := Ok <$> filter (fun c => after < cSeq c) (fitJournal f);
  LastSeq f := blen (fitJournal f)
}.

Lemma fit_put_spec max j now session e opts : 256 <= max -> fit_put max j now session e opts = spec_put max j now session e opts.
Proof.
  intros Hm. unfold fit_put. destruct (Z.leb_spec (Size e) 256) as [Hs|]; [|done].
  unfold spec_put, CheckEntry, CheckEntry_in. unfold Size in Hs.
  rewrite (proj2 (Z.ltb_ge 256 (blen (eContent e)))), (proj2 (Z.ltb_ge max (blen (eContent e)))), !andb_false_r by lia.
  done.
Qed.

Section Laws.
Context {S : Type} `{StoreLaws S} (lower_rune : bytes -> bytes) (search_of : S -> Searchable).

(** What a store's search promises, when it is the reference one. *)
Definition searches : Prop := forall s scopes query limit o, store_ok s ->
  plain (search_of s) scopes query limit = ref_search_with lower_rune (store_journal s) scopes query limit plain_opts
  /\ SearchWith (search_of s) scopes query limit o = ref_search_with lower_rune (store_journal s) scopes query limit o.

Context (clock clock' : nat -> Z).

Definition stands_for (s : S) (f : Fit) : Prop :=
  store_ok s /\ 256 <= MaxEntryBytes s /\ f = MkFit (MaxEntryBytes s) (store_journal s).

Lemma stands_alike supported s f :
  searches -> Forall (fun r => lower_rune r = r) suite_runes -> (forall i, clock i = clock' i) -> stands_for s f ->
  alike search_of (fun f => ref_search (known_runes lower_rune) (fitJournal f)) supported clock clock' stands_for s f.
Proof.
  intros Hsearch Hl Hc Hst X a i. pose proof Hst as (Hs & Hm & ->). destruct a; cbn; try (split; [done|split; [done|]]).
  - done.
  - by rewrite (law_get _ _ _ Hs).
  - by rewrite (law_list _ _ Hs).
  - pose proof (law_put s (clock i) session e opts Hs) as L. destruct (Put s _ session e opts) as [s' r].
    destruct L as (Hr & Hj & HM & Hok). rewrite fit_put_spec, <- Hc, <- Hr by done.
    split; [|done]. split; [done|]. by rewrite HM, Hj.
  - pose proof (law_forget s (clock i) session scope name Hs) as L. destruct (Forget s _ session scope name) as [s' r].
    destruct L as (Hr & Hj & HM & Hok). rewrite <- Hc, <- Hr.
    split; [|done]. split; [done|]. by rewrite HM, Hj.
  - rewrite (law_journal _ _ Hs) by lia. done.
  - by rewrite (law_last_seq _ Hs).
  - rewrite (ref_search_with_ext _ lower_rune) by (intros; by apply known_runes_same).
    by apply (Hsearch s scopes query limit plain_opts Hs).
  - rewrite (ref_search_with_ext _ lower_rune) by (intros; by apply known_runes_same).
    by apply (Hsearch s scopes query limit o Hs).
  - done.
Qed.
End Laws.

Section Compute.
Context (lower_rune : bytes -> bytes) (max : Z) (at_ : nat -> positive) (B E : Z -> Z -> bool).

Definition fit_failures (t : test) : nat :=
  failures (fun f => ref_search (known_runes lower_rune) (fitJournal f)) AllSearchOptions (MkFit max []) (fun i => Z.pos (at_ i)) t.

Lemma fit_validation : fit_failures testValidation = O.
Proof. by vm_compute. Qed.
Lemma fit_put_get_list : fit_failures testPutGetList = O.
Proof. by vm_compute. Qed.
Lemma fit_invalid_reads : fit_failures testInvalidReads = O.
Proof. by vm_compute. Qed.
Lemma fit_if_hash : fit_failures testIfHash = O.
Proof. by vm_compute. Qed.
Lemma fit_meta_hash : fit_failures testMetaHash = O.
Proof. by vm_compute. Qed.
Lemma fit_forget : fit_failures testForget = O.
Proof. by vm_compute. Qed.
Lemma fit_lost_updates : fit_failures testLostUpdates = O.
Proof. by vm_compute. Qed.
Lemma fit_last_seq answers : fit_failures (testLastSeq answers) = O.
Proof. by destruct answers; vm_compute. Qed.
Lemma fit_search : fit_failures testSearch = O.
Proof. by vm_compute. Qed.

Hypothesis E_refl : forall t, E t t = true.
Hypothesis B_later : forall i, B (Z.pos (at_ (S i))) (Z.pos (at_ i)) = false.

Lemma fit_journal : fit_failures (testJournal B E) = O.
Proof. vm_compute. rewrite !E_refl, !B_later. done. Qed.
Lemma fit_persistence : fit_failures (testPersistence E) = O.
Proof. vm_compute. rewrite !E_refl. change ((if Z.eqb max max then O else 1%nat) = O). by rewrite Z.eqb_refl. Qed.

(** Content as long as the bound, one letter throughout. *)
Lemma Repeat_valid c n : bin 0 127 c = true -> ValidString (Repeat c n) = true.
Proof. intros Hc. apply ValidString_ascii, Forall_replicate, Hc. Qed.

Lemma blen_Repeat c n : 0 <= n -> blen (Repeat c n) = n.
Proof. intros Hn. unfold blen, Repeat. rewrite length_replicate. lia. Qed.

Definition filled (name : bytes) (c : ascii) (n : Z) : Entry := MkEntry user name (Repeat c n) None [] [] 0 false.

Lemma put_filled j now name c n :
  ValidName name = true -> bin 0 127 c = true -> 256 <= max -> 256 <= n ->
  let stored := replay j !! (user, name) in
  fit_put max j now [] (filled name c n) [] =
    if max <? n
    then Err (ErrTooLarge (MkSizeError user name n max (match stored with Some s => Size s | None => -1 end)))
    else Ok (MkChange (next_seq j) (stamped now (filled name c n)) (have_hash stored) (have_hash stored) [] [] now).
Proof.
  intros Hn Hc Hm HL. cbn zeta. rewrite fit_put_spec by done.
  unfold spec_put, CheckEntry, CheckEntry_in. cbn [filled eScope eName eContent eMeta meta_map entry_ref].
  assert (Hb : Repeat c n <> []) by (intros E0; pose proof (blen_Repeat c n ltac:(lia)) as Hb; rewrite E0, blen_nil in Hb; lia).
  rewrite Hn, (Repeat_valid c n Hc), (bool_decide_eq_false_2 _ Hb), blen_Repeat, (proj2 (Z.ltb_lt 0 max)) by lia.
  by destruct (max <? n).
Qed.

Lemma stored_size_text scope name size limit :
  ContainsStr (SizeError_Error (MkSizeError scope name size limit 10)) (bs "holds 10 bytes now") = true.
Proof.
  apply ContainsStr_spec. unfold SizeError_Error. cbn [seStored seScope seName seSize seLimit Z.leb Z.compare].
  change (Itoa 10) with (bs "10"). set (head := bs "agentmemory: entry " ++ _).
  exists (head ++ bs "; it "), (bs "; split it or trim it"). rewrite <- !app_assoc. reflexivity.
Qed.

Lemma fit_bounds : 256 <= max -> fit_failures testBounds = O.
Proof.
  intros Hm. unfold fit_failures, failures, testBounds. cbn [exec reply MaxEntryBytes Fit_store fitMax].
  rewrite (proj2 (Z.leb_le 256 max) Hm). cbn [exec reply Put Fit_store fitMax fitJournal].
  change (ent "user" "at" (Repeat "a" max)) with (filled (bs "at") "a" max).
  rewrite put_filled, Z.ltb_irrefl by done || lia. cbn [must exec reply Put Fit_store fitMax fitJournal appended app].
  match goal with |- context [[?c]] => set (c1 := c) end.
  change (ent "user" "over" (Repeat "b" (max + 1))) with (filled (bs "over") "b" (max + 1)).
  rewrite put_filled, (proj2 (Z.ltb_lt max (max + 1))) by done || lia.
  assert (E1 : replay [c1] !! (user, bs "over") = None) by by vm_compute.
  rewrite E1. cbn [is_ok negb errors_is wraps as_size must_some seSize seLimit seStored seScope seName exec reply Get Fit_store fitJournal appended].
  unfold spec_get at 1. rewrite E1, !Z.eqb_refl.
  cbn [Put Fit_store fitMax fitJournal].
  set (c2 := MkChange 2 (stamped (Z.pos (at_ 2%nat)) (ent "user" "small" (bs "ten bytes!"))) [] [] [] [] (Z.pos (at_ 2%nat))).
  assert (E2 : forall j, j = [c1] -> fit_put max j (Z.pos (at_ 2%nat)) [] (ent "user" "small" (bs "ten bytes!")) [] = Ok c2).
  { intros j ->. by vm_compute. }
  rewrite (E2 [c1] eq_refl). cbn [must exec reply Put Fit_store fitMax fitJournal appended app].
  change (ent "user" "small" (Repeat "c" (max + 7))) with (filled (bs "small") "c" (max + 7)).
  rewrite put_filled, (proj2 (Z.ltb_lt max (max + 7))) by done || lia.
  assert (E3 : replay [c1; c2] !! (user, bs "small") = Some (cEntry c2)) by by vm_compute.
  rewrite E3. cbn [as_size must_some seSize seStored exec reply Get Fit_store fitJournal appended].
  unfold spec_get. rewrite E3, !Z.eqb_refl.
  rewrite stored_size_text. by vm_compute.
Qed.

(** The store the search options are tried on. *)
Let searching := fun f => ref_search (known_runes lower_rune) (fitJournal f).
Let times := fun i => Z.pos (at_ i).
Definition option_store : Fit :=
  (exec searching AllSearchOptions (MkFit max []) times (put_all option_puts Done) 0 (MkFit max [])).1.1.1.

(** Its entries, as they are stored. *)
Definition stored_at (i : nat) : Entry := stamped (Z.pos (at_ i)) (nth i option_puts (ent "" "" [])).

Lemma exec_cases (cases : list (bytes * bytes * SearchOptions * list bytes * bool)) k i f :
  Forall (fun tt => exec searching AllSearchOptions (MkFit max []) times (check_case AllSearchOptions tt) i f = (f, i, O, false)) cases ->
  exec searching AllSearchOptions (MkFit max []) times (each cases (fun tt k => Sub (check_case AllSearchOptions tt) k) k) i f
  = exec searching AllSearchOptions (MkFit max []) times k i f.
Proof.
  induction 1 as [|tt cases Ht _ IH]; [done|]. unfold each in *. cbn [foldr exec]. rewrite Ht, IH.
  by destruct (exec _ _ _ _ k i f) as [[[??]?]?].
Qed.

(** Entries the words are not in are passed over, whatever the options. *)
Lemma filter_loop_skips lr o words limit es n :
  Forall (fun e => skips o words (matchCount lr e words) = true) es -> filter_loop lr o words limit es n = [].
Proof. induction 1 as [|e es He _ IH]; cbn [filter_loop]; [done|]. rewrite He, IH. by destruct (negb _). Qed.

Lemma neovim_search t1 t2 :
  let o := MkSearchOptions false None t1 t2 in
  ref_search_with (known_runes lower_rune) (fitJournal option_store) both (bs "neovim") 0 o
  = Ok (if Keep o (stored_at 0) then [stored_at 0] else []).
Proof.
  cbn zeta. set (o := MkSearchOptions _ _ _ _). unfold ref_search_with.
  assert (Ho : SearchOptions_Check o AllSearchOptions = None).
  { unfold SearchOptions_Check, Names, o. cbn [soAny soMeta soUpdatedAfter soUpdatedBefore].
    by destruct (IsZero t1), (IsZero t2); vm_compute. }
  rewrite Ho. change (check_scopes both) with (@None error). cbn iota.
  assert (Hes : concat (live_in (replay (fitJournal option_store)) <$> both) = stored_at <$> [0; 1; 2; 3]%nat) by by vm_compute.
  rewrite Hes. unfold Search.Filter. change (queryWords _ (bs "neovim")) with [bs "neovim"].
  assert (Hl : filter_loop (known_runes lower_rune) o [bs "neovim"] 0 (stored_at <$> [0; 1; 2; 3]%nat) 0
               = if Keep o (stored_at 0) then [(stored_at 0, 1)] else []).
  { rewrite fmap_cons. cbn [filter_loop].
    rewrite !(filter_loop_skips _ _ _ _ (stored_at <$> [1; 2; 3]%nat)) by (repeat constructor; by vm_compute).
    by destruct (Keep o (stored_at 0)). }
  rewrite Hl. by destruct (Keep o (stored_at 0)).
Qed.

Lemma search_with f scopes query limit o :
  SearchWith (searching f) scopes query limit o = ref_search_with (known_runes lower_rune) (fitJournal f) scopes query limit o.
Proof. done. Qed.

Let t0 := Z.pos (at_ 0%nat).

Lemma Keep_times t1 t2 e :
  Keep (MkSearchOptions false None t1 t2) e = (IsZero t1 || (t1 <? eUpdated e)) && (IsZero t2 || (eUpdated e <? t2)).
Proof. unfold Keep. cbn. by rewrite !negb_andb, !negb_involutive. Qed.

(** The cases about time: the editor is found or not. *)
Lemma time_case option t1 t2 (kept : bool) want :
  Keep (MkSearchOptions false None t1 t2) (stored_at 0) = kept -> contains AllSearchOptions option = true ->
  want = (if kept then [bs "user/editor"] else []) ->
  exec searching AllSearchOptions (MkFit max []) times
    (check_case AllSearchOptions (option, bs "neovim", MkSearchOptions false None t1 t2, want, false)) 4 option_store
  = (option_store, 4%nat, O, false).
Proof.
  intros Hk Hc ->. unfold check_case. cbn [exec reply]. rewrite Hc. cbn [negb].
  rewrite search_with, neovim_search, Hk. cbn [must exec]. generalize option_store. intros f. by destruct kept.
Qed.

Lemma exec_supported k i f :
  exec searching AllSearchOptions (MkFit max []) times
    (each AllSearchOptions (fun n k => Verify (contains AllSearchOptions n) k) k) i f
  = exec searching AllSearchOptions (MkFit max []) times k i f.
Proof. unfold each. cbn [foldr AllSearchOptions]. by rewrite !exec_verify. Qed.

Lemma exec_put_all l k : forall i f f' i',
  exec searching AllSearchOptions (MkFit max []) times (put_all l Done) i f = (f', i', O, false) ->
  exec searching AllSearchOptions (MkFit max []) times (put_all l k) i f
  = exec searching AllSearchOptions (MkFit max []) times k i' f'.
Proof.
  induction l as [|e l IH]; intros i f f' i'; [by intros [= -> ->]|].
  unfold put_all, each in *. cbn [foldr exec]. destruct (reply _ _ _ _ i f) as [[f1 i1] [c|err]]; cbn [must]; [apply IH|done].
Qed.

Lemma fit_search_options : fit_failures testSearchOptions = O.
Proof.
  unfold fit_failures, failures. fold times. fold searching. unfold testSearchOptions.
  rewrite (exec_put_all _ _ _ _ option_store 4%nat) by by vm_compute.
  cbn [exec reply]. rewrite exec_supported. cbn [exec reply].
  assert (Hg : Get option_store user (bs "editor") = Ok (stored_at 0)) by by vm_compute.
  rewrite Hg. cbn [must]. rewrite exec_cases; [by vm_compute|].
  change (eUpdated (stored_at 0)) with t0. unfold option_cases.
  do 7 (apply Forall_cons_2; [by vm_compute|]).
  assert (Hu : eUpdated (stored_at 0) = t0) by done. assert (Hz : IsZero t0 = false) by done.
  repeat apply Forall_cons_2; [| | | |by apply Forall_nil_2].
  all: eapply time_case; [apply Keep_times|by vm_compute|rewrite Hu].
  - by rewrite Hz, Z.ltb_irrefl.
  - by rewrite (proj2 (Z.ltb_lt (t0 - 1) t0)), orb_true_r by lia.
  - by rewrite Hz, Z.ltb_irrefl.
  - by rewrite (proj2 (Z.ltb_lt t0 (t0 + 1))), orb_true_r by lia.
Qed.

Lemma fit_suite answers : 256 <= max -> Forall (fun t => fit_failures t = O) (suite B E answers).
Proof.
  intros Hm. repeat apply Forall_cons_2; [..|apply Forall_nil_2].
  - exact fit_validation.
  - exact fit_put_get_list.
  - exact fit_invalid_reads.
  - exact (fit_bounds Hm).
  - exact fit_if_hash.
  - exact fit_meta_hash.
  - exact fit_forget.
  - exact fit_journal.
  - exact fit_lost_updates.
  - exact (fit_last_seq answers).
  - exact fit_search.
  - exact fit_search_options.
  - exact fit_persistence.
Qed.
End Compute.

(** ** The suite on any store *)

(** C5: A store of the interface passes the tests of the conformance suite but
    the concurrent one.  Whatever a store is made of, if it answers as the
    contract says ([StoreLaws]), starts empty, has a bound of at least 256
    bytes, searches as the reference does over a case table that leaves the
    suite's own runes alone, and is given times that are after the zero time
    and never go back, then no check fails, and no test stops early, in any
    test of [suite]: validation, round trips, refused reads, bounds, both
    preconditions, tombstones, the journal, lost updates, the last number,
    both searches and reopening.  [Run]'s one other test, of concurrent
    writers, is [testConcurrent_passes]. *)
Theorem Run_passes {S : Type} `{StoreLaws S} lower_rune (search_of : S -> Searchable) (new : S) (clock : nat -> Z) (answers : bool) :
  store_ok new -> store_journal new = [] -> 256 <= MaxEntryBytes new ->
  searches lower_rune search_of -> Forall (fun r => lower_rune r = r) suite_runes ->
  (forall i, 0 < clock i) -> (forall i, clock i <= clock (Datatypes.S i)) ->
  Forall (fun t => failures search_of AllSearchOptions new clock t = O) (suite Z.ltb Z.eqb answers).
Proof.
  intros Hok Hj Hm Hs Hr Hpos Hmono. set (at_ := fun i => Z.to_pos (clock i)).
  assert (Hc : forall i, clock i = Z.pos (at_ i)) by (intros i; unfold at_; rewrite Z2Pos.id; auto).
  assert (Hf : forall t, failures search_of AllSearchOptions new clock t
                         = fit_failures lower_rune (MaxEntryBytes new) at_ t).
  { intros t. apply (failures_alike _ _ _ _ _ stands_for); [|by rewrite <- Hj].
    intros s f Hst. by apply stands_alike. }
  assert (Hb : forall i, (Z.pos (at_ (Datatypes.S i)) <? Z.pos (at_ i)) = false).
  { intros i. rewrite <- !Hc. apply Z.ltb_ge, Hmono. }
  eapply Forall_impl; [exact (fit_suite lower_rune _ at_ _ _ Z.eqb_refl Hb answers Hm)|]. intros t Ht. by rewrite Hf.
Qed.

(** ** The in-memory store *)

Definition mem_searchable (lower_rune : bytes -> bytes) (m : MemStore) : Searchable :=
  MkSearchable (mem_search lower_rune m) (Some (mem_search_with lower_rune m)).

Lemma mem_searches lower_rune : searches lower_rune (mem_searchable lower_rune).
Proof.
  intros m scopes query limit o Hm.
  assert (Hw : forall o, mem_search_with lower_rune m scopes query limit o
                         = ref_search_with lower_rune (msJournal m) scopes query limit o); [|by split; apply Hw].
  clear o. intros o. unfold mem_search_with, ref_search_with. destruct (check_scopes scopes) eqn:Es; [done|].
  destruct (SearchOptions_Check o AllSearchOptions); [done|]. do 3 f_equal.
  apply (check_scopes_None lower_rune) in Es.
  induction Es as [|s ss Hs _ IH]; [done|]. cbn [fmap list_fmap]. rewrite IH. f_equal.
  pose proof (mem_list_spec m s Hm) as L. unfold mem_list, spec_list in L.
  apply ValidName_iff in Hs. unfold CheckScope, ValidScope in L. rewrite Hs in L. by injection L.
Qed.

(** With a clock of one tick a write, and a case table of ASCII alone. *)
Lemma Run_passes_witness :
  Forall (fun t => failures (mem_searchable id) AllSearchOptions (NewMemStore 4096) (fun i => 1000 + Z.of_nat i) t = O)
    (suite Z.ltb Z.eqb true).
Proof.
  apply (Run_passes id (mem_searchable id) (NewMemStore 4096)).
  - apply NewMemStore_store_ok.
  - done.
  - done.
  - apply mem_searches.
  - by repeat constructor.
  - lia.
  - lia.
Defined.

(** ** Stores the suite fails *)

(** A store like the specification but for one call. *)
Definition breaking_put (f : Z -> list Change -> Z -> bytes -> Entry -> list PutOption -> res error Change) : Store Spec := {|
  MaxEntryBytes := spMax;
  Get s := spec_get (spJournal s);
  List_ s := spec_list (spJournal s);
  Put s now session e opts :=
    let r := f (spMax s) (spJournal s) now session e opts in (MkSpec (spMax s) (appended (spJournal s) r), r);
  Forget := Forget;
  Journal := Journal;
  LastSeq := LastSeq
|}.

Definition breaking_read (get : Spec -> bytes -> bytes -> res error Entry) (list : Spec -> bytes -> res error (list Entry))
    (forget : Spec -> Z -> bytes -> bytes -> bytes -> Spec * res error Change)
    (journal : Spec -> Z -> Datatypes.list (res jerror Change)) : Store Spec := {|
  MaxEntryBytes := spMax; Get := get; List_ := list; Put := Put; Forget := forget; Journal := journal; LastSeq := LastSeq
|}.

(** A put that forgets its preconditions, its base, its bound or its number,
    a read that does not check names, a list in another order, a forget that
    leaves no tombstone, and a journal that repeats the cursor's record. *)
Definition broken : list (Store Spec) :=
  [breaking_put (fun max j now session e _ => spec_put max j now session e []);
   breaking_put (fun max j now session e opts =>
     match spec_put max j now session e opts with
     | Ok c => Ok (MkChange (cSeq c) (cEntry c) (cReplaced c) (cReplaced c) (cSession c) (cSource c) (cAt c))
     | r => r
     end);
   breaking_put (fun _ => spec_put 0);
   breaking_put (fun max j now session e opts =>
     match spec_put max j now session e opts with
     | Ok c => Ok (MkChange (blen j) (cEntry c) (cPrev c) (cReplaced c) (cSession c) (cSource c) (cAt c))
     | r => r
     end);
   breaking_read (fun s scope name => match replay (spJournal s) !! (scope, name) with
                                      | Some e => Ok e | None => Err (ErrNotFound scope name) end) List_ Forget Journal;
   breaking_read Get (fun s scope => match spec_list (spJournal s) scope with Ok es => Ok (rev es) | r => r end) Forget Journal;
   breaking_read Get List_ (fun s now session scope name => (s, spec_forget (spJournal s) now session scope name)) Journal;
   breaking_read Get List_ Forget (fun s after => Ok <$> filter (fun c => after <= cSeq c) (spJournal s))].

Definition ticks (i : nat) : Z := 1000 + Z.of_nat i.

Definition caught_by (st : Store Spec) (t : test) : bool :=
  negb (failures (H:=st) (fun s => ref_search id (spJournal s)) AllSearchOptions (MkSpec 256 []) ticks t =? 0)%nat.

(** The suite tells each of them from a store: some test fails. *)
Example suite_detects : forallb (fun st => existsb (caught_by st) (suite Z.ltb Z.eqb true)) broken = true.
Proof. by vm_compute. Qed.
