(* ===== verification/Concurrent.v ===== *)
(** * Writers racing on one store: testConcurrent of storetest/storetest.go

    Four goroutines each write entries of their own and append facts to one
    shared entry with the read-patch-put loop of [appendFact].  A goroutine
    is a state, a [turn] is its next call of the store, and a schedule is any
    sequence of turns: the store runs one call at a time.  Under every
    schedule no writer fails and every check the test makes holds. *)

From S2P Require Import Prelude GoStd Sha256 Memory Store MemStore Contract LostUpdate Search Storetest StoretestLaws.

(** ** The writers *)

Definition writers : nat := 4.
Definition each_ : nat := 8.

Definition dec (n : nat) : bytes := Itoa (Z.of_nat n).

Definition shared : bytes := bs "shared".
Definition sess (w : nat) : bytes := bs "sess-" ++ dec w.
Definition own (w i : nat) : bytes := bs "w" ++ dec w ++ bs "-n" ++ dec i.
Definition own_content (w i : nat) : bytes := bs "writer " ++ dec w ++ bs " entry " ++ dec i.
Definition fact (w i : nat) : bytes := bs " w" ++ dec w ++ bs "-" ++ dec i.

Definition own_entry (w i : nat) : Entry := MkEntry user (own w i) (own_content w i) None [] [] 0 false.
Definition shared_entry : Entry := MkEntry user shared (bs "facts:") None [] [] 0 false.

(** Where a goroutine is: about to put its own entry, to read the shared
    one, to put it back with the fact, or at its end. *)
Inductive pc :=
| POwn (i : nat)
| PRead (i attempt : nat)
| PPut (i attempt : nat) (cur : Entry)
| PDone
| PFailed (err : error).

(** The head of the loop. *)
Definition loop (i : nat) : pc := if (i <? each_)%nat then POwn i else PDone.

Definition is_conflict (err : error) : bool := match wraps err with SConflict => true | _ => false end.

Section Turns.
Context {S : Type} `{Store S}.

(** An attempt of [appendFact]: the entry read, and then written back with
    the fact if it is still what was read. *)
Definition appendFact_read (i attempt : nat) (s : S) : pc :=
  match Get s user shared with Ok cur => PPut i attempt cur | Err err => PFailed err end.

Definition appendFact_put (w : nat) (now : Z) (i attempt : nat) (cur : Entry) (s : S) : S * pc :=
  let (s', r) := Put s now (sess w) (with_content (eContent cur ++ fact w i) cur) [IfHash (eHash cur)] in
  (s', match r with
       | Ok _ => loop (Datatypes.S i)
       | Err err => if negb (is_conflict err) || (attempt =? 200)%nat then PFailed err
                    else PRead i (Datatypes.S attempt)
       end).

(** The next call of writer [w], at the time [now]. *)
Definition turn (w : nat) (now : Z) (s : S) (p : pc) : S * pc :=
  match p with
  | POwn i =>
      let (s', r) := Put s now (sess w) (own_entry w i) [] in
      (s', match r with Ok _ => PRead i 0 | Err err => PFailed err end)
  | PRead i attempt => (s, appendFact_read i attempt s)
  | PPut i attempt cur => appendFact_put w now i attempt cur s
  | PDone | PFailed _ => (s, p)
  end.

(** A schedule: whose turn it is, and the time. *)
Definition take_turn (sp : S * list pc) (x : nat * Z) : S * list pc :=
  match sp.2 !! x.1 with
  | Some p => let (s', p') := turn x.1 x.2 sp.1 p in (s', <[x.1 := p']> sp.2)
  | None => sp
  end.

Definition race (schedule : list (nat * Z)) (s : S) : S * list pc :=
  foldl take_turn (s, replicate writers (loop 0)) schedule.
End Turns.

(** ** The checks *)

Definition facts : list (nat * nat) := w ← seq 0 writers; (fun i => (w, i)) <$> seq 0 each_.

(** The journal is a chain: each record replaced the one before it for its
    entry, and was anchored in it. *)
Fixpoint check_chain (l : list Change) (i : Z) (last : gmap bytes bytes) (k : gmap bytes bytes -> test) : test :=
  match l with
  | [] => k last
  | c :: l' =>
      let key := key (eScope (cEntry c)) (eName (cEntry c)) in
      check! (cSeq c =? i + 1) in
      check! bool_decide (cReplaced c = default [] (last !! key)) in
      check! bool_decide (cPrev c = cReplaced c) in
      check_chain l' (i + 1) (<[key := eHash (cEntry c)]> last) k
  end.

Definition check_shared : test :=
  must! sh := AGet user shared in
  each facts (fun wi k =>
    check! ContainsStr (eContent sh) (fact wi.1 wi.2) in
    ask! r := AGet user (own wi.1 wi.2) in
    check! is_ok r in k)
  (collect 0 (fun changes =>
     check! (blen changes =? 1 + Z.of_nat (writers * each_ * 2)) in
     check_chain changes 0 ∅ (fun last =>
       check! bool_decide (default [] (last !! key user shared) = eHash sh) in Done))).

(** ** The test *)

Definition pc_failed (p : pc) : bool := match p with PFailed _ => true | _ => false end.
Definition pc_done (p : pc) : bool := match p with PDone | PFailed _ => true | _ => false end.

(** The failures of the test when the goroutines run under [schedule], if
    that brings every one of them to its end, where [wg.Wait] returns. *)
Definition testConcurrent {S} `{Store S} (search_of : S -> Searchable) (supported : list bytes) (new : S)
    (clock : nat -> Z) (schedule : list (nat * Z)) : option nat :=
  match Put new (clock O) [] shared_entry [] with
  | (_, Err _) => Some 1%nat
  | (s, Ok _) =>
      let (s', ps) := race schedule s in
      if forallb pc_done ps
      then Some (length (filter (fun p => pc_failed p = true) ps)
                 + (exec search_of supported new clock check_shared 1 s').1.2)%nat
      else None
  end.

(** With turns in rotation, on the specification. *)
Definition rotation (n : nat) : list (nat * Z) := concat (replicate n ((fun w => (w, 7)) <$> seq 0 writers)).

Example race_in_rotation :
  testConcurrent (fun s => ref_search id (spJournal s)) AllSearchOptions (MkSpec 256 []) ticks (rotation 120) = Some O.
Proof. by vm_compute. Qed.

(** ** What a journal of the race holds *)

Definition in_range (wi : nat * nat) : Prop := (wi.1 < writers)%nat /\ (wi.2 < each_)%nat.

(** Whatever is to be computed of each of the writers' entries. *)
Lemma in_range_all (f : nat -> nat -> bool) w i :
  forallb (fun wi => f wi.1 wi.2) facts = true -> in_range (w, i) -> f w i = true.
Proof.
  rewrite forallb_forall. intros Hall [Hw Hi]. cbn [fst snd] in *. apply (Hall (w, i)), list_elem_of_In.
  unfold facts. apply list_elem_of_bind. exists w. rewrite list_elem_of_fmap, !elem_of_seq.
  split; [exists i; rewrite elem_of_seq|]; auto with lia.
Qed.

(** The shared entry's content once the facts [fs] are in. *)
Definition text (fs : list (nat * nat)) : bytes := bs "facts:" ++ concat ((fun wi => fact wi.1 wi.2) <$> fs).

Record holds (fs : list (nat * nat)) (e : Entry) : Prop := {
  ho_ref : entry_ref e = (user, shared);
  ho_content : eContent e = text fs;
  ho_meta : eMeta e = None;
  ho_hash : eHash e = Hash (text fs)
}.

Lemma text_snoc fs w i : text (fs ++ [(w, i)]) = text fs ++ fact w i.
Proof. unfold text. rewrite fmap_app, concat_app. cbn [fmap list_fmap concat fst snd]. by rewrite app_nil_r, app_assoc. Qed.

(** A fact is never empty, so a part of the facts is another text. *)
Lemma text_take k fs : (k <= length fs)%nat -> text (take k fs) = text fs -> k = length fs.
Proof.
  intros Hk E. rewrite <- (take_drop k fs) in E at 2. unfold text in E. rewrite fmap_app, concat_app in E.
  apply (inj (app _)) in E. rewrite <- (app_nil_r (concat _)) in E at 1. apply (inj (app _)) in E.
  destruct (drop k fs) as [|[w i] l] eqn:Ed; [|done].
  apply (f_equal length) in Ed. rewrite length_drop in Ed. cbn in Ed. lia.
Qed.

Lemma fact_text w i : in_range (w, i) -> blen (fact w i) = 5 /\ Forall (fun c => bin 0 127 c = true) (fact w i).
Proof.
  intros Hwi. assert (Hf : (blen (fact w i) =? 5) && forallb (bin 0 127) (fact w i) = true).
  { revert Hwi. by apply (in_range_all (fun w i => (blen (fact w i) =? 5) && forallb (bin 0 127) (fact w i))). }
  apply andb_true_iff in Hf as [Hl Hf]. split; [lia|]. apply Forall_forall. intros c Hc.
  rewrite forallb_forall in Hf. by apply Hf, list_elem_of_In.
Qed.

Lemma text_fits fs :
  Forall in_range fs -> blen (text fs) = 6 + 5 * blen fs /\ Forall (fun c => bin 0 127 c = true) (text fs).
Proof.
  induction fs as [|[w i] fs IH] using rev_ind; [by split; [|vm_compute; repeat constructor]|].
  rewrite Forall_app, Forall_singleton, text_snoc. intros [Hfs Hwi]. destruct (IH Hfs) as [Hl Ha], (fact_text w i Hwi) as [Hf Hc].
  autorewrite with mem. split; [lia|]. by apply Forall_app.
Qed.

(** ** The puts of the race *)

Lemma put_plain max j now session e :
  Storable e max ->
  let h := have_hash (replay j !! entry_ref e) in
  spec_put max j now session e [] = Ok (MkChange (next_seq j) (stamped now e) h h session [] now).
Proof.
  intros He. unfold spec_put. by rewrite (proj2 (CheckEntry_None e max (replay j !! entry_ref e)) He).
Qed.

Lemma put_if_hash max j now session e h :
  Storable e max ->
  let have := have_hash (replay j !! entry_ref e) in
  spec_put max j now session e [IfHash h] =
    if decide (have = h) then Ok (MkChange (next_seq j) (stamped now e) h h session [] now)
    else Err (ErrConflict (MkConflictError (eScope e) (eName e) h have false)).
Proof.
  intros He. cbn zeta. unfold spec_put. rewrite (proj2 (CheckEntry_None e max (replay j !! entry_ref e)) He).
  unfold PutOptions_Check, BaseFor. cbn. case_decide as Hh; [rewrite bool_decide_eq_true_2 by done|rewrite bool_decide_eq_false_2 by done].
  - cbn. by rewrite Hh.
  - done.
Qed.

Lemma Storable_bound e m m' : Storable e m -> 0 < m -> m <= m' -> Storable e m'.
Proof. intros [] Hm Hle. split; try done. right. naive_solver lia. Qed.

Lemma own_storable w i max : in_range (w, i) -> 256 <= max -> Storable (own_entry w i) max.
Proof.
  intros Hwi Hm. apply (Storable_bound _ 256); [|lia..]. apply (CheckEntry_None _ _ None).
  set (f w i := match CheckEntry (own_entry w i) 256 None with None => true | _ => false end).
  assert (Hf : f w i = true) by (apply in_range_all; [by vm_compute|done]).
  unfold f in Hf. by destruct (CheckEntry _ _ _).
Qed.

Lemma shared_storable e fs max :
  entry_ref e = (user, shared) -> eContent e = text fs -> eMeta e = None ->
  Forall in_range fs -> (length fs <= writers * each_)%nat -> 256 <= max -> Storable e max.
Proof.
  intros Hr Hc Hm Hf Hl Hmax. injection Hr as Hs Hn. destruct (text_fits fs Hf) as [Hb Ha].
  split; rewrite ?Hs, ?Hn, ?Hc, ?Hm; cbn [meta_map default].
  - by apply ValidName_iff.
  - by apply ValidName_iff.
  - intros E. rewrite E in Hb. unfold blen in Hb. cbn in Hb. lia.
  - by apply ValidString_ascii.
  - done.
  - by rewrite map_to_list_empty.
  - right. unfold Size. rewrite Hc, Hb. unfold blen, writers, each_ in *. lia.
Qed.

(** ** The invariant *)

Definition facts_done (p : pc) : nat :=
  match p with POwn i | PRead i _ | PPut i _ _ => i | PDone => each_ | PFailed _ => O end.
Definition owns_done (p : pc) : nat :=
  match p with POwn i => i | PRead i _ | PPut i _ _ => S i | PDone => each_ | PFailed _ => O end.

(** A writer has met no more conflicts over a fact than facts have landed,
    and what it read is the shared entry as it was at some point since. *)
Definition pc_ok (fs : list (nat * nat)) (p : pc) : Prop :=
  match p with
  | POwn i => (i < each_)%nat
  | PRead i a => (i < each_)%nat /\ (a <= length fs)%nat
  | PPut i a cur => (i < each_)%nat /\ exists k, (a <= k <= length fs)%nat /\ holds (take k fs) cur
  | PDone => True
  | PFailed _ => False
  end.

Definition plain_record (c : Change) : Prop :=
  cPrev c = cReplaced c /\ eScope (cEntry c) = user /\ eDeleted (cEntry c) = false.

Record inv (max : Z) (j : list Change) (ps : list pc) (fs : list (nat * nat)) : Prop := {
  iv_len : length ps = writers;
  iv_wf : journal_wf max j;
  iv_shared : exists e, replay j !! (user, shared) = Some e /\ holds fs e;
  iv_texts k : (k <= length fs)%nat -> exists c, c ∈ j /\ holds (take k fs) (cEntry c);
  iv_records : Forall plain_record j;
  iv_count : length j = (1 + length fs + sum_list_with owns_done ps)%nat;
  iv_total : length fs = sum_list_with facts_done ps;
  iv_facts w i p : ps !! w = Some p -> (i < facts_done p)%nat -> (w, i) ∈ fs;
  iv_range : Forall in_range fs;
  iv_own w i p : ps !! w = Some p -> (i < owns_done p)%nat -> is_Some (replay j !! (user, own w i));
  iv_pcs w p : ps !! w = Some p -> pc_ok fs p
}.

(** ** One writer's change of a sum *)

Lemma sum_insert {A} (f : A -> nat) l w x y :
  l !! w = Some x -> (sum_list_with f (<[w := y]> l) + f x = sum_list_with f l + f y)%nat.
Proof.
  revert w. induction l as [|a l IH]; intros [|w] Hw; try done.
  - injection Hw as ->. cbn. lia.
  - specialize (IH w Hw). change (<[S w := y]> (a :: l)) with (a :: <[w := y]> l). cbn [sum_list_with]. lia.
Qed.

Lemma sum_bound {A} (f : A -> nat) l n : Forall (fun x => (f x <= n)%nat) l -> (sum_list_with f l <= length l * n)%nat.
Proof. induction 1 as [|x l Hx _ IH]; cbn [sum_list_with length]; lia. Qed.

(** ** Each turn keeps the invariant *)

Lemma insert_cases {A} (l : list A) w v x y : <[w := x]> l !! v = Some y -> (v = w /\ y = x) \/ (v <> w /\ l !! v = Some y).
Proof. intros H%list_lookup_insert_Some. naive_solver. Qed.

Lemma pc_ok_app fs l p : pc_ok fs p -> pc_ok (fs ++ l) p.
Proof.
  destruct p; cbn; rewrite ?length_app; try done; [naive_solver lia|].
  intros (Hi & k & Hk & Hh). split; [done|]. exists k. split; [lia|]. by rewrite take_app_le by lia.
Qed.

Lemma replay_plain j c : plain_record c -> replay (j ++ [c]) = <[change_ref c := cEntry c]> (replay j).
Proof. intros (_ & _ & Hd). rewrite replay_snoc. unfold apply_change. by rewrite Hd. Qed.

Section Keeps.
Context (max : Z) (j : list Change) (ps : list pc) (fs : list (nat * nat)) (w : nat).
Hypothesis Hinv : inv max j ps fs.

Lemma inv_range w' p : ps !! w' = Some p -> (w' < writers)%nat.
Proof using Hinv. intros Hp%lookup_lt_Some. by rewrite (iv_len _ _ _ _ Hinv) in Hp. Qed.

(** A turn that writes nothing. *)
Lemma inv_wait p p' :
  ps !! w = Some p -> facts_done p' = facts_done p -> owns_done p' = owns_done p -> pc_ok fs p' ->
  inv max j (<[w := p']> ps) fs.
Proof using Hinv.
  intros Hp Hf Ho Hok. destruct Hinv. pose proof (sum_insert owns_done _ _ _ p' Hp). pose proof (sum_insert facts_done _ _ _ p' Hp).
  split; try done; try lia.
  - by rewrite length_insert.
  - intros v i q [[-> ->]|[_ Hq]]%insert_cases; [rewrite Hf|]; eauto.
  - intros v i q [[-> ->]|[_ Hq]]%insert_cases; [rewrite Ho|]; eauto.
  - intros v q [[-> ->]|[_ Hq]]%insert_cases; eauto.
Qed.

Lemma inv_texts_app c : (forall k, (k <= length fs)%nat -> exists d, d ∈ j ++ [c] /\ holds (take k fs) (cEntry d)).
Proof using Hinv.
  intros k Hk. destruct (iv_texts _ _ _ _ Hinv k Hk) as (d & Hd & Hh). exists d. split; [|done]. apply elem_of_app. by left.
Qed.

Lemma live_plain c r : plain_record c -> is_Some (replay j !! r) \/ change_ref c = r -> is_Some (replay (j ++ [c]) !! r).
Proof.
  intros Hc Hr. rewrite replay_plain by done. destruct (decide (change_ref c = r)) as [<-|].
  - rewrite lookup_insert_eq. eauto.
  - rewrite lookup_insert_ne by done. naive_solver.
Qed.

(** The writer's own entry. *)
Lemma inv_put_own i c :
  ps !! w = Some (POwn i) -> change_wf max j c -> plain_record c -> change_ref c = (user, own w i) ->
  inv max (j ++ [c]) (<[w := PRead i 0]> ps) fs.
Proof using Hinv.
  intros Hp Hw Hc Hr. pose proof (iv_pcs _ _ _ _ Hinv _ _ Hp) as Hi. pose proof (inv_range _ _ Hp) as Hwr.
  pose proof inv_texts_app as Ht. destruct Hinv.
  pose proof (sum_insert owns_done _ _ _ (PRead i 0) Hp). pose proof (sum_insert facts_done _ _ _ (PRead i 0) Hp). cbn [owns_done facts_done pc_ok] in *.
  split; try done.
  - by rewrite length_insert.
  - by apply journal_wf_snoc.
  - destruct iv_shared0 as (e & He & Hh). exists e. split; [|done]. rewrite replay_plain by done.
    rewrite lookup_insert_ne; [done|]. by rewrite Hr.
  - auto.
  - apply Forall_app. auto.
  - rewrite length_app. cbn. lia.
  - lia.
  - intros v k q [[-> ->]|[_ Hq]]%insert_cases; [|eauto]. cbn. intros Hk. by eapply iv_facts0.
  - intros v k q [[-> ->]|[_ Hq]]%insert_cases; intros Hk; (apply live_plain; [done|]); [|left; eauto].
    cbn in Hk. destruct (decide (k = i)) as [->|]; [by right|]. left. eapply iv_own0; [done|]. cbn. lia.
  - intros v q [[-> ->]|[_ Hq]]%insert_cases; [|eauto]. cbn. lia.
Qed.

(** The shared entry, with one more fact. *)
Lemma inv_put_fact i a cur c :
  ps !! w = Some (PPut i a cur) -> change_wf max j c -> plain_record c -> holds (fs ++ [(w, i)]) (cEntry c) ->
  inv max (j ++ [c]) (<[w := loop (S i)]> ps) (fs ++ [(w, i)]).
Proof using Hinv.
  intros Hp Hw Hc Hh. pose proof (iv_pcs _ _ _ _ Hinv _ _ Hp) as [Hi _]. pose proof (inv_range _ _ Hp) as Hwr.
  pose proof inv_texts_app as Ht. destruct Hinv.
  assert (Hl : facts_done (loop (S i)) = S i /\ owns_done (loop (S i)) = S i /\ pc_ok (fs ++ [(w, i)]) (loop (S i))).
  { unfold loop. destruct (Nat.ltb_spec (S i) each_); cbn; split_and!; lia || done. }
  destruct Hl as (Hf & Ho & Hok).
  pose proof (sum_insert owns_done _ _ _ (loop (S i)) Hp). pose proof (sum_insert facts_done _ _ _ (loop (S i)) Hp).
  rewrite Hf, Ho in *. cbn [owns_done facts_done] in *.
  split; try done.
  - by rewrite length_insert.
  - by apply journal_wf_snoc.
  - exists (cEntry c). split; [|done]. rewrite replay_plain by done. destruct Hh. unfold change_ref.
    rewrite ho_ref0. by rewrite lookup_insert_eq.
  - intros k Hk. rewrite length_app in Hk. cbn in Hk. destruct (decide (k <= length fs)%nat) as [Hle|].
    + rewrite take_app_le by done. auto.
    + exists c. split; [apply elem_of_app; right; by apply list_elem_of_singleton|].
      rewrite take_ge; [done|]. rewrite length_app. cbn. lia.
  - apply Forall_app. auto.
  - rewrite !length_app. cbn. lia.
  - rewrite length_app. cbn. lia.
  - intros v k q [[-> ->]|[_ Hq]]%insert_cases; intros Hk; apply elem_of_app; [|left; eauto].
    rewrite Hf in Hk. destruct (decide (k = i)) as [->|]; [right; by apply list_elem_of_singleton|].
    left. eapply iv_facts0; [done|]. cbn. lia.
  - apply Forall_app. split; [done|]. by apply Forall_singleton.
  - intros v k q [[-> ->]|[_ Hq]]%insert_cases; intros Hk; (apply live_plain; [done|]); left; [|eauto].
    rewrite Ho in Hk. by eapply iv_own0.
  - intros v q [[-> ->]|[_ Hq]]%insert_cases; [done|]. apply pc_ok_app. eauto.
Qed.
End Keeps.

(** ** A turn *)

(** The calls a writer still makes, if every fact is refused as often as the
    facts of the others can make it. *)
Definition cost (p : pc) : nat :=
  match p with
  | POwn i => (each_ - i) * 67
  | PRead i a => (each_ - i) * 67 - 1 - 2 * a
  | PPut i a _ => (each_ - i) * 67 - 2 - 2 * a
  | PDone | PFailed _ => 0
  end.

(** Texts one digest stands for, in a journal. *)
Definition no_collision (j : list Change) : Prop :=
  forall c d, c ∈ j -> d ∈ j -> ~ Collision (eContent (cEntry c)) (eContent (cEntry d)).

Lemma facts_room max j ps fs w p i :
  inv max j ps fs -> ps !! w = Some p -> facts_done p = i -> (i < each_)%nat -> (length fs < writers * each_)%nat.
Proof.
  intros Hinv Hp Hf Hi. pose proof (sum_insert facts_done _ _ _ PDone Hp) as Hs. cbn [facts_done] in Hs.
  pose proof (sum_bound facts_done (<[w := PDone]> ps) each_) as Hb. rewrite length_insert, (iv_len _ _ _ _ Hinv) in Hb.
  rewrite (iv_total _ _ _ _ Hinv). unfold each_, writers in *. enough (sum_list_with facts_done (<[w := PDone]> ps) <= 4 * 8)%nat by lia.
  apply Hb, Forall_lookup. intros v q [[-> ->]|[_ Hq]]%insert_cases; [done|].
  pose proof (iv_pcs _ _ _ _ Hinv _ _ Hq) as Hok. destruct q; cbn in *; unfold each_ in *; naive_solver lia.
Qed.

Section Turn.
Context {S : Type} `{StoreLaws S} (s : S) (ps : list pc) (fs : list (nat * nat)) (w : nat) (now : Z).
Hypothesis Hs : store_ok s.
Hypothesis Hmax : 256 <= MaxEntryBytes s.
Hypothesis Hinv : inv (MaxEntryBytes s) (store_journal s) ps fs.
Hypothesis Hcol : no_collision (store_journal s).

(** What a turn leads to. *)
Definition turn_ok (p : pc) (sp : S * pc) : Prop :=
  store_ok sp.1 /\ MaxEntryBytes sp.1 = MaxEntryBytes s
  /\ (exists fs', inv (MaxEntryBytes s) (store_journal sp.1) (<[w := sp.2]> ps) fs')
  /\ (cost sp.2 <= pred (cost p))%nat.

Lemma turn_own i : ps !! w = Some (POwn i) -> turn_ok (POwn i) (turn w now s (POwn i)).
Proof using Hs Hmax Hinv.
  intros Hp. pose proof (iv_pcs _ _ _ _ Hinv _ _ Hp) as Hi. pose proof (inv_range _ _ _ _ Hinv _ _ Hp) as Hw.
  cbn [turn]; unfold appendFact_read, appendFact_put. pose proof (law_put s now (sess w) (own_entry w i) [] Hs) as L.
  destruct (Put s now (sess w) (own_entry w i) []) as [s' r]. destruct L as (Hr & Hj & Hm & Hok).
  pose proof (put_plain (MaxEntryBytes s) (store_journal s) now (sess w) (own_entry w i) (own_storable _ _ _ (conj Hw Hi) Hmax)) as Hput.
  cbn zeta in Hput. pose proof (spec_put_wf _ _ _ _ _ _ _ Hput) as Hwf. rewrite Hput in Hr. subst r.
  split; [done|]. split; [done|]. cbn [fst snd]. rewrite Hj. cbn [appended]. split.
  - exists fs. by eapply inv_put_own.
  - cbn in *. unfold each_ in *. lia.
Qed.

Lemma turn_read i a : ps !! w = Some (PRead i a) -> turn_ok (PRead i a) (turn w now s (PRead i a)).
Proof using Hs Hinv.
  intros Hp. pose proof (iv_pcs _ _ _ _ Hinv _ _ Hp) as [Hi Ha].
  pose proof (facts_room _ _ _ _ _ _ _ Hinv Hp eq_refl Hi) as Hroom.
  destruct (iv_shared _ _ _ _ Hinv) as (e & He & Hh). cbn [turn]; unfold appendFact_read, appendFact_put.
  rewrite (law_get _ _ _ Hs). unfold spec_get. change (CheckRef user shared) with (@None error). cbn iota. rewrite He.
  split; [done|]. split; [done|]. split; cbn [snd fst].
  - exists fs. eapply inv_wait; try done. cbn. split; [done|]. exists (length fs). split; [lia|]. by rewrite take_ge.
  - cbn. unfold each_, writers in *. lia.
Qed.

Lemma turn_put i a cur : ps !! w = Some (PPut i a cur) -> turn_ok (PPut i a cur) (turn w now s (PPut i a cur)).
Proof using Hs Hmax Hinv Hcol.
  intros Hp. pose proof (iv_pcs _ _ _ _ Hinv _ _ Hp) as (Hi & k & Hk & Hh). pose proof (inv_range _ _ _ _ Hinv _ _ Hp) as Hw.
  pose proof (facts_room _ _ _ _ _ _ _ Hinv Hp eq_refl Hi) as Hroom.
  destruct (iv_shared _ _ _ _ Hinv) as (e0 & He0 & Hh0). cbn [turn]; unfold appendFact_read, appendFact_put.
  set (e := with_content (eContent cur ++ fact w i) cur).
  assert (Hr : entry_ref e = (user, shared)) by exact (ho_ref _ _ Hh).
  assert (Hc : eContent e = text (take k fs ++ [(w, i)])) by (rewrite text_snoc, <- (ho_content _ _ Hh); done).
  assert (Hst : Storable e (MaxEntryBytes s)).
  { eapply shared_storable; [done|exact Hc|exact (ho_meta _ _ Hh)| | |done].
    - apply Forall_app. split; [apply Forall_take, (iv_range _ _ _ _ Hinv)|by apply Forall_singleton].
    - rewrite length_app, length_take. cbn [length]. lia. }
  pose proof (law_put s now (sess w) e [IfHash (eHash cur)] Hs) as L.
  destruct (Put s now (sess w) e [IfHash (eHash cur)]) as [s' r]. destruct L as (Hres & Hj & Hm & Hok).
  pose proof (put_if_hash _ (store_journal s) now (sess w) e (eHash cur) Hst) as Hput. cbn zeta in Hput.
  rewrite Hr, He0 in Hput. cbn [have_hash] in Hput. rewrite (ho_hash _ _ Hh), (ho_hash _ _ Hh0) in Hput.
  destruct (decide (Hash (text fs) = Hash (text (take k fs)))) as [Eh|Eh].
  - assert (k = length fs) as ->.
    { apply text_take; [lia|].
      destruct (iv_texts _ _ _ _ Hinv k ltac:(lia)) as (c1 & Hc1 & H1), (iv_texts _ _ _ _ Hinv (length fs) ltac:(lia)) as (c2 & Hc2 & H2).
      rewrite take_ge in H2 by lia. destruct (decide (text (take k fs) = text fs)) as [|Hne]; [done|].
      destruct (Hcol _ _ Hc1 Hc2). rewrite (ho_content _ _ H1), (ho_content _ _ H2). done. }
    rewrite firstn_all in Hh, Hc, Hput. rewrite <- (ho_hash _ _ Hh) in Hput. pose proof (spec_put_wf _ _ _ _ _ _ _ Hput) as Hwf.
    rewrite (ho_hash _ _ Hh) in Hres. rewrite <- (ho_hash _ _ Hh), Hput in Hres. subst r.
    split; [done|]. split; [done|]. cbn [fst snd]. rewrite Hj. cbn [appended]. split.
    + exists (fs ++ [(w, i)]). eapply (inv_put_fact _ _ _ _ _ Hinv i a cur); [exact Hp|exact Hwf| |cbn [cEntry]].
      { injection Hr as Hu _. by split. }
      split; [exact Hr|exact Hc|cbn; by rewrite (ho_meta _ _ Hh)|].
      change (eHash (stamped now e)) with (Hash (eContent e)). by rewrite Hc.
    + unfold loop. destruct (Nat.ltb_spec (Datatypes.S i) each_); cbn; unfold each_, writers in *; lia.
  - rewrite <- (ho_hash _ _ Hh) in Hput. rewrite Hput in Hres. subst r. cbn [is_conflict wraps negb orb].
    rewrite (proj2 (Nat.eqb_neq a 200)) by (unfold writers, each_ in *; lia).
    split; [done|]. split; [done|]. cbn [fst snd]. rewrite Hj. cbn [appended].
    split.
    + exists fs. eapply inv_wait; try done. cbn. split; [done|].
      destruct (decide (k = length fs)) as [->|]; [|lia]. by rewrite firstn_all in Eh.
    + cbn. unfold each_, writers in *. lia.
Qed.
End Turn.

(** ** The race *)

Definition turns (w : nat) (schedule : list (nat * Z)) : nat := length (filter (fun x => x.1 = w) schedule).

(** Turns enough for any writer: each of its eight facts takes a put, and a
    read and a put for each of at most thirty-three attempts. *)
Definition enough : nat := each_ * 67.

Section Race.
Context {S : Type} `{StoreLaws S}.

Lemma turn_grows w now s p :
  store_ok s ->
  let (s', _) := turn w now s p in store_ok s' /\ exists l, store_journal s' = store_journal s ++ l.
Proof.
  intros Hs. assert (Hput : forall session e opts, let (s', _) := Put s now session e opts in
    store_ok s' /\ exists l, store_journal s' = store_journal s ++ l).
  { intros session e opts. pose proof (law_put s now session e opts Hs) as L. destruct (Put s now session e opts) as [s' r].
    destruct L as (_ & -> & _ & Hok). split; [done|]. destruct r; cbn; [by eexists|exists []; by rewrite app_nil_r]. }
  assert (Hsame : store_ok s /\ exists l, store_journal s = store_journal s ++ l) by (split; [done|exists []; by rewrite app_nil_r]).
  destruct p; cbn [turn]; unfold appendFact_read, appendFact_put; try done.
  - specialize (Hput (sess w) (own_entry w i) []). by destruct (Put s _ _ _ _).
  - specialize (Hput (sess w) (with_content (eContent cur ++ fact w i) cur) [IfHash (eHash cur)]). by destruct (Put s _ _ _ _).
Qed.

Lemma take_turn_grows sp x :
  store_ok sp.1 -> store_ok (take_turn sp x).1 /\ exists l, store_journal (take_turn sp x).1 = store_journal sp.1 ++ l.
Proof.
  intros Hs. unfold take_turn. destruct (sp.2 !! x.1) as [p|].
  - pose proof (turn_grows x.1 x.2 sp.1 p Hs) as G. by destruct (turn _ _ _ _).
  - split; [done|]. exists []. by rewrite app_nil_r.
Qed.

Lemma race_ok schedule s : store_ok s -> store_ok (race schedule s).1.
Proof.
  intros Hs. induction schedule as [|x l IH] using rev_ind; [done|]. unfold race in *. rewrite foldl_app.
  by apply take_turn_grows.
Qed.

(** Where a schedule leads, as long as no two texts written share a digest. *)
Definition raced (max : Z) (schedule : list (nat * Z)) (sp : S * list pc) : Prop :=
  MaxEntryBytes sp.1 = max /\ (exists fs, inv max (store_journal sp.1) sp.2 fs)
  /\ forall w p, sp.2 !! w = Some p -> (cost p <= enough - turns w schedule)%nat.

Lemma race_raced schedule s max :
  store_ok s -> 256 <= max -> raced max [] (s, replicate writers (loop 0)) ->
  no_collision (store_journal (race schedule s).1) -> raced max schedule (race schedule s).
Proof.
  intros Hs Hmax Hstart. induction schedule as [|x l IH] using rev_ind; [done|]. pose proof (race_ok l s Hs) as Hl.
  unfold race in *. rewrite foldl_app. cbn [foldl]. set (sp := foldl _ _ l) in *. intros Hcol.
  destruct (take_turn_grows sp x Hl) as (_ & k & Hk).
  assert (Hcl : no_collision (store_journal sp.1)).
  { intros c d Hc Hd. apply Hcol; rewrite Hk; apply elem_of_app; by left. }
  destruct (IH Hcl) as (HM & (fs & Hinv) & Hcost). unfold take_turn in *.
  assert (Ht : forall w, turns w (l ++ [x]) = (turns w l + if decide (x.1 = w) then 1 else 0)%nat).
  { intros w. unfold turns. rewrite filter_app, length_app. f_equal. cbn. unfold filter. cbn. by case_decide. }
  destruct (sp.2 !! x.1) as [p|] eqn:Hp.
  - assert (T : turn_ok sp.1 sp.2 x.1 p (turn x.1 x.2 sp.1 p)).
    { rewrite <- HM in Hinv, Hmax. pose proof (iv_pcs _ _ _ _ Hinv _ _ Hp) as Hpc. destruct p; try done.
      - by eapply turn_own.
      - by eapply turn_read.
      - by eapply turn_put.
      - split; [done|]. split; [done|]. split; [exists fs; by rewrite list_insert_id|done]. }
    destruct (turn x.1 x.2 sp.1 p) as [s' p']. destruct T as (_ & HM' & (fs' & Hinv') & Hc). cbn [fst snd] in *.
    split; [by etrans|]. split; [exists fs'; by rewrite <- HM|].
    intros v q [[-> ->]|[Hne Hq]]%insert_cases; rewrite Ht.
    + rewrite decide_True by done. specialize (Hcost _ _ Hp). lia.
    + rewrite decide_False by done. specialize (Hcost _ _ Hq). lia.
  - split; [done|]. split; [by exists fs|]. intros v q Hq. rewrite Ht, decide_False by congruence.
    specialize (Hcost _ _ Hq). lia.
Qed.

(** ** The checks *)

Context (search_of : S -> Searchable) (supported : list bytes) (new : S) (clock : nat -> Z).

Lemma check_chain_passes max s n k l : forall j last,
  store_journal s = j ++ l -> journal_wf max (j ++ l) -> Forall plain_record (j ++ l) ->
  (forall name, last !! key user name = eHash <$> replay j !! (user, name)) ->
  exists last', (forall name, last' !! key user name = eHash <$> replay (j ++ l) !! (user, name))
    /\ exec search_of supported new clock (check_chain l (blen j) last k) n s = exec search_of supported new clock (k last') n s.
Proof.
  induction l as [|c l IH]; intros j last Hj Hwf Hpl Hlast; cbn [check_chain].
  { exists last. by rewrite app_nil_r. }
  pose proof (journal_wf_mid _ _ _ _ Hwf) as Hc.
  assert (Hp : plain_record c) by (rewrite Forall_app, Forall_cons in Hpl; naive_solver).
  destruct Hp as (Hbase & Hu & Hd). rewrite (cons_middle c j l) in *.
  destruct (IH (j ++ [c]) (<[key (eScope (cEntry c)) (eName (cEntry c)) := eHash (cEntry c)]> last)) as (last' & Hl' & He).
  { by rewrite <- app_assoc. }
  { by rewrite <- app_assoc. }
  { by rewrite <- app_assoc. }
  { intros name. rewrite replay_plain by done. rewrite Hu. destruct (decide (eName (cEntry c) = name)) as [<-|Hne].
    - rewrite lookup_insert_eq. unfold change_ref, entry_ref. by rewrite Hu, lookup_insert_eq.
    - rewrite !lookup_insert_ne; [done| |].
      + unfold change_ref, entry_ref. congruence.
      + unfold key. intros E. by apply (inj (app _)), (inj (app _)) in E. }
  exists last'. rewrite <- app_assoc in Hl'. split; [done|].
  rewrite !exec_verify.
  - rewrite <- He. f_equal. f_equal. unfold blen. rewrite length_app. cbn. lia.
  - by apply bool_decide_eq_true_2.
  - apply bool_decide_eq_true_2. rewrite (wf_replaced _ _ _ Hc), Hu, Hlast, <- replay_last.
    unfold change_ref, entry_ref. rewrite Hu. by destruct (replay j !! _).
  - rewrite (wf_seq _ _ _ Hc). apply Z.eqb_refl.
Qed.

Lemma each_facts_pass s n sh k (l : list (nat * nat)) :
  Forall (fun wi => ContainsStr (eContent sh) (fact wi.1 wi.2) = true /\ is_ok (Get s user (own wi.1 wi.2)) = true) l ->
  exec search_of supported new clock
    (each l (fun wi k => check! ContainsStr (eContent sh) (fact wi.1 wi.2) in
                         ask! r := AGet user (own wi.1 wi.2) in check! is_ok r in k) k) n s
  = exec search_of supported new clock k n s.
Proof.
  induction 1 as [|wi l [Hc Hg] _ IH]; [done|]. unfold each in *. cbn [foldr]. rewrite exec_verify by done.
  cbn [exec reply]. fold (@exec S H). rewrite <- IH. by apply exec_verify.
Qed.

Lemma text_contains w i fs : (w, i) ∈ fs -> ContainsStr (text fs) (fact w i) = true.
Proof.
  intros (l1 & l2 & ->)%list_elem_of_split. apply ContainsStr_spec.
  exists (text l1), (concat ((fun wi => fact wi.1 wi.2) <$> l2)). unfold text.
  rewrite fmap_app, concat_app, fmap_cons. cbn [concat fst snd]. by rewrite !app_assoc.
Qed.

Lemma records_all l : records (Ok <$> l) = Some l.
Proof. induction l as [|c l IH]; [done|]. cbn. by rewrite IH. Qed.

Lemma all_done max j ps fs : inv max j ps fs -> Forall (fun p => p = PDone) ps -> ps = replicate writers PDone.
Proof.
  intros Hinv Hdone. symmetry. apply replicate_as_Forall. split; [exact (iv_len _ _ _ _ Hinv)|].
  by eapply Forall_impl.
Qed.

Lemma check_shared_passes s ps fs n :
  store_ok s -> inv (MaxEntryBytes s) (store_journal s) ps fs -> Forall (fun p => p = PDone) ps ->
  (exec search_of supported new clock check_shared n s).1.2 = O.
Proof.
  intros Hs Hinv Hdone. destruct (iv_shared _ _ _ _ Hinv) as (e & He & Hh).
  pose proof (all_done _ _ _ _ Hinv Hdone) as Hps.
  assert (Hget : forall w i, in_range (w, i) -> is_ok (Get s user (own w i)) = true).
  { intros w i [Hw Hi]. rewrite (law_get _ _ _ Hs). unfold spec_get.
    destruct (own_storable w i 256 (conj Hw Hi)) as [_ Hn _ _ _ _ _]; [done|]. apply ValidName_iff in Hn. unfold CheckRef, CheckScope.
    change (ValidScope user) with true. cbn iota. cbn [own_entry eName] in Hn. rewrite Hn.
    destruct (iv_own _ _ _ _ Hinv w i PDone) as [x ->]; [rewrite Hps; by apply lookup_replicate_2|done|done]. }
  unfold check_shared. cbn [exec reply]. rewrite (law_get _ _ _ Hs). unfold spec_get at 1.
  change (CheckRef user shared) with (@None error). cbn iota. rewrite He. cbn [must].
  rewrite each_facts_pass.
  - unfold collect. cbn [exec reply]. rewrite (law_journal _ _ Hs) by done.
    rewrite (filter_seq_drop' _ _ _ (iv_wf _ _ _ _ Hinv)) by done.
    change (drop _ (store_journal s)) with (store_journal s). rewrite records_all. cbn [must_some]. rewrite exec_verify.
    2: { rewrite Hps in *. pose proof (iv_count _ _ _ _ Hinv) as Hc. rewrite (iv_total _ _ _ _ Hinv) in Hc. unfold blen.
         rewrite Hc. done. }
    destruct (check_chain_passes _ s n (fun last => Verify (bool_decide (default [] (last !! key user shared) = eHash e)) Done)
      (store_journal s) [] ∅ eq_refl (iv_wf _ _ _ _ Hinv) (iv_records _ _ _ _ Hinv)) as (last & Hlast & Hex).
    { intros name. by rewrite lookup_empty. }
    change (blen (@nil Change)) with 0 in Hex. rewrite Hex, exec_verify; [done|].
    apply bool_decide_eq_true_2. rewrite Hlast. cbn [app]. by rewrite He.
  - apply Forall_forall. intros [w i] Hin. cbn [fst snd].
    assert (Hwi : in_range (w, i)).
    { unfold facts in Hin. apply list_elem_of_bind in Hin as (w' & (i' & [= -> ->] & Hi)%list_elem_of_fmap & Hw).
      rewrite elem_of_seq in Hi, Hw. split; cbn; lia. }
    split; [|by apply Hget]. rewrite (ho_content _ _ Hh). apply text_contains. destruct Hwi as [Hw Hi].
    apply (iv_facts _ _ _ _ Hinv w i PDone); [|done]. rewrite Hps. by apply lookup_replicate_2.
Qed.

(** The first record, and the writers before their first turns. *)
Lemma inv_start max c :
  change_wf max [] c -> plain_record c -> holds [] (cEntry c) -> inv max [c] (replicate writers (loop 0)) [].
Proof.
  intros Hwf Hp Hh. change (loop 0) with (POwn 0).
  assert (Hlook : forall w p, replicate writers (POwn 0) !! w = Some p -> p = POwn 0) by (intros w p [-> _]%lookup_replicate; done).
  split; try done.
  - by apply (journal_wf_snoc _ []).
  - exists (cEntry c). split; [|done]. change [c] with ([] ++ [c]). rewrite (replay_plain [] c Hp). unfold change_ref. rewrite (ho_ref _ _ Hh).
    by rewrite lookup_insert_eq.
  - intros k _. exists c. rewrite take_nil. split; [|done]. by apply list_elem_of_singleton.
  - by apply Forall_singleton.
  - intros w i p ->%Hlook Hi. cbn in Hi. lia.
  - intros w i p ->%Hlook Hi. cbn in Hi. lia.
  - intros w p ->%Hlook. cbn. unfold each_. lia.
Qed.

(** C6: The concurrent test never fails. Four goroutines writing entries of
    their own and patching one shared entry with the read-patch-put loop are
    run under any schedule of their calls that gives each of them turns
    enough, on any store that answers as the contract says: no goroutine
    reports an error, no retry is exhausted, no fact and no entry is lost,
    and the journal has every write once, each in a chain with the one it
    was anchored in; unless two texts written have one digest. *)
Theorem testConcurrent_passes schedule :
  store_ok new -> store_journal new = [] -> 256 <= MaxEntryBytes new ->
  (forall w, (w < writers)%nat -> (enough <= turns w schedule)%nat) ->
  no_collision (store_journal (race schedule (Put new (clock O) [] shared_entry []).1).1) ->
  testConcurrent search_of supported new clock schedule = Some O.
Proof.
  intros Hs Hj Hmax Hturns. unfold testConcurrent.
  pose proof (law_put new (clock O) [] shared_entry [] Hs) as L. destruct (Put new (clock O) [] shared_entry []) as [s r].
  assert (Hst : Storable shared_entry (MaxEntryBytes new)).
  { apply (shared_storable _ []); try done. unfold writers, each_. cbn. lia. }
  pose proof (put_plain _ (store_journal new) (clock O) [] _ Hst) as Hput. cbn zeta in Hput.
  destruct L as (Hr & Hjs & HM & Hok). rewrite Hput in Hr. subst r. rewrite Hj in *. cbn [appended app fst] in *.
  pose proof (spec_put_wf _ _ _ _ _ _ _ Hput) as Hwf.
  intros Hcol. destruct (race_raced schedule s (MaxEntryBytes new) Hok Hmax) as (HMs & (fs & Hinv) & Hcost); [|done|].
  { split; [done|]. split; [|intros w p [-> _]%lookup_replicate; done]. exists []. cbn [fst snd]. rewrite Hjs.
    by apply inv_start. }
  destruct (race schedule s) as [s' ps] eqn:Er. cbn [fst snd] in *.
  assert (Hdone : Forall (fun p => p = PDone) ps).
  { apply Forall_lookup. intros w p Hp. pose proof (inv_range _ _ _ _ Hinv _ _ Hp) as Hw.
    specialize (Hcost _ _ Hp). specialize (Hturns w Hw). assert (Hz : cost p = O) by lia. pose proof (iv_pcs _ _ _ _ Hinv _ _ Hp) as Hok'.
    destruct p; cbn [cost pc_ok] in Hok', Hz; [ | | |done|done]; exfalso.
    - unfold each_ in *. lia.
    - pose proof (facts_room _ _ _ _ _ _ _ Hinv Hp eq_refl (proj1 Hok')). unfold each_, writers in *. lia.
    - pose proof (facts_room _ _ _ _ _ _ _ Hinv Hp eq_refl (proj1 Hok')). destruct Hok' as (Hi & k & Hk & _).
      unfold each_, writers in *. lia. }
  pose proof (race_ok schedule s Hok) as Hok'. rewrite Er in Hok'. rewrite <- HMs in Hinv.
  pose proof (check_shared_passes s' ps fs 1 Hok' Hinv Hdone) as Hchecks.
  rewrite (all_done _ _ _ _ Hinv Hdone). change (forallb pc_done _) with true. cbn iota. by rewrite Hchecks.
Qed.
End Race.

(** Whether a journal's texts have a digest each, hashing each once. *)
Definition digests_apart (j : list Change) : bool :=
  let hs := (fun c => (eContent (cEntry c), Hash (eContent (cEntry c)))) <$> j in
  forallb (fun x => forallb (fun y => negb (bool_decide (x.2 = y.2) && negb (bool_decide (x.1 = y.1)))) hs) hs.

Lemma no_collision_checked j : digests_apart j = true -> no_collision j.
Proof.
  intros Hj c d Hc Hd [Hne Heq]. unfold digests_apart in Hj. rewrite forallb_forall in Hj.
  assert (Hin : forall c, c ∈ j -> In (eContent (cEntry c), Hash (eContent (cEntry c)))
    ((fun c => (eContent (cEntry c), Hash (eContent (cEntry c)))) <$> j)) by (intros x Hx; apply list_elem_of_In, list_elem_of_fmap; by exists x).
  specialize (Hj _ (Hin c Hc)). rewrite forallb_forall in Hj. specialize (Hj _ (Hin d Hd)). cbn [fst snd] in Hj.
  by rewrite bool_decide_eq_true_2, bool_decide_eq_false_2 in Hj.
Qed.

(** The writers in rotation on the in-memory store, in lockstep, where every
    attempt but one in four is refused. *)
Lemma testConcurrent_passes_witness :
  testConcurrent (mem_searchable id) AllSearchOptions (NewMemStore 4096) ticks (rotation enough) = Some O.
Proof.
  apply testConcurrent_passes.
  - apply NewMemStore_store_ok.
  - done.
  - done.
  - intros w Hw. do 4 (destruct w as [|w]; [vm_compute; lia|]). unfold writers in Hw. lia.
  - apply no_collision_checked. by vm_compute.
Defined.
