(* ===== verification/Manifest.v ===== *)
(** * Manifests: the record of what a block held (render.go, 83-571)

    A [Manifest], its hash, its record whole or as a delta on an earlier one,
    and [ManifestFold], a reader of a session's records.  A record is the
    bytes the code hands over: what [marshalRecord] writes of a [Manifest] or
    of a [manifestDelta], and what [parseManifestRecord] reads, the probe for
    the member that tells a delta, the decoding of either into Go's structs
    and slices, and each of their errors.  [parse_whole] and [parse_delta]
    are the round trips of the bytes. *)

From S2P Require Import Prelude GoStd Sha256 Memory Json JsonRead Codec Records.

Record ManifestEntry := MkManifestEntry {
  meScope : bytes; meName : bytes; meHash : bytes; meBytes : Z; meReason : bytes }.

Record Manifest := MkManifest {
  mEntries : list ManifestEntry;
  mOmitted : list ManifestEntry;
  mLeftOut : bool
}.

#[global] Instance ManifestEntry_eq_dec : EqDecision ManifestEntry.
Proof. solve_decision. Defined.
#[global] Instance Manifest_eq_dec : EqDecision Manifest.
Proof. solve_decision. Defined.

Definition empty_manifest : Manifest := MkManifest [] [] false.

Definition OmitBudget : bytes := bs "budget".
Definition OmitBlock : bytes := bs "block".

Definition with_reason (r : bytes) (e : ManifestEntry) : ManifestEntry :=
  MkManifestEntry (meScope e) (meName e) (meHash e) (meBytes e) r.

Definition LeaveOut (m : Manifest) : Manifest :=
  MkManifest [] (with_reason OmitBlock <$> mEntries m ++ mOmitted m) true.

Definition Dropped (m : Manifest) : bool :=
  if mLeftOut m then true
  else if negb (bool_decide (mEntries m = [])) || bool_decide (mOmitted m = []) then false
  else forallb (fun e => bool_decide (meReason e = OmitBlock)) (mOmitted m).

(** ** The hash *)

Definition nl : bytes := [ascii_of_N 10].

Definition entry_line (e : ManifestEntry) : bytes :=
  bs "+ " ++ meScope e ++ bs "/" ++ meName e ++ bs " " ++ meHash e ++ bs " " ++ Itoa (meBytes e) ++ nl.

Definition omit_line (e : ManifestEntry) : bytes :=
  bs "- " ++ meScope e ++ bs "/" ++ meName e ++ bs " " ++ meHash e ++ bs " " ++ Itoa (meBytes e)
  ++ bs " " ++ meReason e ++ nl.

Definition manifest_text (m : Manifest) : bytes :=
  concat (entry_line <$> mEntries m) ++ concat (omit_line <$> mOmitted m)
  ++ (if mLeftOut m then bs "x block" ++ nl else []).

Definition Manifest_Hash (m : Manifest) : bytes := Hash (manifest_text m).

(** ** Deltas *)

(** One element of a delta's list: [Keep], and the entry when there is one. *)
Record manifestOp := MkOp { opKeep : Z; opEntry : option ManifestEntry }.

Record manifestDelta := MkDelta {
  dBase : bytes; dHash : bytes; dEntries : list manifestOp; dOmitted : list manifestOp; dDropped : bool }.

Abbreviation manifestKey := (bytes * bytes)%type.
Definition mkey (e : ManifestEntry) : manifestKey := (meScope e, meName e).

(** The loop of [manifestIndex], at position [i]. *)
Fixpoint index_loop (i : Z) (l : list ManifestEntry) (at_ : gmap manifestKey Z) : option (gmap manifestKey Z) :=
  match l with
  | [] => Some at_
  | e :: l' =>
      match at_ !! mkey e with
      | Some _ => None
      | None => index_loop (i + 1) l' (<[mkey e := i]> at_)
      end
  end.

Definition manifestIndex (l : list ManifestEntry) : option (gmap manifestKey Z) := index_loop 0 l ∅.

(** The variables of [manifestDiff]'s loop. *)
Record diff_state := MkDiff { dfCursor : Z; dfRun : Z; dfOut : list manifestOp }.

Definition flush (st : diff_state) : diff_state :=
  if 0 <? dfRun st then MkDiff (dfCursor st + dfRun st) 0 (dfOut st ++ [MkOp (dfRun st) None])
  else st.

Definition diff_step (at_ : gmap manifestKey Z) (prev : list ManifestEntry) (st : diff_state) (e : ManifestEntry)
    : diff_state :=
  let j := at_ !! mkey e in
  let same := match j with
              | Some j => bool_decide (prev !! Z.to_nat j = Some e) && (j =? dfCursor st + dfRun st)
              | None => false end in
  if same then MkDiff (dfCursor st) (dfRun st + 1) (dfOut st)
  else let st := flush st in
       MkDiff (match j with Some j => j + 1 | None => dfCursor st end) (dfRun st)
         (dfOut st ++ [MkOp 0 (Some e)]).

Definition manifestDiff (prev next : list ManifestEntry) : option (list manifestOp) :=
  match manifestIndex prev, manifestIndex next with
  | Some at_, Some _ => Some (dfOut (flush (foldl (diff_step at_ prev) (MkDiff 0 0 []) next)))
  | _, _ => None
  end.

(** Why a record is refused: it is not one that JSON gives, whole or as a
    delta, or it does not fold. *)
Inductive merror :=
| BadRecord
| BadDelta
| ErrManifestBase (base : bytes)
| NamedTwice
| BothKeepAndEntry (i : nat)
| NamesNoEntry (i : nat)
| KeepsPastEnd (i : nat) (keep left : Z)
| NeitherKeepNorEntry (i : nat)
| HashDiffers (got want : bytes).

Fixpoint apply_loop (at_ : gmap manifestKey Z) (prev : list ManifestEntry) (i : nat) (ops : list manifestOp)
    (cursor : Z) (out : list ManifestEntry) : res merror (list ManifestEntry) :=
  match ops with
  | [] => Ok out
  | MkOp keep (Some e) :: ops' =>
      if negb (keep =? 0) then Err (BothKeepAndEntry i)
      else if bool_decide (meScope e = []) || bool_decide (meName e = []) then Err (NamesNoEntry i)
      else apply_loop at_ prev (S i) ops' (match at_ !! mkey e with Some j => j + 1 | None => cursor end) (out ++ [e])
  | MkOp keep None :: ops' =>
      if (0 <? keep) && (keep <=? blen prev - cursor)
      then apply_loop at_ prev (S i) ops' (cursor + keep)
             (out ++ take (Z.to_nat keep) (drop (Z.to_nat cursor) prev))
      else if 0 <? keep then Err (KeepsPastEnd i keep (blen prev - cursor))
      else Err (NeitherKeepNorEntry i)
  end.

Definition manifestApply (prev : list ManifestEntry) (ops : list manifestOp) : res merror (list ManifestEntry) :=
  match manifestIndex prev with
  | None => Err NamedTwice
  | Some at_ => apply_loop at_ prev 0 ops 0 []
  end.

Definition applyManifestDelta (m : Manifest) (d : manifestDelta) : res merror Manifest :=
  let? entries := manifestApply (mEntries m) (dEntries d) in
  let? omitted := manifestApply (mOmitted m) (dOmitted d) in
  let out := MkManifest entries omitted (dDropped d) in
  if bool_decide (Manifest_Hash out = dHash d) then Ok out else Err (HashDiffers (Manifest_Hash out) (dHash d)).

(** ** Records: their bytes *)

Definition ManifestNS : bytes := bs "agentmemory:render".

Definition entry_members (e : ManifestEntry) : list (bytes * json) :=
  [member (bs "scope") (jstring (meScope e)); member (bs "name") (jstring (meName e));
   member (bs "hash") (jstring (meHash e)); member (bs "bytes") (jnumber (meBytes e))]
  ++ opt (nonempty (meReason e)) (member (bs "reason") (jstring (meReason e))).

Definition item_json (e : ManifestEntry) : json := JObject (entry_members e).

(** The entry is embedded: its members are the element's own. *)
Definition op_json (o : manifestOp) : json :=
  JObject (opt (negb (opKeep o =? 0)) (member (bs "keep") (jnumber (opKeep o)))
           ++ match opEntry o with Some e => entry_members e | None => [] end).

Definition some_of {A} (l : list A) : bool := match l with [] => false | _ => true end.

Definition Manifest_MarshalJSON (m : Manifest) : json :=
  JObject ([member (bs "entries") (JArray (item_json <$> mEntries m))]
           ++ opt (some_of (mOmitted m)) (member (bs "omitted") (JArray (item_json <$> mOmitted m)))
           ++ opt (mLeftOut m) (member (bs "dropped") (JBool true))).

Definition delta_json (d : manifestDelta) : json :=
  JObject ([member (bs "base") (jstring (dBase d)); member (bs "hash") (jstring (dHash d))]
           ++ opt (some_of (dEntries d)) (member (bs "entries") (JArray (op_json <$> dEntries d)))
           ++ opt (some_of (dOmitted d)) (member (bs "omitted") (JArray (op_json <$> dOmitted d)))
           ++ opt (dDropped d) (member (bs "dropped") (JBool true))).

(** json.Marshal of a value that cannot fail to encode. *)
Definition marshalRecord (v : json) : bytes := render v.

Definition Manifest_Record (m : Manifest) : bytes * bytes := (ManifestNS, marshalRecord (Manifest_MarshalJSON m)).

Definition RecordSince (m prev : Manifest) : bytes * bytes :=
  let whole := marshalRecord (Manifest_MarshalJSON m) in
  if mLeftOut m || mLeftOut prev then (ManifestNS, whole)
  else match manifestDiff (mEntries prev) (mEntries m), manifestDiff (mOmitted prev) (mOmitted m) with
       | Some entries, Some omitted =>
           let delta := marshalRecord (delta_json
             (MkDelta (Manifest_Hash prev) (Manifest_Hash m) entries omitted (mLeftOut m))) in
           if blen whole <=? blen delta then (ManifestNS, whole) else (ManifestNS, delta)
       | _, _ => (ManifestNS, whole)
       end.

(** *** Reading them *)

Definition zero_item : ManifestEntry := MkManifestEntry [] [] [] 0 [].

Definition item_fields : fields ManifestEntry :=
  [(bs "scope", fun v e => x ← decode_string v (meScope e);
      Some (MkManifestEntry x (meName e) (meHash e) (meBytes e) (meReason e)));
   (bs "name", fun v e => x ← decode_string v (meName e);
      Some (MkManifestEntry (meScope e) x (meHash e) (meBytes e) (meReason e)));
   (bs "hash", fun v e => x ← decode_string v (meHash e);
      Some (MkManifestEntry (meScope e) (meName e) x (meBytes e) (meReason e)));
   (bs "bytes", fun v e => x ← decode_int 64 v (meBytes e);
      Some (MkManifestEntry (meScope e) (meName e) (meHash e) x (meReason e)));
   (bs "reason", fun v e => x ← decode_string v (meReason e);
      Some (MkManifestEntry (meScope e) (meName e) (meHash e) (meBytes e) x))].

(** A field of the embedded entry, which is new when it was nil. *)
Definition promoted (f : bytes * decoder ManifestEntry) : bytes * decoder manifestOp :=
  (f.1, fun v o => e ← f.2 v (default zero_item (opEntry o)); Some (MkOp (opKeep o) (Some e))).

Definition op_fields : fields manifestOp :=
  (bs "keep", fun v o => x ← decode_int 64 v (opKeep o); Some (MkOp x (opEntry o))) :: map promoted item_fields.

Definition zero_op : manifestOp := MkOp 0 None.

(** A [Manifest] while it is decoded, and a [manifestDelta]. *)
Record manifest_vars := MkManifestVars {
  mvEntries : slice ManifestEntry; mvOmitted : slice ManifestEntry; mvLeftOut : bool }.

Record delta_vars := MkDeltaVars {
  dvBase : bytes; dvHash : bytes; dvEntries : slice manifestOp; dvOmitted : slice manifestOp; dvDropped : bool }.

Definition manifest_fields : fields manifest_vars :=
  [(bs "entries", fun v m => x ← decode_slice zero_item (decode_struct item_fields) v (mvEntries m);
      Some (MkManifestVars x (mvOmitted m) (mvLeftOut m)));
   (bs "omitted", fun v m => x ← decode_slice zero_item (decode_struct item_fields) v (mvOmitted m);
      Some (MkManifestVars (mvEntries m) x (mvLeftOut m)));
   (bs "dropped", fun v m => x ← decode_bool v (mvLeftOut m);
      Some (MkManifestVars (mvEntries m) (mvOmitted m) x))].

Definition delta_fields : fields delta_vars :=
  [(bs "base", fun v d => x ← decode_string v (dvBase d);
      Some (MkDeltaVars x (dvHash d) (dvEntries d) (dvOmitted d) (dvDropped d)));
   (bs "hash", fun v d => x ← decode_string v (dvHash d);
      Some (MkDeltaVars (dvBase d) x (dvEntries d) (dvOmitted d) (dvDropped d)));
   (bs "entries", fun v d => x ← decode_slice zero_op (decode_struct op_fields) v (dvEntries d);
      Some (MkDeltaVars (dvBase d) (dvHash d) x (dvOmitted d) (dvDropped d)));
   (bs "omitted", fun v d => x ← decode_slice zero_op (decode_struct op_fields) v (dvOmitted d);
      Some (MkDeltaVars (dvBase d) (dvHash d) (dvEntries d) x (dvDropped d)));
   (bs "dropped", fun v d => x ← decode_bool v (dvDropped d);
      Some (MkDeltaVars (dvBase d) (dvHash d) (dvEntries d) (dvOmitted d) x))].

(** The probe: a struct of the one field [base]. *)
Definition probe_fields : fields (option bytes) := [(bs "base", decode_ptr [] decode_string)].

Definition unmarshal_probe (data : bytes) : option (option bytes) :=
  v ← json_parse data; decode_struct probe_fields v None.

Definition unmarshal_manifest (data : bytes) : option Manifest :=
  v ← json_parse data;
  m ← decode_struct manifest_fields v (MkManifestVars nil_slice nil_slice false);
  Some (MkManifest (slice_list (mvEntries m)) (slice_list (mvOmitted m)) (mvLeftOut m)).

Definition unmarshal_delta (data : bytes) : option manifestDelta :=
  v ← json_parse data;
  d ← decode_struct delta_fields v (MkDeltaVars [] [] nil_slice nil_slice false);
  Some (MkDelta (dvBase d) (dvHash d) (slice_list (dvEntries d)) (slice_list (dvOmitted d)) (dvDropped d)).

Definition parseManifestRecord (data : bytes) : res merror (Manifest * option manifestDelta) :=
  match unmarshal_probe data with
  | None => Err BadRecord
  | Some None =>
      match unmarshal_manifest data with
      | None => Err BadRecord
      | Some whole => Ok (whole, None)
      end
  | Some (Some _) =>
      match unmarshal_delta data with
      | None => Err BadDelta
      | Some d => Ok (empty_manifest, Some d)
      end
  end.

Definition ApplyManifestRecord (m : Manifest) (data : bytes) : res merror Manifest :=
  let? p := parseManifestRecord data in
  match p with
  | (whole, None) => Ok whole
  | (_, Some d) =>
      if bool_decide (dBase d = Manifest_Hash m) then applyManifestDelta m d else Err (ErrManifestBase (dBase d))
  end.

(** A whole record and its members in another case; the elements of a list
    given twice, which are decoded into those of the first; a null. *)
Example parse_whole_ex :
  parseManifestRecord (q "{'ENTRIES':[{'scope':'user','name':'a','hash':'h','bytes':3,'x':{}}],'dropped':true}")
    = Ok (MkManifest [MkManifestEntry (bs "user") (bs "a") (bs "h") 3 []] [] true, None)
  /\ parseManifestRecord (q "{'entries':[{'name':'a'},{'name':'b'}],'entries':[{'hash':'h'}],'base':null}")
    = Ok (MkManifest [MkManifestEntry [] (bs "a") (bs "h") 0 []] [] false, None)
  /\ parseManifestRecord (q " null") = Ok (empty_manifest, None).
Proof. by vm_compute. Qed.

(** A delta: a keep, an entry whole, and one with a field that is null. *)
Example parse_delta_ex :
  parseManifestRecord (q "{'base':'b','hash':'h','entries':[{'keep':2},{'scope':'user','name':'a','bytes':1},{'reason':null}]}")
    = Ok (empty_manifest,
        Some (MkDelta (bs "b") (bs "h")
                [MkOp 2 None; MkOp 0 (Some (MkManifestEntry (bs "user") (bs "a") [] 1 [])); MkOp 0 (Some zero_item)] [] false)).
Proof. by vm_compute. Qed.

(** No JSON, no object, a base that is no string, a size that is no int, in
    a record and in a delta. *)
Example parse_errors_ex :
  parseManifestRecord (q "{") = Err BadRecord /\ parseManifestRecord (q "[]") = Err BadRecord
  /\ parseManifestRecord (q "{'base':1}") = Err BadRecord
  /\ parseManifestRecord (q "{'entries':[{'bytes':1.5}]}") = Err BadRecord
  /\ parseManifestRecord (q "{'base':'b','entries':[{'keep':'1'}]}") = Err BadDelta.
Proof. by vm_compute. Qed.

(** ** The fold *)

Definition ManifestFoldDepth : nat := 8.

(** [recent] and [hashes], which the code keeps in step. *)
Record ManifestFold := MkFold { fRecent : list Manifest; fHashes : list bytes }.

Definition empty_fold : ManifestFold := MkFold [] [].

(** [slices.Index]. *)
Fixpoint index_of (h : bytes) (l : list bytes) : option nat :=
  match l with
  | [] => None
  | x :: l' => if bool_decide (x = h) then Some O else S <$> index_of h l'
  end.

Definition push (f : ManifestFold) (m : Manifest) (h : bytes) : ManifestFold :=
  let f := match index_of h (fHashes f) with
           | Some i => MkFold (delete i (fRecent f)) (delete i (fHashes f))
           | None => f end in
  let recent := m :: fRecent f in
  let hashes := h :: fHashes f in
  if (ManifestFoldDepth <? length recent)%nat
  then MkFold (take ManifestFoldDepth recent) (take ManifestFoldDepth hashes)
  else MkFold recent hashes.

Definition Fold_Apply (f : ManifestFold) (data : bytes) : ManifestFold * option merror :=
  match parseManifestRecord data with
  | Err e => (f, Some e)
  | Ok (whole, None) => (push f whole (Manifest_Hash whole), None)
  | Ok (_, Some d) =>
      match match index_of (dBase d) (fHashes f) with
            | Some i => fRecent f !! i
            | None => if bool_decide (fRecent f = []) && bool_decide (dBase d = Manifest_Hash empty_manifest)
                      then Some empty_manifest else None
            end with
      | None => (f, Some (ErrManifestBase (dBase d)))
      | Some base =>
          match applyManifestDelta base d with
          | Err e => (f, Some e)
          | Ok out => (push f out (dHash d), None)
          end
      end
  end.

Definition Fold_Manifest (f : ManifestFold) : Manifest :=
  match fRecent f with
  | [] => empty_manifest
  | m :: _ => m
  end.

Definition Fold_Record (f : ManifestFold) (m : Manifest) : bytes * bytes :=
  foldl (fun r base => let d := (RecordSince m base).2 in if blen d <? blen r.2 then (r.1, d) else r)
    (Manifest_Record m) (fRecent f).

(** ** The index of a list *)

Lemma index_loop_Some l : forall i at0 at_, index_loop i l at0 = Some at_ ->
  NoDup (mkey <$> l)
  /\ (forall k, k ∈ mkey <$> l -> at0 !! k = None)
  /\ (forall k j, at_ !! k = Some j <->
        at0 !! k = Some j \/ exists n e, l !! n = Some e /\ mkey e = k /\ j = i + Z.of_nat n).
Proof.
  induction l as [|e l IH]; intros i at0 at_ H; cbn [index_loop] in H.
  { injection H as <-. split_and!; [constructor|set_solver|]. intros k j. split; [by left|].
    by intros [?|(n & e & ? & _)]. }
  destruct (at0 !! mkey e) as [?|] eqn:E; [done|]. destruct (IH _ _ _ H) as (Hnd & Hfree & Hat).
  cbn [fmap list_fmap]. split_and!.
  - apply NoDup_cons. split; [|done]. intros Hin%Hfree. by rewrite lookup_insert_eq in Hin.
  - intros k [->|Hk]%elem_of_cons; [done|]. apply Hfree in Hk as Hk'.
    destruct (decide (k = mkey e)) as [->|]; [done|]. by rewrite lookup_insert_ne in Hk'.
  - intros k j. rewrite Hat. destruct (decide (k = mkey e)) as [->|Hne].
    + rewrite lookup_insert_eq. split.
      * intros [[= <-]|(n & e' & Hl & Hk & ->)]; right; [exists O, e; split_and!; [done..|lia]|].
        exfalso. assert (Hin : mkey e ∈ mkey <$> l) by (rewrite <- Hk; apply list_elem_of_fmap_2; by eapply list_elem_of_lookup_2).
        apply Hfree in Hin. by rewrite lookup_insert_eq in Hin.
      * intros [?|(n & e' & Hl & Hk & ->)]; [congruence|]. destruct n as [|n]; [left; f_equal; lia|].
        right. exists n, e'. split_and!; [done|done|lia].
    + rewrite lookup_insert_ne by done. split.
      * intros [?|(n & e' & Hl & Hk & ->)]; [by left|]. right. exists (S n), e'. split_and!; [done|done|lia].
      * intros [?|(n & e' & Hl & Hk & ->)]; [by left|]. destruct n as [|n]; [injection Hl as ->; done|].
        right. exists n, e'. split_and!; [done|done|lia].
Qed.

Lemma index_loop_total l : forall i at0, NoDup (mkey <$> l) -> (forall k, k ∈ mkey <$> l -> at0 !! k = None) ->
  is_Some (index_loop i l at0).
Proof.
  induction l as [|e l IH]; intros i at0 Hnd Hf; cbn [index_loop]; [eauto|].
  cbn [fmap list_fmap] in *. apply NoDup_cons in Hnd as [Hn Hnd]. rewrite Hf by left. apply IH; [done|].
  intros k Hk. rewrite lookup_insert_ne by congruence. apply Hf. by right.
Qed.

(** It is there exactly when no entry is named twice. *)
Lemma manifestIndex_NoDup l : is_Some (manifestIndex l) <-> NoDup (mkey <$> l).
Proof.
  split.
  - intros [at_ H]. by apply index_loop_Some in H as [? _].
  - intros H. apply index_loop_total; [done|]. intros k _. apply lookup_empty.
Qed.

Lemma manifestIndex_lookup l at_ k j : manifestIndex l = Some at_ ->
  at_ !! k = Some j <-> exists n e, l !! n = Some e /\ mkey e = k /\ j = Z.of_nat n.
Proof.
  intros H. apply index_loop_Some in H as (_ & _ & ->). rewrite lookup_empty. naive_solver.
Qed.

(** ** A delta folds back *)

(** The entries a record carries to a reader: a scope and a name that are not
    empty, every text valid UTF-8, which is what JSON can write, and a size
    that an int holds. *)
Record item_carried (e : ManifestEntry) : Prop := {
  ca_named : meScope e <> [] /\ meName e <> [];
  ca_scope : ValidString (meScope e) = true;
  ca_name : ValidString (meName e) = true;
  ca_hash : ValidString (meHash e) = true;
  ca_bytes : 0 <= meBytes e < 2 ^ 63;
  ca_reason : ValidString (meReason e) = true
}.

Definition op_carried (o : manifestOp) : Prop :=
  0 <= opKeep o < 2 ^ 63 /\ match opEntry o with Some e => item_carried e | None => True end.

(** A list whose length an int holds, as the length of any slice is. *)
Definition int_len {A} (l : list A) : Prop := blen l < 2 ^ 63.

Section Delta.
Context (prev : list ManifestEntry) (Hlen : int_len prev).
Context (at_ : gmap manifestKey Z) (Hat : manifestIndex prev = Some at_).

(** Reading [ops] brings the reader to [c] and [out], whatever follows. *)
Definition Leads (ops : list manifestOp) (c : Z) (out : list ManifestEntry) : Prop :=
  forall ops', apply_loop at_ prev 0 (ops ++ ops') 0 [] = apply_loop at_ prev (length ops) ops' c out.

Lemma Leads_keep ops c out k :
  Leads ops c out -> 0 < k -> k <= blen prev - c ->
  Leads (ops ++ [MkOp k None]) (c + k) (out ++ take (Z.to_nat k) (drop (Z.to_nat c) prev)).
Proof.
  intros H H1 H2 ops'. rewrite <- app_assoc, H. cbn [app apply_loop].
  destruct (Z.ltb_spec 0 k), (Z.leb_spec k (blen prev - c)); try lia. cbn [andb].
  by rewrite length_app, Nat.add_comm.
Qed.

Lemma Leads_entry ops c out e :
  Leads ops c out -> item_carried e ->
  Leads (ops ++ [MkOp 0 (Some e)]) (match at_ !! mkey e with Some j => j + 1 | None => c end) (out ++ [e]).
Proof.
  intros H [[Hs Hn] _ _ _ _ _] ops'. rewrite <- app_assoc, H. cbn [app apply_loop Z.eqb negb].
  rewrite !bool_decide_eq_false_2 by done. cbn [orb]. by rewrite length_app, Nat.add_comm.
Qed.

(** What the writer has written stands for the entries it has read. *)
Definition diff_inv (st : diff_state) (read : list ManifestEntry) : Prop :=
  exists out, Leads (dfOut st) (dfCursor st) out
    /\ read = out ++ take (Z.to_nat (dfRun st)) (drop (Z.to_nat (dfCursor st)) prev)
    /\ 0 <= dfCursor st /\ 0 <= dfRun st /\ dfCursor st + dfRun st <= blen prev
    /\ Forall op_carried (dfOut st).

Lemma flush_inv st read : diff_inv st read -> diff_inv (flush st) read /\ dfRun (flush st) = 0.
Proof.
  intros (out & Hl & -> & Hc & Hr & Hb & Hf). unfold flush. unfold int_len in Hlen.
  destruct (Z.ltb_spec 0 (dfRun st)).
  - split; [|done]. eexists. cbn. split_and!; [apply Leads_keep; [exact Hl|lia..]| |lia..|].
    + by rewrite app_nil_r.
    + apply Forall_app. split; [done|]. apply Forall_singleton. split; cbn; [lia|done].
  - split; [|lia]. exists out. done.
Qed.

Lemma diff_step_inv st read e : diff_inv st read -> item_carried e -> diff_inv (diff_step at_ prev st e) (read ++ [e]).
Proof.
  intros Hi Hn. unfold diff_step.
  destruct (match at_ !! mkey e with Some _ => _ | None => false end) eqn:Es.
  - destruct (at_ !! mkey e) as [j|]; [|done]. apply andb_true_iff in Es as [Hp Hj]. bool_hyps. subst j.
    destruct Hi as (out & Hl & -> & Hc & Hr & Hb & Hf). exists out. cbn. split_and!; [done| |lia..| |done].
    + rewrite <- app_assoc. f_equal. replace (Z.to_nat (dfRun st + 1)) with (S (Z.to_nat (dfRun st))) by lia.
      symmetry. apply take_S_r. rewrite lookup_drop. rewrite <- Hp. f_equal. lia.
    + apply lookup_lt_Some in Hp. unfold blen. lia.
  - clear Es. destruct (flush_inv st read Hi) as [(out & Hl & -> & Hc & Hr & Hb & Hf) H0].
    exists (out ++ [e]). cbn. split_and!.
    + by apply Leads_entry.
    + rewrite H0. cbn. by rewrite !app_nil_r.
    + destruct (at_ !! mkey e) as [j|] eqn:E; [|done].
      apply (manifestIndex_lookup _ _ _ _ Hat) in E as (n & e' & _ & _ & ->). lia.
    + done.
    + rewrite H0. destruct (at_ !! mkey e) as [j|] eqn:E; [|lia].
      apply (manifestIndex_lookup _ _ _ _ Hat) in E as (n & e' & El & _ & ->).
      apply lookup_lt_Some in El. unfold blen. lia.
    + apply Forall_app. split; [done|]. apply Forall_singleton. split; [done|exact Hn].
Qed.

Lemma diff_loop_inv next : forall st read, diff_inv st read -> Forall item_carried next ->
  diff_inv (foldl (diff_step at_ prev) st next) (read ++ next).
Proof.
  induction next as [|e next IH]; intros st read Hi Hn; [by rewrite app_nil_r|].
  inversion Hn; subst. cbn [foldl]. replace (read ++ e :: next) with ((read ++ [e]) ++ next) by by rewrite <- app_assoc.
  apply IH; [|done]. by apply diff_step_inv.
Qed.
End Delta.

Lemma manifestApply_Diff prev next ops :
  int_len prev -> Forall item_carried next -> manifestDiff prev next = Some ops ->
  manifestApply prev ops = Ok next /\ Forall op_carried ops.
Proof.
  intros Hz Hn. unfold manifestDiff, manifestApply. destruct (manifestIndex prev) as [at_|] eqn:Ha; [|done].
  destruct (manifestIndex next); [|done]. intros [= <-].
  assert (H0 : diff_inv prev at_ (MkDiff 0 0 []) []).
  { exists []. cbn. split_and!; [by intros ops'|done|lia|lia|unfold blen; lia|constructor]. }
  pose proof (diff_loop_inv prev Hz at_ Ha next _ _ H0 Hn) as Hi.
  destruct (flush_inv prev Hz at_ _ _ Hi) as [(out & Hl & E & _ & _ & _ & Hf) Hr].
  specialize (Hl []). rewrite app_nil_r in Hl. split; [|done]. rewrite Hl. cbn [apply_loop]. f_equal.
  rewrite Hr in E. cbn in E. by rewrite app_nil_r in E.
Qed.

(** ** The bytes are read back *)

#[local] Opaque decode_member opt.

(** Members in turn, as in [Codec]. *)
Ltac member_in_turn :=
  first
    [ rewrite foldl_app
    | progress cbn [foldl]
    | erewrite decode_member_field by reflexivity; cbv beta;
      rewrite ?decode_jstring, ?decode_jnumber_int by assumption;
      cbn [mbind option_bind snd promoted default opKeep opEntry meScope meName meHash meBytes meReason
           dvBase dvHash dvEntries dvOmitted dvDropped mvEntries mvOmitted mvLeftOut decode_bool];
      rewrite ?decode_jstring, ?decode_jnumber_int by assumption;
      cbn [mbind option_bind opKeep opEntry meScope meName meHash meBytes meReason] ].

(** The last member, which is left out when it is empty. *)
Lemma opt_member {T} (fs : fields T) b name v x y dec :
  field_of fs (unquote (json_loop (length name) name)) = Some dec ->
  (b = true -> dec v x = Some y) -> (b = false -> x = y) ->
  foldl (decode_member fs) (Some x) (opt b (member name v)) = Some y.
Proof.
  intros Hf Ht Hb. destruct b.
  - change (opt true ?m) with [m]. cbn [foldl]. erewrite decode_member_field by done. auto.
  - change (opt false ?m) with (@nil (bytes * json)). cbn [foldl]. f_equal. auto.
Qed.

Lemma nonempty_false s : nonempty s = false -> s = [].
Proof. unfold nonempty. intros. by bool_hyps. Qed.

Lemma some_of_false {A} (l : list A) : some_of l = false -> l = [].
Proof. by destruct l. Qed.

Lemma decode_item e : item_carried e -> decode_struct item_fields (item_json e) zero_item = Some e.
Proof.
  intros []. destruct e as [scope name hash size reason]. unfold item_json, entry_members, decode_struct, zero_item.
  cbn [meScope meName meHash meBytes meReason] in *. repeat member_in_turn.
  eapply opt_member; [reflexivity| |]; intros H; cbn [meScope meName meHash meBytes].
  - by rewrite decode_jstring.
  - by rewrite (nonempty_false _ H).
Qed.

Lemma decode_op o : op_carried o -> decode_struct op_fields (op_json o) zero_op = Some o.
Proof.
  intros [Hk He]. destruct o as [keep oe]. unfold op_json, decode_struct, zero_op. cbn [opKeep opEntry] in *.
  rewrite foldl_app. erewrite (opt_member _ _ _ _ _ (MkOp keep None)); [|reflexivity| |].
  2: { intros _. cbn [opEntry]. by rewrite decode_jnumber_int. }
  2: { intros H. bool_hyps. by subst. }
  destruct oe as [[scope name hash size reason]|]; [|done]. destruct He. unfold entry_members.
  cbn [meScope meName meHash meBytes meReason] in *. repeat member_in_turn.
  eapply opt_member; [reflexivity| |]; intros H.
  - cbv beta. cbn [snd promoted default opKeep opEntry meScope meName meHash meBytes].
    by rewrite decode_jstring.
  - by rewrite (nonempty_false _ H).
Qed.

Lemma decode_manifest m : Forall item_carried (mEntries m) -> Forall item_carried (mOmitted m) ->
  decode_struct manifest_fields (Manifest_MarshalJSON m) (MkManifestVars nil_slice nil_slice false)
  = Some (MkManifestVars (MkSlice (length (mEntries m)) (mEntries m)) (MkSlice (length (mOmitted m)) (mOmitted m)) (mLeftOut m)).
Proof.
  intros He Ho. destruct m as [es os b]. unfold Manifest_MarshalJSON, decode_struct. cbn [mEntries mOmitted mLeftOut] in *.
  assert (Hl : forall l, Forall item_carried l ->
    decode_slice zero_item (decode_struct item_fields) (JArray (item_json <$> l)) nil_slice = Some (MkSlice (length l) l)).
  { intros l Hl. apply decode_jlist. eapply Forall_impl; [exact Hl|]. apply decode_item. }
  rewrite foldl_app. cbn [foldl]. erewrite decode_member_field by reflexivity. cbv beta. cbn [mvEntries].
  rewrite Hl by done. cbn [mbind option_bind mvOmitted mvLeftOut]. rewrite foldl_app.
  erewrite (opt_member _ _ _ _ _ (MkManifestVars _ (MkSlice (length os) os) false)); [|reflexivity| |].
  2: { intros _. cbn [mvEntries mvOmitted mvLeftOut]. rewrite Hl by done. reflexivity. }
  2: { intros H. by rewrite (some_of_false _ H). }
  eapply opt_member; [reflexivity| |]; by destruct b.
Qed.

Lemma decode_delta d :
  ValidString (dBase d) = true -> ValidString (dHash d) = true ->
  Forall op_carried (dEntries d) -> Forall op_carried (dOmitted d) ->
  decode_struct delta_fields (delta_json d) (MkDeltaVars [] [] nil_slice nil_slice false)
  = Some (MkDeltaVars (dBase d) (dHash d) (MkSlice (length (dEntries d)) (dEntries d))
            (MkSlice (length (dOmitted d)) (dOmitted d)) (dDropped d)).
Proof.
  intros Hb Hh He Ho. destruct d as [base hash es os b]. unfold delta_json, decode_struct.
  cbn [dBase dHash dEntries dOmitted dDropped] in *.
  assert (Hl : forall l, Forall op_carried l ->
    decode_slice zero_op (decode_struct op_fields) (JArray (op_json <$> l)) nil_slice = Some (MkSlice (length l) l)).
  { intros l Hl. apply decode_jlist. eapply Forall_impl; [exact Hl|]. apply decode_op. }
  rewrite foldl_app. repeat member_in_turn.
  erewrite (opt_member _ _ _ _ _ (MkDeltaVars _ _ (MkSlice (length es) es) nil_slice false)); [|reflexivity| |].
  2: { intros _. cbn [dvBase dvHash dvEntries dvOmitted dvDropped]. rewrite Hl by done. reflexivity. }
  2: { intros H. by rewrite (some_of_false _ H). }
  erewrite (opt_member _ _ _ _ _ (MkDeltaVars _ _ _ (MkSlice (length os) os) false)); [|reflexivity| |].
  2: { intros _. cbn [dvBase dvHash dvEntries dvOmitted dvDropped]. rewrite Hl by done. reflexivity. }
  2: { intros H. by rewrite (some_of_false _ H). }
  eapply opt_member; [reflexivity| |]; by destruct b.
Qed.

Lemma item_writable e : writable 1 (item_json e).
Proof. constructor. unfold entry_members. members_writable; auto with mem. Qed.

Lemma op_writable o : writable 1 (op_json o).
Proof.
  constructor. apply Forall_app. split; [members_writable; auto with mem|].
  destruct (opEntry o) as [e|]; [|constructor]. unfold entry_members. members_writable; auto with mem.
Qed.

Lemma list_writable {A} (value : A -> json) d l : (forall x, writable d (value x)) -> writable (S d) (JArray (value <$> l)).
Proof. intros H. constructor. apply Forall_fmap, Forall_true. exact H. Qed.

Lemma manifest_writable m : writable 3 (Manifest_MarshalJSON m).
Proof. constructor. members_writable; auto using list_writable, item_writable with mem. Qed.

Lemma delta_writable d : writable 3 (delta_json d).
Proof. constructor. members_writable; auto using list_writable, op_writable with mem. Qed.

Lemma parse_marshal v : writable 3 v -> json_parse (marshalRecord v) = Some v.
Proof. intros H. apply (json_parse_render 3); [done|unfold maxNestingDepth; lia]. Qed.

(** Members that are no field's are skipped. *)
Lemma skip_opt {T} (fs : fields T) b name v x :
  field_of fs (unquote (json_loop (length name) name)) = None ->
  foldl (decode_member fs) (Some x) (opt b (member name v)) = Some x.
Proof.
  intros H. destruct b; [|done]. change (opt true ?m) with [m]. cbn [foldl].
  with_strategy transparent [decode_member] (unfold decode_member; cbn [fst snd member mbind option_bind]).
  by rewrite H.
Qed.

(** A manifest of entries a record carries. *)
Definition carried_manifest (m : Manifest) : Prop := Forall item_carried (mEntries m) /\ Forall item_carried (mOmitted m).

Lemma parse_whole m : carried_manifest m ->
  parseManifestRecord (marshalRecord (Manifest_MarshalJSON m)) = Ok (m, None).
Proof.
  intros [He Ho]. unfold parseManifestRecord, unmarshal_probe, unmarshal_manifest.
  rewrite parse_marshal by apply manifest_writable. cbn [mbind option_bind].
  assert (decode_struct probe_fields (Manifest_MarshalJSON m) None = Some None) as ->.
  { unfold Manifest_MarshalJSON, decode_struct. rewrite !foldl_app.
    change [member (bs "entries") ?v] with (opt true (member (bs "entries") v)).
    by rewrite !skip_opt. }
  rewrite decode_manifest by done. cbn [mbind option_bind mvEntries mvOmitted mvLeftOut].
  rewrite !slice_whole. by destruct m.
Qed.

Lemma parse_delta d :
  ValidString (dBase d) = true -> ValidString (dHash d) = true ->
  Forall op_carried (dEntries d) -> Forall op_carried (dOmitted d) ->
  parseManifestRecord (marshalRecord (delta_json d)) = Ok (empty_manifest, Some d).
Proof.
  intros Hb Hh He Ho. unfold parseManifestRecord, unmarshal_probe, unmarshal_delta.
  rewrite parse_marshal by apply delta_writable. cbn [mbind option_bind].
  assert (decode_struct probe_fields (delta_json d) None = Some (Some (dBase d))) as ->.
  { unfold delta_json, decode_struct. rewrite !foldl_app. cbn [foldl].
    erewrite decode_member_field by reflexivity. unfold decode_ptr, jstring at 1.
    fold (jstring (dBase d)). rewrite decode_jstring by done. cbn [mbind option_bind].
    change (foldl (decode_member probe_fields) (decode_member probe_fields ?x (member ?n ?v)))
      with (foldl (decode_member probe_fields) (foldl (decode_member probe_fields) x (opt true (member n v)))).
    by rewrite !skip_opt. }
  rewrite decode_delta by done. cbn [mbind option_bind dvBase dvHash dvEntries dvOmitted dvDropped].
  rewrite !slice_whole. by destruct d.
Qed.

#[local] Transparent decode_member opt.

(** ** A record stands for the manifest it is of *)

(** Reading [data] on [prev] gives [m]: it is [m] whole, or a delta on [prev]. *)
Definition stands (prev : Manifest) (data : bytes) (m : Manifest) : Prop :=
  parseManifestRecord data = Ok (m, None)
  \/ exists d, parseManifestRecord data = Ok (empty_manifest, Some d)
       /\ dBase d = Manifest_Hash prev /\ dHash d = Manifest_Hash m /\ applyManifestDelta prev d = Ok m.

Definition int_manifest (m : Manifest) : Prop := int_len (mEntries m) /\ int_len (mOmitted m).

Lemma RecordSince_stands m prev : carried_manifest m -> int_manifest prev -> stands prev (RecordSince m prev).2 m.
Proof.
  intros Hm [Ze Zo]. pose proof (parse_whole m Hm) as Hw. destruct Hm as [He Ho]. unfold RecordSince.
  destruct (_ || _); [by left|].
  destruct (manifestDiff (mEntries prev) _) as [es|] eqn:E1; [|by left].
  destruct (manifestDiff (mOmitted prev) _) as [os|] eqn:E2; [|by left].
  destruct (_ <=? _); [by left|]. right. cbn [snd].
  apply manifestApply_Diff in E1 as [E1 He']; [|done..]. apply manifestApply_Diff in E2 as [E2 Ho']; [|done..].
  exists (MkDelta (Manifest_Hash prev) (Manifest_Hash m) es os (mLeftOut m)). split_and!; [|done..|].
  - apply parse_delta; [apply Hash_text..|done|done].
  - unfold applyManifestDelta. cbn [dEntries dOmitted dDropped dHash]. rewrite E1, E2. cbn.
    replace (MkManifest (mEntries m) (mOmitted m) (mLeftOut m)) with m by by destruct m.
    by rewrite bool_decide_eq_true_2.
Qed.

Lemma RecordSince_no_larger m prev : blen (RecordSince m prev).2 <= blen (Manifest_Record m).2.
Proof.
  unfold RecordSince, Manifest_Record. generalize (marshalRecord (Manifest_MarshalJSON m)) as whole. intros whole.
  destruct (_ || _); [done|]. destruct (manifestDiff _ _) as [es|]; [|done].
  destruct (manifestDiff _ _) as [os|]; [|done]. generalize (marshalRecord (delta_json (MkDelta (Manifest_Hash prev)
    (Manifest_Hash m) es os (mLeftOut m)))) as delta. intros delta. cbn [snd].
  destruct (Z.leb_spec (blen whole) (blen delta)); cbn [snd]; lia.
Qed.

(** ** The fold's invariant *)

Record fold_ok (f : ManifestFold) : Prop := {
  fold_hashes : fHashes f = Manifest_Hash <$> fRecent f;
  fold_distinct : NoDup (fHashes f);
  fold_depth : (length (fRecent f) <= ManifestFoldDepth)%nat
}.

Lemma index_of_spec h l :
  match index_of h l with
  | Some i => l !! i = Some h
  | None => h ∉ l
  end.
Proof.
  induction l as [|x l IH]; cbn; [apply not_elem_of_nil|]. case_bool_decide; [by subst|].
  destruct (index_of h l); cbn; [done|]. set_solver.
Qed.

Lemma filter_absent (h : bytes) (l : list bytes) : h ∉ l -> filter (fun x => x <> h) l = l.
Proof.
  induction l as [|x l IH]; intros H; [done|]. apply not_elem_of_cons in H as [Hx Hl].
  rewrite filter_cons_True by done. by rewrite IH.
Qed.

Lemma delete_distinct (h : bytes) (l : list bytes) i : NoDup l -> l !! i = Some h -> delete i l = filter (fun x => x <> h) l.
Proof.
  revert i. induction l as [|x l IH]; intros i Hnd Hi; [done|]. apply NoDup_cons in Hnd as [Hx Hnd].
  destruct i as [|i]; cbn in Hi.
  - injection Hi as ->. rewrite filter_cons_False by auto. cbn. symmetry. by apply filter_absent.
  - rewrite filter_cons_True.
    + cbn. f_equal. by apply IH.
    + intros ->. apply Hx. by eapply list_elem_of_lookup_2.
Qed.

Lemma delete_map {A B} (f : A -> B) (i : nat) (l : list A) : f <$> delete i l = delete i (f <$> l).
Proof. revert i. induction l as [|x l IH]; intros [|i]; cbn; [done..|]. f_equal. apply IH. Qed.

(** The hash is put first and taken from where it was; the oldest is cut. *)
Lemma push_spec f m : fold_ok f ->
  fold_ok (push f m (Manifest_Hash m)) /\ Fold_Manifest (push f m (Manifest_Hash m)) = m
  /\ fHashes (push f m (Manifest_Hash m))
     = take ManifestFoldDepth (Manifest_Hash m :: filter (fun x => x <> Manifest_Hash m) (fHashes f)).
Proof.
  intros [Hh Hd Hl]. set (h := Manifest_Hash m).
  set (g := match index_of h (fHashes f) with
            | Some i => MkFold (delete i (fRecent f)) (delete i (fHashes f)) | None => f end).
  assert (Hg : fHashes g = Manifest_Hash <$> fRecent g /\ fHashes g = filter (fun x => x <> h) (fHashes f)).
  { unfold g. pose proof (index_of_spec h (fHashes f)) as Hi. destruct (index_of h (fHashes f)) as [i|]; cbn.
    - split; [by rewrite delete_map, Hh|by apply delete_distinct].
    - split; [done|]. by rewrite filter_absent. }
  destruct Hg as [Hg1 Hg2]. assert (Hnd : NoDup (h :: fHashes g)).
  { rewrite Hg2. apply NoDup_cons. split; [|by apply NoDup_filter]. rewrite list_elem_of_filter. naive_solver. }
  assert (E : push f m h = MkFold (take ManifestFoldDepth (m :: fRecent g)) (take ManifestFoldDepth (h :: fHashes g))).
  { unfold push. fold g. destruct (Nat.ltb_spec ManifestFoldDepth (length (m :: fRecent g))); [done|].
    rewrite !take_ge; [done| |done]. rewrite Hg1. cbn [length] in *. by rewrite length_fmap. }
  rewrite E. split_and!; [split; cbn [fHashes fRecent]|done|by rewrite <- Hg2].
  - rewrite fmap_take. by rewrite Hg1.
  - eapply sublist_NoDup; [exact Hnd|apply sublist_take].
  - rewrite length_take. lia.
Qed.

Lemma fold_base f m : fold_ok f -> m ∈ fRecent f ->
  exists i, index_of (Manifest_Hash m) (fHashes f) = Some i /\ fRecent f !! i = Some m.
Proof.
  intros [Hh Hd _] Hm. pose proof (index_of_spec (Manifest_Hash m) (fHashes f)) as Hi.
  apply list_elem_of_lookup in Hm as [j Hj].
  assert (Hj' : fHashes f !! j = Some (Manifest_Hash m)) by (rewrite Hh, list_lookup_fmap, Hj; done).
  destruct (index_of _ _) as [i|].
  - exists i. split; [done|]. by rewrite (NoDup_lookup _ _ _ _ Hd Hi Hj').
  - destruct Hi. by eapply list_elem_of_lookup_2.
Qed.

(** A record on any manifest the fold holds is folded to what it records. *)
Lemma Fold_Apply_stands f m prev data : fold_ok f -> prev ∈ fRecent f -> stands prev data m ->
  Fold_Apply f data = (push f m (Manifest_Hash m), None).
Proof.
  intros Hf Hp [E|(d & E & Hb & Hh & Ha)]; unfold Fold_Apply; rewrite E; [done|].
  destruct (fold_base f prev Hf Hp) as (i & Hi & Hr). by rewrite Hb, Hi, Hr, Ha, Hh.
Qed.

Lemma Fold_Record_cases f m :
  Fold_Record f m = Manifest_Record m
  \/ exists prev, prev ∈ fRecent f /\ (Fold_Record f m).2 = (RecordSince m prev).2.
Proof.
  unfold Fold_Record. set (step := fun (r : bytes * bytes) base => _).
  assert (L : forall l r,
    (r = Manifest_Record m \/ exists prev, prev ∈ fRecent f /\ r.2 = (RecordSince m prev).2) ->
    (forall x, x ∈ l -> x ∈ fRecent f) ->
    foldl step r l = Manifest_Record m \/ exists prev, prev ∈ fRecent f /\ (foldl step r l).2 = (RecordSince m prev).2).
  { induction l as [|x l IH]; intros r Hr Hl; [done|]. cbn [foldl]. apply IH; [|set_solver].
    unfold step. case_match; [right; exists x; split; [apply Hl; left|done]|done]. }
  apply L; [by left|done].
Qed.

Lemma Fold_Record_smallest f m :
  blen (Fold_Record f m).2 <= blen (Manifest_Record m).2
  /\ forall prev, prev ∈ fRecent f -> blen (Fold_Record f m).2 <= blen (RecordSince m prev).2.
Proof.
  unfold Fold_Record. generalize (Manifest_Record m). induction (fRecent f) as [|x l IH]; intros r; cbn [foldl].
  - split; [lia|]. by intros prev ?%not_elem_of_nil.
  - set (r' := if blen (RecordSince m x).2 <? blen r.2 then (r.1, (RecordSince m x).2) else r).
    destruct (IH r') as [H1 H2].
    assert (Hr : blen r'.2 <= blen r.2 /\ blen r'.2 <= blen (RecordSince m x).2).
    { unfold r'. destruct (Z.ltb_spec (blen (RecordSince m x).2) (blen r.2)); cbn [snd]; lia. }
    split; [lia|]. intros prev [->|Hp]%elem_of_cons; [lia|auto].
Qed.

Lemma Fold_Apply_ok f data : fold_ok f ->
  match Fold_Apply f data with
  | (f', None) => exists m, fold_ok f' /\ Fold_Manifest f' = m /\ f' = push f m (Manifest_Hash m)
  | (f', Some _) => f' = f
  end.
Proof.
  intros Hf. unfold Fold_Apply. destruct (parseManifestRecord data) as [[w [d|]]|]; [| |done].
  - destruct (match index_of _ _ with Some _ => _ | None => _ end) as [base|]; [|done].
    destruct (applyManifestDelta base d) as [out|] eqn:E; [|done].
    unfold applyManifestDelta in E. destruct (manifestApply (mEntries base) _); [|done].
    destruct (manifestApply (mOmitted base) _); [|done]. cbn in E. case_bool_decide as Hh; [|done].
    injection E as <-. rewrite <- Hh. set (out := MkManifest _ _ _).
    exists out. destruct (push_spec f out Hf) as (H1 & H2 & _). done.
  - exists w. destruct (push_spec f w Hf) as (H1 & H2 & _). done.
Qed.

(** ** The last distinct manifests *)

(** The hashes of the manifests that came into force, most recent first,
    each once. *)
Definition recency (hs : list bytes) : list bytes := foldl (fun l h => h :: filter (fun x => x <> h) l) [] hs.

(** Reading a session's records: the fold, and every manifest that came into
    force, in order. *)
Definition fold_read (st : ManifestFold * list Manifest) (r : bytes) : ManifestFold * list Manifest :=
  match Fold_Apply st.1 r with
  | (f, None) => (f, st.2 ++ [Fold_Manifest f])
  | (f, Some _) => (f, st.2)
  end.

Lemma recency_snoc hs h : recency (hs ++ [h]) = h :: filter (fun x => x <> h) (recency hs).
Proof. unfold recency. by rewrite foldl_app. Qed.

Lemma recency_NoDup hs : NoDup (recency hs).
Proof.
  induction hs as [|h hs IH] using rev_ind; [constructor|]. rewrite recency_snoc.
  apply NoDup_cons. split; [|by apply NoDup_filter]. rewrite list_elem_of_filter. naive_solver.
Qed.

(** Cutting to the depth before a push loses nothing the push keeps. *)
Lemma take_filter_take (h : bytes) (l : list bytes) : forall n, NoDup l ->
  take n (filter (fun x => x <> h) (take (S n) l)) = take n (filter (fun x => x <> h) l).
Proof.
  induction l as [|x l IH]; intros n Hnd; [done|]. apply NoDup_cons in Hnd as [Hx Hnd].
  cbn [firstn]. rewrite !filter_cons. case_decide as Hh.
  - destruct n as [|n]; [done|]. cbn [firstn]. f_equal. by apply IH.
  - destruct (decide (x = h)) as [->|]; [|done].
    rewrite (filter_absent h l) by done. rewrite filter_absent.
    + by rewrite take_take, Nat.min_id.
    + intros Hin. apply Hx. apply elem_of_take in Hin as (i & Hi & _). by eapply list_elem_of_lookup_2.
Qed.

Lemma fold_read_spec rs :
  let st := foldl fold_read (empty_fold, []) rs in
  fold_ok st.1 /\ fHashes st.1 = take ManifestFoldDepth (recency (Manifest_Hash <$> st.2))
  /\ Fold_Manifest st.1 = default empty_manifest (last st.2).
Proof.
  induction rs as [|r rs IH] using rev_ind.
  { split_and!; [|done|done]. split; [done|constructor|cbn; lia]. }
  rewrite foldl_app. cbn [foldl]. destruct (foldl fold_read _ rs) as [f ms]. destruct IH as (Hf & Hh & Hm).
  cbn [fst snd] in *. unfold fold_read. cbn [fst snd]. pose proof (Fold_Apply_ok f r Hf) as Ha.
  destruct (Fold_Apply f r) as [f' [e|]]; [by subst|]. destruct Ha as (m & Hf' & Hm' & E). cbn [fst snd].
  split_and!; [done| |by rewrite last_snoc].
  destruct (push_spec f m Hf) as (_ & _ & Hp). rewrite <- E in Hp.
  rewrite Hp, Hh, Hm', fmap_app. cbn [fmap list_fmap]. rewrite recency_snoc.
  change ManifestFoldDepth with (S 7). cbn [firstn]. f_equal. apply (take_filter_take _ _ 7), recency_NoDup.
Qed.

(** ** The hashed text is unambiguous *)

Definition no_byte (c : ascii) (s : bytes) : Prop := c ∉ s.
Definition NL : ascii := ascii_of_N 10.

(** An entry as a block records it: a scope and a name, a hash of one word,
    and a reason of one line. *)
Definition plain_entry (e : ManifestEntry) : Prop :=
  ValidName (meScope e) = true /\ ValidName (meName e) = true
  /\ " "%char ∉ meHash e /\ NL ∉ meHash e /\ NL ∉ meReason e.

(** Every entry plain, and a reason on the omitted ones alone. *)
Definition plain_manifest (m : Manifest) : Prop :=
  Forall (fun e => plain_entry e /\ meReason e = []) (mEntries m) /\ Forall plain_entry (mOmitted m).

(** The lines of the text, before the line feed. *)
Inductive item := Held (e : ManifestEntry) | Left (e : ManifestEntry) | Block.

Definition items (m : Manifest) : list item :=
  (Held <$> mEntries m) ++ (Left <$> mOmitted m) ++ (if mLeftOut m then [Block] else []).

Definition entry_body (e : ManifestEntry) (rest : bytes) : bytes :=
  meScope e ++ "/"%char :: meName e ++ " "%char :: meHash e ++ " "%char :: Itoa (meBytes e) ++ rest.

Definition item_text (i : item) : bytes :=
  match i with
  | Held e => "+"%char :: " "%char :: entry_body e []
  | Left e => "-"%char :: " "%char :: entry_body e (" "%char :: meReason e)
  | Block => bs "x block"
  end.

Definition item_ok (i : item) : Prop :=
  match i with
  | Held e => plain_entry e /\ meReason e = []
  | Left e => plain_entry e
  | Block => True
  end.

Lemma manifest_text_items m : manifest_text m = concat ((fun i => item_text i ++ nl) <$> items m).
Proof.
  unfold manifest_text, items. rewrite !fmap_app, !concat_app, <- !list_fmap_compose. f_equal; [|f_equal].
  - f_equal. apply list_fmap_ext. intros i e _. unfold entry_line. cbn. unfold entry_body.
    rewrite app_nil_r. repeat (rewrite <- ?app_assoc; cbn [app]). done.
  - f_equal. apply list_fmap_ext. intros i e _. unfold omit_line. cbn. unfold entry_body.
    repeat (rewrite <- ?app_assoc; cbn [app]). done.
  - by destruct (mLeftOut m).
Qed.

Lemma entry_body_inj e e' r r' :
  plain_entry e -> plain_entry e' ->
  (r = [] \/ exists t, r = " "%char :: t) ->
  (r' = [] <-> r = []) -> (r' = [] \/ exists t, r' = " "%char :: t) ->
  entry_body e r = entry_body e' r' ->
  meScope e = meScope e' /\ meName e = meName e' /\ meHash e = meHash e' /\ meBytes e = meBytes e' /\ r = r'.
Proof.
  intros (Hs & Hn & Hh & _ & _) (Hs' & Hn' & Hh' & _ & _) Hr Hrr Hr' E. unfold entry_body in E.
  apply app_sep_inj in E as [E1 E]; [|by apply ValidName_no_byte..].
  apply app_sep_inj in E as [E2 E]; [|by apply ValidName_no_byte..].
  apply app_sep_inj in E as [E3 E]; [|done..].
  assert (Hi : forall n, " "%char ∉ Itoa n).
  { intros n Hin. pose proof (Itoa_bytes n) as Hb. rewrite Forall_forall in Hb. destruct (Hb _ Hin); done. }
  assert (Eb : Itoa (meBytes e) = Itoa (meBytes e') /\ r = r').
  { destruct Hr as [->|[t ->]], Hr' as [->|[t' ->]].
    - by rewrite !app_nil_r in E.
    - by destruct Hrr as [_ Hrr]; specialize (Hrr eq_refl).
    - by destruct Hrr as [Hrr _]; specialize (Hrr eq_refl).
    - apply app_sep_inj in E as [-> ->]; [done|apply Hi..]. }
  destruct Eb as [Eb ->]. apply Itoa_inj in Eb. done.
Qed.

Lemma item_text_inj i j : item_ok i -> item_ok j -> item_text i = item_text j -> i = j.
Proof.
  intros Hi Hj E. destruct i as [e|e|], j as [e'|e'|]; cbn in E; try discriminate; [| |done].
  - injection E as E. destruct Hi as [Hi Hr], Hj as [Hj Hr'].
    apply entry_body_inj in E as (? & ? & ? & ? & _); [|done|done|by left|done|by left].
    destruct e, e'. cbn in *. congruence.
  - injection E as E. apply entry_body_inj in E as (? & ? & ? & ? & Er); [|done|done|right; eauto|done|right; eauto].
    destruct e, e'. cbn in *. congruence.
Qed.

Lemma item_no_nl i : item_ok i -> NL ∉ item_text i.
Proof.
  assert (He : forall e r, plain_entry e -> NL ∉ r -> NL ∉ entry_body e r).
  { intros e r (Hs & Hn & _ & Hh & _) Hr. unfold entry_body.
    assert (NL ∉ meScope e) by by apply ValidName_no_byte. assert (NL ∉ meName e) by by apply ValidName_no_byte.
    assert (NL ∉ Itoa (meBytes e)).
    { intros Hin. pose proof (Itoa_bytes (meBytes e)) as Hb. rewrite Forall_forall in Hb. destruct (Hb _ Hin); done. }
    repeat (rewrite elem_of_app || rewrite elem_of_cons). intros Hx.
    repeat match type of Hx with _ \/ _ => destruct Hx as [Hx|Hx] end; (contradiction || done). }
  destruct i as [e|e|]; cbn [item_ok item_text].
  - intros [Hp _] Hin. rewrite !elem_of_cons in Hin. destruct Hin as [?|[?|Hin]]; [done..|].
    revert Hin. apply He; [done|]. apply not_elem_of_nil.
  - intros Hp Hin. rewrite !elem_of_cons in Hin. destruct Hin as [?|[?|Hin]]; [done..|].
    revert Hin. apply He; [done|]. rewrite elem_of_cons. destruct Hp as (_ & _ & _ & _ & Hr). intros [?|?]; [done|contradiction].
  - intros _ Hin. cbn in Hin. rewrite !elem_of_cons in Hin.
    repeat match type of Hin with _ \/ _ => destruct Hin as [?|Hin]; [done|] end. by apply not_elem_of_nil in Hin.
Qed.

Lemma lines_inj l : forall l', Forall item_ok l -> Forall item_ok l' ->
  concat ((fun i => item_text i ++ nl) <$> l) = concat ((fun i => item_text i ++ nl) <$> l') -> l = l'.
Proof.
  induction l as [|i l IH]; intros [|j l'] Hl Hl' E; cbn [fmap list_fmap concat] in E; [done|..].
  - rewrite <- app_assoc in E. by destruct (item_text j).
  - rewrite <- app_assoc in E. by destruct (item_text i).
  - inversion Hl; inversion Hl'; subst. rewrite <- !app_assoc in E. cbn [app nl] in E.
    apply app_sep_inj in E as [E1 E2]; [|by apply item_no_nl..].
    f_equal; [by apply item_text_inj|by apply IH].
Qed.

Lemma items_ok m : plain_manifest m -> Forall item_ok (items m).
Proof.
  intros [He Ho]. unfold items. rewrite !Forall_app, !Forall_fmap. split_and!; [done|done|].
  by destruct (mLeftOut m); repeat constructor.
Qed.

Lemma items_inj m m' : items m = items m' -> m = m'.
Proof.
  assert (Hi : forall m, omap (fun i => match i with Held e => Some e | _ => None end) (items m) = mEntries m
    /\ omap (fun i => match i with Left e => Some e | _ => None end) (items m) = mOmitted m
    /\ existsb (fun i => match i with Block => true | _ => false end) (items m) = mLeftOut m).
  { intros [es os b]. unfold items. cbn. rewrite !omap_app, !existsb_app. split_and!.
    - induction es as [|e es IH]; cbn; [|by f_equal]. induction os as [|o os IH]; cbn; [by destruct b|done].
    - induction es as [|e es IH]; cbn; [|done]. induction os as [|o os IH]; cbn; [by destruct b|by f_equal].
    - induction es as [|e es IH]; cbn; [|done]. induction os as [|o os IH]; cbn; [by destruct b|done]. }
  intros E. destruct (Hi m) as (H1 & H2 & H3), (Hi m') as (H1' & H2' & H3'). rewrite E in *.
  destruct m, m'. cbn in *. congruence.
Qed.

(** ** Claims *)

Definition demo_entry (n c : string) (r : bytes) : ManifestEntry :=
  MkManifestEntry (bs "user") (bs n) (Hash (bs c)) (blen (bs c)) r.

(** Three entries, and the same after a write to the second that left the
    third no room. *)
Definition demo_before : Manifest :=
  MkManifest [demo_entry "a" "x" []; demo_entry "b" "y" []; demo_entry "c" "z" []] [] false.
Definition demo_after : Manifest :=
  MkManifest [demo_entry "a" "x" []; demo_entry "b" "yy" []] [demo_entry "c" "z" OmitBudget] false.

Lemma demo_after_carried : carried_manifest demo_after.
Proof. split; repeat apply Forall_cons_2; try apply Forall_nil_2; by split; vm_compute. Qed.

Lemma demo_before_int : int_manifest demo_before.
Proof. by split; vm_compute. Qed.

(** C17: A record written on the manifest in force is read back: the bytes
    [RecordSince] hands over, decoded as JSON and folded onto the manifest
    they are based on, give the manifest that was recorded, whole or as a
    delta, whatever moved, was added, removed or reordered between the two.
    It asks of the manifest recorded that every entry has a scope and a
    name, that its texts are valid UTF-8 and its sizes ints, and of the one
    in force that its lists are no longer than an int says.  A delta is
    written only when it is the smaller, so no record is larger than the
    whole one. *)
Theorem RecordSince_roundtrip m prev :
  carried_manifest m -> int_manifest prev ->
  ApplyManifestRecord prev (RecordSince m prev).2 = Ok m
  /\ blen (RecordSince m prev).2 <= blen (Manifest_Record m).2.
Proof.
  intros Hm Hp. split; [|apply RecordSince_no_larger].
  destruct (RecordSince_stands m prev Hm Hp) as [E|(d & E & Hb & _ & Ha)]; unfold ApplyManifestRecord; rewrite E; cbn.
  - done.
  - by rewrite bool_decide_eq_true_2.
Qed.

(** The delta written here is one keep and two whole entries. *)
Lemma RecordSince_roundtrip_witness :
  ApplyManifestRecord demo_before (RecordSince demo_after demo_before).2 = Ok demo_after.
Proof. apply (RecordSince_roundtrip demo_after demo_before); [exact demo_after_carried|exact demo_before_int]. Defined.

(** Text that is no UTF-8 is not read back as it was. *)
Example invalid_text_ex :
  let m := MkManifest [MkManifestEntry (bs "user") [ascii_of_N 255] (bs "h") 1 []] [] false in
  ApplyManifestRecord empty_manifest (Manifest_Record m).2
  = Ok (MkManifest [MkManifestEntry (bs "user") replacement (bs "h") 1 []] [] false).
Proof. by vm_compute. Qed.

(** What a reader of a session's records holds. After any records, good
    or bad, the manifest in force is the last that was accepted, the empty
    one before any, a refused record having changed nothing, and the bases a
    delta may name are exactly the hashes of the last eight distinct
    manifests that were in force, most recent first. *)
Theorem Fold_holds_last_distinct rs r :
  let (f, ms) := foldl fold_read (empty_fold, []) rs in
  Fold_Manifest f = default empty_manifest (last ms)
  /\ fHashes f = take 8 (recency (Manifest_Hash <$> ms))
  /\ fHashes f = Manifest_Hash <$> fRecent f
  /\ ((Fold_Apply f r).2 <> None -> (Fold_Apply f r).1 = f).
Proof.
  pose proof (fold_read_spec rs) as H. destruct (foldl fold_read (empty_fold, []) rs) as [f ms].
  destruct H as (Hf & Hh & Hm). cbn [fst snd] in *. split_and!; [done|done|apply Hf|].
  pose proof (Fold_Apply_ok f r Hf) as Ha. by destruct (Fold_Apply f r) as [f' [e|]]; cbn.
Qed.

(** A writer that records with [ManifestFold.Record] is always read:
    for any records folded so far, the record it writes is accepted by every
    reader that folded the same ones, which then holds the manifest written;
    and it is no larger than the whole record or a delta on any manifest the
    fold holds, such as an agent's own last one among another agent's. *)
Theorem Fold_Record_resolves rs m :
  let f := (foldl fold_read (empty_fold, []) rs).1 in
  carried_manifest m -> Forall int_manifest (fRecent f) ->
  (Fold_Apply f (Fold_Record f m).2).2 = None
  /\ Fold_Manifest (Fold_Apply f (Fold_Record f m).2).1 = m
  /\ blen (Fold_Record f m).2 <= blen (Manifest_Record m).2
  /\ forall prev, prev ∈ fRecent f ->
       blen (Fold_Record f m).2 <= blen (RecordSince m prev).2
       /\ (Fold_Apply f (RecordSince m prev).2).2 = None
       /\ Fold_Manifest (Fold_Apply f (RecordSince m prev).2).1 = m.
Proof.
  intros f Hm Hz. rewrite Forall_forall in Hz. destruct (fold_read_spec rs) as (Hf & _). fold f in Hf.
  destruct (push_spec f m Hf) as (_ & Hp & _). destruct (Fold_Record_smallest f m) as [Hs1 Hs2].
  assert (Hs : forall prev, prev ∈ fRecent f ->
    Fold_Apply f (RecordSince m prev).2 = (push f m (Manifest_Hash m), None)).
  { intros prev Hin. apply (Fold_Apply_stands f m prev); auto using RecordSince_stands. }
  assert (Hr : Fold_Apply f (Fold_Record f m).2 = (push f m (Manifest_Hash m), None)).
  { destruct (Fold_Record_cases f m) as [->|(prev & Hin & ->)]; [|by apply Hs].
    unfold Fold_Apply, Manifest_Record. cbn [snd]. by rewrite parse_whole. }
  rewrite Hr. split_and!; [done|done|done|]. intros prev Hin. rewrite Hs by done. auto.
Qed.

Lemma Fold_Record_resolves_witness :
  let f := (foldl fold_read (empty_fold, []) [(Manifest_Record demo_before).2]).1 in
  (Fold_Apply f (Fold_Record f demo_after).2).2 = None
  /\ Fold_Manifest (Fold_Apply f (Fold_Record f demo_after).2).1 = demo_after.
Proof.
  intros f.
  assert (Hz : Forall int_manifest (fRecent f)).
  { assert (fRecent f = [demo_before]) as -> by by vm_compute. apply Forall_singleton. exact demo_before_int. }
  pose proof (Fold_Record_resolves [(Manifest_Record demo_before).2] demo_after demo_after_carried Hz) as (H1 & H2 & _).
  split; [exact H1|exact H2].
Defined.

(** The manifest's hash is its identity: two manifests as renders
    write them, scopes and names kebab-case, hashes one word, reasons one
    line and on omitted entries alone, hash the same only if they are the
    same, entries, omissions, their order, sizes and reasons, and whether
    the block was left out; or else the two texts are a SHA-256 collision. *)
Theorem Manifest_Hash_unambiguous m m' :
  plain_manifest m -> plain_manifest m' -> Manifest_Hash m = Manifest_Hash m' ->
  m = m' \/ Collision (manifest_text m) (manifest_text m').
Proof.
  intros Hm Hm' E. destruct (decide (manifest_text m = manifest_text m')) as [Ht|Ht]; [left|by right].
  rewrite !manifest_text_items in Ht. apply items_inj, lines_inj; [by apply items_ok..|done].
Qed.

(** A shown and a left out block over the same store do not hash alike. *)
Lemma Manifest_Hash_unambiguous_witness :
  let m := demo_after in
  (plain_manifest m /\ Manifest_Hash m = Manifest_Hash (MkManifest (mEntries m) (mOmitted m) false))
  /\ (m = MkManifest (mEntries m) (mOmitted m) false
      \/ Collision (manifest_text m) (manifest_text (MkManifest (mEntries m) (mOmitted m) false))).
Proof.
  intros m.
  assert (Hm : plain_manifest m).
  { split; repeat constructor; try (by vm_compute); apply (bool_decide_unpack _); vm_compute; exact I. }
  split; [by split|]. by apply (Manifest_Hash_unambiguous m).
Defined.
