(* ===== verification/Render.v ===== *)
(** * The in-context block: render.go

    [RenderParts] packs a store's entries into a block of bounded size and
    reports in the block's last line what it cost.  Over any store with the
    contract's laws. *)

From S2P Require Import Prelude GoStd Sha256 Memory Store MemStore Contract Neutralise Manifest.

Definition DefaultMaxTotalBytes : Z := Z.shiftl 32 10.

Definition PartSeparator : bytes := [LF; LF].
Definition title : bytes := bs "# Memory".
Definition noEntries : bytes := bs "No entries.".
Definition omitHead : bytes := bs "Not shown, over the block budget; fetch with memory_search: ".
Definition omitCount (n : Z) : bytes := bs "Not shown, over the block budget: " ++ Itoa n ++ bs " entries.".
Definition moreTail (n : Z) : bytes := bs ", and " ++ Itoa n ++ bs " more".

Definition cost (text : bytes) : Z := blen PartSeparator + blen text.

Definition scopeText (scope : bytes) (empty : bool) : bytes :=
  if empty then bs "## " ++ scope ++ PartSeparator ++ noEntries else bs "## " ++ scope.

(** [%*d]: the number, padded with spaces on the left to the width. *)
Definition pad (width : Z) (n : Z) : bytes :=
  repeat " "%char (Z.to_nat (width - blen (Itoa n))) ++ Itoa n.

Definition summary (shown omitted size free max limit : Z) : bytes :=
  bs "Entries: " ++ Itoa shown ++ bs " shown, " ++ Itoa omitted ++ bs " omitted. Block: " ++ Itoa size
  ++ bs " of " ++ Itoa max ++ bs " bytes (" ++ pad (blen (Itoa max)) free ++ bs " free). Entry limit: "
  ++ Itoa limit ++ bs " bytes.".

(** [strings.NewReplacer] for the two line ends. *)
Definition one_line_text (d : bytes) : bytes :=
  (fun c => if is_char CR c || is_char LF c then " "%char else c) <$> d.

(** The heading line of an entry's part. *)
Definition entryHead (e : Entry) (limit : Z) : bytes :=
  bs "### " ++ eName e ++ bs " (" ++ Itoa (Size e) ++ bs " of " ++ Itoa limit ++ bs " bytes)"
  ++ (if bool_decide (Description e = []) then [] else bs " — " ++ one_line_text (Description e)).

Definition entryText (e : Entry) (limit : Z) : bytes :=
  entryHead e limit ++ PartSeparator ++ neutralise (TrimSuffix (eContent e) [LF]).

(** ** Packing *)

Fixpoint pack_loop (es : list Entry) (limit room used : Z) : list bool * Z :=
  match es with
  | [] => ([], used)
  | e :: es' =>
      let n := cost (entryText e limit) in
      let fits := used + n <=? room in
      let (in_, used') := pack_loop es' limit room (if fits then used + n else used) in
      (fits :: in_, used')
  end.

Definition pack (es : list Entry) (limit room : Z) : list bool * Z := pack_loop es limit room 0.

Definition all_in (in_ : list bool) : bool := forallb id in_.

Definition omitItem (e : Entry) : bytes := eName e ++ bs " (" ++ Itoa (Size e) ++ bs " bytes)".

Definition omitLineReserve (es : list Entry) : Z :=
  cost omitHead + foldl (fun item e => Z.max item (blen (omitItem e))) 0 es + blen (moreTail (blen es)).

(** The loop of [omitLine]: the names written and how many. *)
Fixpoint omit_loop (rest : list Entry) (room : Z) (b : bytes) (listed : Z) : bytes * Z :=
  match rest with
  | [] => (b, listed)
  | e :: rest' =>
      let piece := if 0 <? listed then bs ", " ++ omitItem e else omitItem e in
      let tail := if 0 <? blen rest' then blen (moreTail (blen rest')) else 0 in
      if room <? cost omitHead + blen b + blen piece + tail then (b, listed)
      else omit_loop rest' room (b ++ piece) (listed + 1)
  end.

Definition omitLine (dropped : list Entry) (room : Z) : bytes :=
  let (b, listed) := omit_loop dropped room [] 0 in
  if listed =? 0 then
    (if cost (omitCount (blen dropped)) <=? room then omitCount (blen dropped) else [])
  else omitHead ++ b ++ (if 0 <? blen dropped - listed then moreTail (blen dropped - listed) else []).

(** ** Options and parts *)

Section Render.
(** agenttool's labels, and the one it gives text no one vouches for. *)
Context {Label : Type} `{EqDecision Label} (LabelUntrusted : Label).

Record renderOptions := MkOptions {
  maxTotal : Z;
  scopeMax : gmap bytes Z;
  trust : gmap bytes (list Label)
}.

Definition RenderOption := renderOptions -> renderOptions.

Definition WithMaxTotalBytes (n : Z) : RenderOption := fun o => MkOptions n (scopeMax o) (trust o).
Definition WithScopeMaxBytes (scope : bytes) (n : Z) : RenderOption := fun o =>
  MkOptions (maxTotal o) (<[scope := n]> (scopeMax o)) (trust o).
Definition WithScopeTrust (scope : bytes) (labels : list Label) : RenderOption := fun o =>
  MkOptions (maxTotal o) (scopeMax o)
    (<[scope := foldl (fun reads l => if Contains reads l then reads else reads ++ [l]) [] labels]> (trust o)).

Definition resolve (opts : list RenderOption) : renderOptions :=
  fold_left (fun o opt => opt o) opts (MkOptions DefaultMaxTotalBytes ∅ ∅).

Definition scopeTrust (o : renderOptions) (scope : bytes) : list Label :=
  match trust o !! scope with
  | Some labels => labels
  | None => [LabelUntrusted]
  end.

Definition ownTrust : list Label := [].

Record Part := MkPart { pID : bytes; pText : bytes; pTrust : list Label }.

Definition TitlePartID : bytes := bs "memory".
Definition SummaryPartID : bytes := bs "memory:summary".
Definition PartID (scope name : bytes) : bytes := bs "memory/" ++ scope ++ bs "/" ++ name.
Definition scopePartID (scope : bytes) : bytes := bs "memory/" ++ scope.
Definition omittedPartID (scope : bytes) : bytes := bs "memory/" ++ scope ++ bs ":omitted".

Definition EntryPart (e : Entry) (bound : Z) : Part :=
  MkPart (PartID (eScope e) (eName e)) (entryText e bound) [LabelUntrusted].

Definition JoinParts (parts : list Part) : bytes := Join PartSeparator (pText <$> parts).

(** ** RenderParts *)

Definition manifest_entry (scope : bytes) (e : Entry) (reason : bytes) : ManifestEntry :=
  MkManifestEntry scope (eName e) (eHash e) (Size e) reason.

(** The variables of the loop over the scopes. *)
Record block_state := MkBlock {
  bParts : list Part;
  bEntries : list ManifestEntry;
  bOmitted : list ManifestEntry;
  bSpent : Z
}.

(** The loop over one scope's entries and its decisions: the state, and the
    entries dropped. *)
Definition place (o : renderOptions) (limit : Z) (scope : bytes) (acc : block_state * list Entry)
    (ed : Entry * bool) : block_state * list Entry :=
  let (st, dropped) := acc in
  let (e, shown) := ed in
  if shown then
    (MkBlock (bParts st ++ [MkPart (PartID scope (eName e)) (entryText e limit) (scopeTrust o scope)])
       (bEntries st ++ [manifest_entry scope e []]) (bOmitted st) (bSpent st), dropped)
  else
    (MkBlock (bParts st) (bEntries st) (bOmitted st ++ [manifest_entry scope e OmitBudget]) (bSpent st),
     dropped ++ [e]).

Definition render_scope (o : renderOptions) (limit fixed : Z) (st : block_state) (sl : bytes * list Entry)
    : block_state :=
  let (scope, es) := sl in
  let st := MkBlock (bParts st ++ [MkPart (scopePartID scope) (scopeText scope (bool_decide (es = []))) ownTrust])
              (bEntries st) (bOmitted st) (bSpent st) in
  if bool_decide (es = []) then st
  else
    let room := maxTotal o - fixed - bSpent st in
    let room := match scopeMax o !! scope with Some n => Z.min room n | None => room end in
    let (in_, used) := pack es limit room in
    let (in_, used) := if all_in in_ then (in_, used) else pack es limit (room - omitLineReserve es) in
    let (st, dropped) := foldl (place o limit scope) (st, []) (zip es in_) in
    let line := if 0 <? blen dropped then omitLine dropped (room - used) else [] in
    if bool_decide (line = []) then MkBlock (bParts st) (bEntries st) (bOmitted st) (bSpent st + used)
    else MkBlock (bParts st ++ [MkPart (omittedPartID scope) line (scopeTrust o scope)])
           (bEntries st) (bOmitted st) (bSpent st + (used + cost line)).

(** The passes that settle the summary: [rest] is the block without it. *)
Fixpoint settle (passes : nat) (rest shown left max limit size : Z) (last : bytes) : bytes :=
  match passes with
  | O => last
  | S p =>
      let last := summary shown left size (max - size) max limit in
      let n := rest + blen last in
      if n =? size then last else settle p rest shown left max limit n last
  end.

Fixpoint check_render_scopes (before scopes : list bytes) : option error :=
  match scopes with
  | [] => None
  | scope :: scopes' =>
      if negb (ValidScope scope) then Some (ErrInvalid (ScopeNotKebab scope))
      else if Contains before scope then Some (ErrInvalid (ScopeGivenTwice scope))
      else check_render_scopes (before ++ [scope]) scopes'
  end.

Fixpoint list_scopes {S} `{Store S} (s : S) (scopes : list bytes) : res error (list (bytes * list Entry)) :=
  match scopes with
  | [] => Ok []
  | scope :: scopes' =>
      let? es := List_ s scope in
      let? rest := list_scopes s scopes' in
      Ok ((scope, es) :: rest)
  end.

(** What the block holds whatever it shows. *)
Definition fixed_cost (lists : list (bytes * list Entry)) (max limit : Z) : Z :=
  let total := foldl (fun n sl => n + blen sl.2) 0 lists in
  foldl (fun fixed (sl : bytes * list Entry) => fixed + cost (scopeText sl.1 (bool_decide (sl.2 = []))))
    (blen title + cost (summary total total max max max limit)) lists.

(** The block of the lists, once the bound holds what is fixed. *)
Definition render_lists (o : renderOptions) (lists : list (bytes * list Entry)) (limit : Z) : list Part * Manifest :=
  let fixed := fixed_cost lists (maxTotal o) limit in
  let st := foldl (render_scope o limit fixed) (MkBlock [MkPart TitlePartID title ownTrust] [] [] 0) lists in
  let shown := blen (bEntries st) in
  let left := blen (bOmitted st) in
  let rest := blen (JoinParts (bParts st)) + blen PartSeparator in
  let last := settle 8 rest shown left (maxTotal o) limit (fixed + bSpent st) [] in
  (bParts st ++ [MkPart SummaryPartID last ownTrust], MkManifest (bEntries st) (bOmitted st) false).

Definition RenderParts {S} `{Store S} (s : S) (scopes : list bytes) (opts : list RenderOption)
    : res error (list Part * Manifest) :=
  let o := resolve opts in
  if maxTotal o <? 1 then Err (ErrBudget (maxTotal o))
  else check? List.find (fun sn : bytes * Z => sn.2 <? 0) (map_to_list (scopeMax o))
              ≫= (fun sn => Some (ErrBudget sn.2)) in
  check? check_render_scopes [] scopes in
  let limit := MaxEntryBytes s in
  let? lists := list_scopes s scopes in
  let fixed := fixed_cost lists (maxTotal o) limit in
  if maxTotal o <? fixed then Err (ErrBudget (maxTotal o))
  else Ok (render_lists o lists limit).

Definition Render {S} `{Store S} (s : S) (scopes : list bytes) (opts : list RenderOption)
    : res error (bytes * Manifest) :=
  let? pm := RenderParts s scopes opts in Ok (JoinParts pm.1, pm.2).
End Render.

(** ** testdata/render/scope-cap: a cap on the first of two scopes *)

Definition vector_entry (scope name : bytes) (c : ascii) (n : nat) : Entry :=
  MkEntry scope name (repeat c n ++ [LF]) None [] [] 0 false.

Definition scope_cap_lists : list (bytes * list Entry) :=
  [(bs "environment", [vector_entry (bs "environment") (bs "environment-00") "a" 59;
      vector_entry (bs "environment") (bs "environment-01") "b" 59;
      vector_entry (bs "environment") (bs "environment-02") "c" 59;
      vector_entry (bs "environment") (bs "environment-03") "d" 59;
      vector_entry (bs "environment") (bs "environment-04") "e" 59;
      vector_entry (bs "environment") (bs "environment-05") "f" 59;
      vector_entry (bs "environment") (bs "environment-06") "g" 59;
      vector_entry (bs "environment") (bs "environment-07") "h" 59]);
   (bs "user", [vector_entry (bs "user") (bs "user-00") "a" 39; vector_entry (bs "user") (bs "user-01") "b" 39])].

Example render_scope_cap :
  let opts := [WithMaxTotalBytes 1000; WithScopeMaxBytes (bs "environment") 400] in
  let (parts, man) := render_lists tt (resolve opts) scope_cap_lists 256 in
  drop 5 (pText <$> parts)
  = [bs "Not shown, over the block budget; fetch with memory_search: environment-03 (60 bytes), and 4 more";
     bs "## user";
     bs "### user-00 (40 of 256 bytes)" ++ PartSeparator ++ repeat "a"%char 39;
     bs "### user-01 (40 of 256 bytes)" ++ PartSeparator ++ repeat "b"%char 39;
     bs "Entries: 5 shown, 5 omitted. Block: 665 of 1000 bytes ( 335 free). Entry limit: 256 bytes."]
  /\ blen (JoinParts parts) = 665 /\ blen (mEntries man) = 5.
Proof. vm_compute. auto. Qed.

(** ** Widths of numbers *)

Definition width (n : Z) : Z := blen (Itoa n).

Lemma digits_length_mono f g : forall a b, 0 <= a <= b -> Z.log2 a < Z.of_nat f -> Z.log2 b < Z.of_nat g ->
  (length (digits f a) <= length (digits g b))%nat.
Proof.
  revert g. induction f as [|f IH]; intros [|g] a b Hab Ha Hb;
    try (pose proof (Z.log2_nonneg a); pose proof (Z.log2_nonneg b); lia).
  cbn [digits]. destruct (Z.ltb_spec a 10), (Z.ltb_spec b 10); cbn [length]; rewrite ?length_app; cbn [length]; try lia.
  pose proof (log2_div10 a ltac:(lia)). pose proof (log2_div10 b ltac:(lia)).
  pose proof (Z.div_le_mono a b 10 ltac:(lia) ltac:(lia)). pose proof (Z.div_pos a 10 ltac:(lia) ltac:(lia)).
  specialize (IH g (a / 10) (b / 10)). lia.
Qed.

Lemma log2_fuel n : Z.log2 n < Z.of_nat (S (Z.to_nat (Z.log2 n))).
Proof. pose proof (Z.log2_nonneg n). lia. Qed.

Lemma width_digits n f : 0 <= n -> Z.log2 n < Z.of_nat f -> width n = Z.of_nat (length (digits f n)).
Proof.
  intros Hn Hf. unfold width, Itoa, blen. destruct (Z.ltb_spec n 0); [lia|]. cbn [app].
  rewrite Z.abs_eq by done. pose proof (log2_fuel n) as Hl. f_equal. apply Nat.le_antisymm; apply digits_length_mono; lia.
Qed.

Lemma width_mono a b : 0 <= a <= b -> width a <= width b.
Proof.
  intros H. rewrite (width_digits a (S (Z.to_nat (Z.log2 a)))), (width_digits b (S (Z.to_nat (Z.log2 b)))) by (lia || apply log2_fuel).
  pose proof (digits_length_mono _ _ a b H (log2_fuel a) (log2_fuel b)). lia.
Qed.

Lemma width_pos n : 0 <= n -> 1 <= width n.
Proof. intros H. unfold width, blen. destruct (Itoa_nonneg n H) as (_ & Hne & _). destruct (Itoa n); [done|]. cbn [length]. lia. Qed.

Lemma width_ten n : 1 <= n -> width (10 * n) = width n + 1.
Proof.
  intros H. pose proof (log2_div10 (10 * n) ltac:(lia)) as Hl.
  replace (10 * n / 10) with n in Hl by (rewrite Z.mul_comm, Z.div_mul; lia).
  rewrite (width_digits n (Z.to_nat (Z.log2 (10 * n)))) by lia.
  rewrite (width_digits (10 * n) (S (Z.to_nat (Z.log2 (10 * n))))) by lia.
  cbn [digits]. destruct (Z.ltb_spec (10 * n) 10); [lia|].
  replace (10 * n / 10) with n by (rewrite Z.mul_comm, Z.div_mul; lia). rewrite length_app. cbn [length]. lia.
Qed.

Lemma width_near a b : 1 <= a <= b -> b <= 10 * a -> width b <= width a + 1.
Proof. intros H1 H2. rewrite <- width_ten by lia. apply width_mono. lia. Qed.

Lemma width_int64 n : 0 <= n < 2 ^ 63 -> width n <= 19.
Proof.
  intros H. etransitivity; [apply (width_mono n (2 ^ 63 - 1)); lia|]. by vm_compute.
Qed.

(** The number is written as wide as the bound, when it is not over it. *)
Lemma pad_width max n : 0 <= n <= max -> blen (pad (width max) n) = width max.
Proof.
  intros H. unfold pad, blen. rewrite length_app, repeat_length. pose proof (width_mono n max H).
  fold (blen (Itoa n)). fold (width n). unfold width, blen in *. lia.
Qed.

(** ** Packing stays inside its room *)

Definition entry_cost (limit : Z) (e : Entry) : Z := cost (entryText e limit).

Definition sum_on {A} (f : A -> Z) (l : list A) : Z := foldr (fun x n => f x + n) 0 l.

Lemma sum_on_app {A} (f : A -> Z) l k : sum_on f (l ++ k) = sum_on f l + sum_on f k.
Proof. induction l as [|x l IH]; cbn; [done|]. unfold sum_on in *. cbn. lia. Qed.

Lemma sum_on_cons {A} (f : A -> Z) x l : sum_on f (x :: l) = f x + sum_on f l.
Proof. done. Qed.

Lemma foldl_sum {A} (f : A -> Z) l : forall n, foldl (fun n x => n + f x) n l = n + sum_on f l.
Proof. induction l as [|x l IH]; intros n; cbn [foldl]; [cbn; lia|]. rewrite IH, sum_on_cons. lia. Qed.

Lemma sum_on_nonneg {A} (f : A -> Z) l : (forall x, 0 <= f x) -> 0 <= sum_on f l.
Proof. intros H. induction l as [|x l IH]; [done|]. rewrite sum_on_cons. specialize (H x). lia. Qed.

Lemma cost_pos t : 2 <= cost t.
Proof. unfold cost. pose proof (blen_nonneg t). change (blen PartSeparator) with 2. lia. Qed.

Lemma entry_cost_nonneg limit e : 0 <= entry_cost limit e.
Proof. pose proof (cost_pos (entryText e limit)). unfold entry_cost. lia. Qed.

(** The entries shown, and those left out, by the decisions. *)
Definition chosen {A} (b : bool) (l : list (A * bool)) : list A := (filter (fun x => x.2 = b) l).*1.

Lemma chosen_cons {A} b (x : A) d l : chosen b ((x, d) :: l) = if Bool.eqb d b then x :: chosen b l else chosen b l.
Proof. unfold chosen. rewrite filter_cons. cbn. destruct d, b; done. Qed.

Lemma pack_loop_spec es limit room : forall used,
  let (in_, used') := pack_loop es limit room used in
  length in_ = length es
  /\ used' = used + sum_on (entry_cost limit) (chosen true (zip es in_))
  /\ (used' = used \/ used' <= room)
  /\ (used + sum_on (entry_cost limit) es <= room -> Forall (fun b => b = true) in_)
  /\ (Forall (fun b => b = true) in_ -> used' = used + sum_on (entry_cost limit) es).
Proof.
  induction es as [|e es IH]; intros used; cbn [pack_loop].
  { split_and!; [done|cbn; lia|by left|constructor|cbn; lia]. }
  fold (entry_cost limit e). set (n := entry_cost limit e).
  set (fits := used + n <=? room). specialize (IH (if fits then used + n else used)).
  destruct (pack_loop es limit room _) as [in_ used']. destruct IH as (Hl & Hu & Hr & Hf & Ha).
  pose proof (entry_cost_nonneg limit e) as Hn. fold n in Hn.
  pose proof (sum_on_nonneg (entry_cost limit) es (entry_cost_nonneg limit)) as Hs.
  pose proof (sum_on_nonneg (entry_cost limit) (chosen true (zip es in_)) (entry_cost_nonneg limit)) as Hs'.
  cbn [zip zip_with length]. rewrite chosen_cons, sum_on_cons. fold n.
  destruct fits eqn:Ef; unfold fits in Ef; bool_hyps; cbn [Bool.eqb].
  - rewrite sum_on_cons. fold n. split_and!; [lia|lia|lia| |].
    + intros H. constructor; [done|]. apply Hf. lia.
    + intros H. inversion H; subst. rewrite Ha by done. lia.
  - split_and!; [lia|lia|lia|lia|]. intros H. by inversion H.
Qed.

Lemma all_in_true in_ : all_in in_ = true <-> Forall (fun b => b = true) in_.
Proof. unfold all_in. rewrite forallb_forall, Forall_forall. setoid_rewrite list_elem_of_In. done. Qed.

Lemma pack_spec es limit room : 0 <= room ->
  let (in_, used) := pack es limit room in
  length in_ = length es /\ used = sum_on (entry_cost limit) (chosen true (zip es in_)) /\ 0 <= used <= room
  /\ (sum_on (entry_cost limit) es <= room -> all_in in_ = true)
  /\ (all_in in_ = true -> used = sum_on (entry_cost limit) es).
Proof.
  intros Hr. unfold pack. pose proof (pack_loop_spec es limit room 0) as H.
  destruct (pack_loop es limit room 0) as [in_ used]. destruct H as (Hl & Hu & Hb & Hf & Ha).
  pose proof (sum_on_nonneg (entry_cost limit) (chosen true (zip es in_)) (entry_cost_nonneg limit)).
  rewrite all_in_true. split_and!; [done|lia|lia|lia|intros; apply Hf; lia|].
  intros Hi. rewrite (Ha Hi). lia.
Qed.

(** With less than no room nothing is shown. *)
Lemma pack_spec_any es limit room bound : 0 <= bound -> room <= bound ->
  let (in_, used) := pack es limit room in
  length in_ = length es /\ used = sum_on (entry_cost limit) (chosen true (zip es in_)) /\ 0 <= used <= bound
  /\ (all_in in_ = true -> used = sum_on (entry_cost limit) es).
Proof.
  intros Hb Hr. unfold pack. pose proof (pack_loop_spec es limit room 0) as H.
  destruct (pack_loop es limit room 0) as [in_ used]. destruct H as (Hl & Hu & Hc & _ & Ha).
  pose proof (sum_on_nonneg (entry_cost limit) (chosen true (zip es in_)) (entry_cost_nonneg limit)).
  rewrite all_in_true. split_and!; [done|lia|lia|lia|]. intros Hi. rewrite (Ha Hi). lia.
Qed.

(** ** The line naming the omissions *)

Definition omit_tail (n : Z) : bytes := if 0 <? n then moreTail n else [].

Lemma omit_loop_spec rest room : forall b listed,
  0 <= listed -> (0 < listed -> cost omitHead + blen b + blen (omit_tail (blen rest)) <= room) ->
  let (b', listed') := omit_loop rest room b listed in
  listed <= listed' <= listed + blen rest
  /\ (0 < listed' -> cost omitHead + blen b' + blen (omit_tail (listed + blen rest - listed')) <= room).
Proof.
  induction rest as [|e rest IH]; intros b listed Hl Hb; cbn [omit_loop].
  { rewrite blen_nil. split; [lia|]. replace (listed + 0 - listed) with 0 by lia. exact Hb. }
  set (piece := if 0 <? listed then _ else _). set (tail := if 0 <? blen rest then _ else _).
  assert (Ht : tail = blen (omit_tail (blen rest))).
  { unfold tail, omit_tail. by destruct (0 <? blen rest). }
  rewrite blen_cons. pose proof (blen_nonneg rest).
  destruct (Z.ltb_spec room (cost omitHead + blen b + blen piece + tail)) as [Hlt|Hge].
  - split; [lia|]. replace (listed + (1 + blen rest) - listed) with (1 + blen rest) by lia. rewrite <- (blen_cons e rest). exact Hb.
  - specialize (IH (b ++ piece) (listed + 1) ltac:(lia)). rewrite blen_app in IH.
    assert (Hi : 0 < listed + 1 -> cost omitHead + (blen b + blen piece) + blen (omit_tail (blen rest)) <= room) by lia.
    specialize (IH Hi). destruct (omit_loop rest room (b ++ piece) (listed + 1)) as [b' listed']. destruct IH as [IH1 IH2].
    split; [lia|]. intros Hp. specialize (IH2 Hp). by replace (listed + (1 + blen rest) - listed') with (listed + 1 + blen rest - listed') by lia.
Qed.

Lemma omitLine_fits dropped room : omitLine dropped room <> [] -> cost (omitLine dropped room) <= room.
Proof.
  unfold omitLine. pose proof (omit_loop_spec dropped room [] 0 ltac:(lia) ltac:(lia)) as H.
  destruct (omit_loop dropped room [] 0) as [b listed]. destruct H as [H1 H2].
  destruct (Z.eqb_spec listed 0) as [E|E].
  - destruct (Z.leb_spec (cost (omitCount (blen dropped))) room); [done|by intros []].
  - intros _. specialize (H2 ltac:(lia)). rewrite Z.add_0_l in H2. unfold omit_tail in H2.
    unfold cost in *. rewrite !blen_app. lia.
Qed.

(** ** What one scope adds *)

Section Blocks.
Context {Label : Type} `{EqDecision Label} (LabelUntrusted : Label).
Implicit Types (o : @renderOptions Label) (st : @block_state Label).

Definition entry_part o (limit : Z) (scope : bytes) (e : Entry) : @Part Label :=
  MkPart (PartID scope (eName e)) (entryText e limit) (scopeTrust LabelUntrusted o scope).

Definition line_part o (scope line : bytes) : list (@Part Label) :=
  match line with
  | [] => []
  | _ => [MkPart (omittedPartID scope) line (scopeTrust LabelUntrusted o scope)]
  end.

Definition line_cost (line : bytes) : Z := match line with [] => 0 | _ => cost line end.

Lemma place_spec o limit scope l : forall st dropped,
  foldl (place LabelUntrusted o limit scope) (st, dropped) l
  = (MkBlock (bParts st ++ (entry_part o limit scope <$> chosen true l))
       (bEntries st ++ ((fun e => manifest_entry scope e []) <$> chosen true l))
       (bOmitted st ++ ((fun e => manifest_entry scope e OmitBudget) <$> chosen false l)) (bSpent st),
     dropped ++ chosen false l).
Proof.
  induction l as [|[e d] l IH]; intros st dropped.
  { cbn. rewrite !app_nil_r. by destruct st. }
  cbn [foldl]. rewrite !chosen_cons. destruct d; cbn [place Bool.eqb]; rewrite IH; cbn [bParts bEntries bOmitted bSpent];
    cbn [fmap list_fmap]; rewrite <- !app_assoc; done.
Qed.

(** The room a scope packs against. *)
Definition scope_room o (fixed : Z) st (scope : bytes) : Z :=
  match scopeMax o !! scope with
  | Some n => Z.min (maxTotal o - fixed - bSpent st) n
  | None => maxTotal o - fixed - bSpent st
  end.

(** What [render_scope] adds for the decisions [in_]: the heading, a part for
    each entry shown and the line naming the rest, inside the room, and all
    of them when all fit. *)
Record scope_added o (limit fixed : Z) st (scope : bytes) (es : list Entry) st' (in_ : list bool) (line : bytes) : Prop := {
  sa_length : length in_ = length es;
  sa_parts : bParts st' = bParts st
    ++ MkPart (scopePartID scope) (scopeText scope (bool_decide (es = []))) ownTrust
       :: (entry_part o limit scope <$> chosen true (zip es in_)) ++ line_part o scope line;
  sa_entries : bEntries st' = bEntries st ++ ((fun e => manifest_entry scope e []) <$> chosen true (zip es in_));
  sa_omitted : bOmitted st' = bOmitted st ++ ((fun e => manifest_entry scope e OmitBudget) <$> chosen false (zip es in_));
  sa_spent : bSpent st' = bSpent st + sum_on (entry_cost limit) (chosen true (zip es in_)) + line_cost line;
  sa_room : bSpent st <= bSpent st' <= bSpent st + scope_room o fixed st scope;
  sa_line : chosen false (zip es in_) = [] -> line = [];
  sa_text : line = [] \/ exists room, line = omitLine (chosen false (zip es in_)) room;
  sa_all : sum_on (entry_cost limit) es <= scope_room o fixed st scope -> chosen false (zip es in_) = []
}.

Lemma chosen_all {A} (l : list A) in_ : Forall (fun b => b = true) in_ -> chosen false (zip l in_) = [].
Proof.
  intros H. revert l. induction H as [|b in_ -> _ IH]; intros [|x l]; try done.
  cbn [zip zip_with]. rewrite chosen_cons. apply IH.
Qed.

(** The pass that settles what is shown: the second, when the first leaves
    something out. *)
Lemma settled_pack es limit room reserve : 0 <= room -> 0 <= reserve ->
  let (in0, used0) := pack es limit room in
  let (in_, used) := if all_in in0 then (in0, used0) else pack es limit (room - reserve) in
  length in_ = length es /\ used = sum_on (entry_cost limit) (chosen true (zip es in_)) /\ 0 <= used <= room
  /\ (sum_on (entry_cost limit) es <= room -> chosen false (zip es in_) = []).
Proof.
  intros Hr Hs. pose proof (pack_spec es limit room Hr) as H. destruct (pack es limit room) as [in0 used0].
  destruct H as (Hl & Hu & Hb & Hf & _). destruct (all_in in0) eqn:Ea.
  - split_and!; [done|done|lia|lia|]. intros _. apply chosen_all. by apply all_in_true.
  - pose proof (pack_spec_any es limit (room - reserve) room Hr ltac:(lia)) as H.
    destruct (pack es limit (room - reserve)) as [in1 used1]. destruct H as (Hl1 & Hu1 & Hb1 & _).
    split_and!; [done|done|lia|lia|]. intros Hfit. specialize (Hf Hfit). congruence.
Qed.

Lemma omitLineReserve_nonneg es : 0 <= omitLineReserve es.
Proof.
  unfold omitLineReserve. pose proof (cost_pos omitHead). pose proof (blen_nonneg (moreTail (blen es))).
  assert (forall l n, 0 <= n -> 0 <= foldl (fun item e => Z.max item (blen (omitItem e))) n l).
  { induction l as [|e l IH]; intros n Hn; cbn [foldl]; [done|]. apply IH. lia. }
  specialize (H1 es 0 ltac:(lia)). lia.
Qed.

Lemma render_scope_added o limit fixed st scope es :
  0 <= scope_room o fixed st scope ->
  exists in_ line, scope_added o limit fixed st scope es (render_scope LabelUntrusted o limit fixed st (scope, es)) in_ line.
Proof.
  intros Hroom. unfold render_scope. cbn [bParts bEntries bOmitted bSpent]. destruct es as [|e0 es0].
  { exists [], []. rewrite bool_decide_eq_true_2 by done.
    split; cbn; rewrite ?app_nil_r; try done; try lia; by left. }
  set (es := e0 :: es0). rewrite (bool_decide_eq_false_2 (es = [])) by done.
  fold (scope_room o fixed st scope).
  change (match scopeMax o !! scope with Some n => Z.min (maxTotal o - fixed - bSpent st) n
          | None => maxTotal o - fixed - bSpent st end) with (scope_room o fixed st scope).
  set (room := scope_room o fixed st scope) in *.
  pose proof (settled_pack es limit room (omitLineReserve es) Hroom (omitLineReserve_nonneg es)) as Hp.
  destruct (pack es limit room) as [in0 used0].
  destruct (if all_in in0 then _ else _) as [in_ used]. destruct Hp as (Hl & Hu & Hb & Ha).
  rewrite place_spec. cbn [bParts bEntries bOmitted bSpent app].
  set (dropped := chosen false (zip es in_)) in *.
  set (line := if 0 <? blen dropped then omitLine dropped (room - used) else []).
  assert (Htext : line = [] \/ exists room, line = omitLine dropped room).
  { unfold line. destruct (0 <? blen dropped); [right; eauto|by left]. }
  assert (Hline : line_cost line <= room - used /\ (dropped = [] -> line = [])).
  { unfold line. destruct (Z.ltb_spec 0 (blen dropped)); [|split; [cbn; lia|done]]. split.
    - destruct (omitLine dropped (room - used)) eqn:E; [cbn; lia|]. rewrite <- E. cbn [line_cost].
      replace (line_cost _) with (cost (omitLine dropped (room - used))) by (by rewrite E).
      apply omitLine_fits. by rewrite E.
    - intros Hd. rewrite Hd in *. done. }
  assert (Hlc : 0 <= line_cost line).
  { destruct line as [|c l]; [done|]. pose proof (cost_pos (c :: l)). cbn [line_cost]. lia. }
  exists in_, line. destruct Hline as [Hl1 Hl2].
  case_bool_decide as El; [rewrite El in *|]; split; cbn [bParts bEntries bOmitted bSpent];
    rewrite ?(bool_decide_eq_false_2 (es = [])) by done; fold dropped room; try done; try (cbn in *; lia).
  - cbn [line_part]. rewrite app_nil_r, <- app_assoc. done.
  - rewrite <- !app_assoc. cbn [app]. by destruct line.
  - destruct line as [|c l]; [done|]. cbn [line_cost] in *. lia.
  - destruct line as [|c l]; [done|]. cbn [line_cost] in *. lia.
Qed.

Lemma chosen_le {A} (f : A -> Z) b l : (forall x, 0 <= f x) ->
  forall in_, sum_on f (chosen b (zip l in_)) <= sum_on f l.
Proof.
  intros Hf. induction l as [|x l IH]; intros [|d in_]; try (cbn; lia).
  - rewrite sum_on_cons. pose proof (sum_on_nonneg f l Hf). specialize (Hf x). cbn [zip_with chosen]. unfold chosen. cbn. lia.
  - cbn [zip_with]. rewrite chosen_cons. specialize (IH in_). specialize (Hf x).
    destruct (Bool.eqb d b); rewrite ?sum_on_cons; lia.
Qed.

(** ** The scopes together *)

(** A scope, what it lists, the decision on each entry and the line naming
    what was left out. *)
Record decided := MkDecided { dScope : bytes; dList : list Entry; dIn : list bool; dLine : bytes }.

Definition d_shown (d : decided) : list Entry := chosen true (zip (dList d) (dIn d)).
Definition d_left (d : decided) : list Entry := chosen false (zip (dList d) (dIn d)).
Definition d_heading (d : decided) : bytes := scopeText (dScope d) (bool_decide (dList d = [])).

Definition d_parts o (limit : Z) (d : decided) : list (@Part Label) :=
  MkPart (scopePartID (dScope d)) (d_heading d) ownTrust
  :: (entry_part o limit (dScope d) <$> d_shown d) ++ line_part o (dScope d) (dLine d).

Definition d_entries (d : decided) : list ManifestEntry := (fun e => manifest_entry (dScope d) e []) <$> d_shown d.
Definition d_omitted (d : decided) : list ManifestEntry := (fun e => manifest_entry (dScope d) e OmitBudget) <$> d_left d.
Definition d_spent (limit : Z) (d : decided) : Z := sum_on (entry_cost limit) (d_shown d) + line_cost (dLine d).

(** The decisions are one per entry, take no more than the scope's cap, and
    name what is left out only if something is. *)
Record d_ok o (limit : Z) (d : decided) : Prop := {
  d_length : length (dIn d) = length (dList d);
  d_cap : forall n, scopeMax o !! dScope d = Some n -> d_spent limit d <= n;
  d_line : d_left d = [] -> dLine d = [];
  d_text : dLine d = [] \/ exists room, dLine d = omitLine (d_left d) room
}.

(** What the scopes' entries would take, all of them shown. *)
Definition lists_cost (limit : Z) (lists : list (bytes * list Entry)) : Z :=
  sum_on (fun sl => sum_on (entry_cost limit) sl.2) lists.

Definition caps_ok o : Prop := forall scope n, scopeMax o !! scope = Some n -> 0 <= n.

Definition under_caps o (limit : Z) (lists : list (bytes * list Entry)) : Prop :=
  Forall (fun sl : bytes * list Entry =>
    forall n, scopeMax o !! sl.1 = Some n -> sum_on (entry_cost limit) sl.2 <= n) lists.

Lemma render_scopes_added o limit fixed lists : caps_ok o -> forall st,
  0 <= maxTotal o - fixed - bSpent st ->
  let st' := foldl (render_scope LabelUntrusted o limit fixed) st lists in
  exists ds, (fun d => (dScope d, dList d)) <$> ds = lists
    /\ Forall (d_ok o limit) ds
    /\ bParts st' = bParts st ++ concat (d_parts o limit <$> ds)
    /\ bEntries st' = bEntries st ++ concat (d_entries <$> ds)
    /\ bOmitted st' = bOmitted st ++ concat (d_omitted <$> ds)
    /\ bSpent st' = bSpent st + sum_on (d_spent limit) ds
    /\ bSpent st <= bSpent st' <= maxTotal o - fixed
    /\ (under_caps o limit lists -> bSpent st + lists_cost limit lists <= maxTotal o - fixed ->
        Forall (fun d => d_left d = []) ds).
Proof.
  intros Hcaps. induction lists as [|[scope es] lists IH]; intros st Hst; cbn [foldl].
  { exists []. cbn. rewrite !app_nil_r. split_and!; done || lia. }
  assert (Hroom : 0 <= scope_room o fixed st scope).
  { unfold scope_room. destruct (scopeMax o !! scope) as [n|] eqn:E; [|done]. apply Hcaps in E. lia. }
  destruct (render_scope_added o limit fixed st scope es Hroom) as (in_ & line & [Hl Hp He Ho Hs Hr Hn Ht Ha]).
  set (st1 := render_scope LabelUntrusted o limit fixed st (scope, es)) in *.
  assert (Hmax : bSpent st1 <= maxTotal o - fixed).
  { unfold scope_room in Hr. destruct (scopeMax o !! scope); lia. }
  destruct (IH st1 ltac:(lia)) as (ds & Eds & Hok & Hp' & He' & Ho' & Hs' & Hr' & Ha').
  exists (MkDecided scope es in_ line :: ds). cbn [fmap list_fmap concat dScope dList].
  rewrite sum_on_cons. split_and!; try lia.
  - by rewrite Eds.
  - constructor; [|done]. split; [done| |done|done]. unfold d_spent, d_shown. cbn [dScope dList dIn dLine].
    intros n Hc. unfold scope_room in Hr. rewrite Hc in Hr. lia.
  - rewrite Hp', Hp, <- app_assoc. done.
  - rewrite He', He, <- app_assoc. done.
  - rewrite Ho', Ho, <- app_assoc. done.
  - rewrite Hs', Hs. unfold d_spent, d_shown. cbn [dScope dList dIn dLine]. lia.
  - intros Hc Hsum. apply Forall_cons in Hc as [Hc1 Hc2]. cbn [fst snd] in Hc1.
    unfold lists_cost in Hsum. rewrite sum_on_cons in Hsum. cbn [snd] in Hsum.
    assert (Hrest : 0 <= sum_on (fun sl : bytes * list Entry => sum_on (entry_cost limit) sl.2) lists).
    { apply sum_on_nonneg. intros sl. apply sum_on_nonneg, entry_cost_nonneg. }
    assert (Hleft : chosen false (zip es in_) = []).
    { apply Ha. unfold scope_room. destruct (scopeMax o !! scope) as [n|]; [specialize (Hc1 n eq_refl); lia|lia]. }
    constructor; [exact Hleft|]. apply Ha'; [done|].
    assert (Hall : sum_on (entry_cost limit) (chosen true (zip es in_)) <= sum_on (entry_cost limit) es).
    { apply chosen_le, entry_cost_nonneg. }
    rewrite Hs, (Hn Hleft). cbn [line_cost]. unfold lists_cost. lia.
Qed.

(** ** The joined block *)

Lemma JoinParts_snoc (ps : list (@Part Label)) p : ps <> [] ->
  blen (JoinParts (ps ++ [p])) = blen (JoinParts ps) + cost (pText p).
Proof.
  intros Hp. unfold JoinParts. rewrite fmap_app. cbn [fmap list_fmap]. rewrite Join_snoc.
  - rewrite !blen_app. unfold cost. done.
  - by destruct ps.
Qed.

Lemma JoinParts_app (qs : list (@Part Label)) : forall ps, ps <> [] ->
  blen (JoinParts (ps ++ qs)) = blen (JoinParts ps) + sum_on (fun p => cost (pText p)) qs.
Proof.
  induction qs as [|q qs IH]; intros ps Hp; [rewrite app_nil_r; cbn; lia|].
  replace (ps ++ q :: qs) with ((ps ++ [q]) ++ qs) by by rewrite <- app_assoc.
  rewrite IH by by destruct ps. rewrite JoinParts_snoc, sum_on_cons by done. lia.
Qed.

Lemma sum_on_fmap {A B} (f : B -> Z) (g : A -> B) l : sum_on f (g <$> l) = sum_on (fun x => f (g x)) l.
Proof. induction l as [|x l IH]; [done|]. cbn [fmap list_fmap]. rewrite !sum_on_cons. by rewrite IH. Qed.

Lemma d_parts_cost o limit d :
  sum_on (fun p => cost (pText p)) (d_parts o limit d) = cost (d_heading d) + d_spent limit d.
Proof.
  unfold d_parts, d_spent. rewrite sum_on_cons, sum_on_app, sum_on_fmap. cbn [pText].
  change (sum_on (fun x => cost (pText (entry_part o limit (dScope d) x))) (d_shown d))
    with (sum_on (entry_cost limit) (d_shown d)).
  destruct (dLine d); cbn [line_part line_cost]; rewrite ?sum_on_cons; cbn [pText sum_on foldr]; lia.
Qed.

Lemma parts_cost o limit ds :
  sum_on (fun p => cost (pText p)) (concat (d_parts o limit <$> ds))
  = sum_on (fun d => cost (d_heading d)) ds + sum_on (d_spent limit) ds.
Proof.
  induction ds as [|d ds IH]; [done|]. cbn [fmap list_fmap concat]. rewrite sum_on_app, IH, d_parts_cost, !sum_on_cons. lia.
Qed.

(** ** The summary settles *)

(** The words of the summary, without its numbers. *)
Definition summary_words : Z :=
  blen (bs "Entries:  shown,  omitted. Block:  of  bytes ( free). Entry limit:  bytes.").

Lemma summary_length shown omitted size free max limit : 0 <= free <= max ->
  blen (summary shown omitted size free max limit)
  = summary_words + width shown + width omitted + width size + width max + width max + width limit.
Proof.
  intros H. unfold summary. rewrite !blen_app. fold (width max). rewrite (pad_width max free H).
  fold (width shown) (width omitted) (width size) (width limit).
  repeat match goal with |- context [blen (bs ?s)] =>
    let v := eval vm_compute in (blen (bs s)) in change (blen (bs s)) with v end.
  change summary_words with 74. lia.
Qed.

(** The block's size when its summary states [s]: what [settle] seeks a
    fixed point of. *)
Definition stated (rest shown left max limit s : Z) : Z :=
  rest + blen (summary shown left s (max - s) max limit).

Lemma settle_step p rest shown left max limit s last :
  settle (S p) rest shown left max limit s last =
  if stated rest shown left max limit s =? s then summary shown left s (max - s) max limit
  else settle p rest shown left max limit (stated rest shown left max limit s) (summary shown left s (max - s) max limit).
Proof. done. Qed.

(** Four of the eight passes are enough: only the width of the size moves,
    and from the second pass on it is one of two. *)
Lemma settle_exact p rest shown left max limit s0 last :
  0 <= rest -> 0 <= s0 <= max -> max < 2 ^ 63 -> 0 <= stated rest shown left max limit s0 <= s0 ->
  exists s, 0 <= s <= s0 /\ settle (4 + p) rest shown left max limit s0 last = summary shown left s (max - s) max limit
    /\ stated rest shown left max limit s = s.
Proof.
  intros Hrest Hs0 Hmax Hst. set (g := stated rest shown left max limit) in *.
  set (K := rest + summary_words + width shown + width left + width max + width max + width limit).
  assert (Hg : forall s, 0 <= s <= max -> g s = K + width s).
  { intros s Hs. unfold g, stated. rewrite summary_length by lia. unfold K. lia. }
  assert (HK : 74 <= K).
  { unfold K, width. change summary_words with 74. pose proof (blen_nonneg (Itoa shown)). pose proof (blen_nonneg (Itoa left)).
    pose proof (blen_nonneg (Itoa max)). pose proof (blen_nonneg (Itoa limit)). lia. }
  assert (Hstep : forall s, 0 <= s <= max -> 0 <= g s <= s -> K + 1 <= g s <= K + 19 /\ 0 <= g (g s) <= g s).
  { intros s Hs Hgs. rewrite (Hg s Hs) in *. pose proof (width_pos s ltac:(lia)). pose proof (width_int64 s ltac:(lia)).
    split; [lia|]. rewrite (Hg (K + width s)) by lia. pose proof (width_mono (K + width s) s ltac:(lia)).
    pose proof (width_pos (K + width s) ltac:(lia)). lia. }
  destruct (Hstep s0 Hs0 Hst) as [H1 Hd1]. destruct (Hstep (g s0) ltac:(lia) Hd1) as [H2 Hd2].
  destruct (Hstep (g (g s0)) ltac:(lia) Hd2) as [H3 Hd3]. cbn [Nat.add].
  rewrite settle_step. fold g. destruct (Z.eqb_spec (g s0) s0) as [E|E0]; [exists s0; split_and!; done || lia|].
  rewrite settle_step. fold g. destruct (Z.eqb_spec (g (g s0)) (g s0)) as [E|E1]; [exists (g s0); split_and!; done || lia|].
  rewrite settle_step. fold g. destruct (Z.eqb_spec (g (g (g s0))) (g (g s0))) as [E|E2]; [exists (g (g s0)); split_and!; done || lia|].
  rewrite settle_step. fold g.
  assert (E3 : g (g (g (g s0))) = g (g (g s0))).
  { rewrite (Hg (g (g (g s0)))) by lia. rewrite (Hg (g (g s0))) at 2 by lia. f_equal.
    pose proof (Hg (g s0) ltac:(lia)). pose proof (Hg (g (g s0)) ltac:(lia)).
    pose proof (width_near (g (g (g s0))) (g s0) ltac:(lia) ltac:(lia)).
    pose proof (width_mono (g (g (g s0))) (g (g s0)) ltac:(lia)). lia. }
  rewrite E3, Z.eqb_refl. exists (g (g (g s0))). split_and!; done || lia.
Qed.

(** ** The block *)

Lemma fixed_cost_sum lists max limit :
  fixed_cost lists max limit
  = blen title + cost (summary (sum_on (fun sl => blen sl.2) lists) (sum_on (fun sl => blen sl.2) lists) max max max limit)
    + sum_on (fun sl : bytes * list Entry => cost (scopeText sl.1 (bool_decide (sl.2 = [])))) lists.
Proof. unfold fixed_cost. rewrite (foldl_sum (fun sl : bytes * list Entry => blen sl.2)), foldl_sum. by rewrite Z.add_0_l. Qed.

Lemma chosen_length {A} (l : list A) : forall in_, length in_ = length l ->
  (length (chosen true (zip l in_)) + length (chosen false (zip l in_)) = length l)%nat.
Proof.
  induction l as [|x l IH]; intros [|d in_] Hl; try done. cbn [zip_with]. rewrite !chosen_cons.
  specialize (IH in_ ltac:(cbn in Hl; lia)). destruct d; cbn [Bool.eqb length]; lia.
Qed.

Lemma counts o limit ds : Forall (d_ok o limit) ds ->
  blen (concat (d_entries <$> ds)) + blen (concat (d_omitted <$> ds)) = sum_on (fun d => blen (dList d)) ds.
Proof.
  induction 1 as [|d ds [Hl _ _ _] _ IH]; [done|]. cbn [fmap list_fmap concat]. rewrite !blen_app, sum_on_cons.
  pose proof (chosen_length (dList d) (dIn d) Hl). unfold d_entries, d_omitted, d_shown, d_left, blen in *.
  rewrite !length_fmap. lia.
Qed.

Definition summary_part (last : bytes) : @Part Label := MkPart SummaryPartID last ownTrust.
Definition title_part : @Part Label := MkPart TitlePartID title ownTrust.

(** What [render_lists] gives: the title, the scopes as decided, and a
    summary that states the block's own size. *)
Lemma render_lists_spec o lists limit :
  caps_ok o -> fixed_cost lists (maxTotal o) limit <= maxTotal o -> maxTotal o < 2 ^ 63 ->
  exists ds last,
    render_lists LabelUntrusted o lists limit
    = (title_part :: concat (d_parts o limit <$> ds) ++ [summary_part last],
       MkManifest (concat (d_entries <$> ds)) (concat (d_omitted <$> ds)) false)
    /\ (fun d => (dScope d, dList d)) <$> ds = lists /\ Forall (d_ok o limit) ds
    /\ (let n := blen (JoinParts (render_lists LabelUntrusted o lists limit).1) in
        n <= maxTotal o
        /\ last = summary (blen (concat (d_entries <$> ds))) (blen (concat (d_omitted <$> ds))) n (maxTotal o - n) (maxTotal o) limit)
    /\ (under_caps o limit lists -> lists_cost limit lists <= maxTotal o - fixed_cost lists (maxTotal o) limit ->
        Forall (fun d => d_left d = []) ds).
Proof.
  intros Hcaps Hfix Hmax. set (fixed := fixed_cost lists (maxTotal o) limit) in *.
  destruct (render_scopes_added o limit fixed lists Hcaps (MkBlock [title_part] [] [] 0) ltac:(cbn; lia))
    as (ds & Eds & Hok & Hp & He & Ho & Hs & Hr & Ha).
  unfold render_lists. fold fixed. fold title_part.
  set (st := foldl (render_scope LabelUntrusted o limit fixed) (MkBlock [title_part] [] [] 0) lists) in *.
  cbn [bParts bEntries bOmitted bSpent app] in *.
  set (rest := blen (JoinParts (bParts st)) + blen PartSeparator).
  set (shown := blen (bEntries st)). set (left := blen (bOmitted st)).
  set (total := sum_on (fun sl : bytes * list Entry => blen sl.2) lists).
  assert (Hcount : shown + left = total).
  { unfold shown, left, total. rewrite He, Ho, (counts _ _ _ Hok), <- Eds, sum_on_fmap. done. }
  assert (Hrest : fixed + bSpent st = rest + blen (summary total total (maxTotal o) (maxTotal o) (maxTotal o) limit)).
  { unfold rest, fixed. rewrite fixed_cost_sum, Hp.
    change (title_part :: concat (d_parts o limit <$> ds)) with ([title_part] ++ concat (d_parts o limit <$> ds)).
    rewrite JoinParts_app, parts_cost, Hs by done. fold total.
    change (blen (JoinParts [title_part])) with (blen title).
    replace (sum_on (fun sl : bytes * list Entry => cost (scopeText sl.1 (bool_decide (sl.2 = [])))) lists)
      with (sum_on (fun d => cost (d_heading d)) ds) by (rewrite <- Eds, sum_on_fmap; done).
    rewrite (eq_refl : cost (summary _ _ _ _ _ _) = blen PartSeparator + blen (summary _ _ _ _ _ _)). lia. }
  pose proof (blen_nonneg (bEntries st)) as N1. pose proof (blen_nonneg (bOmitted st)) as N2. fold shown in N1. fold left in N2.
  assert (Hrest0 : 0 <= rest) by (unfold rest; pose proof (blen_nonneg (JoinParts (bParts st))); change (blen PartSeparator) with 2; lia).
  pose proof (blen_nonneg (summary total total (maxTotal o) (maxTotal o) (maxTotal o) limit)) as N3.
  assert (Hst : 0 <= stated rest shown left (maxTotal o) limit (fixed + bSpent st) <= fixed + bSpent st).
  { unfold stated. pose proof (blen_nonneg (summary shown left (fixed + bSpent st) (maxTotal o - (fixed + bSpent st)) (maxTotal o) limit)).
    split; [lia|]. rewrite Hrest at 3. rewrite !summary_length by lia.
    pose proof (width_mono shown total ltac:(lia)). pose proof (width_mono left total ltac:(lia)).
    pose proof (width_mono (fixed + bSpent st) (maxTotal o) ltac:(lia)). lia. }
  destruct (settle_exact 4 rest shown left (maxTotal o) limit (fixed + bSpent st) [] Hrest0 ltac:(lia) Hmax Hst) as (s & Hs1 & Hs2 & Hs3).
  cbn [Nat.add] in Hs2. rewrite Hs2. exists ds, (summary shown left s (maxTotal o - s) (maxTotal o) limit).
  assert (Hn : blen (JoinParts (bParts st ++ [summary_part (summary shown left s (maxTotal o - s) (maxTotal o) limit)])) = s).
  { rewrite JoinParts_snoc by by rewrite Hp. unfold stated in Hs3. cbn [summary_part pText]. unfold cost, rest in *. lia. }
  cbn [fst]. fold (summary_part (summary shown left s (maxTotal o - s) (maxTotal o) limit)). rewrite Hn.
  split_and!; try done; try lia.
  - by rewrite Hp, He, Ho.
  - by rewrite <- He, <- Ho.
Qed.
End Blocks.

(** ** Part IDs *)

Section Ids.
Context {Label : Type} `{EqDecision Label} (LabelUntrusted : Label).

(** What an ID names. *)
Inductive pid := PTitle | PSummary | PScope (s : bytes) | PEntry (s n : bytes) | POmitted (s : bytes).

Definition pid_text (p : pid) : bytes :=
  match p with
  | PTitle => TitlePartID
  | PSummary => SummaryPartID
  | PScope s => scopePartID s
  | PEntry s n => PartID s n
  | POmitted s => omittedPartID s
  end.

Definition pid_ok (p : pid) : Prop :=
  match p with
  | PTitle | PSummary => True
  | PScope s | POmitted s => ValidName s = true
  | PEntry s n => ValidName s = true /\ ValidName n = true
  end.

(** The ID after "memory". *)
Definition pid_rest (p : pid) : bytes :=
  match p with
  | PTitle => []
  | PSummary => bs ":summary"
  | PScope s => "/"%char :: s
  | PEntry s n => "/"%char :: s ++ "/"%char :: n
  | POmitted s => "/"%char :: s ++ ":"%char :: bs "omitted"
  end.

Lemma pid_text_rest p : pid_text p = bs "memory" ++ pid_rest p.
Proof. by destruct p. Qed.

Lemma pid_text_inj p q : pid_ok p -> pid_ok q -> pid_text p = pid_text q -> p = q.
Proof.
  intros Hp Hq E. rewrite !pid_text_rest in E. apply app_inv_head in E.
  assert (Hno : forall s c t u, ValidName s = true -> lower_or_digit c = false -> c <> "-"%char -> s = t ++ c :: u -> False).
  { intros s c t u Hv Hc Hh ->. eapply (ValidName_no_byte _ c Hv Hc Hh). set_solver. }
  assert (Hsep : forall s s' t u, ValidName s = true -> ValidName s' = true -> s ++ "/"%char :: t = s' ++ ":"%char :: u -> False).
  { intros s s' t u Hv Hv' E'. apply app_eq_inv in E' as [(k & -> & E')|(k & -> & E')]; destruct k as [|c k]; try discriminate E'.
    - injection E' as <- _. eapply (Hno _ ":"%char); [exact Hv|done|done|reflexivity].
    - injection E' as <- _. eapply (Hno _ "/"%char); [exact Hv'|done|done|reflexivity]. }
  destruct p as [| |s|s n|s], q as [| |s'|s' n'|s']; cbn in E, Hp, Hq; try discriminate E; try done; injection E as E.
  - congruence.
  - exfalso. by eapply (Hno s "/"%char).
  - exfalso. by eapply (Hno s ":"%char).
  - exfalso. by eapply (Hno s' "/"%char).
  - apply app_sep_inj in E as [-> ->]; [done| |]; apply ValidName_no_byte; tauto || done.
  - exfalso. destruct Hp. by eapply (Hsep s s').
  - exfalso. by eapply (Hno s' ":"%char).
  - exfalso. destruct Hq. by eapply (Hsep s' s).
  - apply app_sep_inj in E as [-> _]; [done|by apply ValidName_no_byte..].
Qed.

Definition d_pids (d : decided) : list pid :=
  PScope (dScope d) :: ((fun e => PEntry (dScope d) (eName e)) <$> d_shown d)
  ++ match dLine d with [] => [] | _ => [POmitted (dScope d)] end.

Lemma d_parts_ids (o : @renderOptions Label) limit d : pID <$> d_parts LabelUntrusted o limit d = pid_text <$> d_pids d.
Proof.
  unfold d_parts, d_pids. rewrite !fmap_cons, !fmap_app, <- !list_fmap_compose. by destruct (dLine d).
Qed.

Definition scope_of (p : pid) : option bytes :=
  match p with PTitle | PSummary => None | PScope s | PEntry s _ | POmitted s => Some s end.

Lemma d_pids_scope d p : p ∈ d_pids d -> scope_of p = Some (dScope d).
Proof.
  unfold d_pids. intros [->|[Hp|Hp]%elem_of_app]%elem_of_cons; [done| |].
  - apply list_elem_of_fmap in Hp as (e & -> & _). done.
  - destruct (dLine d); [by apply not_elem_of_nil in Hp|]. by apply list_elem_of_singleton in Hp as ->.
Qed.

Lemma chosen_sublist {A} b (l : list A) : forall in_, sublist (chosen b (zip l in_)) l.
Proof.
  induction l as [|x l IH]; intros [|d in_]; [apply sublist_nil_l..|].
  cbn [zip_with]. rewrite chosen_cons. destruct (Bool.eqb d b); by constructor.
Qed.

(** The names a scope's shown entries have are names, each once. *)
Lemma d_pids_ok d :
  ValidName (dScope d) = true -> NoDup (eName <$> dList d) -> Forall (fun e => ValidName (eName e) = true) (dList d) ->
  NoDup (d_pids d) /\ Forall pid_ok (d_pids d).
Proof.
  intros Hv Hnd Hn. pose proof (chosen_sublist true (dList d) (dIn d)) as Hsub. fold (d_shown d) in Hsub. split.
  - unfold d_pids. apply NoDup_cons. split.
    { rewrite elem_of_app, list_elem_of_fmap. intros [(e & ? & _)|Hp]; [done|].
      destruct (dLine d); [by apply not_elem_of_nil in Hp|by apply list_elem_of_singleton in Hp]. }
    apply NoDup_app. split_and!.
    + pose proof (sublist_NoDup _ _ Hnd (fmap_sublist eName _ _ Hsub)) as Hnd'.
      rewrite (list_fmap_compose eName (PEntry (dScope d))). by apply NoDup_fmap_2; [intros ? ? [=]|].
    + intros p (e & -> & _)%list_elem_of_fmap Hp. destruct (dLine d); [by apply not_elem_of_nil in Hp|].
      by apply list_elem_of_singleton in Hp.
    + destruct (dLine d); [constructor|apply NoDup_singleton].
  - unfold d_pids. constructor; [done|]. apply Forall_app. split; [|by destruct (dLine d); repeat constructor].
    apply Forall_fmap, Forall_forall. intros e He. split; [done|]. rewrite Forall_forall in Hn. apply Hn.
    by eapply elem_of_sublist.
Qed.

Lemma pids_NoDup ds :
  NoDup (dScope <$> ds) -> Forall (fun d => NoDup (d_pids d) /\ Forall pid_ok (d_pids d)) ds ->
  NoDup (concat (d_pids <$> ds)) /\ Forall pid_ok (concat (d_pids <$> ds)).
Proof.
  induction ds as [|d ds IH]; intros Hnd Hok; [split; constructor|]. cbn [fmap list_fmap concat] in *.
  apply NoDup_cons in Hnd as [Hd Hnd]. apply Forall_cons in Hok as [[Hd1 Hd2] Hok].
  destruct (IH Hnd Hok) as [IH1 IH2]. split; [|by apply Forall_app]. apply NoDup_app. split_and!; [done| |done].
  intros p Hp Hp'. apply d_pids_scope in Hp.
  apply list_elem_of_In, List.in_concat in Hp' as (l & Hl1%list_elem_of_In & Hl2%list_elem_of_In).
  apply list_elem_of_fmap in Hl1 as (d' & -> & Hd'). apply d_pids_scope in Hl2.
  rewrite Hp in Hl2. injection Hl2 as E. apply Hd. rewrite E. by apply list_elem_of_fmap_2.
Qed.
End Ids.

(** ** The lines of a block *)

Section Lines.
Context {Label : Type} `{EqDecision Label} (LabelUntrusted : Label).
Implicit Types (o : @renderOptions Label).






















End Lines.

(** ** Which renders are refused *)

Section Claims.
Context {Label : Type} `{EqDecision Label} (LabelUntrusted : Label).
Context {S : Type} `{Store S}.
Implicit Types (s : S) (o : @renderOptions Label) (opts : list (@RenderOption Label)).

Lemma find_cap (caps : gmap bytes Z) :
  match List.find (fun sn : bytes * Z => sn.2 <? 0) (map_to_list caps) with
  | Some sn => caps !! sn.1 = Some sn.2 /\ sn.2 < 0
  | None => forall scope n, caps !! scope = Some n -> 0 <= n
  end.
Proof.
  destruct (List.find _ _) as [[scope n]|] eqn:E.
  - apply List.find_some in E as [Hin Hn]. cbn in *. bool_hyps. by apply list_elem_of_In, elem_of_map_to_list in Hin.
  - intros scope n Hl. apply elem_of_map_to_list, list_elem_of_In in Hl.
    apply (List.find_none _ _ E) in Hl. cbn in Hl. bool_hyps. done.
Qed.

Lemma check_render_scopes_None scopes : forall before,
  match check_render_scopes before scopes with
  | None => Forall name_spec scopes /\ NoDup scopes /\ Forall (fun x => x ∉ before) scopes
  | Some e => wraps e = SInvalid /\ ~ (Forall name_spec scopes /\ NoDup scopes /\ Forall (fun x => x ∉ before) scopes)
  end.
Proof.
  induction scopes as [|scope scopes IH]; intros before; cbn [check_render_scopes]; [by repeat constructor|].
  unfold ValidScope. destruct (ValidName scope) eqn:Hv; cbn [negb].
  2: { split; [done|]. intros ([Hs%ValidName_iff _]%Forall_cons & _). congruence. }
  apply ValidName_iff in Hv. unfold Contains. case_bool_decide as Hb.
  { split; [done|]. rewrite !Forall_cons. tauto. }
  specialize (IH (before ++ [scope])).
  assert (Hiff : Forall (fun x => x ∉ before ++ [scope]) scopes <-> scope ∉ scopes /\ Forall (fun x => x ∉ before) scopes).
  { rewrite !Forall_forall. set_solver. }
  destruct (check_render_scopes _ scopes); rewrite !Forall_cons, NoDup_cons; rewrite Hiff in IH; tauto.
Qed.

(** What a render that answers was given, and what one that refuses was. *)
Lemma RenderParts_cases s scopes opts :
  let o := resolve opts in
  match RenderParts LabelUntrusted s scopes opts with
  | Ok pm => 1 <= maxTotal o /\ caps_ok o /\ Forall name_spec scopes /\ NoDup scopes
      /\ exists lists, list_scopes s scopes = Ok lists
           /\ fixed_cost lists (maxTotal o) (MaxEntryBytes s) <= maxTotal o
           /\ pm = render_lists LabelUntrusted o lists (MaxEntryBytes s)
  | Err e =>
      (wraps e = SBudget /\ (maxTotal o < 1 \/ ~ caps_ok o))
      \/ (wraps e = SInvalid /\ ~ (Forall name_spec scopes /\ NoDup scopes))
      \/ (Forall name_spec scopes /\ NoDup scopes /\ list_scopes s scopes = Err e)
      \/ (wraps e = SBudget /\ exists lists, list_scopes s scopes = Ok lists
           /\ maxTotal o < fixed_cost lists (maxTotal o) (MaxEntryBytes s))
  end.
Proof.
  intros o. unfold RenderParts. fold o. destruct (Z.ltb_spec (maxTotal o) 1) as [Hm|Hm]; [left; split; [done|by left]|].
  pose proof (find_cap (scopeMax o)) as Hc. destruct (List.find _ _) as [[sc n]|]; cbn [mbind option_bind].
  { left. split; [done|]. right. intros Hok. destruct Hc as [Hc Hn]. apply Hok in Hc. cbn in *. lia. }
  pose proof (check_render_scopes_None scopes []) as Hs. destruct (check_render_scopes [] scopes) as [e|].
  { right; left. destruct Hs as [He Hs]. split; [done|]. intros [Hf Hd]. apply Hs. split_and!; [done..|].
    apply Forall_forall. intros x _. apply not_elem_of_nil. }
  destruct Hs as (Hf & Hd & _). destruct (list_scopes s scopes) as [lists|e] eqn:El; cbn [res_bind]; [|by right; right; left].
  destruct (Z.ltb_spec (maxTotal o) (fixed_cost lists (maxTotal o) (MaxEntryBytes s))).
  - right; right; right. eauto.
  - split_and!; [done..|]. exists lists. split_and!; [done|lia|done].
Qed.

(** C14: The block is never over its bound and says exactly what it is. For
    any store and any options whose bound is a Go [int], a render that
    answers gives a block of at most the bound, title, headings, entries,
    omission lines, separators and summary all counted, whose last part
    states the number of entries shown and omitted, the block's own length
    to the byte, what is left of the bound, and the store's entry limit: the
    eight passes always settle. *)
Theorem block_within_bound s scopes opts :
  maxTotal (resolve opts) < 2 ^ 63 ->
  match RenderParts LabelUntrusted s scopes opts with
  | Ok (parts, man) =>
      let max := maxTotal (resolve opts) in
      let n := blen (JoinParts parts) in
      n <= max
      /\ pText <$> last parts = Some (summary (blen (mEntries man)) (blen (mOmitted man)) n (max - n) max (MaxEntryBytes s))
  | Err _ => True
  end.
Proof.
  intros Hmax. pose proof (RenderParts_cases s scopes opts) as Hc.
  destruct (RenderParts LabelUntrusted s scopes opts) as [[parts man]|]; [|done].
  destruct Hc as (_ & Hcaps & _ & _ & lists & _ & Hfix & E).
  destruct (render_lists_spec LabelUntrusted (resolve opts) lists (MaxEntryBytes s) Hcaps Hfix Hmax)
    as (ds & lst & Er & _ & _ & [Hn Hl] & _).
  rewrite <- E in Hn, Hl. rewrite Er in E. injection E as -> ->. cbn [fst] in *. cbn [mEntries mOmitted].
  split; [done|]. rewrite app_comm_cons, last_snoc. cbn [fmap option_fmap option_map summary_part pText]. by rewrite Hl at 1.
Qed.

(** C38: What the block holds, and the manifest of it. The parts are the
    title, then for each scope in the order given its heading, the parts of
    the entries shown in list order and the line naming the rest, then the
    summary. Every entry the store lists is in the manifest exactly once,
    under Entries when its part is in the block and under Omitted with the
    reason budget when it is not, in the same order, with the hash and size
    of its content. What a scope's entries and omission line add is within
    its cap, an omission line is there only when something is omitted, the
    manifest never reads as a block left out, and when all entries fit the
    bound and the caps nothing is omitted. *)
Theorem block_holds s scopes opts parts man :
  maxTotal (resolve opts) < 2 ^ 63 -> RenderParts LabelUntrusted s scopes opts = Ok (parts, man) ->
  let o := resolve opts in
  let limit := MaxEntryBytes s in
  exists ds last,
    list_scopes s scopes = Ok ((fun d => (dScope d, dList d)) <$> ds)
    /\ Forall (d_ok o limit) ds
    /\ parts = title_part :: concat (d_parts LabelUntrusted o limit <$> ds) ++ [summary_part last]
    /\ man = MkManifest (concat (d_entries <$> ds)) (concat (d_omitted <$> ds)) false
    /\ Dropped man = false
    /\ (under_caps o limit ((fun d => (dScope d, dList d)) <$> ds) ->
        lists_cost limit ((fun d => (dScope d, dList d)) <$> ds)
          <= maxTotal o - fixed_cost ((fun d => (dScope d, dList d)) <$> ds) (maxTotal o) limit ->
        mOmitted man = []).
Proof.
  intros Hmax Hr o limit. pose proof (RenderParts_cases s scopes opts) as Hc. rewrite Hr in Hc.
  destruct Hc as (_ & Hcaps & _ & _ & lists & Hl & Hfix & E).
  destruct (render_lists_spec LabelUntrusted (resolve opts) lists (MaxEntryBytes s) Hcaps Hfix Hmax)
    as (ds & lst & Er & Eds & Hok & _ & Ha).
  rewrite Er in E. injection E as -> ->. exists ds, lst. rewrite Eds. split_and!; try done.
  - unfold Dropped. cbn [mLeftOut mEntries mOmitted]. destruct (negb _ || _) eqn:En; [done|]. bool_hyps.
    destruct (concat (d_omitted <$> ds)) as [|e es] eqn:Eo; [done|]. cbn [forallb].
    assert (He : e ∈ concat (d_omitted <$> ds)) by (rewrite Eo; left).
    apply list_elem_of_In, List.in_concat in He as (l & Hl1%list_elem_of_In & Hl2%list_elem_of_In).
    apply list_elem_of_fmap in Hl1 as (d & -> & _). unfold d_omitted in Hl2. apply list_elem_of_fmap in Hl2 as (x & -> & _).
    done.
  - intros Hu Hs. cbn [mOmitted]. specialize (Ha Hu Hs). clear -Ha. induction Ha as [|d ds Hd _ IH]; [done|].
    cbn [fmap list_fmap concat]. rewrite IH. unfold d_omitted. by rewrite Hd.
Qed.

(** ** Over a store that keeps the contract *)

Context `{!StoreLaws S}.

(** What each scope lists. *)
Definition live_lists s (scopes : list bytes) : list (bytes * list Entry) :=
  (fun scope => (scope, live_in (replay (store_journal s)) scope)) <$> scopes.

Lemma list_scopes_live s scopes :
  store_ok s -> Forall name_spec scopes -> list_scopes s scopes = Ok (live_lists s scopes).
Proof.
  intros Hs. induction 1 as [|scope scopes Hv _ IH]; [done|]. cbn [list_scopes].
  rewrite (law_list _ _ Hs). unfold spec_list, CheckScope, ValidScope. apply ValidName_iff in Hv. rewrite Hv.
  cbn [res_bind]. by rewrite IH.
Qed.

(** When a render is refused, over a store that keeps the contract. It
    answers exactly when the bound is at least one byte and holds the title,
    the summary and a heading per scope, no cap is negative, and the scopes
    are names given once each. A bound or a cap that cannot be met is
    [ErrBudget], and a scope that is no name or given twice [ErrInvalid]. *)
Theorem RenderParts_verdict s scopes opts :
  store_ok s ->
  let o := resolve opts in
  let fixed := fixed_cost (live_lists s scopes) (maxTotal o) (MaxEntryBytes s) in
  match RenderParts LabelUntrusted s scopes opts with
  | Ok _ => 1 <= maxTotal o /\ caps_ok o /\ (Forall name_spec scopes /\ NoDup scopes) /\ fixed <= maxTotal o
  | Err e =>
      (wraps e = SBudget /\ (maxTotal o < 1 \/ ~ caps_ok o \/ Forall name_spec scopes /\ maxTotal o < fixed))
      \/ (wraps e = SInvalid /\ ~ (Forall name_spec scopes /\ NoDup scopes))
  end.
Proof.
  intros Hs o fixed. pose proof (RenderParts_cases s scopes opts) as Hc. fold o in Hc.
  destruct (RenderParts LabelUntrusted s scopes opts) as [pm|e].
  - destruct Hc as (H1 & H2 & H3 & H4 & lists & Hl & Hf & _). rewrite list_scopes_live in Hl by done.
    injection Hl as <-. done.
  - destruct Hc as [[He Hc]|[Hc|[(Hf & Hd & Hl)|(He & lists & Hl & Hlt)]]].
    + left. tauto.
    + by right.
    + by rewrite list_scopes_live in Hl.
    + left. split; [done|]. right; right.
      assert (Hf : Forall name_spec scopes).
      { clear -Hs Hl. revert lists Hl. induction scopes as [|scope scopes IH]; intros lists Hl; [constructor|].
        cbn [list_scopes] in Hl. rewrite (law_list _ _ Hs) in Hl. unfold spec_list, CheckScope, ValidScope in Hl.
        destruct (ValidName scope) eqn:Hv; [|done]. cbn [res_bind] in Hl.
        destruct (list_scopes s scopes) as [r|]; [|done]. constructor; [by apply ValidName_iff|by apply (IH r)]. }
      rewrite list_scopes_live in Hl by done. injection Hl as <-. done.
Qed.

(** A block over such a store: every scope's decisions, over entries with
    names, each once in its scope. *)
Lemma rendered_ds s scopes opts parts man :
  store_ok s -> journal_wf (MaxEntryBytes s) (store_journal s) -> maxTotal (resolve opts) < 2 ^ 63 ->
  RenderParts LabelUntrusted s scopes opts = Ok (parts, man) ->
  NoDup scopes /\ exists ds n,
    parts = title_part :: concat (d_parts LabelUntrusted (resolve opts) (MaxEntryBytes s) <$> ds)
            ++ [summary_part (summary (blen (mEntries man)) (blen (mOmitted man)) n (maxTotal (resolve opts) - n)
                                (maxTotal (resolve opts)) (MaxEntryBytes s))]
    /\ dScope <$> ds = scopes /\ Forall (d_ok (resolve opts) (MaxEntryBytes s)) ds
    /\ Forall (fun d => ValidName (dScope d) = true /\ NoDup (eName <$> dList d)
                        /\ Forall (fun e => ValidName (eName e) = true) (dList d)) ds.
Proof.
  intros Hs Hj Hmax Hr. pose proof (RenderParts_cases s scopes opts) as Hc. rewrite Hr in Hc.
  destruct Hc as (_ & Hcaps & Hf & Hnd & lists & Hl & Hfix & E).
  rewrite list_scopes_live in Hl by done. injection Hl as <-. split; [done|].
  destruct (render_lists_spec LabelUntrusted _ _ (MaxEntryBytes s) Hcaps Hfix Hmax) as (ds & lst & Er & Eds & Hok & [_ Hlast] & _).
  rewrite Er in E, Hlast. injection E as -> ->. exists ds, (blen (JoinParts (title_part :: concat (d_parts LabelUntrusted (resolve opts) (MaxEntryBytes s) <$> ds) ++ [summary_part lst]))).
  split_and!; [by rewrite Hlast at 1| |done|].
  - apply (f_equal (fmap fst)) in Eds. unfold live_lists in Eds. rewrite <- !list_fmap_compose in Eds.
    etransitivity; [exact Eds|]. clear. induction scopes; cbn; [done|by f_equal].
  - apply Forall_forall. intros d Hd.
    assert (Hin : (dScope d, dList d) ∈ live_lists s scopes).
    { rewrite <- Eds. by apply (list_elem_of_fmap_2 (fun d => (dScope d, dList d))). }
    unfold live_lists in Hin. apply list_elem_of_fmap in Hin as (scope & [= E1 E2] & Hin).
    rewrite Forall_forall in Hf. apply Hf, ValidName_iff in Hin. split_and!; [congruence| |].
    + rewrite E2. unfold live_in. rewrite (sort_on_perm eName). apply live_names_NoDup, replay_keyed.
    + rewrite E2. apply Forall_forall. intros e He. apply live_in_elem in He; [|apply replay_keyed].
      destruct (live_wf _ _ _ _ Hj He) as (_ & _ & [_ Hn _ _ _ _ _] & _). by apply ValidName_iff.
Qed.

(** No two parts of a block share an ID, whatever the store holds: the
    title, the summary, each scope's heading and omission line, and each
    entry's part, since scopes and names hold no slash and no colon. A
    product can therefore record a block part by part, by ID. *)
Theorem part_ids_distinct s scopes opts parts man :
  store_ok s -> journal_wf (MaxEntryBytes s) (store_journal s) -> maxTotal (resolve opts) < 2 ^ 63 ->
  RenderParts LabelUntrusted s scopes opts = Ok (parts, man) -> NoDup (pID <$> parts).
Proof.
  intros Hs Hj Hmax Hr. destruct (rendered_ds s scopes opts parts man Hs Hj Hmax Hr) as (Hnd & ds & n & -> & Esc & _ & Hds).
  set (lst := summary _ _ _ _ _ _).
  assert (Hok : Forall (fun d => NoDup (d_pids d) /\ Forall pid_ok (d_pids d)) ds).
  { eapply Forall_impl; [exact Hds|]. intros d (H1 & H2 & H3). by apply d_pids_ok. }
  rewrite <- Esc in Hnd. destruct (pids_NoDup ds Hnd Hok) as [Hp1 Hp2].
  assert (Eid : pID <$> (title_part :: concat (d_parts LabelUntrusted (resolve opts) (MaxEntryBytes s) <$> ds) ++ [summary_part lst])
          = pid_text <$> (PTitle :: concat (d_pids <$> ds) ++ [PSummary])).
  { cbn [fmap list_fmap]. rewrite !fmap_app. f_equal. f_equal. clear. induction ds as [|d ds IH]; [done|].
    cbn [fmap list_fmap concat]. rewrite !fmap_app, IH. f_equal. apply d_parts_ids. }
  rewrite Eid. apply NoDup_fmap_2_strong.
  - assert (Hall : Forall pid_ok (PTitle :: concat (d_pids <$> ds) ++ [PSummary])).
    { constructor; [done|]. apply Forall_app. by repeat constructor. }
    rewrite Forall_forall in Hall. intros p q Hp Hq. apply pid_text_inj; auto.
  - assert (Hsc : forall p, p ∈ concat (d_pids <$> ds) -> is_Some (scope_of p)).
    { intros p (l & Hl1%list_elem_of_In & Hl2%list_elem_of_In)%list_elem_of_In%List.in_concat.
      apply list_elem_of_fmap in Hl1 as (d & -> & _). apply d_pids_scope in Hl2. eauto. }
    apply NoDup_cons. split.
    + rewrite elem_of_app. intros [Hp%Hsc|Hp%list_elem_of_singleton]; [by destruct Hp|done].
    + apply NoDup_app. split_and!; [done| |apply NoDup_singleton].
      intros p Hp%Hsc Hq%list_elem_of_singleton. subst. by destruct Hp.
Qed.

End Claims.

(** ** Witnesses on [MemStore] *)

Definition demo_opts : list (@RenderOption unit) := [WithMaxTotalBytes 200].
Definition demo_render : res error (list (@Part unit) * Manifest) := RenderParts tt demo [bs "user"] demo_opts.

Lemma demo_bound : maxTotal (resolve demo_opts) < 2 ^ 63.
Proof. by vm_compute. Qed.

Lemma demo_wf : journal_wf (MaxEntryBytes demo) (store_journal demo).
Proof. exact (reachable_wf _ _ demo_reachable). Qed.

Lemma demo_renders : match demo_render with Ok (parts, _) => length parts = 4%nat | Err _ => False end.
Proof. vm_compute. reflexivity. Qed.

Lemma block_within_bound_witness : exists parts man,
  demo_render = Ok (parts, man) /\ length parts = 4%nat /\ blen (JoinParts parts) <= 200.
Proof.
  pose proof demo_renders as D. pose proof (block_within_bound tt demo [bs "user"] demo_opts demo_bound) as H.
  change (RenderParts tt demo [bs "user"] demo_opts) with demo_render in H.
  destruct demo_render as [[parts man]|]; [|destruct D]. exists parts, man. destruct H as [H _].
  split; [reflexivity|]. split; [exact D|exact H].
Defined.

Lemma block_holds_witness : exists parts man,
  demo_render = Ok (parts, man) /\ length parts = 4%nat /\ Dropped man = false.
Proof.
  pose proof demo_renders as D.
  destruct demo_render as [[parts man]|] eqn:E; [|destruct D]. exists parts, man.
  destruct (block_holds tt demo [bs "user"] demo_opts parts man demo_bound E) as (ds & lst & _ & _ & _ & _ & H & _).
  split; [reflexivity|]. split; [exact D|exact H].
Defined.

Lemma RenderParts_verdict_witness :
  store_ok demo /\ match demo_render with
                   | Ok _ => 1 <= maxTotal (resolve demo_opts)
                   | Err e => wraps e = SBudget \/ wraps e = SInvalid end.
Proof.
  split; [exact demo_ok|]. pose proof (RenderParts_verdict tt demo [bs "user"] demo_opts demo_ok) as H.
  change (RenderParts tt demo [bs "user"] demo_opts) with demo_render in H.
  destruct demo_render as [pm|e]; [apply H|]. destruct H as [[H _]|[H _]]; [left|right]; exact H.
Defined.

Lemma part_ids_distinct_witness : exists parts man,
  demo_render = Ok (parts, man) /\ length parts = 4%nat /\ NoDup (pID <$> parts).
Proof.
  pose proof demo_renders as D.
  destruct demo_render as [[parts man]|] eqn:E; [|destruct D]. exists parts, man.
  split; [reflexivity|]. split; [exact D|].
  exact (part_ids_distinct tt demo [bs "user"] demo_opts parts man demo_ok demo_wf demo_bound E).
Defined.


(** ** The second pass of the packing *)

(** Holding room back does not only leave more out, as the comment on the
    two passes says: an early entry that no longer fits makes room for a
    later one the first pass left out. *)
Example pack_not_monotone :
  let es := [vector_entry (bs "s") (bs "a") "a" 160; vector_entry (bs "s") (bs "b") "b" 40] in
  pack es 100 200 = ([true; false], 188) /\ pack es 100 (200 - omitLineReserve es) = ([false; true], 67).
Proof. vm_compute. auto. Qed.
