(* ===== verification/Calls.v ===== *)
(** * Calls: a tool call as a program of store operations

    A tool reads and writes the store in several operations, and other
    sessions write between them.  A call is a finite program [prog] of the
    operations it makes; [exec] runs it on a store, with whatever operations
    other sessions make before each of its own, and records what it saw. *)

From S2P Require Import Prelude GoStd Sha256 Memory Store Search Manifest.

(** What a call asks of its surroundings, with the type of the answer. *)
Inductive ev : Type -> Type :=
| EGet (scope name : bytes) : ev (res error Entry)
| EPut (e : Entry) (opts : list PutOption) : ev (res error Change)
| EForget (scope name : bytes) : ev (res error Change)
| ESearch (scopes : list bytes) (query : bytes) (limit : Z) (o : SearchOptions) : ev (res error (list Entry))
| ERendered : ev Manifest
| ENow : ev Z.

Inductive prog (A : Type) : Type :=
| Ret (a : A)
| Vis {X : Type} (e : ev X) (k : X -> prog A).
Arguments Ret {A} a.
Arguments Vis {A X} e k.

Fixpoint bind {A B} (p : prog A) (f : A -> prog B) : prog B :=
  match p with
  | Ret a => f a
  | Vis e k => Vis e (fun x => bind (k x) f)
  end.

Notation "'call' x := e 'in' k" := (Vis e (fun x => k))
  (at level 10, x pattern, e at level 100, k at level 200) : go_scope.
Notation "'let!' x := p 'in' k" := (bind p (fun x => k))
  (at level 10, x pattern, p at level 100, k at level 200) : go_scope.
Notation "'let*' x := r 'in' k" := (match r with Ok x => k | Err e => Ret (Err e) end)
  (at level 10, x pattern, r at level 100, k at level 200) : go_scope.

(** An operation a call made and the answer it had. *)
Inductive tev :=
| TGet (scope name : bytes) (r : res error Entry)
| TPut (e : Entry) (opts : list PutOption) (r : res error Change)
| TForget (scope name : bytes) (r : res error Change)
| TSearch (scopes : list bytes) (query : bytes) (limit : Z) (o : SearchOptions) (r : res error (list Entry))
| TRendered (m : Manifest)
| TNow (t : Z).

Definition seen {X} (e : ev X) : X -> tev :=
  match e with
  | EGet scope name => TGet scope name
  | EPut e opts => TPut e opts
  | EForget scope name => TForget scope name
  | ESearch scopes query limit o => TSearch scopes query limit o
  | ERendered => TRendered
  | ENow => TNow
  end.

(** The entry an operation would write, if it is a write. *)
Definition write_ref (t : tev) : option ref :=
  match t with
  | TPut e _ _ => Some (entry_ref e)
  | TForget scope name _ => Some (scope, name)
  | _ => None
  end.

(** The record a write appended. *)
Definition appends (t : tev) : option Change :=
  match t with
  | TPut _ _ (Ok c) | TForget _ _ (Ok c) => Some c
  | _ => None
  end.

(** What happens around the call's next operation: the operations of other
    sessions before it, the time, and the manifest the product holds. *)
Record moment := MkMoment { moOthers : list op; moNow : Z; moManifest : Manifest }.

Section Exec.
Context {S : Type} `{Store S} (search_of : S -> Searchable) (session : bytes).

Definition answer {X} (s : S) (m : moment) (e : ev X) : S * X :=
  match e with
  | EGet scope name => (s, Get s scope name)
  | EPut e opts => Put s (moNow m) session e opts
  | EForget scope name => Forget s (moNow m) session scope name
  | ESearch scopes query limit o => (s, SearchWith (search_of s) scopes query limit o)
  | ERendered => (s, moManifest m)
  | ENow => (s, moNow m)
  end.

(** The store after the call, what it returned, and each operation it made
    with the store it made it on. *)
Fixpoint exec {A} (p : prog A) (env : nat -> moment) (s : S) : S * A * list (S * tev) :=
  match p with
  | Ret a => (s, a, [])
  | Vis e k =>
      let m := env O in
      let s1 := (run s (moOthers m)).1 in
      let (s2, x) := answer s1 m e in
      let '(s3, a, tr) := exec (k x) (fun i => env (Datatypes.S i)) s2 in
      (s3, a, (s1, seen e x) :: tr)
  end.

(** ** What a call sees *)

Context `{!StoreLaws S}.

(** A store in a state a program reaches. *)
Definition good (s : S) : Prop := store_ok s /\ reachable (MaxEntryBytes s) (store_journal s).

Definition env_ok (env : nat -> moment) : Prop := forall i, Forall op_ok (moOthers (env i)).

(** The answer is the one the store gives. *)
Definition ok_event (s : S) (t : tev) : Prop :=
  good s /\
  match t with
  | TGet scope name r => r = Get s scope name
  | TPut e opts r => exists now, r = (Put s now session e opts).2
  | TForget scope name r => exists now, r = (Forget s now session scope name).2
  | TSearch scopes query limit o r => r = SearchWith (search_of s) scopes query limit o
  | _ => True
  end.

(** The transcripts a program can leave, and what it returns after each. *)
Fixpoint runs {A} (p : prog A) (tr : list (S * tev)) (a : A) : Prop :=
  match p with
  | Ret a' => tr = [] /\ a = a'
  | Vis e k => exists s x tr', tr = (s, seen e x) :: tr' /\ ok_event s (seen e x) /\ runs (k x) tr' a
  end.

Lemma good_run s ops : good s -> Forall op_ok ops -> good (run s ops).1.
Proof.
  intros [Hs Hr] Ho. split; [by apply run_refines|]. by apply run_reachable.
Qed.

Lemma good_do s o : good s -> op_ok o -> good (do s o).1.
Proof. intros [Hs Hr] Ho. split; [by apply do_refines|by apply do_reachable]. Qed.

Lemma answer_spec {X} s m (e : ev X) : good s -> good (answer s m e).1 /\ ok_event s (seen e (answer s m e).2).
Proof.
  intros Hg. destruct e; cbn; try by (split; [|split]).
  - pose proof (good_do s (OPut (moNow m) session e opts) Hg I) as Hd. cbn in Hd.
    destruct (Put s _ _ _ _) as [s' r] eqn:E. split; [done|]. split; [done|]. exists (moNow m). by rewrite E.
  - pose proof (good_do s (OForget (moNow m) session scope name) Hg I) as Hd. cbn in Hd.
    destruct (Forget s _ _ _ _) as [s' r] eqn:E. split; [done|]. split; [done|]. exists (moNow m). by rewrite E.
Qed.

(** Whatever other sessions do, what a call sees is one of its transcripts. *)
Lemma exec_runs {A} (p : prog A) : forall env s,
  good s -> env_ok env -> good (exec p env s).1.1 /\ runs p (exec p env s).2 (exec p env s).1.2.
Proof.
  induction p as [a|X e k IH]; intros env s Hg He; [done|]. cbn [exec runs].
  pose proof (good_run s (moOthers (env O)) Hg (He O)) as Hg1.
  destruct (answer_spec (run s (moOthers (env O))).1 (env O) e Hg1) as [Hg2 Ho].
  destruct (answer (run s _).1 _ e) as [s2 x] eqn:Ea. cbn in Hg2, Ho.
  specialize (IH x (fun i => env (Datatypes.S i)) s2 Hg2 (fun i => He (Datatypes.S i))).
  destruct (exec (k x) _ s2) as [[s3 a] tr]. cbn in *. destruct IH as [Hg3 Hr].
  split; [done|]. eauto 10.
Qed.

Lemma runs_bind {A B} (p : prog A) (f : A -> prog B) : forall tr b,
  runs (bind p f) tr b <-> exists a tr1 tr2, tr = tr1 ++ tr2 /\ runs p tr1 a /\ runs (f a) tr2 b.
Proof.
  induction p as [a|X e k IH]; intros tr b; cbn [bind runs].
  - split; [|by intros (? & ? & ? & -> & [-> ->] & ?)]. intros. by exists a, [], tr.
  - split.
    + intros (s & x & tr' & -> & Ho & (a & tr1 & tr2 & -> & H1 & H2)%IH).
      exists a, ((s, seen e x) :: tr1), tr2. split_and!; [done| |done]. by exists s, x, tr1.
    + intros (a & tr1 & tr2 & -> & (s & x & tr' & -> & Ho & H1) & H2).
      exists s, x, (tr' ++ tr2). split_and!; [done..|]. apply IH. by exists a, tr', tr2.
Qed.

(** Every operation of a transcript is one the store answered. *)
Lemma runs_events {A} (p : prog A) : forall tr a, runs p tr a -> Forall (fun st => ok_event st.1 st.2) tr.
Proof.
  induction p as [a|X e k IH]; intros tr a'; cbn [runs]; [by intros [-> _]|].
  intros (s & x & tr' & -> & Ho & Hr). constructor; [done|]. by eapply IH.
Qed.

(** ** The answers, on the journal *)

Lemma event_get s scope name r :
  ok_event s (TGet scope name r) ->
  good s /\ r = spec_get (store_journal s) scope name.
Proof. intros [Hg ->]. split; [done|]. apply law_get. apply Hg. Qed.

Lemma event_put s e opts r :
  ok_event s (TPut e opts r) ->
  good s /\ exists now, r = spec_put (MaxEntryBytes s) (store_journal s) now session e opts.
Proof.
  intros [Hg [now ->]]. split; [done|]. exists now.
  pose proof (law_put s now session e opts (proj1 Hg)) as L. destruct (Put s now session e opts). apply L.
Qed.

(** An entry read from a store carries the hash of its content. *)
Lemma good_get s scope name e :
  good s -> spec_get (store_journal s) scope name = Ok e ->
  CheckRef scope name = None /\ replay (store_journal s) !! (scope, name) = Some e
  /\ eScope e = scope /\ eName e = name /\ eHash e = Hash (eContent e) /\ Storable e (MaxEntryBytes s).
Proof.
  intros [_ Hr] Hg. unfold spec_get in Hg. destruct (CheckRef scope name); [done|].
  destruct (replay _ !! _) as [e'|] eqn:E; [|done]. injection Hg as ->.
  destruct (live_wf _ _ _ _ (reachable_wf _ _ Hr) E) as (Hh & _ & Hst & Href & _).
  unfold entry_ref in Href. by simplify_eq.
Qed.

Lemma spec_get_NotFound j scope name err :
  spec_get j scope name = Err err -> wraps err = SNotFound ->
  CheckRef scope name = None /\ replay j !! (scope, name) = None.
Proof.
  unfold spec_get, CheckRef, CheckScope. intros Hg Hw.
  destruct (ValidScope scope), (ValidName name); cbn in *; simplify_eq; try done.
  by destruct (replay j !! _).
Qed.

(** What a put that landed found and left. *)
Lemma spec_put_Ok max j now e opts c :
  spec_put max j now session e opts = Ok c ->
  let o := ResolvePutOptions opts in
  let stored := replay j !! entry_ref e in
  cEntry c = stamped now e /\ cPrev c = BaseFor o stored /\ cReplaced c = have_hash stored
  /\ cSession c = session /\ CheckRef (eScope e) (eName e) = None
  /\ (oConditional o = true -> have_hash stored = oIfHash o)
  /\ (oMetaConditional o = true -> have_meta_hash stored = oIfMetaHash o).
Proof.
  unfold spec_put. destruct (CheckEntry e max _) eqn:Ec; [done|].
  destruct (PutOptions_Check _ _ _ _) eqn:Ep; [done|]. intros [= <-]. cbn.
  apply CheckEntry_None in Ec. destruct Ec as [Hsc%ValidName_iff Hn%ValidName_iff _ _ _ _ _].
  split_and!; try done.
  - unfold CheckRef, CheckScope, ValidScope. by rewrite Hsc, Hn.
  - intros Ho. unfold PutOptions_Check in Ep. rewrite Ho in Ep. cbn in Ep.
    by destruct (bool_decide_reflect (have_hash (replay j !! entry_ref e) = oIfHash (ResolvePutOptions opts))).
  - intros Ho. unfold PutOptions_Check in Ep. rewrite Ho in Ep. cbn in Ep.
    destruct (oConditional _ && _); [done|].
    by destruct (bool_decide_reflect (have_meta_hash (replay j !! entry_ref e) = oIfMetaHash (ResolvePutOptions opts))).
Qed.
End Exec.
