(* ===== verification/Tools.v ===== *)
(** * The memory tools: tools.go

    The tools through which a model reaches a store: their options and how
    [Tools] checks them, the schema each carries, the guards a call passes,
    and the handlers, each the program of store operations it makes.
    agenttool's reflection of a Go type, its schema validation and its
    decoding of arguments are parameters; JSON arguments are given as the
    value they parse to. *)

From S2P Require Import Prelude GoStd GoTime Sha256 Memory Store Search Json JsonRead Manifest Calls.

(** ** Names and defaults *)

Definition SaveTool : bytes := bs "memory_save".
Definition PatchTool : bytes := bs "memory_patch".
Definition ForgetTool : bytes := bs "memory_forget".
Definition SearchTool : bytes := bs "memory_search".
Definition InsertTool : bytes := bs "memory_insert".

Definition WriteTools : list bytes := [SaveTool; PatchTool; ForgetTool; InsertTool].

(** [Usage], render.go's paragraph on the tools; it names those every set has. *)
Definition Usage : bytes :=
  bs "The Memory block is what you remember between sessions, rendered from the memory store at the start of each turn; it is not part of the conversation. Save a new fact with memory_save, giving a kebab-case name and a description in meta. Edit an existing entry with memory_patch, giving the exact old_text once and its replacement; prefer it to memory_save, which rewrites the entry whole. Remove an entry with memory_forget. Entries the block omits, and any entry you want to read whole, are reachable with memory_search; its results stay in the conversation, so search for what you need. Each entry's heading shows its size and the limit, and the block's last line shows the budget; a write over the limit is refused with both numbers, so split or trim before you save. Use headings of level four or none inside an entry.".

Example Usage_names : forallb (ContainsStr Usage) [SaveTool; PatchTool; ForgetTool; SearchTool] = true /\ ContainsStr Usage [newline] = false.
Proof. by vm_compute. Qed.

Definition DefaultSearchLimit : Z := 5.
Definition DefaultSearchBytes : Z := Z.shiftl 16 10.
Definition patchAttempts : nat := 4.
Definition insertAttempts : nat := 100.
Definition WriteNS : bytes := bs "agentmemory:write".

(** What a call is refused with; the data is what the message says. *)
Inductive terror :=
| StoreRefused (e : error)
| ErrBlockDropped
| ScopeRequired (choices : list bytes)
| ScopeNotAvailable (s choices : bytes)
| ScopeReadOnly (s : bytes)
| NotFixedName (scope name : bytes) (names : list bytes)
| FixedNotForgotten (scope name : bytes) (names : list bytes)
| OldTextEmpty
| OldTextAbsent (scope name : bytes)
| OldTextRepeated (n : Z) (scope name : bytes)
| PatchNotFound (e : error)
| PatchGaveUp (last : option error)
| InsertGaveUp (last : option error)
| TakesNoInsert (s : bytes) (choices : list bytes)
| QueryEmpty
| NotATime (opt value : bytes)
| SchemaRefused (why : bytes)
| Undecodable (why : bytes).

Definition CheckWrite (m : Manifest) (tool : bytes) : option terror :=
  if Dropped m && Contains WriteTools tool then Some ErrBlockDropped else None.

Record WriteRecord := MkWriteRecord { wrTool : bytes; wrChange : Change }.

(** [agenttool.Result]: the text the model reads, and the details only a
    recorder sees. *)
Record Result := MkResult { rText : bytes; rDetails : option WriteRecord }.

(** ** Options *)

Record toolOptions {Label : Type} := MkToolOptions {
  toSearchLimit : Z;
  toSearchBytes : Z;
  toRendered : bool;
  toReadScopes : list bytes;
  toFixed : gmap bytes (list bytes);
  toInsert : list bytes;
  toSearchReads : option (list Label)
}.
Arguments toolOptions Label : clear implicits.

Section Options.
Context {Label : Type}.
Abbreviation opts := (toolOptions Label).
Definition ToolOption : Type := opts -> opts.

Definition WithSearchLimit (n : Z) : ToolOption := fun o =>
  MkToolOptions _ n (toSearchBytes o) (toRendered o) (toReadScopes o) (toFixed o) (toInsert o) (toSearchReads o).
Definition WithSearchBytes (n : Z) : ToolOption := fun o =>
  MkToolOptions _ (toSearchLimit o) n (toRendered o) (toReadScopes o) (toFixed o) (toInsert o) (toSearchReads o).
(** Whether the product gave a function; what it returns is asked with
    [ERendered]. *)
Definition WithRendered (fn : bool) : ToolOption := fun o =>
  MkToolOptions _ (toSearchLimit o) (toSearchBytes o) fn (toReadScopes o) (toFixed o) (toInsert o) (toSearchReads o).
Definition WithReadScopes (scopes : list bytes) : ToolOption := fun o =>
  MkToolOptions _ (toSearchLimit o) (toSearchBytes o) (toRendered o) (toReadScopes o ++ scopes) (toFixed o)
    (toInsert o) (toSearchReads o).
Definition WithFixedNames (scope : bytes) (names : list bytes) : ToolOption := fun o =>
  MkToolOptions _ (toSearchLimit o) (toSearchBytes o) (toRendered o) (toReadScopes o)
    (<[scope := names]> (toFixed o)) (toInsert o) (toSearchReads o).
Definition WithInsert (scopes : list bytes) : ToolOption := fun o =>
  MkToolOptions _ (toSearchLimit o) (toSearchBytes o) (toRendered o) (toReadScopes o) (toFixed o)
    (toInsert o ++ scopes) (toSearchReads o).
Definition WithSearchReads (labels : list Label) : ToolOption := fun o =>
  MkToolOptions _ (toSearchLimit o) (toSearchBytes o) (toRendered o) (toReadScopes o) (toFixed o) (toInsert o)
    (Some labels).

Definition default_options : opts := MkToolOptions _ DefaultSearchLimit DefaultSearchBytes false [] ∅ [] None.

(** ** What [Tools] panics of *)

Inductive tpanic :=
| PNoScopes
| PScopeNotKebab (s : bytes) | PScopeTwice (s : bytes)
| PReadNotKebab (s : bytes) | PReadTwice (s : bytes) | PReadAndWritable (s : bytes)
| PFixedNotWritable (s : bytes) | PFixedNone (s : bytes) | PFixedNotKebab (n : bytes) | PFixedTwice (n : bytes)
| PInsertNotWritable (s : bytes) | PInsertTwice (s : bytes) | PInsertFixed (s : bytes).

(** The loop [for i, x := range l], with [l[:i]] at hand. *)
Fixpoint each {A E} (f : list A -> A -> option E) (before l : list A) : option E :=
  match l with
  | [] => None
  | x :: l' => match f before x with Some e => Some e | None => each f (before ++ [x]) l' end
  end.

Definition check_writable : list bytes -> option tpanic :=
  each (fun before s =>
    if negb (ValidScope s) then Some (PScopeNotKebab s)
    else if Contains before s then Some (PScopeTwice s) else None) [].

Definition check_read (scopes : list bytes) : list bytes -> option tpanic :=
  each (fun before s =>
    if negb (ValidScope s) then Some (PReadNotKebab s)
    else if Contains before s then Some (PReadTwice s)
    else if Contains scopes s then Some (PReadAndWritable s) else None) [].

Definition check_fixed_names : list bytes -> option tpanic :=
  each (fun before n =>
    if negb (ValidName n) then Some (PFixedNotKebab n)
    else if Contains before n then Some (PFixedTwice n) else None) [].

Definition check_fixed (scopes : list bytes) : list (bytes * list bytes) -> option tpanic :=
  each (fun _ (sn : bytes * list bytes) =>
    if negb (Contains scopes sn.1) then Some (PFixedNotWritable sn.1)
    else if bool_decide (sn.2 = []) then Some (PFixedNone sn.1)
    else check_fixed_names sn.2) [].

Definition check_insert (scopes : list bytes) (fixed : gmap bytes (list bytes)) : list bytes -> option tpanic :=
  each (fun before s =>
    if negb (Contains scopes s) then Some (PInsertNotWritable s)
    else if Contains before s then Some (PInsertTwice s)
    else if negb (bool_decide (default [] (fixed !! s) = [])) then Some (PInsertFixed s) else None) [].

(** The checks of [Tools]; [fixed] is the order its map was iterated in. *)
Definition check_options (scopes : list bytes) (o : opts) (fixed : list (bytes * list bytes)) : option tpanic :=
  match check_read scopes (toReadScopes o) with
  | Some p => Some p
  | None => match check_fixed scopes fixed with
            | Some p => Some p
            | None => check_insert scopes (toFixed o) (toInsert o)
            end
  end.

(** A [toolset], with what it asks of its store that does not change. *)
Record toolset := MkToolset {
  tScopes : list bytes;
  tOpts : opts;
  tMaxEntryBytes : Z;
  tSupport : list bytes
}.

(** The part of [Tools] before the tools are made. *)
Definition new_toolset (max : Z) (support scopes : list bytes) (options : list ToolOption) : res tpanic toolset :=
  check? (if bool_decide (scopes = []) then Some PNoScopes else check_writable scopes) in
  let o := fold_left (fun o opt => opt o) options default_options in
  check? check_options scopes o (map_to_list (toFixed o)) in
  let limit := if toSearchLimit o <=? 0 then DefaultSearchLimit else toSearchLimit o in
  let size := if toSearchBytes o <=? 0 then DefaultSearchBytes else toSearchBytes o in
  Ok (MkToolset scopes (WithSearchBytes size (WithSearchLimit limit o)) max support).

(** ** Scopes *)

Implicit Types t : toolset.

Definition fixed_names t (scope : bytes) : list bytes := default [] (toFixed (tOpts t) !! scope).

Definition scopeList t : bytes :=
  match tScopes t with
  | [s] => bs "Scope: " ++ s ++ bs ", the only one; the argument may be left out."
  | ss => bs "Scopes: " ++ Join (bs ", ") ss ++ bs "; name one on every call."
  end.

Definition readOnlyError (s : bytes) : bytes := bs "scope " ++ s ++ bs " is read-only".

Definition searchable t : list bytes := tScopes t ++ toReadScopes (tOpts t).

Definition searchScopes t : bytes :=
  match searchable t with
  | [s] => bs "Scope: " ++ s ++ bs ", the only one; scopes may be left out."
  | all => bs "Scopes: " ++ Join (bs ", ") all ++ bs "; all of them when scopes is left out."
           ++ (if bool_decide (toReadScopes (tOpts t) = []) then []
               else bs " Read-only, so for reading: " ++ Join (bs ", ") (toReadScopes (tOpts t)) ++ bs ".")
  end.

Definition fixedSave t (scope name : bytes) : option terror :=
  let names := fixed_names t scope in
  if bool_decide (names = []) || Contains names name then None
  else Some (NotFixedName scope name names).

Definition fixedForget t (scope name : bytes) : option terror :=
  let names := fixed_names t scope in
  if Contains names name then Some (FixedNotForgotten scope name names) else None.

Definition scope t (s : bytes) : res terror bytes :=
  if bool_decide (s = []) then
    match tScopes t with
    | [only] => Ok only
    | ss => Err (ScopeRequired ss)
    end
  else if Contains (tScopes t) s then Ok s
  else if Contains (toReadScopes (tOpts t)) s then Err (ScopeReadOnly s)
  else Err (ScopeNotAvailable s (scopeList t)).

Definition readScope t (s : bytes) : res terror bytes :=
  if Contains (searchable t) s then Ok s else Err (ScopeNotAvailable s (searchScopes t)).

Definition insertScope t (s : bytes) : res terror bytes :=
  let ins := toInsert (tOpts t) in
  if bool_decide (s = []) then
    match ins with
    | [only] => Ok only
    | _ => Err (ScopeRequired ins)
    end
  else if Contains ins s then Ok s
  else if Contains (toReadScopes (tOpts t)) s then Err (ScopeReadOnly s)
  else Err (TakesNoInsert s ins).
End Options.
Arguments toolset Label : clear implicits.
Arguments ToolOption Label : clear implicits.

(** ** Arguments and results *)

Record saveArgs := MkSaveArgs { saScope : bytes; saName : bytes; saContent : bytes; saMeta : option (gmap bytes bytes) }.
Record patchArgs := MkPatchArgs { paScope : bytes; paName : bytes; paOldText : bytes; paNewText : bytes }.
Record insertArgs := MkInsertArgs { iaScope : bytes; iaContent : bytes; iaMeta : option (gmap bytes bytes) }.
Record forgetArgs := MkForgetArgs { faScope : bytes; faName : bytes }.
Record searchArgs := MkSearchArgs {
  qaQuery : bytes; qaScopes : list bytes; qaLimit : Z; qaAny : bool; qaMeta : option (gmap bytes bytes);
  qaUpdatedAfter : bytes; qaUpdatedBefore : bytes }.

Definition searchOptionArgs : list bytes := [SearchAny; SearchMeta; SearchUpdatedAfter; SearchUpdatedBefore].

Definition Text (s : bytes) : Result := MkResult s None.

Definition wrote (tool : bytes) (c : Change) (text : bytes) : res terror Result :=
  Ok (MkResult text (Some (MkWriteRecord tool c))).

(** "%s/%s". *)
Definition at_ref (scope name : bytes) : bytes := scope ++ bs "/" ++ name.

Definition new_entry (scope name content : bytes) (meta : option (gmap bytes bytes)) : Entry :=
  MkEntry scope name content meta [] [] 0 false.

Definition metaKeys (meta : option (gmap bytes bytes)) : bytes := Join (bs ", ") (sorted_keys (meta_map meta)).

Definition no_meta (meta : option (gmap bytes bytes)) : bool := bool_decide (size (meta_map meta) = O).

Definition savedWhat (stored : option Entry) : bytes :=
  match stored with
  | None => bs "created"
  | Some e => bs "replaced " ++ Itoa (Size e) ++ bs " bytes"
  end.

Definition metaWhat (stored : option Entry) (given final : option (gmap bytes bytes)) : bytes :=
  let no_stored := match stored with None => true | Some e => no_meta (eMeta e) end in
  if no_meta final && no_stored then bs "no meta"
  else if no_meta final then bs "meta cleared"
  else match given, stored with
       | None, _ => bs "meta kept (" ++ metaKeys final ++ bs ")"
       | Some _, None => bs "meta set (" ++ metaKeys final ++ bs ")"
       | Some _, Some _ => bs "meta replaced (" ++ metaKeys final ++ bs ")"
       end.

(** [agentmemory.InsertName]. *)
Definition InsertName (at_ : Z) (content : bytes) (n : Z) : bytes :=
  Format_compact at_ ++ bs "-" ++ take 8 (drop 7 (Hash content))
  ++ (if 2 <=? n then bs "-" ++ Itoa n else []).

Section Handlers.
Context {Label : Type}.
Implicit Types t : toolset Label.
Abbreviation outcome := (prog (res terror Result)).

(** The manifest a call read is carried by its context, [ctx]. *)
Definition read t : prog (res terror (option Manifest)) :=
  if toRendered (tOpts t) then
    call m := ERendered in
    if Dropped m then Ret (Err ErrBlockDropped) else Ret (Ok (Some m))
  else Ret (Ok None).

Definition rendered t (ctx : option Manifest) : prog (option Manifest) :=
  match ctx with
  | Some m => Ret (Some m)
  | None => if toRendered (tOpts t) then call m := ERendered in Ret (Some m) else Ret None
  end.

(** The hash the block showed for an entry, if it showed it. *)
Definition shown_in (m : option Manifest) (scope name : bytes) : option bytes :=
  match m with
  | None => None
  | Some m => meHash <$> List.find (fun me => bool_decide (meScope me = scope /\ meName me = name)) (mEntries m)
  end.

Definition shown t (ctx : option Manifest) (scope name : bytes) : prog (option bytes) :=
  let! m := rendered t ctx in Ret (shown_in m scope name).

Definition basedWhat t (stored : option Entry) (from_block : option bytes) : bytes :=
  if negb (toRendered (tOpts t)) then []
  else match from_block, stored with
       | None, None => []
       | None, Some _ => bs "; built on the stored entry, which the block did not show"
       | Some _, None => bs "; built on the block, but the entry was forgotten after the block was rendered and this write created it again"
       | Some h, Some e =>
           if bool_decide (eHash e = h) then bs "; built on the block"
           else bs "; built on the block's " ++ h ++ bs ", but the entry changed to " ++ eHash e
                ++ bs " after the block was rendered and this write replaced that change; read it with memory_search if the change mattered"
       end.

(** The options every attempt of a save writes under. *)
Definition save_base (from_block : option bytes) (stored : option Entry) : list PutOption :=
  BasedOn (match from_block, stored with
           | Some h, _ => h
           | None, Some e => eHash e
           | None, None => []
           end)
  :: match stored with None => [IfMetaHash []] | Some _ => [] end.

(** The entry an attempt writes and its options, [stored] being what was
    read last: a save that leaves meta out keeps it, on condition. *)
Definition save_attempt (scope : bytes) (a : saveArgs) (base : list PutOption) (stored : option Entry)
    : Entry * list PutOption :=
  match stored, saMeta a with
  | Some e, None => (new_entry scope (saName a) (saContent a) (eMeta e), base ++ [IfMetaHash (MetaHash (eMeta e))])
  | _, _ => (new_entry scope (saName a) (saContent a) (saMeta a), base)
  end.

Definition meta_conflict (e : error) : bool :=
  match e with ErrConflict ce => ceMeta ce | _ => false end.

(** A read that says whether there is an entry. *)
Definition stored_of (r : res error Entry) : res error (option Entry) :=
  match r with
  | Ok e => Ok (Some e)
  | Err e => match wraps e with SNotFound => Ok None | _ => Err e end
  end.

(** The attempts of a save, [more] of them left after this one. *)
Fixpoint save_loop (more : nat) (scope : bytes) (a : saveArgs) (base : list PutOption) (stored : option Entry)
    : prog (res terror (option Entry * Entry * Change)) :=
  let (e, opts) := save_attempt scope a base stored in
  call r := EPut e opts in
  match r with
  | Ok c => Ret (Ok (stored, e, c))
  | Err err =>
      let kept := bool_decide (is_Some stored) && bool_decide (saMeta a = None) in
      match more with
      | O => Ret (Err (StoreRefused err))
      | S more' =>
          if negb kept || negb (meta_conflict err) then Ret (Err (StoreRefused err))
          else
            call g := EGet scope (saName a) in
            match stored_of g with
            | Ok stored' => save_loop more' scope a base stored'
            | Err err => Ret (Err (StoreRefused err))
            end
      end
  end.

Definition save t (ctx : option Manifest) (a : saveArgs) : outcome :=
  let* sc := scope t (saScope a) in
  match fixedSave t sc (saName a) with
  | Some err => Ret (Err err)
  | None =>
      call g := EGet sc (saName a) in
      match stored_of g with
      | Err err => Ret (Err (StoreRefused err))
      | Ok stored =>
          let! from_block := shown t ctx sc (saName a) in
          let! r := save_loop (patchAttempts - 1) sc a (save_base from_block stored) stored in
          let* (stored, e, c) := r in
          Ret (wrote SaveTool c
            (bs "Saved " ++ at_ref sc (saName a) ++ bs " (" ++ Itoa (blen (saContent a)) ++ bs " of "
             ++ Itoa (tMaxEntryBytes t) ++ bs " bytes) " ++ Hash (saContent a) ++ bs " — " ++ savedWhat stored
             ++ bs "; " ++ metaWhat stored (saMeta a) (eMeta e) ++ basedWhat t stored from_block))
      end
  end.

(** The entry read, with the edit made. *)
Definition with_content (e : Entry) (content : bytes) : Entry :=
  MkEntry (eScope e) (eName e) content (eMeta e) (eHash e) (eMetaHash e) (eUpdated e) (eDeleted e).

Fixpoint patch_loop (attempts : nat) (last : option error) t (sc : bytes) (a : patchArgs) : outcome :=
  match attempts with
  | O => Ret (Err (PatchGaveUp last))
  | S attempts' =>
      call g := EGet sc (paName a) in
      match g with
      | Err err => match wraps err with
                   | SNotFound => Ret (Err (PatchNotFound err))
                   | _ => Ret (Err (StoreRefused err))
                   end
      | Ok cur =>
          let n := Count (eContent cur) (paOldText a) in
          if n =? 0 then Ret (Err (OldTextAbsent sc (paName a)))
          else if 1 <? n then Ret (Err (OldTextRepeated n sc (paName a)))
          else
            let next := with_content cur (ReplaceOne (eContent cur) (paOldText a) (paNewText a)) in
            call r := EPut next [IfHash (eHash cur); IfMetaHash (MetaHash (eMeta cur))] in
            match r with
            | Ok c => Ret (wrote PatchTool c
                (bs "Patched " ++ at_ref sc (paName a) ++ bs " (" ++ Itoa (blen (eContent next)) ++ bs " of "
                 ++ Itoa (tMaxEntryBytes t) ++ bs " bytes) " ++ Hash (eContent next)))
            | Err err => match wraps err with
                         | SConflict => patch_loop attempts' (Some err) t sc a
                         | _ => Ret (Err (StoreRefused err))
                         end
            end
      end
  end.

Definition patch t (ctx : option Manifest) (a : patchArgs) : outcome :=
  let* sc := scope t (paScope a) in
  if bool_decide (paOldText a = []) then Ret (Err OldTextEmpty)
  else patch_loop patchAttempts None t sc a.

Definition forget t (ctx : option Manifest) (a : forgetArgs) : outcome :=
  let* sc := scope t (faScope a) in
  match fixedForget t sc (faName a) with
  | Some err => Ret (Err err)
  | None =>
      call r := EForget sc (faName a) in
      match r with
      | Ok c => Ret (wrote ForgetTool c (bs "Forgot " ++ at_ref sc (faName a)))
      | Err err => Ret (Err (StoreRefused err))
      end
  end.

Fixpoint insert_loop (attempts : nat) (n : Z) (last : option error) t (sc : bytes) (a : insertArgs) (at_ : Z) : outcome :=
  match attempts with
  | O => Ret (Err (InsertGaveUp last))
  | S attempts' =>
      let name := InsertName at_ (iaContent a) n in
      call r := EPut (new_entry sc name (iaContent a) (iaMeta a)) [IfHash []] in
      match r with
      | Ok c => Ret (wrote InsertTool c
          (bs "Inserted " ++ at_ref sc name ++ bs " (" ++ Itoa (blen (iaContent a)) ++ bs " of "
           ++ Itoa (tMaxEntryBytes t) ++ bs " bytes) " ++ eHash (cEntry c)))
      | Err err => match wraps err with
                   | SConflict => insert_loop attempts' (n + 1) (Some err) t sc a at_
                   | _ => Ret (Err (StoreRefused err))
                   end
      end
  end.

Definition insertEntry t (ctx : option Manifest) (a : insertArgs) : outcome :=
  let* sc := insertScope t (iaScope a) in
  call at_ := ENow in
  insert_loop insertAttempts 1 None t sc a at_.

(** ** Search *)

Fixpoint read_scopes t (l : list bytes) : res terror (list bytes) :=
  match l with
  | [] => Ok []
  | s :: l' => let? sc := readScope t s in let? rest := read_scopes t l' in Ok (sc :: rest)
  end.

(** A bound: the zero time when none is given. *)
Definition time_bound (opt value : bytes) : res terror Z :=
  if bool_decide (value = []) then Ok 0
  else match Parse_RFC3339Nano value with
       | Some at_ => Ok at_
       | None => Err (NotATime opt value)
       end.

(** The part of the result for an entry shown. *)
Definition show_entry (e : Entry) : bytes :=
  nl ++ at_ref (eScope e) (eName e) ++ bs " (" ++ Itoa (Size e) ++ bs " bytes)"
  ++ (if bool_decide (Description e = []) then [] else bs ": " ++ Description e)
  ++ nl ++ eContent e ++ (if HasSuffix (eContent e) nl then [] else nl).

Definition list_entry (e : Entry) : bytes :=
  at_ref (eScope e) (eName e) ++ bs " (" ++ Itoa (Size e) ++ bs " bytes)".

(** The loop over what was found: the text so far, the content bytes shown
    and the entries left unshown. *)
Definition search_step (bound : Z) (st : bytes * Z * list bytes) (e : Entry) : bytes * Z * list bytes :=
  let '(b, n, unshown) := st in
  if bound <? n + Size e then (b, n, unshown ++ [list_entry e])
  else (b ++ show_entry e, n + Size e, unshown).

Definition plural (n : Z) (one many : bytes) : bytes := if n =? 1 then one else many.

Context (is_print : bytes -> bool).

Definition search_header (found : list Entry) (searched query : bytes) : bytes :=
  Itoa (blen found) ++ bs " " ++ plural (blen found) (bs "match") (bs "matches") ++ bs " in " ++ searched
  ++ bs " for " ++ Quote is_print query ++ bs "." ++ nl.

Definition search_notice (bound : Z) (unshown : list bytes) : bytes :=
  if bool_decide (unshown = []) then []
  else nl ++ bs "Not shown, over the " ++ Itoa bound ++ bs " byte result limit; search for them by name: "
       ++ Join (bs ", ") unshown ++ nl.

Definition search_text (bound : Z) (found : list Entry) (searched query : bytes) : bytes :=
  let '(b, _, unshown) := foldl (search_step bound) (search_header found searched query, 0, []) found in
  b ++ search_notice bound unshown.

Definition search t (a : searchArgs) : outcome :=
  if bool_decide (TrimSpace (qaQuery a) = []) then Ret (Err QueryEmpty)
  else
    let* scopes := (if bool_decide (qaScopes a = []) then Ok (searchable t) else read_scopes t (qaScopes a)) in
    let limit := if qaLimit a <=? 0 then toSearchLimit (tOpts t) else qaLimit a in
    let* after := time_bound SearchUpdatedAfter (qaUpdatedAfter a) in
    let* before := time_bound SearchUpdatedBefore (qaUpdatedBefore a) in
    call r := ESearch scopes (qaQuery a) limit (MkSearchOptions (qaAny a) (qaMeta a) after before) in
    match r with
    | Err err => Ret (Err (StoreRefused err))
    | Ok found =>
        let searched := Join (bs ", ") scopes in
        if bool_decide (found = []) then
          Ret (Ok (Text (bs "No entries in " ++ searched ++ bs " match " ++ Quote is_print (qaQuery a) ++ bs ".")))
        else Ret (Ok (Text (search_text (toSearchBytes (tOpts t)) found searched (qaQuery a))))
    end.
End Handlers.

(** ** Descriptions *)

Section Descriptions.
Context {Label : Type} (is_print : bytes -> bool).
Implicit Types t : toolset Label.

Definition fixed_sentence t (s : bytes) : bytes :=
  match fixed_names t s with
  | [] => []
  | names => bs " Scope " ++ s ++ bs " holds the fixed entries " ++ Join (bs ", ") names
             ++ bs ": memory_save writes only those names there, and memory_forget does not remove them."
  end.

Definition read_only_sentence (s : bytes) : bytes :=
  bs " Scope " ++ s ++ bs " is read-only: memory_search reads it, and a write to it is refused with "
  ++ Quote is_print (readOnlyError s) ++ bs ".".

Definition writerScopes t : bytes :=
  scopeList t ++ concat (fixed_sentence t <$> tScopes t)
  ++ concat (read_only_sentence <$> toReadScopes (tOpts t)).

Definition saveDescription t : bytes :=
  bs "Create a memory entry, or replace one whole. To edit an existing entry prefer memory_patch, which sends only the change. Content is Markdown of at most "
  ++ Itoa (tMaxEntryBytes t)
  ++ bs " bytes; a larger write is refused with the sizes. Give a description in meta so the entry can be found. meta replaces the entry's metadata when you give it and keeps what is there when you leave it out, so send an empty object to clear it. The result says what the write replaced and what became of the metadata. "
  ++ writerScopes t.

Definition patchDescription t : bytes :=
  bs "Edit a memory entry by replacing old_text with new_text. old_text must appear exactly once in the entry, copied exactly; the call fails and says so when it is absent or repeated. The memory block shows headings of levels one to three at level four and escapes a line that starts with <, so copy such text from memory_search, which shows the entry as stored. Prefer this to memory_save for an edit: the call is the size of the change, and the edit is anchored in the stored text, so a change another session made in the meantime is kept. "
  ++ writerScopes t.

Definition forgetDescription t : bytes :=
  bs "Remove a memory entry. The store's journal keeps its last content. " ++ writerScopes t.

Definition insertDescription t : bytes :=
  bs "Add a passage to memory without naming it: the entry is named for the time and the content, never overwrites another, and the result says its name. Use it for a fact that belongs in no entry you would name; find it again with memory_search. Content is Markdown of at most "
  ++ Itoa (tMaxEntryBytes t) ++ bs " bytes. "
  ++ match toInsert (tOpts t) with
     | [s] => bs "Scope: " ++ s ++ bs ", the only one; the argument may be left out."
     | ins => bs "Scopes: " ++ Join (bs ", ") ins ++ bs "; name one on every call."
     end.

Definition optionsSentence t : bytes :=
  let have := tSupport t in
  let bounds := filter (fun n => Contains have n = true) [SearchUpdatedAfter; SearchUpdatedBefore] in
  let parts :=
    (if Contains have SearchAny then [bs "any matches an entry holding any of the words, best first"] else [])
    ++ (if Contains have SearchMeta then [bs "meta keeps entries whose metadata has those values"] else [])
    ++ (if bool_decide (bounds = []) then []
        else [Join (bs " and ") bounds ++ bs " bound when an entry was last written"]) in
  if bool_decide (parts = []) then [] else bs " Options: " ++ Join (bs "; ") parts ++ bs ".".

Definition searchDescription t : bytes :=
  bs "Find memory entries: the ones the memory block omits, or one to read whole before editing it. Every word of the query must appear in an entry's name, one of its metadata values, such as its description, or its content, in any case."
  ++ optionsSentence t ++ bs " Returns up to " ++ Itoa (toSearchLimit (tOpts t))
  ++ bs " entries unless limit says otherwise, and at most " ++ Itoa (toSearchBytes (tOpts t))
  ++ bs " bytes of content; the rest are listed by name. Results stay in the conversation, so search for what you need and no more. "
  ++ searchScopes t.
End Descriptions.

(** ** Schemas and calls *)

(** The parts of [agenttool.Schema] the sources set. *)
Record Property := MkProperty {
  pName : bytes; pDescription : bytes; pEnum : list bytes; pItems : option (list bytes) }.
Record Schema := MkSchema { scProperties : list Property; scRequired : list bytes }.

(** The body of [scopeSchema]'s loop. *)
Definition scope_property (scopes : list bytes) (p : Property) : Property :=
  if bool_decide (pName p = bs "scope") then
    MkProperty (pName p)
      (if 1 <? blen scopes then bs "Which memory the entry belongs to; name one of the values" else pDescription p)
      scopes (pItems p)
  else if bool_decide (pName p = bs "scopes") then
    MkProperty (pName p) (pDescription p) (pEnum p) (match pItems p with Some _ => Some scopes | None => None end)
  else p.

(** [scopeSchema], of what agenttool reflects from the argument type. *)
Definition scopeSchema (tree : Schema) (scopes drop : list bytes) : Schema :=
  let props := filter (fun p => Contains drop (pName p) = false) (scProperties tree) in
  let required := filter (fun n => Contains drop n = false) (scRequired tree) in
  let scoped := filter (fun p => pName p = bs "scope") props in
  MkSchema (scope_property scopes <$> props)
    ((if 1 <? blen scopes then (fun _ => bs "scope") <$> scoped else []) ++ required).

(** [json.Unmarshal] into a struct of one string field, "scope". *)
Definition unmarshal_scope (v : json) : option bytes := decode_struct [(bs "scope", decode_string)] v [].

(** [args] is the call's arguments, [None] when they are not JSON. *)
Definition refuseReadOnly (args : option json) (readOnly : list bytes) : option terror :=
  if bool_decide (readOnly = []) then None
  else match args with
       | None => None
       | Some v => match unmarshal_scope v with
                   | None => None
                   | Some s => if Contains readOnly s then Some (ScopeReadOnly s) else None
                   end
       end.

Record Annotations := MkAnnotations { anTitle : bytes; anReadOnly : bool; anDestructive : bool }.
Inductive Replay := ReplayUnknown | ReplaySafe.

Section MakeTools.
Context {Label : Type} (LabelUntrusted : Label) (is_print : bytes -> bool).
(** agenttool: the schema of a tool's argument type, the check of arguments
    against a schema, and their decoding. *)
Context (Reflect : bytes -> Schema) (ValidateJSON : Schema -> option json -> option bytes).
Context (decode_save : option json -> res bytes saveArgs) (decode_patch : option json -> res bytes patchArgs)
  (decode_forget : option json -> res bytes forgetArgs) (decode_search : option json -> res bytes searchArgs)
  (decode_insert : option json -> res bytes insertArgs).
Implicit Types t : toolset Label.

Record Tool := MkTool {
  tlName : bytes;
  tlDescription : bytes;
  tlSchema : Schema;
  tlAnnotations : Annotations;
  tlReplay : Replay;
  tlReads : option (list Label);
  tlCall : option json -> prog (res terror Result)
}.

(** What runs once the writers' guard has passed. *)
Definition guarded {Args} (schema : Schema) (readOnly : list bytes) (decode : option json -> res bytes Args)
    (fn : option Manifest -> Args -> prog (res terror Result)) (args : option json) (ctx : option Manifest)
    : prog (res terror Result) :=
  match refuseReadOnly args readOnly with
  | Some err => Ret (Err err)
  | None =>
      match ValidateJSON schema args with
      | Some w => Ret (Err (SchemaRefused w))
      | None => match decode args with
                | Err w => Ret (Err (Undecodable w))
                | Ok a => fn ctx a
                end
      end
  end.

Definition tool {Args} (name description : bytes) (decode : option json -> res bytes Args)
    (fn : option Manifest -> Args -> prog (res terror Result)) (scopes readOnly : list bytes)
    (refuse : option (prog (res terror (option Manifest)))) (a : Annotations) (replay : Replay)
    (reads : option (list Label)) (drop : list bytes) : Tool :=
  let schema := scopeSchema (Reflect name) scopes drop in
  MkTool name description schema a replay reads
    (fun args =>
       match refuse with
       | Some r => let! ctx := r in let* ctx := ctx in guarded schema readOnly decode fn args ctx
       | None => guarded schema readOnly decode fn args None
       end).

Definition searchReads t : list Label :=
  match toSearchReads (tOpts t) with Some labels => labels | None => [LabelUntrusted] end.

Definition unsupported t : list bytes := filter (fun n => Contains (tSupport t) n = false) searchOptionArgs.

Definition make_tools t : list Tool :=
  let scopes := tScopes t in
  let reads := toReadScopes (tOpts t) in
  let guard := Some (read t) in
  [tool SaveTool (saveDescription is_print t) decode_save (save t) scopes reads guard
     (MkAnnotations (bs "Save memory entry") false true) ReplayUnknown None [];
   tool PatchTool (patchDescription is_print t) decode_patch (patch t) scopes reads guard
     (MkAnnotations (bs "Edit memory entry") false false) ReplayUnknown None [];
   tool ForgetTool (forgetDescription is_print t) decode_forget (forget t) scopes reads guard
     (MkAnnotations (bs "Forget memory entry") false true) ReplayUnknown None [];
   tool SearchTool (searchDescription t) decode_search (fun _ => search is_print t) (searchable t) [] None
     (MkAnnotations (bs "Search memory") true false) ReplaySafe (Some (searchReads t)) (unsupported t)]
  ++ (if bool_decide (toInsert (tOpts t) = []) then []
      else [tool InsertTool (insertDescription t) decode_insert (insertEntry t) (toInsert (tOpts t)) reads guard
              (MkAnnotations (bs "Insert memory entry") false false) ReplayUnknown None []]).

(** [Tools] over a store of bound [max] whose searcher supports [support]. *)
Definition Tools (max : Z) (support scopes : list bytes) (options : list (ToolOption Label)) : res tpanic (list Tool) :=
  let? t := new_toolset max support scopes options in Ok (make_tools t).
End MakeTools.
Arguments Tool Label : clear implicits.
