(* ===== verification/ToolLaws.v ===== *)
(** * What the tools promise: the properties of tools.go

    Each is over every store with the laws and every interleaving of a call
    with other sessions' operations; the witnesses run on [MemStore]. *)

From S2P Require Import Prelude GoStd GoTime Sha256 Memory Store MemStore Contract Search Json JsonRead Manifest Calls Tools.

(** A transcript that appended nothing. *)
Definition silent {S} (tr : list (S * tev)) : Prop := Forall (fun st => appends st.2 = None) tr.

Lemma silent_app {S} (l k : list (S * tev)) : silent (l ++ k) <-> silent l /\ silent k.
Proof. apply Forall_app. Qed.

Lemma silent_nil {S} : silent (@nil (S * tev)).
Proof. constructor. Qed.

Lemma silent_cons {S} (st : S * tev) l : silent (st :: l) <-> appends st.2 = None /\ silent l.
Proof. unfold silent. by rewrite Forall_cons. Qed.

#[export] Hint Resolve silent_nil : mem.

Section Laws.
Context {S : Type} `{StoreLaws S} (search_of : S -> Searchable) (session : bytes).
Context {Label : Type}.
Implicit Types (t : toolset Label) (s : S).

Abbreviation exec := (exec search_of session).
Abbreviation runs := (runs search_of session).

(** ** memory_patch *)

(** [y] is [x] with its one occurrence of [old] replaced by [new]. *)
Definition edit_of (old new x y : bytes) : Prop :=
  Count x old = 1 /\ exists before after, x = before ++ old ++ after /\ y = before ++ new ++ after.

(** What a patch that landed did: its last operation is the write [c], of an
    edit of the entry [cur] it had read, onto the entry [e0] then stored,
    which had the content and the metadata of [cur]. *)
Definition patched (sc : bytes) (a : patchArgs) (tr : list (S * tev)) (c : Change) : Prop :=
  exists tr0 s0 s1 next opts cur e0,
    tr = tr0 ++ [(s1, TPut next opts (Ok c))] /\ silent tr0
    /\ (s0, TGet sc (paName a) (Ok cur)) ∈ tr0
    /\ Get s1 sc (paName a) = Ok e0
    /\ change_ref c = (sc, paName a)
    /\ edit_of (paOldText a) (paNewText a) (eContent cur) (eContent (cEntry c))
    /\ meta_map (eMeta (cEntry c)) = meta_map (eMeta cur)
    /\ (eContent e0 = eContent cur \/ Collision (eContent e0) (eContent cur))
    /\ MetaHash (eMeta e0) = MetaHash (eMeta cur)
    /\ cPrev c = eHash e0 /\ cReplaced c = eHash e0.

Lemma patched_cons sc a st tr c : appends st.2 = None -> patched sc a tr c -> patched sc a (st :: tr) c.
Proof.
  intros Hs (tr0 & s0 & s1 & next & opts & cur & e0 & -> & Htr & Hin & Hrest).
  exists (st :: tr0), s0, s1, next, opts, cur, e0. split_and!; [done|by apply silent_cons|by right|apply Hrest..].
Qed.

Lemma read_hash_collision e0 cur :
  eHash e0 = Hash (eContent e0) -> eHash cur = Hash (eContent cur) -> eHash e0 = eHash cur ->
  eContent e0 = eContent cur \/ Collision (eContent e0) (eContent cur).
Proof.
  intros Hh0 Hc E. destruct (decide (eContent e0 = eContent cur)); [by left|]. right. split; congruence.
Qed.

(** The write of a patch that landed. *)
Lemma patch_write s0 s1 sc a cur opts c :
  paOldText a <> [] -> Count (eContent cur) (paOldText a) = 1 ->
  opts = [IfHash (eHash cur); IfMetaHash (MetaHash (eMeta cur))] ->
  let next := with_content cur (ReplaceOne (eContent cur) (paOldText a) (paNewText a)) in
  ok_event search_of session s0 (TGet sc (paName a) (Ok cur)) ->
  ok_event search_of session s1 (TPut next opts (Ok c)) ->
  patched sc a [(s0, TGet sc (paName a) (Ok cur)); (s1, TPut next opts (Ok c))] c.
Proof.
  intros Hold Hc1 -> next Hg Hp. apply event_get in Hg as [Hg0 Hg]. symmetry in Hg.
  destruct (good_get s0 _ _ _ Hg0 Hg) as (Href & _ & Hsc & Hn & Hh & _).
  apply event_put in Hp as [Hg1 [now Hp]]. symmetry in Hp. apply spec_put_Ok in Hp. cbn in Hp.
  destruct Hp as (He & Hprev & Hrep & _ & _ & Hc & Hm). specialize (Hc eq_refl). specialize (Hm eq_refl).
  assert (Er : entry_ref next = (sc, paName a)) by (unfold entry_ref; cbn; congruence). rewrite Er in *.
  destruct (replay (store_journal s1) !! (sc, paName a)) as [e0|] eqn:E0.
  2: { cbn in Hc. rewrite Hh in Hc. by destruct (Hash_nonempty (eContent cur)). }
  assert (Hget : spec_get (store_journal s1) sc (paName a) = Ok e0).
  { unfold spec_get. by rewrite Href, E0. }
  destruct (good_get s1 _ _ _ Hg1 Hget) as (_ & _ & _ & _ & Hh0 & _). cbn in Hc, Hm.
  destruct (Count_one _ _ Hold Hc1) as (b & f & Ec & _ & Hrepl).
  exists [(s0, TGet sc (paName a) (Ok cur))], s0, s1, next, [IfHash (eHash cur); IfMetaHash (MetaHash (eMeta cur))], cur, e0.
  split_and!; try done.
  - by repeat constructor.
  - left.
  - rewrite law_get by apply Hg1. done.
  - unfold change_ref. by rewrite He.
  - split; [done|]. exists b, f. rewrite He. split; [done|]. apply Hrepl.
  - rewrite He. apply (meta_map_stamped now next).
  - by apply read_hash_collision.
  - by rewrite Hprev.
Qed.

Lemma patch_loop_effect n : forall last t sc a tr r,
  paOldText a <> [] -> runs (patch_loop n last t sc a) tr r ->
  match r with
  | Err _ => silent tr
  | Ok res => exists c, rDetails res = Some (MkWriteRecord PatchTool c) /\ patched sc a tr c
  end.
Proof.
  induction n as [|n IH]; intros last t sc a tr r Hold; cbn [patch_loop].
  { cbn. intros [-> ->]. constructor. }
  cbn [Calls.runs]. intros (s0 & g & tr1 & -> & Hg & Hr). destruct g as [cur|err]; cbn [seen] in *.
  2: { destruct (wraps err); cbn in Hr; destruct Hr as [-> ->]; by repeat constructor. }
  destruct (Z.eqb_spec (Count (eContent cur) (paOldText a)) 0) as [|Hz].
  { cbn in Hr. destruct Hr as [-> ->]. by repeat constructor. }
  destruct (Z.ltb_spec 1 (Count (eContent cur) (paOldText a))) as [|Hle].
  { cbn in Hr. destruct Hr as [-> ->]. by repeat constructor. }
  pose proof (count_loop_nonneg (Datatypes.S (length (eContent cur))) (eContent cur) (paOldText a)) as Hnn.
  fold (Count (eContent cur) (paOldText a)) in Hnn.
  cbn [Calls.runs] in Hr. destruct Hr as (s1 & p & tr2 & -> & Hp & Hr). cbn [seen] in *.
  destruct p as [c|err].
  - cbn in Hr. destruct Hr as [-> ->]. exists c. split; [done|]. by apply patch_write; [|lia|..].
  - destruct (wraps err); try (cbn in Hr; destruct Hr as [-> ->]; by repeat constructor).
    specialize (IH _ _ _ _ _ _ Hold Hr). destruct r as [res|e].
    + destruct IH as (c & Hd & Hc). exists c. split; [done|]. by do 2 (apply patched_cons; [done|]).
    + by repeat constructor.
Qed.

(** C27: A patch keeps what other sessions wrote. Whatever they do between
    its operations, a patch that succeeds makes one write, of the text it
    read with the one occurrence of old_text replaced, in place of an entry
    whose content and metadata are still the ones it read, up to a SHA-256
    collision; the record is chained to that entry and is the one its result
    carries. A patch that fails wrote nothing. *)
Theorem patch_effect t ctx a env s :
  good s -> env_ok env ->
  let '(_, r, tr) := exec (patch t ctx a) env s in
  match r with
  | Err _ => silent tr
  | Ok res => exists sc c, scope t (paScope a) = Ok sc
      /\ rDetails res = Some (MkWriteRecord PatchTool c) /\ patched sc a tr c
  end.
Proof.
  intros Hg He. destruct (exec_runs search_of session (patch t ctx a) env s Hg He) as [_ Hr].
  destruct (exec (patch t ctx a) env s) as [[s' r] tr]. cbn [fst snd] in Hr. unfold patch in Hr.
  destruct (scope t (paScope a)) as [sc|err]; [|cbn in Hr; destruct Hr as [-> ->]; constructor].
  case_bool_decide as Ho; [cbn in Hr; destruct Hr as [-> ->]; constructor|].
  apply patch_loop_effect in Hr; [|done]. destruct r as [res|err]; [|done].
  destruct Hr as (c & Hd & Hc). by exists sc, c.
Qed.

(** ** memory_save *)

Definition read_meta_hash (r : res error Entry) : bytes :=
  match r with Ok e => MetaHash (eMeta e) | Err _ => [] end.

(** The context of a call that passed the writers' guard carries the
    manifest exactly when the product gives one. *)
Definition carried t (ctx : option Manifest) : Prop := toRendered (tOpts t) = bool_decide (is_Some ctx).

(** A retry of the save that began on [r0] found the entry gone. *)
Definition vanished (sc name : bytes) (r0 : res error Entry) (mid : list (S * tev)) : Prop :=
  (exists e0, r0 = Ok e0) /\ exists s err, (s, TGet sc name (Err err)) ∈ mid.

(** What a save that landed did: it read [r0], and its last operation is the
    write [c], on the store [s1]. *)
Definition saved (ctx : option Manifest) (sc : bytes) (a : saveArgs) (tr : list (S * tev)) (c : Change) : Prop :=
  exists s0 r0 mid s1 e opts,
    tr = (s0, TGet sc (saName a) r0) :: mid ++ [(s1, TPut e opts (Ok c))] /\ silent mid
    /\ change_ref c = (sc, saName a) /\ eContent (cEntry c) = saContent a
    /\ cReplaced c = read_hash (Get s1 sc (saName a))
    /\ cPrev c = match shown_in ctx sc (saName a) with Some h => h | None => read_hash r0 end
    /\ match saMeta a with
       | Some m => meta_map (eMeta (cEntry c)) = m
       | None => MetaHash (eMeta (cEntry c)) = read_meta_hash (Get s1 sc (saName a))
                 \/ eMeta (cEntry c) = None /\ vanished sc (saName a) r0 mid
       end.

Lemma save_loop_effect n sc a base : forall stored tr r,
  runs (save_loop n sc a base stored) tr r ->
  match r with
  | Err _ => silent tr
  | Ok (stored', e, c) => exists mid s1 opts,
      tr = mid ++ [(s1, TPut e opts (Ok c))] /\ silent mid
      /\ ok_event search_of session s1 (TPut e opts (Ok c))
      /\ (e, opts) = save_attempt sc a base stored'
      /\ (stored' = stored \/ saMeta a = None /\ is_Some stored
          /\ (stored' = None -> exists s err, (s, TGet sc (saName a) (Err err)) ∈ mid))
  end.
Proof.
  induction n as [|n IH]; intros stored tr r; cbn [save_loop]; destruct (save_attempt sc a base stored) as [e opts] eqn:Ea;
    cbn [Calls.runs]; intros (s1 & p & tr1 & -> & Hp & Hr); cbn [seen] in *.
  { destruct p as [c|err]; cbn in Hr; destruct Hr as [-> ->]; [|by repeat constructor].
    exists [], s1, opts. split_and!; [done|apply silent_nil|done|done|by left]. }
  destruct p as [c|err].
  { cbn in Hr. destruct Hr as [-> ->]. exists [], s1, opts.
    split_and!; [done|apply silent_nil|done|done|by left]. }
  destruct (negb _ || negb _) eqn:Ek; [cbn in Hr; destruct Hr as [-> ->]; by repeat constructor|].
  bool_hyps. cbn [Calls.runs] in Hr. destruct Hr as (s2 & g & tr2 & -> & Hg & Hr). cbn [seen] in *.
  destruct (stored_of g) as [stored2|err2] eqn:Eg; [|cbn in Hr; destruct Hr as [-> ->]; by repeat constructor].
  specialize (IH _ _ _ Hr). destruct r as [[[stored' e'] c]|err']; [|by do 2 (apply silent_cons; split; [done|])].
  destruct IH as (mid & s3 & opts' & -> & Hmid & Hput & He' & Hst).
  exists ((s1, TPut e opts (Err err)) :: (s2, TGet sc (saName a) g) :: mid), s3, opts'.
  split_and!; [done|by do 2 (apply silent_cons; split; [done|])|done|done|].
  right. split_and!; [done|done|]. intros ->. destruct Hst as [<-|(_ & _ & Hv)].
  - destruct g as [e0|err0]; [done|]. exists s2, err0. right. left.
  - destruct (Hv eq_refl) as (s & err0 & Hin). exists s, err0. by do 2 right.
Qed.

Lemma read_meta_live s sc name :
  good s -> CheckRef sc name = None ->
  have_meta_hash (replay (store_journal s) !! (sc, name)) = read_meta_hash (Get s sc name).
Proof.
  intros [Hs _] Hc. rewrite Get_live by done. by destruct (replay _ !! _).
Qed.

Lemma stored_read s sc name r stored :
  good s -> r = spec_get (store_journal s) sc name -> stored_of r = Ok stored ->
  have_hash stored = read_hash r /\ (stored = None <-> exists err, r = Err err)
  /\ forall e, stored = Some e -> r = Ok e.
Proof.
  intros Hg Er Es. destruct r as [e|err]; cbn in Es; [injection Es as <-|].
  - destruct (good_get s _ _ _ Hg (eq_sym Er)) as (_ & _ & _ & _ & Hh & _). cbn.
    split_and!; [done| |by intros ? [= ->]]. split; [done|by intros [? [=]]].
  - destruct (wraps err); try done. injection Es as <-. split_and!; [done| |done]. split; eauto.
Qed.

(** The write of a save that landed. *)
Lemma save_write ctx s0 s1 sc a r0 stored0 stored' mid e opts c :
  ok_event search_of session s0 (TGet sc (saName a) r0) -> stored_of r0 = Ok stored0 ->
  ok_event search_of session s1 (TPut e opts (Ok c)) -> silent mid ->
  (e, opts) = save_attempt sc a (save_base (shown_in ctx sc (saName a)) stored0) stored' ->
  stored' = stored0 \/ saMeta a = None /\ is_Some stored0
    /\ (stored' = None -> exists s err, (s, TGet sc (saName a) (Err err)) ∈ mid) ->
  saved ctx sc a ((s0, TGet sc (saName a) r0) :: mid ++ [(s1, TPut e opts (Ok c))]) c.
Proof.
  intros Hg Hst0 Hp Hmid Ha Hst. apply event_get in Hg as [Hg0 Hr0].
  destruct (stored_read s0 _ _ _ _ Hg0 Hr0 Hst0) as (Hh0 & Hn0 & Hs0).
  apply event_put in Hp as [Hg1 [now Hp]]. symmetry in Hp. apply spec_put_Ok in Hp.
  set (h := match shown_in ctx sc (saName a) with Some h => h | None => read_hash r0 end).
  assert (Hbase : save_base (shown_in ctx sc (saName a)) stored0
                  = BasedOn h :: match stored0 with None => [IfMetaHash []] | Some _ => [] end).
  { unfold save_base, h. destruct (shown_in _ _ _); [done|]. rewrite <- Hh0. by destruct stored0. }
  rewrite Hbase in Ha.
  assert (He : eScope e = sc /\ eName e = saName a /\ eContent e = saContent a
    /\ oConditional (ResolvePutOptions opts) = false /\ oHasBase (ResolvePutOptions opts) = true
    /\ oBase (ResolvePutOptions opts) = h).
  { unfold save_attempt in Ha. destruct stored' as [e'|], (saMeta a), stored0; injection Ha as -> ->; done. }
  destruct He as (Hsc & Hn & Hco & Hoc & Hob & Hoh).
  assert (Er : entry_ref e = (sc, saName a)) by (unfold entry_ref; congruence). rewrite Er, Hsc, Hn in Hp.
  destruct Hp as (Hce & Hprev & Hrep & _ & Hck & _ & Hm).
  assert (Hmeta : meta_map (eMeta (cEntry c)) = meta_map (eMeta e)) by (rewrite Hce; apply meta_map_stamped).
  exists s0, r0, mid, s1, e, opts. split_and!; try done.
  - unfold change_ref. by rewrite Hce.
  - by rewrite Hce.
  - rewrite Hrep. pose proof (have_hash_read s1 e (proj1 Hg1) (proj2 Hg1)) as Hh. rewrite Er, Hsc, Hn in Hh. auto.
  - rewrite Hprev. unfold BaseFor. by rewrite Hoc, Hob, Hoh.
  - destruct (saMeta a) as [m|] eqn:Em.
    + rewrite Hmeta. unfold save_attempt in Ha. rewrite Em in Ha. by destruct stored'; injection Ha as -> ->.
    + rewrite <- read_meta_live by done. rewrite (MetaHash_map _ _ Hmeta).
      unfold save_attempt in Ha. rewrite Em in Ha. destruct stored' as [e'|].
      * injection Ha as -> ->. left. symmetry. by destruct stored0; apply Hm.
      * injection Ha as -> ->. destruct stored0 as [e0|].
        { right. destruct Hst as [?|(_ & _ & Hv)]; [done|]. split; [by rewrite Hce|].
          split; [|by apply Hv]. exists e0. by apply Hs0. }
        left. symmetry. by apply Hm.
Qed.

(** C28: What a save writes and what it is recorded as built on. Whatever
    other sessions do between its operations, a save that succeeds makes one
    write, of the content given, whose [Replaced] is the hash of what the
    store then held and whose [Prev] is the hash the block showed for the
    entry, or the one of the save's own first read when the block did not
    show it, so the lost-update audit reports it exactly when the entry
    changed since. Metadata given is written; with none given the write
    carries what the store held at the write, with one exception: a save that
    began on an entry and whose retry found the entry gone ([vanished])
    writes with no metadata at all, whatever the store then holds
    ([save_drops_metadata]). A save that fails wrote nothing. *)
Theorem save_effect t ctx a env s :
  good s -> env_ok env -> carried t ctx ->
  let '(_, r, tr) := exec (save t ctx a) env s in
  match r with
  | Err _ => silent tr
  | Ok res => exists sc c, scope t (saScope a) = Ok sc
      /\ rDetails res = Some (MkWriteRecord SaveTool c) /\ saved ctx sc a tr c
  end.
Proof.
  intros Hg He Hcar. destruct (exec_runs search_of session (save t ctx a) env s Hg He) as [_ Hr].
  destruct (exec (save t ctx a) env s) as [[s' r] tr]. cbn [fst snd] in Hr. unfold save in Hr.
  destruct (scope t (saScope a)) as [sc|err]; [|cbn in Hr; destruct Hr as [-> ->]; constructor].
  destruct (fixedSave t sc (saName a)); [cbn in Hr; destruct Hr as [-> ->]; constructor|].
  cbn [Calls.runs] in Hr. destruct Hr as (s0 & r0 & tr1 & -> & Hg0 & Hr). cbn [seen] in *.
  destruct (stored_of r0) as [stored0|err] eqn:Es; [|cbn in Hr; destruct Hr as [-> ->]; by repeat constructor].
  assert (Hsh : shown t ctx sc (saName a) = Ret (shown_in ctx sc (saName a))).
  { unfold shown, rendered, carried in *. destruct ctx; [done|]. rewrite Hcar. done. }
  rewrite Hsh in Hr. cbn [bind] in Hr. apply runs_bind in Hr as (x & tr2 & tr3 & -> & Hloop & Hr).
  apply save_loop_effect in Hloop. destruct x as [[[stored' e] c]|err].
  - destruct Hloop as (mid & s1 & opts & -> & Hmid & Hput & Ha & Hst). cbn in Hr. destruct Hr as [-> ->].
    rewrite app_nil_r. exists sc, c. split_and!; [done|done|]. by eapply save_write.
  - cbn in Hr. destruct Hr as [-> ->]. rewrite app_nil_r. by apply silent_cons.
Qed.

(** ** memory_insert *)

#[local] Opaque InsertName.

(** The call tried to create the entry of the name, and there was one. *)
Definition taken (sc name : bytes) (st : S * tev) : Prop :=
  write_ref st.2 = Some (sc, name) /\ exists e, Get st.1 sc name = Ok e.

(** What an insert that landed did: its last operation created the entry
    under the [i]-th name of the time and the content, when each name before
    was taken. *)
Definition inserted (sc : bytes) (a : insertArgs) (at_ : Z) (k i : Z) (tr : list (S * tev)) (c : Change) : Prop :=
  exists tr0 s1 e opts,
    let name := InsertName at_ (iaContent a) i in
    tr = tr0 ++ [(s1, TPut e opts (Ok c))] /\ silent tr0
    /\ change_ref c = (sc, name) /\ eContent (cEntry c) = iaContent a
    /\ meta_map (eMeta (cEntry c)) = meta_map (iaMeta a)
    /\ Get s1 sc name = Err (ErrNotFound sc name) /\ cPrev c = [] /\ cReplaced c = []
    /\ forall j, k <= j < i -> Exists (taken sc (InsertName at_ (iaContent a) j)) tr0.

Lemma Get_of_replay s sc name :
  good s -> CheckRef sc name = None ->
  match replay (store_journal s) !! (sc, name) with
  | Some e => Get s sc name = Ok e /\ eHash e <> []
  | None => Get s sc name = Err (ErrNotFound sc name)
  end.
Proof.
  intros Hg Hc. rewrite Get_live by (done || apply Hg). destruct (replay _ !! _) as [e|] eqn:E; [|done].
  split; [done|]. assert (Hget : spec_get (store_journal s) sc name = Ok e) by (unfold spec_get; by rewrite Hc, E).
  destruct (good_get s _ _ _ Hg Hget) as (_ & _ & _ & _ & -> & _). apply Hash_nonempty.
Qed.

(** Conflicts are of a put's options, never of the entry's own faults. *)
Lemma CheckEntry_no_conflict e max stored err : CheckEntry e max stored = Some err -> wraps err <> SConflict.
Proof. unfold CheckEntry, CheckEntry_in. intros Hc. split_cases; discriminate. Qed.

(** An attempt of an insert: what it found, by how it ended. *)
Lemma insert_attempt s e r :
  ok_event search_of session s (TPut e [IfHash []] r) ->
  match r with
  | Ok c => Get s (eScope e) (eName e) = Err (ErrNotFound (eScope e) (eName e))
      /\ change_ref c = entry_ref e /\ eContent (cEntry c) = eContent e
      /\ meta_map (eMeta (cEntry c)) = meta_map (eMeta e) /\ cPrev c = [] /\ cReplaced c = []
  | Err err => wraps err = SConflict -> exists e0, Get s (eScope e) (eName e) = Ok e0
  end.
Proof.
  intros Hp. apply event_put in Hp as [Hg [now Hp]]. symmetry in Hp. destruct r as [c|err].
  - apply spec_put_Ok in Hp. cbn in Hp. destruct Hp as (He & Hprev & Hrep & _ & Hck & Hc & _).
    specialize (Hc eq_refl). pose proof (Get_of_replay s _ _ Hg Hck) as Hl. unfold entry_ref in *.
    destruct (replay _ !! _) as [e0|]; [by destruct Hl as [_ []]|].
    split_and!; try done; unfold change_ref; rewrite He; [done|done|]. apply meta_map_stamped.
  - intros Hw. unfold spec_put in Hp. destruct (CheckEntry e _ _) as [err0|] eqn:Ec.
    { injection Hp as ->. by destruct (CheckEntry_no_conflict _ _ _ _ Ec). }
    apply CheckEntry_None, Storable_ref in Ec. pose proof (Get_of_replay s _ _ Hg Ec) as Hl.
    unfold entry_ref, PutOptions_Check in Hp. cbn in Hp.
    destruct (replay _ !! _) as [e0|]; [|done]. exists e0. apply Hl.
Qed.

Lemma insert_loop_effect n : forall k last t sc a at_ tr r,
  runs (insert_loop n k last t sc a at_) tr r ->
  match r with
  | Ok res => exists i c, k <= i < k + Z.of_nat n /\ rDetails res = Some (MkWriteRecord InsertTool c)
      /\ inserted sc a at_ k i tr c
  | Err err => silent tr
      /\ forall l, err = InsertGaveUp l -> forall j, k <= j < k + Z.of_nat n ->
         Exists (taken sc (InsertName at_ (iaContent a) j)) tr
  end.
Proof.
  induction n as [|n IH]; intros k last t sc a at_ tr r; cbn [insert_loop Calls.runs].
  { intros [-> ->]. split; [constructor|]. intros _ _ j Hj. lia. }
  intros (s1 & p & tr1 & -> & Hp & Hr). cbn [seen] in *. pose proof (insert_attempt _ _ _ Hp) as Hat.
  unfold entry_ref in Hat. cbn [eScope eName eContent eMeta new_entry] in Hat.
  destruct p as [c|err].
  { cbn in Hr. destruct Hr as [-> ->]. destruct Hat as (Hg & Hc & Hct & Hm & Hpv & Hrp).
    exists k, c. split; [lia|]. split; [done|]. eexists [], s1, _, _.
    refine (conj eq_refl (conj silent_nil (conj Hc (conj Hct (conj Hm (conj Hg (conj Hpv (conj Hrp _)))))))).
    intros j Hj. lia. }
  set (st := (s1, TPut _ _ _)).
  assert (Ht : wraps err = SConflict -> taken sc (InsertName at_ (iaContent a) k) st) by (intros Hw; split; auto).
  destruct (wraps err) eqn:Ew;
    try (cbn in Hr; destruct Hr as [-> ->]; split; [by repeat constructor|by intros ? [=]]).
  assert (Hk : forall j tr, (k + 1 <= j -> Exists (taken sc (InsertName at_ (iaContent a) j)) tr) ->
                 k <= j -> Exists (taken sc (InsertName at_ (iaContent a) j)) (st :: tr)).
  { intros j l Hl Hj. destruct (decide (j = k)) as [->|]; [left; auto|right; apply Hl; lia]. }
  apply IH in Hr. destruct r as [res|err'].
  - destruct Hr as (i & c & Hi & Hd & tr0 & s2 & e & opts & -> & Hs & Hc & Hct & Hm & Hg & Hpv & Hrp & Htk).
    exists i, c. split; [lia|]. split; [done|]. exists (st :: tr0), s2, e, opts.
    refine (conj eq_refl (conj _ (conj Hc (conj Hct (conj Hm (conj Hg (conj Hpv (conj Hrp _)))))))).
    { by apply silent_cons. }
    intros j Hj. apply Hk; [|lia]. intros. apply Htk. lia.
  - destruct Hr as [Hs Hgu]. split; [by apply silent_cons|].
    intros l El j Hj. apply Hk; [|lia]. intros. eapply Hgu; [done|lia].
Qed.

(** C36: An insert never overwrites. Whatever other sessions do, an insert
    that succeeds makes one write: it creates an entry the store did not
    hold at the write, in a scope that takes inserts, of the content given,
    under the first of the content's names for the time that was free when
    tried; the record is built on nothing and replaced nothing. One that
    fails wrote nothing, and gives up only when it found all hundred names
    taken. *)
Theorem insert_effect t ctx a env s :
  good s -> env_ok env ->
  let '(_, r, tr) := exec (insertEntry t ctx a) env s in
  match r with
  | Err err => silent tr
      /\ forall l, err = InsertGaveUp l -> exists sc at_, insertScope t (iaScope a) = Ok sc
         /\ forall j, 1 <= j <= 100 -> Exists (taken sc (InsertName at_ (iaContent a) j)) tr
  | Ok res => exists sc at_ i c, insertScope t (iaScope a) = Ok sc /\ 1 <= i <= 100
      /\ rDetails res = Some (MkWriteRecord InsertTool c) /\ inserted sc a at_ 1 i tr c
  end.
Proof.
  intros Hg He. destruct (exec_runs search_of session (insertEntry t ctx a) env s Hg He) as [_ Hr].
  destruct (exec (insertEntry t ctx a) env s) as [[s' r] tr]. cbn [fst snd] in Hr. unfold insertEntry in Hr.
  destruct (insertScope t (iaScope a)) as [sc|err] eqn:Es.
  2: { cbn in Hr. destruct Hr as [-> ->]. split; [constructor|]. intros l ->.
       unfold insertScope in Es. split_cases. }
  cbn [Calls.runs] in Hr. destruct Hr as (s0 & at_ & tr1 & -> & _ & Hr). cbn [seen] in *.
  apply insert_loop_effect in Hr. unfold insertAttempts in Hr. change (Z.of_nat 100) with 100 in Hr.
  destruct r as [res|err].
  - destruct Hr as (i & c & Hi & Hd & tr0 & s2 & e & opts & -> & Hs & Hrest).
    exists sc, at_, i, c. split_and!; [done|lia|lia|done|].
    exists ((s0, TNow at_) :: tr0), s2, e, opts. destruct Hrest as (? & ? & ? & ? & ? & ? & Htk).
    refine (conj eq_refl (conj _ _)); [by apply silent_cons|]. split_and!; try assumption. intros j Hj. right. auto.
  - destruct Hr as [Hs Hgu]. split; [by apply silent_cons|]. intros l El. exists sc, at_. split; [done|].
    intros j Hj. right. eapply Hgu; [done|lia].
Qed.

(** ** memory_search *)

Definition total_size (l : list Entry) : Z := foldr (fun e n => Size e + n) 0 l.

Lemma total_size_app l k : total_size (l ++ k) = total_size l + total_size k.
Proof. induction l as [|e l IH]; cbn; [done|]. unfold total_size in *. lia. Qed.

(** The entries found are shown whole, in order, while they fit and else
    listed, and what is listed does not fit beside what is shown. *)
Definition split_found (bound : Z) (found sh un : list Entry) : Prop :=
  sh ++ un ≡ₚ found /\ sublist sh found /\ sublist un found
  /\ total_size sh <= bound /\ Forall (fun e => bound < total_size sh + Size e) un.

Lemma search_steps bound found : forall b0 sh0 un0,
  Forall (fun e => bound < total_size sh0 + Size e) un0 -> total_size sh0 <= bound ->
  exists sh un,
    foldl (search_step bound) (b0, total_size sh0, list_entry <$> un0) found
    = (b0 ++ concat (show_entry <$> sh), total_size (sh0 ++ sh), list_entry <$> (un0 ++ un))
    /\ sh ++ un ≡ₚ found /\ sublist sh found /\ sublist un found
    /\ total_size (sh0 ++ sh) <= bound /\ Forall (fun e => bound < total_size (sh0 ++ sh) + Size e) (un0 ++ un).
Proof.
  induction found as [|e found IH]; intros b0 sh0 un0 Hun Hsh.
  { exists [], []. cbn. rewrite !app_nil_r. split_and!; auto using sublist_nil. }
  cbn [foldl search_step]. destruct (Z.ltb_spec bound (total_size sh0 + Size e)) as [Hlt|Hge].
  - replace ((list_entry <$> un0) ++ [list_entry e]) with (list_entry <$> (un0 ++ [e])) by (by rewrite fmap_app).
    destruct (IH b0 sh0 (un0 ++ [e])) as (sh & un & E & Hp & Hs1 & Hs2 & Ht & Hu); [|done|].
    { apply Forall_app. split; [done|]. by repeat constructor. }
    exists sh, (e :: un). rewrite E, <- !app_assoc in *. cbn [app] in *.
    split_and!; [done| |by constructor|by constructor|done|done]. by rewrite <- Hp, Permutation_middle.
  - assert (Hsz : 0 <= Size e) by apply blen_nonneg.
    replace (total_size sh0 + Size e) with (total_size (sh0 ++ [e])) by (rewrite total_size_app; cbn; lia).
    assert (Hle : total_size sh0 <= total_size (sh0 ++ [e])) by (rewrite total_size_app; cbn; lia).
    destruct (IH (b0 ++ show_entry e) (sh0 ++ [e]) un0) as (sh & un & E & Hp & Hs1 & Hs2 & Ht & Hu).
    { eapply Forall_impl; [exact Hun|]. cbn. intros; lia. }
    { rewrite total_size_app. cbn. lia. }
    exists (e :: sh), un. rewrite E. rewrite <- !app_assoc in *. cbn [app] in *.
    split_and!; [done| |by constructor|by constructor|done|done]. by rewrite <- Hp.
Qed.

Lemma search_text_split is_print bound found searched query :
  0 <= bound ->
  exists sh un, split_found bound found sh un
    /\ search_text is_print bound found searched query
       = search_header is_print found searched query ++ concat (show_entry <$> sh)
         ++ search_notice bound (list_entry <$> un).
Proof.
  intros Hb. unfold search_text.
  destruct (search_steps bound found (search_header is_print found searched query) [] [])
    as (sh & un & E & Hp & Hs1 & Hs2 & Ht & Hu); [constructor|done|].
  cbn [app] in *. exists sh, un. split; [done|].
  change (total_size []) with 0 in E. change (list_entry <$> []) with (@nil bytes) in E. rewrite E. by rewrite <- app_assoc.
Qed.

Lemma read_scopes_all t l scopes :
  read_scopes t l = Ok scopes -> scopes = l /\ Forall (fun sc => sc ∈ searchable t) l.
Proof.
  revert scopes. induction l as [|sc l IH]; intros scopes; cbn [read_scopes]; [by intros [= <-]|].
  unfold readScope, Contains. case_bool_decide; cbn; [|done].
  destruct (read_scopes t l); cbn; [|done]. intros [= <-]. destruct (IH _ eq_refl) as [-> ?]. by split; [|constructor].
Qed.

(** C37: What a search shows. It makes one search, over scopes the product
    allows and no others, and writes nothing; its text is the matches the
    store returned, each shown whole in order while the content shown stays
    within the bound and otherwise listed by name and size, none dropped. *)
Theorem search_effect is_print t a env s :
  good s -> env_ok env -> 0 <= toSearchBytes (tOpts t) ->
  let '(_, r, tr) := exec (search is_print t a) env s in
  match r with
  | Err _ => silent tr
  | Ok res => exists s1 scopes limit o found,
      tr = [(s1, TSearch scopes (qaQuery a) limit o (Ok found))]
      /\ SearchWith (search_of s1) scopes (qaQuery a) limit o = Ok found
      /\ Forall (fun sc => sc ∈ searchable t) scopes
      /\ scopes = (if bool_decide (qaScopes a = []) then searchable t else qaScopes a)
      /\ rDetails res = None
      /\ (found <> [] -> exists sh un, split_found (toSearchBytes (tOpts t)) found sh un
           /\ rText res = search_header is_print found (Join (bs ", ") scopes) (qaQuery a)
                ++ concat (show_entry <$> sh) ++ search_notice (toSearchBytes (tOpts t)) (list_entry <$> un))
  end.
Proof.
  intros Hg He Hb. destruct (exec_runs search_of session (search is_print t a) env s Hg He) as [_ Hr].
  destruct (exec (search is_print t a) env s) as [[s' r] tr]. cbn [fst snd] in Hr. unfold search in Hr.
  case_bool_decide; [cbn in Hr; destruct Hr as [-> ->]; constructor|].
  assert (Hsc : forall scopes, (if bool_decide (qaScopes a = []) then Ok (searchable t) else read_scopes t (qaScopes a)) = Ok scopes ->
     scopes = (if bool_decide (qaScopes a = []) then searchable t else qaScopes a) /\ Forall (fun sc => sc ∈ searchable t) scopes).
  { intros scopes. case_bool_decide; [intros [= <-]; split; [done|by apply Forall_forall]|].
    intros Hrs. apply read_scopes_all in Hrs as [-> ?]. done. }
  destruct (if bool_decide _ then _ else _) as [scopes|err]; [|cbn in Hr; destruct Hr as [-> ->]; constructor].
  destruct (Hsc scopes eq_refl) as [Esc Hall].
  destruct (time_bound SearchUpdatedAfter _); [|cbn in Hr; destruct Hr as [-> ->]; constructor].
  destruct (time_bound SearchUpdatedBefore _); [|cbn in Hr; destruct Hr as [-> ->]; constructor].
  cbn [Calls.runs] in Hr. destruct Hr as (s1 & x & tr1 & -> & Hx & Hr). cbn [seen] in *.
  destruct x as [found|err]; [|cbn in Hr; destruct Hr as [-> ->]; by repeat constructor].
  destruct Hx as [_ Hx]. destruct (bool_decide_reflect (found = [])) as [Hf|Hf]; cbn [Calls.runs] in Hr; destruct Hr as [-> ->]; eexists s1, scopes, _, _, found;
    (split; [reflexivity|]); (split; [symmetry; exact Hx|]); (split; [exact Hall|]); (split; [exact Esc|]);
    (split; [reflexivity|]); intros Hne; [done|]. by apply search_text_split.
Qed.

(** ** Progress *)

(** No other session writes while the call runs. *)
Definition alone (env : nat -> moment) : Prop := forall i, moOthers (env i) = [].

Lemma alone_ok env : alone env -> env_ok env.
Proof. intros Ha i. by rewrite Ha. Qed.

(** A patch makes progress. With no other session in between, a patch of
    an entry that holds old_text once, in a scope the tools write, succeeds
    at its first attempt whenever the store admits the edited entry, and
    [Get] then returns the entry with the edit made and its metadata kept. *)
Theorem patch_succeeds t ctx a env s sc cur :
  good s -> alone env -> scope t (paScope a) = Ok sc -> paOldText a <> [] ->
  Get s sc (paName a) = Ok cur -> Count (eContent cur) (paOldText a) = 1 ->
  Storable (with_content cur (ReplaceOne (eContent cur) (paOldText a) (paNewText a))) (MaxEntryBytes s) ->
  let '(s', r, _) := exec (patch t ctx a) env s in
  (exists res, r = Ok res)
  /\ exists e, Get s' sc (paName a) = Ok e
       /\ edit_of (paOldText a) (paNewText a) (eContent cur) (eContent e)
       /\ meta_map (eMeta e) = meta_map (eMeta cur).
Proof.
  intros Hg Ha Hsc Ho Hget Hc Hst. set (next := with_content _ _) in *.
  pose proof Hget as Hget'. rewrite (law_get _ _ _ (proj1 Hg)) in Hget'.
  destruct (good_get s _ _ _ Hg Hget') as (Hck & Hlive & Hes & Hen & Hh & _).
  assert (Hnr : entry_ref next = (sc, paName a)) by (unfold entry_ref, next; cbn; congruence).
  unfold patch. rewrite Hsc, bool_decide_eq_false_2 by done. unfold patchAttempts. cbn [patch_loop].
  cbn [Calls.exec answer]. rewrite (Ha O). cbn [run fst]. rewrite Hget, Hc. cbn [Z.eqb Z.ltb Z.compare Pos.compare Pos.compare_cont].
  fold next. cbn [Calls.exec answer]. rewrite (Ha 1%nat). cbn [run fst].
  pose proof (law_put s (moNow (env 1%nat)) session next [IfHash (eHash cur); IfMetaHash (MetaHash (eMeta cur))] (proj1 Hg)) as L.
  destruct (Put s _ _ next _) as [s1 r1]. destruct L as (Hr & Hj & Hm & Hs1).
  unfold spec_put in Hr. rewrite Hnr, Hlive, (proj2 (CheckEntry_None next _ _) Hst) in Hr.
  unfold PutOptions_Check in Hr. cbn in Hr. rewrite !bool_decide_eq_true_2 in Hr by done. cbn in Hr. subst r1.
  cbn [Calls.exec]. split; [by eexists|]. exists (stamped (moNow (env 1%nat)) next). split_and!.
  - rewrite Get_live by done. rewrite Hj. cbn [appended]. rewrite replay_snoc. unfold apply_change, change_ref.
    cbn [cEntry eDeleted stamped]. change (entry_ref (stamped _ next)) with (entry_ref next).
    by rewrite Hnr, lookup_insert_eq.
  - split; [done|]. destruct (Count_one _ _ Ho Hc) as (b & f & Ec & _ & Hrepl). exists b, f. split; [done|].
    unfold next. cbn. apply Hrepl.
  - apply (meta_map_stamped (moNow (env 1%nat)) next).
Qed.
End Laws.

(** ** Witnesses, on the in-memory store *)

Definition mem_searchable (m : MemStore) : Searchable :=
  MkSearchable (mem_search id m) (Some (mem_search_with id m)).

(** A toolset over the scope "user", whose block showed [demo]'s entry. *)
Definition demo_options : list (ToolOption unit) := [WithRendered true; WithInsert [bs "user"]].

Definition demo_toolset : toolset unit :=
  MkToolset [bs "user"] (fold_left (fun o opt => opt o) demo_options default_options) 4096 AllSearchOptions.

Definition demo_manifest : Manifest :=
  MkManifest [MkManifestEntry (bs "user") (bs "style") (Hash (bs "Long answers.")) 13 []] [] false.

(** Another session edits the entry before the call's second operation. *)
Definition busy_env (i : nat) : moment :=
  MkMoment (match i with
            | 1%nat => [OPut 90 (bs "s9") (entry "user" "style" "Long answers, dry.") []]
            | _ => [] end) (100 + Z.of_nat i) demo_manifest.

Definition quiet_env (i : nat) : moment := MkMoment [] (100 + Z.of_nat i) demo_manifest.

Lemma busy_env_ok : env_ok busy_env.
Proof. intros [|[|i]]; repeat constructor. Qed.

Lemma quiet_env_alone : alone quiet_env.
Proof. done. Qed.

Lemma demo_good : good demo.
Proof. split; [apply demo_ok|]. exact demo_reachable. Qed.

Definition demo_patch : patchArgs := MkPatchArgs [] (bs "style") (bs "Long") (bs "Brief").

Lemma patch_effect_witness :
  good demo /\ env_ok busy_env /\ exists tr c, patched (bs "user") demo_patch tr c
    /\ eContent (cEntry c) = bs "Brief answers, dry.".
Proof.
  split; [apply demo_good|]. split; [apply busy_env_ok|].
  pose proof (patch_effect mem_searchable (bs "s1") demo_toolset None demo_patch busy_env demo demo_good busy_env_ok) as P.
  assert (E : exists c, (match (exec mem_searchable (bs "s1") (patch demo_toolset None demo_patch) busy_env demo).1.2 with
              | Ok res => rDetails res | Err _ => None end) = Some (MkWriteRecord PatchTool c)
              /\ eContent (cEntry c) = bs "Brief answers, dry.") by (eexists; vm_compute; split; reflexivity).
  destruct (exec _ _ _ _ _) as [[s' r] tr]. cbn [fst snd] in E. destruct E as (c0 & E & Ec).
  destruct r as [res|err]; [|discriminate]. destruct P as (sc & c & Hsc & Hd & Hp).
  vm_compute in Hsc. injection Hsc as <-. rewrite E in Hd. injection Hd as <-. exists tr, c0. split; assumption.
Defined.

Definition demo_save : saveArgs := MkSaveArgs [] (bs "style") (bs "Plain.") None.

Lemma save_effect_witness :
  good demo /\ env_ok busy_env /\ carried demo_toolset (Some demo_manifest)
  /\ exists tr c, saved (Some demo_manifest) (bs "user") demo_save tr c
     /\ cPrev c = Hash (bs "Long answers.") /\ cReplaced c = Hash (bs "Long answers, dry.").
Proof.
  assert (Hcar : carried demo_toolset (Some demo_manifest)) by reflexivity.
  split; [apply demo_good|]. split; [apply busy_env_ok|]. split; [exact Hcar|].
  pose proof (save_effect mem_searchable (bs "s1") demo_toolset (Some demo_manifest) demo_save busy_env demo
    demo_good busy_env_ok Hcar) as P.
  assert (E : exists c, (match (exec mem_searchable (bs "s1") (save demo_toolset (Some demo_manifest) demo_save) busy_env demo).1.2 with
              | Ok res => rDetails res | Err _ => None end) = Some (MkWriteRecord SaveTool c)
              /\ cPrev c = Hash (bs "Long answers.") /\ cReplaced c = Hash (bs "Long answers, dry."))
    by (eexists; vm_compute; repeat split; reflexivity).
  destruct (exec _ _ _ _ _) as [[s' r] tr]. cbn [fst snd] in E. destruct E as (c0 & E & Ec).
  destruct r as [res|err]; [|discriminate]. destruct P as (sc & c & Hsc & Hd & Hp).
  vm_compute in Hsc. injection Hsc as <-. rewrite E in Hd. injection Hd as <-. exists tr, c0. split; assumption.
Defined.

Definition demo_insert : insertArgs := MkInsertArgs [] (bs "A fact.") None.

Lemma insert_effect_witness :
  good demo /\ env_ok busy_env /\ exists tr c at_ i, inserted (bs "user") demo_insert at_ 1 i tr c.
Proof.
  split; [apply demo_good|]. split; [apply busy_env_ok|].
  pose proof (insert_effect mem_searchable (bs "s1") demo_toolset None demo_insert busy_env demo demo_good busy_env_ok) as P.
  assert (E : match (exec mem_searchable (bs "s1") (insertEntry demo_toolset None demo_insert) busy_env demo).1.2 with
              | Ok _ => true | Err _ => false end = true) by (vm_compute; reflexivity).
  destruct (exec _ _ _ _ _) as [[s' r] tr]. cbn [fst snd] in E.
  destruct r as [res|err]; [|discriminate]. destruct P as (sc & at_ & i & c & Hsc & Hi & Hd & Hp).
  vm_compute in Hsc. injection Hsc as <-. exists tr, c, at_, i. exact Hp.
Defined.

Definition demo_search : searchArgs := MkSearchArgs (bs "answers") [] 0 false None [] [].

Lemma search_effect_witness :
  good demo /\ env_ok quiet_env /\ 0 <= toSearchBytes (tOpts demo_toolset)
  /\ exists res found sh un, (exec mem_searchable (bs "s1") (search (fun _ => true) demo_toolset demo_search) quiet_env demo).1.2 = Ok res
     /\ found <> [] /\ split_found (toSearchBytes (tOpts demo_toolset)) found sh un.
Proof.
  assert (Hb : 0 <= toSearchBytes (tOpts demo_toolset)) by (vm_compute; discriminate).
  split; [apply demo_good|]. split; [apply alone_ok, quiet_env_alone|]. split; [exact Hb|].
  pose proof (search_effect mem_searchable (bs "s1") (fun _ => true) demo_toolset demo_search quiet_env demo demo_good
    (alone_ok _ quiet_env_alone) Hb) as P.
  assert (E : match (exec mem_searchable (bs "s1") (search (fun _ => true) demo_toolset demo_search) quiet_env demo).2 with
              | [(_, TSearch _ _ _ _ (Ok (_ :: _)))] => true | _ => false end = true) by (vm_compute; reflexivity).
  assert (E' : match (exec mem_searchable (bs "s1") (search (fun _ => true) demo_toolset demo_search) quiet_env demo).1.2 with
              | Ok _ => true | Err _ => false end = true) by (vm_compute; reflexivity).
  destruct (exec _ _ _ _ _) as [[s' r] tr]. cbn [fst snd] in E, E'. destruct r as [res|err]; [|discriminate].
  destruct P as (s1 & scopes & limit & o & found & -> & _ & _ & _ & _ & Hf).
  destruct found as [|e found]; [discriminate|].
  destruct Hf as (sh & un & Hs & _); [discriminate|]. exists res, (e :: found), sh, un. split_and!; [reflexivity|discriminate|exact Hs].
Defined.

Definition demo_entry : Entry :=
  match Get demo (bs "user") (bs "style") with Ok e => e | Err _ => entry "" "" "" end.

Lemma patch_succeeds_witness :
  good demo /\ alone quiet_env
  /\ exists e, Get (exec mem_searchable (bs "s1") (patch demo_toolset None demo_patch) quiet_env demo).1.1
       (bs "user") (bs "style") = Ok e
     /\ edit_of (bs "Long") (bs "Brief") (eContent demo_entry) (eContent e).
Proof.
  split; [apply demo_good|]. split; [apply quiet_env_alone|].
  assert (Hst : Storable (with_content demo_entry (ReplaceOne (eContent demo_entry) (bs "Long") (bs "Brief"))) (MaxEntryBytes demo)).
  { apply (CheckEntry_None _ _ None). vm_compute. reflexivity. }
  pose proof (patch_succeeds mem_searchable (bs "s1") demo_toolset None demo_patch quiet_env demo (bs "user") demo_entry
    demo_good quiet_env_alone ltac:(reflexivity) ltac:(discriminate) ltac:(vm_compute; reflexivity)
    ltac:(vm_compute; reflexivity) Hst) as P.
  destruct (exec _ _ _ _ _) as [[s' r] tr]. destruct P as (_ & e & He & Hed & _). exists e. split; [exact He|exact Hed].
Defined.

(** ** What modelling showed *)

(** A save that leaves meta out can drop metadata written meanwhile. Its
    first write is refused because the entry was forgotten; the retry finds
    no entry and writes on no condition, so an entry another session creates
    with metadata before that write loses it, where the first attempt of a
    save that finds no entry is conditional on there being no metadata. *)
Definition described : Entry :=
  MkEntry (bs "user") (bs "style") (bs "Short.") (Some {[ MetaDescription := bs "How to write" ]}) [] [] 0 false.

Definition forgetful_env (i : nat) : moment :=
  MkMoment (match i with
            | 0%nat => [OPut 90 [] described []]
            | 1%nat => [OForget 91 [] (bs "user") (bs "style")]
            | 3%nat => [OPut 92 [] described []]
            | _ => [] end) (100 + Z.of_nat i) demo_manifest.

Lemma save_drops_metadata :
  let before := (run demo [OPut 90 [] described []; OForget 91 [] (bs "user") (bs "style"); OPut 92 [] described []]).1 in
  let '(s', r, tr) := exec mem_searchable (bs "s1") (save demo_toolset (Some demo_manifest) demo_save) forgetful_env demo in
  (Description <$> match Get before (bs "user") (bs "style") with Ok e => Some e | Err _ => None end) = Some (bs "How to write")
  /\ match r with Ok _ => True | Err _ => False end
  /\ length tr = 4%nat
  /\ (Description <$> match Get s' (bs "user") (bs "style") with Ok e => Some e | Err _ => None end) = Some [].
Proof. vm_compute. repeat split. Qed.

(** memory_patch counts occurrences that do not overlap: a text that occurs
    twice, overlapping itself, passes as one that occurs once. *)
Example overlapping_counts_once :
  Count (bs "aaa") (bs "aa") = 1 /\ bs "aaa" = bs "" ++ bs "aa" ++ bs "a" /\ bs "aaa" = bs "a" ++ bs "aa" ++ bs "".
Proof. repeat split. Qed.
