(* ===== verification/ToolSet.v ===== *)
(** * The tool set: how [Tools] checks its options, and what every tool obeys

    The configurations [Tools] accepts, the entries a tool can write and the
    writers' guard, over every store with the laws and every interleaving. *)

From S2P Require Import Prelude GoStd Sha256 Memory Store MemStore Contract Search Json JsonRead Manifest Calls Tools.

Section Only.
Context {S : Type} `{StoreLaws S} (search_of : S -> Searchable) (session : bytes).
Context {Label : Type}.
Implicit Types (t : toolset Label) (s : S).

Abbreviation runs := (runs search_of session).

(** ** Which entries a tool can write *)

(** Every write a program can make, given answers a store gives, is of an
    entry [P] holds of. *)
Fixpoint only {A} (P : ref -> Prop) (p : prog A) : Prop :=
  match p with
  | Ret _ => True
  | Vis e k => forall x s, ok_event search_of session s (seen e x) ->
                 (forall r, write_ref (seen e x) = Some r -> P r) /\ only P (k x)
  end.

Lemma runs_only {A} P (p : prog A) : forall tr a,
  only P p -> runs p tr a -> forall st r, st ∈ tr -> write_ref st.2 = Some r -> P r.
Proof.
  induction p as [a'|X e k IH]; intros tr a; cbn [only Calls.runs].
  { intros _ [-> _] st r Hin. by apply elem_of_nil in Hin. }
  intros Ho (s & x & tr' & -> & Hok & Hr) st r. destruct (Ho x s Hok) as [Hw Hk].
  intros [->|Hin]%elem_of_cons; [apply Hw|]. by eapply IH.
Qed.

Lemma only_bind {A B} P (p : prog A) (f : A -> prog B) : only P p -> (forall a, only P (f a)) -> only P (bind p f).
Proof.
  intros Hp Hf. induction p as [a|X e k IH]; cbn [only bind] in *; [done|].
  intros x s Hok. destruct (Hp x s Hok). auto.
Qed.

Lemma scope_in t sc0 sc : scope t sc0 = Ok sc -> sc ∈ tScopes t.
Proof.
  unfold scope, Contains. case_bool_decide.
  - destruct (tScopes t) as [|? [|? ?]]; try done. intros [= ->]. left.
  - case_bool_decide; [by intros [= <-]|]. by case_bool_decide.
Qed.

Lemma save_only t ctx a :
  only (fun r => r.1 ∈ tScopes t /\ (fixed_names t r.1 = [] \/ r.2 ∈ fixed_names t r.1)) (save t ctx a).
Proof.
  unfold save. destruct (scope t _) as [sc|] eqn:Es; [|done]. apply scope_in in Es.
  unfold fixedSave. destruct (bool_decide _ || _) eqn:Ef; [|done].
  assert (Hf : fixed_names t sc = [] \/ saName a ∈ fixed_names t sc).
  { apply orb_true_iff in Ef as [Ef%bool_decide_eq_true|Ef%bool_decide_eq_true]; auto. }
  intros g s _. split; [done|]. destruct (stored_of g) as [stored|]; [|done].
  apply only_bind. { unfold shown, rendered. destruct ctx; [done|]. by destruct (toRendered _). }
  intros fb. apply only_bind; [|by intros [[[? ?] ?]|]].
  generalize (save_base fb stored). intros base. revert stored.
  induction (patchAttempts - 1)%nat as [|n IH]; intros stored; cbn [save_loop]; destruct (save_attempt sc a base stored) as [e opts] eqn:Ea;
    (intros p s' _; split; [intros r [= <-]; unfold save_attempt in Ea; unfold entry_ref;
       destruct stored, (saMeta a); injection Ea as <- <-; exact (conj Es Hf)|]).
  - by destruct p.
  - destruct p; [done|].
    destruct (negb _ || negb _); [exact I|].
    intros g' s'' _. split; [done|]. destruct (stored_of g'); [apply IH|done].
Qed.

Lemma patch_only t ctx a : only (fun r => r.1 ∈ tScopes t) (patch t ctx a).
Proof.
  unfold patch. destruct (scope t _) as [sc|] eqn:Es; [|done]. apply scope_in in Es.
  case_bool_decide; [done|]. generalize (@None error). induction patchAttempts as [|n IH]; intros last; cbn [patch_loop]; [done|].
  intros g s Hg. split; [done|]. destruct g as [cur|err]; [|by destruct (wraps err)].
  apply event_get in Hg as [Hg Hr]. symmetry in Hr. destruct (good_get s _ _ _ Hg Hr) as (_ & _ & Hsc & _).
  destruct (_ =? 0); [done|]. destruct (1 <? _); [done|]. intros p s' _. split.
  - intros r [= <-]. cbn. by rewrite Hsc.
  - destruct p as [|err]; [done|]. by destruct (wraps err).
Qed.

Lemma forget_only t ctx a :
  only (fun r => r.1 ∈ tScopes t /\ r.2 ∉ fixed_names t r.1) (forget t ctx a).
Proof.
  unfold forget. destruct (scope t _) as [sc|] eqn:Es; [|done]. apply scope_in in Es.
  unfold fixedForget, Contains. case_bool_decide; [done|]. intros r s _. split; [|by destruct r].
  by intros ? [= <-].
Qed.

Lemma insert_only t ctx a : only (fun r => r.1 ∈ toInsert (tOpts t)) (insertEntry t ctx a).
Proof.
  unfold insertEntry. destruct (insertScope t _) as [sc|] eqn:Es; [|done].
  assert (Hin : sc ∈ toInsert (tOpts t)).
  { unfold insertScope, Contains in Es. case_bool_decide.
    - destruct (toInsert (tOpts t)) as [|? [|? ?]]; try done. injection Es as ->. left.
    - case_bool_decide; [by injection Es as <-|]. by case_bool_decide. }
  intros at_ s _. split; [done|]. generalize (@None error) 1.
  induction insertAttempts as [|n IH]; intros last k; cbn [insert_loop]; [done|].
  intros p s' _. split; [by intros r [= <-]|]. destruct p as [|err]; [done|]. by destruct (wraps err).
Qed.
End Only.


(** ** The configurations [Tools] takes *)

Record config_ok {Label} (scopes : list bytes) (o : toolOptions Label) : Prop := {
  cf_some : scopes <> [];
  cf_scopes : Forall name_spec scopes /\ NoDup scopes;
  cf_read : Forall name_spec (toReadScopes o) /\ NoDup (toReadScopes o);
  cf_disjoint : forall s, s ∈ toReadScopes o -> s ∉ scopes;
  cf_fixed : forall s ns, toFixed o !! s = Some ns -> s ∈ scopes /\ ns <> [] /\ Forall name_spec ns /\ NoDup ns;
  cf_insert : NoDup (toInsert o) /\ forall s, s ∈ toInsert o -> s ∈ scopes /\ toFixed o !! s = None
}.

(** A loop that refuses what is not [Q] and what came before. *)
Lemma each_distinct {A E} (f : list A -> A -> option E) (Q : A -> Prop) :
  (forall before x, f before x = None <-> Q x /\ x ∉ before) ->
  forall l before, each f before l = None <-> Forall Q l /\ NoDup l /\ forall x, x ∈ l -> x ∉ before.
Proof.
  intros Hf l. induction l as [|x l IH]; intros before; cbn [each].
  { split; [|done]. intros _. split_and!; [constructor|constructor|]. intros x Hx. by apply elem_of_nil in Hx. }
  rewrite Forall_cons, NoDup_cons. pose proof (Hf before x) as Hx. destruct (f before x) as [e|].
  { split; [done|]. intros ([Hq _] & _ & Hb). apply Hx. split; [done|]. apply Hb. left. }
  rewrite IH. destruct Hx as [Hx _]. destruct (Hx eq_refl) as [Hq Hn]. split.
  - intros (HQ & Hnd & Hb). split_and!; try done.
    + intros Hin. apply (Hb x Hin). apply elem_of_app. right. left.
    + intros y [->|Hy]%elem_of_cons; [done|]. intros Hbe. apply (Hb y Hy). apply elem_of_app. by left.
  - intros ([_ HQ] & [Hxl Hnd] & Hb). split_and!; try done.
    intros y Hy [Hbe|Hbe%list_elem_of_singleton]%elem_of_app; [|congruence]. apply (Hb y); [by right|done].
Qed.

Lemma each_all {A E} (f : list A -> A -> option E) (Q : A -> Prop) :
  (forall before x, f before x = None <-> Q x) -> forall l before, each f before l = None <-> Forall Q l.
Proof.
  intros Hf l. induction l as [|x l IH]; intros before; cbn [each]; [by split|].
  rewrite Forall_cons. pose proof (Hf before x) as Hx. destruct (f before x); [|rewrite IH]; naive_solver.
Qed.

Lemma check_writable_None scopes : check_writable scopes = None <-> Forall name_spec scopes /\ NoDup scopes.
Proof.
  unfold check_writable. rewrite (each_distinct _ name_spec).
  - set_solver.
  - intros before x. rewrite <- ValidName_iff. unfold ValidScope, Contains.
    destruct (ValidName x); cbn; [|naive_solver]. case_bool_decide; naive_solver.
Qed.

Lemma check_read_None scopes l :
  check_read scopes l = None <-> Forall name_spec l /\ NoDup l /\ forall s, s ∈ l -> s ∉ scopes.
Proof.
  unfold check_read. rewrite (each_distinct _ (fun s => name_spec s /\ s ∉ scopes)).
  - rewrite Forall_and, (Forall_forall (fun s => s ∉ scopes)). set_solver.
  - intros before x. rewrite <- ValidName_iff. unfold ValidScope, Contains.
    destruct (ValidName x); cbn; [|naive_solver]. repeat case_bool_decide; naive_solver.
Qed.

Lemma check_fixed_names_None l : check_fixed_names l = None <-> Forall name_spec l /\ NoDup l.
Proof.
  unfold check_fixed_names. rewrite (each_distinct _ name_spec).
  - set_solver.
  - intros before x. rewrite <- ValidName_iff. unfold Contains.
    destruct (ValidName x); cbn; [|naive_solver]. case_bool_decide; naive_solver.
Qed.

Lemma check_fixed_None scopes l :
  check_fixed scopes l = None
  <-> Forall (fun sn => sn.1 ∈ scopes /\ sn.2 <> [] /\ Forall name_spec sn.2 /\ NoDup sn.2) l.
Proof.
  unfold check_fixed. apply each_all. intros _ [s ns]. cbn [fst snd]. rewrite <- check_fixed_names_None.
  unfold Contains. repeat case_bool_decide; naive_solver.
Qed.

Lemma check_insert_None scopes fixed l :
  (forall s ns, fixed !! s = Some ns -> ns <> []) ->
  check_insert scopes fixed l = None <-> NoDup l /\ forall s, s ∈ l -> s ∈ scopes /\ fixed !! s = None.
Proof.
  intros Hf. unfold check_insert. rewrite (each_distinct _ (fun s => s ∈ scopes /\ fixed !! s = None)).
  - rewrite Forall_forall. set_solver.
  - intros before x. unfold Contains. specialize (Hf x). destruct (fixed !! x) as [ns|]; cbn;
      repeat case_bool_decide; naive_solver.
Qed.

Section ToolSet.
Context {Label : Type} (LabelUntrusted : Label) (is_print : bytes -> bool)
  (Reflect : bytes -> Schema) (ValidateJSON : Schema -> option json -> option bytes)
  (decode_save : option json -> res bytes saveArgs) (decode_patch : option json -> res bytes patchArgs)
  (decode_forget : option json -> res bytes forgetArgs) (decode_search : option json -> res bytes searchArgs)
  (decode_insert : option json -> res bytes insertArgs).

Abbreviation Tools := (Tools LabelUntrusted is_print Reflect ValidateJSON decode_save decode_patch decode_forget
  decode_search decode_insert).
Abbreviation make_tools := (make_tools LabelUntrusted is_print Reflect ValidateJSON decode_save decode_patch
  decode_forget decode_search decode_insert).

(** The options a call of [Tools] sets. *)
Definition options_of (options : list (ToolOption Label)) : toolOptions Label :=
  fold_left (fun o opt => opt o) options default_options.

Lemma new_toolset_Ok max support scopes options :
  (exists t, new_toolset max support scopes options = Ok t) <-> config_ok scopes (options_of options).
Proof.
  unfold new_toolset, check_options. fold (options_of options). set (o := options_of options).
  pose proof (check_writable_None scopes) as Hw. pose proof (check_read_None scopes (toReadScopes o)) as Hr.
  pose proof (check_fixed_None scopes (map_to_list (toFixed o))) as Hf.
  assert (Hf' : check_fixed scopes (map_to_list (toFixed o)) = None <->
    forall s ns, toFixed o !! s = Some ns -> s ∈ scopes /\ ns <> [] /\ Forall name_spec ns /\ NoDup ns).
  { rewrite Hf, Forall_forall. split.
    - intros Hx s ns Hs. apply (Hx (s, ns)). by apply elem_of_map_to_list.
    - intros Hx [s ns] Hs%elem_of_map_to_list. by apply Hx. }
  clear Hf. split.
  - intros [t Ht]. destruct (bool_decide_reflect (scopes = [])); [done|].
    destruct (check_writable scopes); [done|]. destruct (check_read scopes _); [done|].
    destruct (check_fixed scopes _); [done|]. destruct (check_insert scopes _ _) eqn:Ei; [done|].
    apply check_insert_None in Ei. 2: { intros s ns Hs. by apply Hf' in Hs as (_ & ? & _). }
    destruct Hw as [Hw _], Hr as [Hr _], Hf' as [Hf _]. destruct (Hr eq_refl) as (? & ? & ?).
    split; auto.
  - intros [Hs Hsc Hrd Hd Hfx Hin]. rewrite bool_decide_eq_false_2 by done.
    rewrite (proj2 Hw) by done. rewrite (proj2 Hr) by (split_and!; [apply Hrd|apply Hrd|done]).
    assert (Hne : forall s ns, toFixed o !! s = Some ns -> ns <> []) by (intros s ns Hl; by apply Hfx in Hl as (_ & ? & _)).
    rewrite (proj2 Hf') by done. rewrite (proj2 (check_insert_None scopes (toFixed o) (toInsert o) Hne)) by done. eauto.
Qed.

(** [Tools] panics exactly when a precondition its options state is
    broken: a scope list that is empty, repeats a scope or names one that is
    not kebab-case; read scopes that do, or that are writable too; fixed
    names, none, repeated or not kebab-case, or of a scope that is not
    writable; or insert scopes repeated, not writable, or with fixed names.
    Otherwise it makes the four tools, and memory_insert last when a scope
    takes inserts; the writers are the ones [WriteTools] names. *)
Theorem Tools_verdict max support scopes options :
  ((exists ts, Tools max support scopes options = Ok ts) <-> config_ok scopes (options_of options))
  /\ forall ts, Tools max support scopes options = Ok ts ->
     tlName <$> ts = [SaveTool; PatchTool; ForgetTool; SearchTool]
                     ++ (if bool_decide (toInsert (options_of options) = []) then [] else [InsertTool])
     /\ forall tl, tl ∈ ts -> tlName tl ∈ WriteTools <-> anReadOnly (tlAnnotations tl) = false.
Proof.
  rewrite <- (new_toolset_Ok max support). unfold Tools.
  assert (Ho : forall t, new_toolset max support scopes options = Ok t -> toInsert (tOpts t) = toInsert (options_of options)).
  { intros t. unfold new_toolset. destruct (if bool_decide _ then _ else _); [done|].
    destruct (check_options _ _ _); [done|]. by intros [= <-]. }
  destruct (new_toolset max support scopes options) as [t|p]; cbn [res_bind].
  - split; [split; eauto|]. intros ts [= <-]. rewrite <- (Ho t eq_refl). unfold make_tools. cbn [fmap list_fmap app].
    case_bool_decide; (split; [done|]); intros tl Htl; rewrite !elem_of_cons, elem_of_nil in Htl;
      [destruct Htl as [-> | [-> | [-> | [-> |[]]]]]|destruct Htl as [-> | [-> | [-> | [-> | [-> |[]]]]]]];
      cbn [tool tlName tlAnnotations anReadOnly]; (split; [intros Hin|intros E]); try done; set_solver.
  - split; [split; by intros [? [=]]|done].
Qed.

(** The toolset behind the tools. *)
Lemma Tools_toolset max support scopes options ts :
  Tools max support scopes options = Ok ts ->
  config_ok scopes (options_of options) /\ exists t, ts = make_tools t /\ tScopes t = scopes
    /\ toReadScopes (tOpts t) = toReadScopes (options_of options)
    /\ toFixed (tOpts t) = toFixed (options_of options)
    /\ toInsert (tOpts t) = toInsert (options_of options)
    /\ toRendered (tOpts t) = toRendered (options_of options).
Proof.
  intros Hts. unfold Tools in Hts. pose proof (new_toolset_Ok max support scopes options) as Hc.
  destruct (new_toolset max support scopes options) as [t|p] eqn:Et; [|done]. injection Hts as <-.
  split; [apply Hc; eauto|]. exists t. split; [done|]. unfold new_toolset in Et.
  destruct (if bool_decide _ then _ else _); [done|]. destruct (check_options _ _ _); [done|].
  injection Et as <-. done.
Qed.

Section Guards.
Context {S : Type} `{StoreLaws S} (search_of : S -> Searchable) (session : bytes).

Abbreviation exec := (exec search_of session).
Abbreviation runs := (runs search_of session).
Abbreviation only := (ToolSet.only search_of session).
Implicit Types (t : toolset Label) (s : S).

Lemma guarded_only {Args} P schema readOnly (decode : option json -> res bytes Args) fn args ctx :
  (forall c a, only P (fn c a)) -> only P (guarded ValidateJSON schema readOnly decode fn args ctx).
Proof.
  intros Hf. unfold guarded. destruct (refuseReadOnly _ _); [done|]. destruct (ValidateJSON _ _); [done|].
  by destruct (decode args).
Qed.

Lemma tool_only {Args} P (t : toolset Label) name desc (decode : option json -> res bytes Args) fn scopes readOnly refuse an replay reads drop args :
  refuse = None \/ refuse = Some (read t) -> (forall c a, only P (fn c a)) ->
  only P (tlCall (Label:=Label) (tool Reflect ValidateJSON name desc decode fn scopes readOnly refuse an replay reads drop) args).
Proof.
  intros [-> | ->] Hf; cbn [tool tlCall]; [by apply guarded_only|]. apply only_bind.
  - unfold read. destruct (toRendered _); [|done]. intros m s _. split; [done|]. by destruct (Dropped m).
  - intros [ctx|err]; [by apply guarded_only|done].
Qed.

Lemma search_only P t a : only P (search is_print t a).
Proof.
  unfold search. case_bool_decide; [done|]. destruct (if bool_decide _ then _ else _); [|done].
  destruct (time_bound _ _); [|done]. destruct (time_bound _ _); [|done].
  intros r s _. split; [done|]. destruct r; [|done]. by case_bool_decide.
Qed.

(** What a tool may write, by its name. *)
Definition may_write (scopes : list bytes) (o : toolOptions Label) (name : bytes) (r : ref) : Prop :=
  name ∈ WriteTools /\ r.1 ∈ scopes /\ r.1 ∉ toReadScopes o
  /\ (name = SaveTool -> forall ns, toFixed o !! r.1 = Some ns -> r.2 ∈ ns)
  /\ (name = ForgetTool -> forall ns, toFixed o !! r.1 = Some ns -> r.2 ∉ ns)
  /\ (name = InsertTool -> r.1 ∈ toInsert o /\ toFixed o !! r.1 = None).

Lemma only_weaken {A} (P Q : ref -> Prop) (p : prog A) : (forall r, P r -> Q r) -> only P p -> only Q p.
Proof.
  intros HPQ. induction p as [a|X e k IH]; cbn [ToolSet.only]; [done|].
  intros Ho x s Hok. destruct (Ho x s Hok). split; auto.
Qed.

Lemma make_tools_only t o scopes tl args :
  config_ok scopes o -> tScopes t = scopes -> toReadScopes (tOpts t) = toReadScopes o ->
  toFixed (tOpts t) = toFixed o -> toInsert (tOpts t) = toInsert o -> tl ∈ make_tools t ->
  only (may_write scopes o (tlName tl)) (tlCall tl args).
Proof.
  intros Hc Hs Hr Hf Hi Htl. assert (Hd : forall sc, sc ∈ scopes -> sc ∉ toReadScopes o).
  { intros sc Hsc Hrd. by destruct (cf_disjoint _ _ Hc sc Hrd). }
  assert (Hfn : forall sc ns, toFixed o !! sc = Some ns -> fixed_names t sc = ns /\ ns <> []).
  { intros sc ns Hl. unfold fixed_names. rewrite Hf, Hl. split; [done|]. by apply (cf_fixed _ _ Hc sc ns). }
  unfold make_tools in Htl. apply elem_of_app in Htl as [Htl|Htl].
  - rewrite !elem_of_cons, elem_of_nil in Htl. destruct Htl as [-> | [-> | [-> | [-> |[]]]]]; cbn [tool tlName].
    + apply (tool_only _ t); [by right|]. intros c a. eapply only_weaken, save_only. rewrite Hs.
      intros r [Hin Hfx]. unfold may_write. split_and!; try done; [set_solver|auto|].
      intros _ ns Hl. destruct (Hfn _ _ Hl) as [E Hne]. rewrite E in Hfx. naive_solver.
    + apply (tool_only _ t); [by right|]. intros c a. eapply only_weaken, patch_only. rewrite Hs.
      intros r Hin. unfold may_write. split_and!; try done; [set_solver|auto].
    + apply (tool_only _ t); [by right|]. intros c a. eapply only_weaken, forget_only. rewrite Hs.
      intros r [Hin Hfx]. unfold may_write. split_and!; try done; [set_solver|auto|].
      intros _ ns Hl. destruct (Hfn _ _ Hl) as [E _]. by rewrite E in Hfx.
    + apply (tool_only _ t); [by left|]. intros c a. apply search_only.
  - case_bool_decide; [by apply elem_of_nil in Htl|]. apply list_elem_of_singleton in Htl as ->. cbn [tool tlName].
    apply (tool_only _ t); [by right|]. intros c a. eapply only_weaken, insert_only. rewrite Hi.
    intros r Hin. destruct (proj2 (cf_insert _ _ Hc) _ Hin) as [Hsc Hno].
    unfold may_write. split_and!; try done; [set_solver|auto].
Qed.

(** C29: A tool writes only what the product allows it. Whatever the
    arguments and whatever other sessions do, every write a tool of a set
    [Tools] made attempts is by a writer, in a scope passed to [Tools] and
    not a read scope; memory_save writes no name a scope's fixed names leave
    out, memory_forget none of them, memory_insert only in a scope that
    takes inserts; memory_search writes nothing. *)
Theorem tools_confined max support scopes options ts tl args env s :
  Tools max support scopes options = Ok ts -> tl ∈ ts -> good s -> env_ok env ->
  let '(_, _, tr) := exec (tlCall tl args) env s in
  forall st r, st ∈ tr -> write_ref st.2 = Some r -> may_write scopes (options_of options) (tlName tl) r.
Proof.
  intros Hts Htl Hg He. destruct (exec_runs search_of session (tlCall tl args) env s Hg He) as [_ Hr].
  destruct (exec _ env s) as [[s' r] tr]. cbn [fst snd] in Hr.
  apply Tools_toolset in Hts as (Hc & t & -> & Hs & Hrd & Hf & Hi & _).
  intros st ref. by apply (runs_only search_of session _ (tlCall tl args) tr r), Hr; apply (make_tools_only t).
Qed.

(** ** The writers' guard *)

(** What a program can return, whatever it is answered. *)
Fixpoint ends {A} (Q : A -> Prop) (p : prog A) : Prop :=
  match p with
  | Ret a => Q a
  | Vis e k => forall x, ends Q (k x)
  end.

Lemma prog_ends_bind {A B} (Q : B -> Prop) (p : prog A) (f : A -> prog B) :
  ends (fun a => ends Q (f a)) p -> ends Q (bind p f).
Proof. induction p as [a|X e k IH]; cbn; auto. Qed.

Lemma ends_all {A} (Q : A -> Prop) (p : prog A) : (forall a, Q a) -> ends Q p.
Proof. intros HQ. induction p as [a|X e k IH]; cbn; auto. Qed.

Lemma exec_ends {A} Q (p : prog A) : forall env s, ends Q p -> Q (exec p env s).1.2.
Proof.
  induction p as [a|X e k IH]; intros env s; cbn [ends Calls.exec]; [done|]. intros Hk.
  destruct (answer _ _ _ _ _) as [s2 x]. specialize (IH x (fun i => env (Datatypes.S i)) s2 (Hk x)).
  by destruct (Calls.exec _ _ (k x) _ s2) as [[s3 a] tr].
Qed.

Definition not_dropped (r : res terror Result) : Prop := r <> Err ErrBlockDropped.

Lemma scope_not_dropped t sc : scope t sc <> Err ErrBlockDropped.
Proof. unfold scope. split_cases; done. Qed.

(** A program that ends in a match on a result ends so on every branch. *)
Ltac ends_cases :=
  repeat match goal with
  | |- ends _ (Vis _ _) => intros ?
  | |- ends _ (Ret _) => discriminate
  | |- ends _ (if ?b then _ else _) => destruct b
  | |- ends _ (match ?x with _ => _ end) => destruct x eqn:?
  end.

Lemma save_ends t ctx a : ends not_dropped (save t ctx a).
Proof.
  unfold save. pose proof (scope_not_dropped t (saScope a)) as Hs.
  destruct (scope t _) as [sc|err]; [|cbn; congruence].
  unfold fixedSave. destruct (_ || _); [|done]. intros g. destruct (stored_of g) as [stored|]; [|done].
  apply prog_ends_bind, ends_all. intros fb. apply prog_ends_bind. generalize (save_base fb stored). intros base.
  revert stored. induction (patchAttempts - 1)%nat as [|n IH]; intros stored; cbn [save_loop];
    destruct (save_attempt _ _ _ _); intros r; (destruct r; [done|]); [done|].
  destruct (_ || _); [done|]. intros g'. by destruct (stored_of g').
Qed.

Lemma patch_ends t ctx a : ends not_dropped (patch t ctx a).
Proof.
  unfold patch. pose proof (scope_not_dropped t (paScope a)) as Hs.
  destruct (scope t _) as [sc|err]; [|cbn; congruence]. case_bool_decide; [done|].
  generalize (@None error). induction patchAttempts as [|n IH]; intros last; cbn [patch_loop]; [done|].
  ends_cases; apply IH.
Qed.

Lemma forget_ends t ctx a : ends not_dropped (forget t ctx a).
Proof.
  unfold forget. pose proof (scope_not_dropped t (faScope a)) as Hs.
  destruct (scope t _) as [sc|err]; [|cbn; congruence]. unfold fixedForget. destruct (Contains _ _); ends_cases.
Qed.

Lemma insert_ends t ctx a : ends not_dropped (insertEntry t ctx a).
Proof.
  unfold insertEntry, insertScope. destruct (if bool_decide _ then _ else _) as [sc|err] eqn:Es.
  - intros at_. generalize (@None error) 1. induction insertAttempts as [|n IH]; intros last k; cbn [insert_loop]; [done|].
    ends_cases; apply IH.
  - cbn. intros [= ->]. split_cases.
Qed.

Lemma read_scopes_not_dropped t l : read_scopes t l <> Err ErrBlockDropped.
Proof.
  induction l as [|sc l IH]; cbn [read_scopes]; [done|]. unfold readScope. case_match; cbn; [|done].
  destruct (read_scopes t l); cbn; [done|]. congruence.
Qed.

Lemma search_ends t a : ends not_dropped (search is_print t a).
Proof.
  unfold search. case_bool_decide; [done|]. pose proof (read_scopes_not_dropped t (qaScopes a)) as Hs.
  destruct (if bool_decide _ then _ else _) as [scopes|err] eqn:Es.
  2: { cbn. intros [= ->]. case_bool_decide; done. }
  unfold time_bound. ends_cases; simplify_eq; split_cases; discriminate.
Qed.
Lemma guarded_ends {Args} schema readOnly (decode : option json -> res bytes Args) fn args ctx :
  (forall c a, ends not_dropped (fn c a)) -> ends not_dropped (guarded ValidateJSON schema readOnly decode fn args ctx).
Proof.
  intros Hf. unfold guarded, refuseReadOnly. ends_cases; simplify_eq; split_cases; try discriminate; apply Hf.
Qed.

(** What the guard of a writer does, and that a tool without one never
    refuses for a dropped block. *)
Lemma tool_guard {Args} (t : toolset Label) name desc (decode : option json -> res bytes Args) fn scopes readOnly
    refuse an replay reads drop args env s :
  refuse = None \/ refuse = Some (read t) -> (forall c a, ends not_dropped (fn c a)) ->
  let m := moManifest (env O) in
  let '(_, r, tr) := exec (tlCall (Label:=Label) (tool Reflect ValidateJSON name desc decode fn scopes readOnly
                        refuse an replay reads drop) args) env s in
  (r = Err ErrBlockDropped <-> is_Some refuse /\ toRendered (tOpts t) = true /\ Dropped m = true)
  /\ (r = Err ErrBlockDropped -> exists s1, tr = [(s1, TRendered m)]).
Proof.
  intros Hrf Hf m. set (schema := scopeSchema (Reflect name) scopes drop).
  assert (Hg : forall ctx env s, (exec (guarded ValidateJSON schema readOnly decode fn args ctx) env s).1.2 <> Err ErrBlockDropped).
  { intros ctx env' s'. apply exec_ends, guarded_ends, Hf. }
  destruct Hrf as [-> | ->]; cbn [tool tlCall].
  - fold schema. specialize (Hg None env s). destruct (exec _ env s) as [[s' r] tr]. cbn [fst snd] in Hg.
    split; [|done]. split; [done|]. by intros [[? [=]] _].
  - unfold read. fold schema. destruct (toRendered (tOpts t)); cbn [bind].
    + cbn [Calls.exec answer]. fold m. destruct (Dropped m); cbn [bind].
      * cbn [Calls.exec]. split; [|eauto]. split; [eauto|done].
      * specialize (Hg (Some m) (fun i => env (Datatypes.S i)) (run s (moOthers (env O))).1).
        destruct (exec _ _ _) as [[s' r] tr]. cbn [fst snd] in Hg. split; [|done]. split; [done|]. by intros (_ & _ & [=]).
    + specialize (Hg None env s). destruct (exec _ env s) as [[s' r] tr]. cbn [fst snd] in Hg.
      split; [|done]. split; [done|]. by intros (_ & [=] & _).
Qed.

(** C30: The refusal of a write composed from a block that was not shown.
    Whatever the arguments, a tool refuses a call with [ErrBlockDropped]
    exactly when the product gives the manifest it rendered and [CheckWrite]
    refuses the tool on it, so where the product decides a call and where it
    runs agree; a call so refused read the manifest and did nothing else;
    memory_search is never refused so. *)
Theorem drop_guard max support scopes options ts tl args env s :
  Tools max support scopes options = Ok ts -> tl ∈ ts ->
  let m := moManifest (env O) in
  let '(_, r, tr) := exec (tlCall tl args) env s in
  (r = Err ErrBlockDropped
   <-> toRendered (options_of options) = true /\ CheckWrite m (tlName tl) = Some ErrBlockDropped)
  /\ (r = Err ErrBlockDropped -> exists s1, tr = [(s1, TRendered m)]).
Proof.
  intros Hts Htl m. apply Tools_toolset in Hts as (_ & t & -> & _ & _ & _ & _ & Hrd). rewrite <- Hrd.
  assert (Hcw : forall name, name ∈ WriteTools -> CheckWrite m name = Some ErrBlockDropped <-> Dropped m = true).
  { intros name Hn. unfold CheckWrite, Contains. rewrite bool_decide_eq_true_2, andb_true_r by done. by destruct (Dropped m). }
  assert (Hsr : CheckWrite m SearchTool = None) by (unfold CheckWrite; by rewrite andb_false_r).
  assert (Hsome : is_Some (Some (read t))) by eauto.
  unfold make_tools in Htl. apply elem_of_app in Htl as [Htl|Htl].
  - rewrite !elem_of_cons, elem_of_nil in Htl. destruct Htl as [-> | [-> | [-> | [-> |[]]]]].
    + pose proof (tool_guard t SaveTool (saveDescription is_print t) decode_save (save t) (tScopes t)
        (toReadScopes (tOpts t)) _ (MkAnnotations (bs "Save memory entry") false true) ReplayUnknown None [] args env s
        (or_intror eq_refl) (save_ends t)) as Hg.
      cbv zeta in Hg. fold m in Hg. destruct (exec _ env s) as [[s' r] tr]. cbn [tool tlName]. rewrite Hcw by set_solver. tauto.
    + pose proof (tool_guard t PatchTool (patchDescription is_print t) decode_patch (patch t) (tScopes t)
        (toReadScopes (tOpts t)) _ (MkAnnotations (bs "Edit memory entry") false false) ReplayUnknown None [] args env s
        (or_intror eq_refl) (patch_ends t)) as Hg.
      cbv zeta in Hg. fold m in Hg. destruct (exec _ env s) as [[s' r] tr]. cbn [tool tlName]. rewrite Hcw by set_solver. tauto.
    + pose proof (tool_guard t ForgetTool (forgetDescription is_print t) decode_forget (forget t) (tScopes t)
        (toReadScopes (tOpts t)) _ (MkAnnotations (bs "Forget memory entry") false true) ReplayUnknown None [] args env s
        (or_intror eq_refl) (forget_ends t)) as Hg.
      cbv zeta in Hg. fold m in Hg. destruct (exec _ env s) as [[s' r] tr]. cbn [tool tlName]. rewrite Hcw by set_solver. tauto.
    + pose proof (tool_guard t SearchTool (searchDescription t) decode_search (fun _ => search is_print t)
        (searchable t) [] None (MkAnnotations (bs "Search memory") true false) ReplaySafe
        (Some (searchReads LabelUntrusted t)) (unsupported t) args env s (or_introl eq_refl)
        (fun _ => search_ends t)) as Hg.
      cbv zeta in Hg. fold m in Hg. destruct (exec _ env s) as [[s' r] tr]. cbn [tool tlName]. rewrite Hsr. split; [|apply Hg].
      rewrite (proj1 Hg). split; [by intros [[? [=]] _]|by intros [_ [=]]].
  - case_bool_decide; [by apply elem_of_nil in Htl|]. apply list_elem_of_singleton in Htl as ->.
    pose proof (tool_guard t InsertTool (insertDescription t) decode_insert (insertEntry t) (toInsert (tOpts t))
      (toReadScopes (tOpts t)) _ (MkAnnotations (bs "Insert memory entry") false false) ReplayUnknown None [] args env s
      (or_intror eq_refl) (insert_ends t)) as Hg.
    cbv zeta in Hg. fold m in Hg. destruct (exec _ env s) as [[s' r] tr]. cbn [tool tlName]. rewrite Hcw by set_solver. tauto.
Qed.
End Guards.
End ToolSet.

(** ** Witnesses *)

Definition demo_dropped : Manifest := LeaveOut (MkManifest [MkManifestEntry (bs "user") (bs "style") (bs "h") 13 []] [] false).

Definition demo_env (m : Manifest) (i : nat) : moment := MkMoment [] (100 + Z.of_nat i) m.

Definition demo_search_of (m : MemStore) : Searchable := MkSearchable (mem_search id m) (Some (mem_search_with id m)).

(** Tools over "user", with "rules" read-only and inserts allowed; every call
    decodes to the same arguments. *)
Definition demo_opts : list (ToolOption unit) :=
  [WithReadScopes [bs "rules"]; WithRendered true; WithInsert [bs "user"]].

Definition demo_set : toolset unit :=
  match new_toolset 4096 AllSearchOptions [bs "user"] demo_opts with
  | Ok t => t
  | Err _ => MkToolset [] default_options 0 []
  end.

Abbreviation with_demo f := (f tt (fun _ => true) (fun _ => MkSchema [] []) (fun _ _ => None)
  (fun _ => Ok (MkSaveArgs [] (bs "style") (bs "Plain.") None))
  (fun _ => Ok (MkPatchArgs [] (bs "style") (bs "Long") (bs "Brief"))) (fun _ => Ok (MkForgetArgs [] (bs "style")))
  (fun _ => Ok (MkSearchArgs (bs "answers") [] 0 false None [] [])) (fun _ => Ok (MkInsertArgs [] (bs "A fact.") None))).

Definition demo_tools : list (Tool unit) := with_demo make_tools demo_set.

Definition demo_tool : Tool unit :=
  default (MkTool [] [] (MkSchema [] []) (MkAnnotations [] false false) ReplayUnknown None (fun _ => Ret (Err QueryEmpty)))
    (head demo_tools).

Lemma demo_tools_made : with_demo Tools 4096 AllSearchOptions [bs "user"] demo_opts = Ok demo_tools.
Proof.
  unfold Tools. assert (E : new_toolset 4096 AllSearchOptions [bs "user"] demo_opts = Ok demo_set) by (vm_compute; reflexivity).
  rewrite E. reflexivity.
Qed.

Lemma demo_tool_elem : demo_tool ∈ demo_tools.
Proof. unfold demo_tool, demo_tools, make_tools. left. Qed.

Lemma demo_store_good : good demo.
Proof. split; [apply demo_ok|]. exact demo_reachable. Qed.

Lemma demo_env_ok m : env_ok (demo_env m).
Proof. intros i. constructor. Qed.

Lemma tools_confined_witness :
  demo_tool ∈ demo_tools /\ good demo /\ env_ok (demo_env empty_manifest)
  /\ may_write [bs "user"] (options_of demo_opts) (tlName demo_tool) (bs "user", bs "style").
Proof.
  split; [exact demo_tool_elem|]. split; [exact demo_store_good|]. split; [apply demo_env_ok|].
  pose proof (with_demo tools_confined demo_search_of (bs "s1") 4096 AllSearchOptions [bs "user"] demo_opts demo_tools
    demo_tool None (demo_env empty_manifest) demo demo_tools_made demo_tool_elem demo_store_good (demo_env_ok _)) as P.
  assert (E : match last (exec demo_search_of (bs "s1") (tlCall demo_tool None) (demo_env empty_manifest) demo).2 with
              | Some (_, t) => write_ref t | None => None end = Some (bs "user", bs "style")) by (vm_compute; reflexivity).
  destruct (exec _ _ _ _ _) as [[s' r] tr]. cbn [snd] in E. destruct (last tr) as [[s1 t]|] eqn:El; [|discriminate].
  apply (P (s1, t)); [|exact E]. by apply last_Some_elem_of.
Defined.

Lemma drop_guard_witness :
  demo_tool ∈ demo_tools
  /\ (exec demo_search_of (bs "s1") (tlCall demo_tool None) (demo_env demo_dropped) demo).1.2 = Err ErrBlockDropped.
Proof.
  split; [exact demo_tool_elem|].
  pose proof (with_demo drop_guard demo_search_of (bs "s1") 4096 AllSearchOptions [bs "user"] demo_opts demo_tools
    demo_tool None (demo_env demo_dropped) demo demo_tools_made demo_tool_elem) as P.
  cbv zeta in P. destruct (exec _ _ _ _ _) as [[s' r] tr]. cbn [fst snd].
  apply P. split; vm_compute; reflexivity.
Defined.
