(* ===== verification/ToolNames.v ===== *)
(** * The names memory_insert gives: [InsertName] (tools.go)

    They are names a store takes, and the ones of a later second sort after
    the ones of an earlier second, which is the order the block renders. *)

From S2P Require Import Prelude GoStd GoTime Sha256 Memory Tools.

Lemma hex_digit_ok x : 0 <= x < 16 -> lower_or_digit (Sha256.hex_digit x) = true.
Proof.
  intros H. assert (Hall : forallb (fun n => lower_or_digit (Sha256.hex_digit (Z.of_nat n))) (seq 0 16) = true) by reflexivity.
  rewrite forallb_forall in Hall. replace x with (Z.of_nat (Z.to_nat x)) by lia. apply Hall. apply in_seq. lia.
Qed.

Lemma digest_bytes m : Forall (fun x => 0 <= x < 256) (Sha256.digest m).
Proof.
  assert (Hb : forall n x, Forall (fun x => 0 <= x < 256) (Sha256.be_bytes n x)).
  { intros n x. unfold Sha256.be_bytes. apply Forall_fmap, Forall_forall. intros i _. cbn.
    change 255 with (Z.ones 8). rewrite Z.land_ones by lia. apply Z.mod_pos_bound. lia. }
  unfold Sha256.digest. cbn [fmap list_fmap concat]. rewrite !Forall_app. auto 20.
Qed.

Lemma hex_ok l : Forall (fun x => 0 <= x < 256) l -> Forall (fun c => lower_or_digit c = true) (Sha256.hex l).
Proof.
  unfold Sha256.hex. induction 1 as [|x l Hx _ IH]; cbn [fmap list_fmap concat]; [constructor|].
  apply Forall_app. split; [|done]. repeat constructor; apply hex_digit_ok.
  - rewrite Z.shiftr_div_pow2 by lia. change (2 ^ 4) with 16. div_lia.
  - change 15 with (Z.ones 4). rewrite Z.land_ones by lia. apply Z.mod_pos_bound. lia.
Qed.

(** The first eight hexadecimal digits of a hash, its prefix trimmed. *)
Lemma hash_digits content :
  let h := take 8 (drop 7 (Hash content)) in length h = 8%nat /\ Forall (fun c => lower_or_digit c = true) h.
Proof.
  cbn. split.
  - rewrite length_take, length_drop, length_Hash. done.
  - apply Forall_take. unfold Hash. rewrite drop_app_length' by done. apply hex_ok, digest_bytes.
Qed.

Lemma digit_lower c : isDigit c = true -> lower_or_digit c = true.
Proof. unfold isDigit, lower_or_digit. intros ->. apply orb_true_r. Qed.

Lemma digits_length f n : (length (digits f n) <= f)%nat.
Proof. revert n. induction f as [|f IH]; intros n; cbn [digits]; [done|]. case_match; cbn; [lia|]. rewrite length_app. specialize (IH (n / 10)). cbn. lia. Qed.

(** The groups of a name. *)
Definition name_groups (at_ : Z) (content : bytes) (n : Z) (date time : bytes) : list bytes :=
  [date; time; take 8 (drop 7 (Hash content))] ++ (if 2 <=? n then [Itoa n] else []).

Lemma InsertName_join at_ content n date time :
  Format_compact at_ = date ++ bs "-" ++ time ->
  InsertName at_ content n = Join (bs "-") (name_groups at_ content n date time).
Proof.
  intros E. unfold InsertName, name_groups. rewrite E. destruct (2 <=? n); cbn [app Join]; by rewrite <- ?app_assoc, ?app_nil_r.
Qed.

(** [InsertName] makes names a store takes: for a time of the years 0 to
    9999 and each of the hundred attempts, the name is kebab-case and within
    the limit, whatever the content. *)
Theorem InsertName_valid at_ content n :
  0 <= cvYear (civil_of at_) < 10000 -> 1 <= n <= 100 -> ValidName (InsertName at_ content n) = true.
Proof.
  intros Hy Hn. destruct (Format_compact_split at_ Hy) as (date & time & E & Ld & Lt & Dd & Dt & _).
  destruct (hash_digits content) as [Lh Dh].
  assert (Hit : Forall (fun c => lower_or_digit c = true) (Itoa n) /\ Itoa n <> [] /\ (length (Itoa n) <= 7)%nat).
  { destruct (Itoa_nonneg n ltac:(lia)) as (Hd & Hne & _). split_and!; [|done|].
    - eapply Forall_impl; [exact Hd|]. apply digit_lower.
    - unfold Itoa. destruct (Z.ltb_spec n 0); [lia|]. cbn [app]. rewrite Z.abs_eq by lia.
      etransitivity; [apply digits_length|]. assert (Z.log2 n <= Z.log2 100) by (apply Z.log2_le_mono; lia).
      change (Z.log2 100) with 6 in *. pose proof (Z.log2_nonneg n). lia. }
  destruct Hit as (Di & Hine & Li). apply ValidName_iff. rewrite (InsertName_join _ _ _ _ _ E). split.
  - exists (name_groups at_ content n date time). split_and!; [done| |done].
    assert (Dd' : Forall (fun c => lower_or_digit c = true) date) by (eapply Forall_impl; [exact Dd|apply digit_lower]).
    assert (Dt' : Forall (fun c => lower_or_digit c = true) time) by (eapply Forall_impl; [exact Dt|apply digit_lower]).
    unfold name_groups. rewrite Forall_app, !Forall_cons. split_and!; try apply Forall_nil_2.
    + split; [by destruct date|done].
    + split; [by destruct time|done].
    + split; [|done]. intros Hnil. by rewrite Hnil in Lh.
    + destruct (2 <=? n); [|constructor]. by constructor.
  - rewrite <- (InsertName_join _ _ _ _ _ E). unfold InsertName, MaxNameBytes, blen. rewrite E, !length_app, Lh, Ld, Lt.
    change (length (bs "-")) with 1%nat. destruct (2 <=? n); rewrite ?length_app; change (length (bs "-")) with 1%nat; cbn [length]; lia.
Qed.

Lemma InsertName_valid_witness :
  0 <= cvYear (civil_of (Date (MkCivil 2026 11 2 19 44 0 0))) < 10000
  /\ ValidName (InsertName (Date (MkCivil 2026 11 2 19 44 0 0)) (bs "A fact.") 2) = true.
Proof.
  assert (Hy : 0 <= cvYear (civil_of (Date (MkCivil 2026 11 2 19 44 0 0))) < 10000) by (vm_compute; split; [discriminate|reflexivity]).
  split; [exact Hy|]. apply InsertName_valid; [exact Hy|lia].
Defined.

(** Names sort by time: of two inserts in different seconds of the years
    0 to 9999, whatever their contents and suffixes, the name of the earlier
    sorts before the name of the later in the byte order stores list in. *)
Theorem InsertName_sorts at1 at2 content1 content2 n1 n2 :
  0 <= cvYear (civil_of at1) < 10000 -> 0 <= cvYear (civil_of at2) < 10000 -> at1 / second < at2 / second ->
  bytes_compare (InsertName at1 content1 n1) (InsertName at2 content2 n2) = Lt.
Proof.
  intros H1 H2 Ht. destruct (Format_compact_mono at1 at2 H1 H2 Ht) as [Hl Hc].
  unfold InsertName. by apply bytes_compare_app_Lt.
Qed.

Lemma InsertName_sorts_witness :
  let t1 := Date (MkCivil 2026 1 31 23 59 59 0) in let t2 := Date (MkCivil 2026 2 1 0 0 0 0) in
  t1 / second < t2 / second
  /\ bytes_compare (InsertName t1 (bs "z") 9) (InsertName t2 (bs "a") 1) = Lt.
Proof.
  cbv zeta. assert (Ht : Date (MkCivil 2026 1 31 23 59 59 0) / second < Date (MkCivil 2026 2 1 0 0 0 0) / second) by (vm_compute; reflexivity).
  split; [exact Ht|]. apply InsertName_sorts; [vm_compute; split; [discriminate|reflexivity]..|exact Ht].
Defined.
